(** * redmine-wiki-exporter: the crawl pipeline, the link rewriter and the
    index builder, embedded in Rocq.

    Sources: [main.js] (Throttle, retryRequest, class Redmine, the export
    driver), [fix-links.js] (processMarkdownFile, walkDir) and
    [create-indexes.js] (findIndexCandidate, createProjectIndexes).

    Conventions of the embedding.
    - Time is an integer number of milliseconds ([Z]), as [Date.now()] gives
      it; the clock never goes back.  [setTimeout(cb, d)] arms a timer that
      is due at [now + d]; the runtime runs its callback when it sees fit,
      and a theorem that needs timers to be on time says so.
    - JavaScript closures that are stored and run later (throttle queue
      entries, timer callbacks, the rest of an [async] function after its
      [await]) are defunctionalised: one constructor per closure of the
      source, carrying what it captures.  The code after an [await] runs in
      the callback that resolves the promise.
    - The program is run by an explicit event loop over the armed timers and
      the requests in flight; the server is a function from a request and the
      number of the attempt to a reply and the time it takes.
    - HTTP requests are kept as data (which resource, which offset) instead
      of URL strings; a body carries what [JSON.parse] makes of it.
    - Strings are sequences of bytes ([string]), UTF-8 for text outside
      ASCII; the classes [.] and [\s] of regular expressions read the
      UTF-8 encoding of the characters they refuse or accept;
      [toLowerCase] is modelled on ASCII.
    - A regular expression of the source is a matching function written for
      that expression: greedy classes take their longest run, the lazy
      [.*?] its shortest. *)

From Stdlib Require Import ZArith Lia Bool Ascii String.
From stdpp Require Import base option list strings pretty gmap.
From Equations Require Import Equations.

Local Open Scope Z_scope.

(* ===================================================================== *)
(** * Part I: definitions *)
(* ===================================================================== *)

(** ** Throttle (main.js, lines 11-37) *)

Module Throttle.
Section WithTask.
Context {Task : Type}.

(** The fields of a [Throttle] object. *)
Record t := Build {
  minIntervalMs : Z;
  queue : list Task;
  lastTime : Z;
  active : bool
}.

(** [constructor(minIntervalMs)] *)
Definition new (m : Z) : t :=
  {| minIntervalMs := m; queue := []; lastTime := 0; active := false |}.

(** [process()], run at instant [now].  The second component is the
    delay handed to [setTimeout], when a timer is armed. *)
Definition process (now : Z) (th : t) : t * option Z :=
  if active th || (length (queue th) =? 0)%nat then (th, None)
  else
    let wait := Z.max 0 (minIntervalMs th - (now - lastTime th)) in
    ({| minIntervalMs := minIntervalMs th; queue := queue th;
        lastTime := lastTime th; active := true |}, Some wait).

(** [enqueue(fn)]: [this.queue.push(fn); this.process()]. *)
Definition enqueue (fn : Task) (now : Z) (th : t) : t * option Z :=
  process now {| minIntervalMs := minIntervalMs th;
                 queue := queue th ++ [fn];
                 lastTime := lastTime th; active := active th |}.

(** The timer callback up to the call of [fn]:
    [this.lastTime = Date.now(); const fn = this.queue.shift();].
    [shift()] on an empty array yields [undefined], rendered [None]. *)
Definition shift (now : Z) (th : t) : option Task * t :=
  match queue th with
  | [] => (None, {| minIntervalMs := minIntervalMs th; queue := [];
                    lastTime := now; active := active th |})
  | fn :: rest =>
      (Some fn, {| minIntervalMs := minIntervalMs th; queue := rest;
                   lastTime := now; active := active th |})
  end.

(** The timer callback after [fn()] has returned:
    [this.active = false; this.process();]. *)
Definition release (now : Z) (th : t) : t * option Z :=
  process now {| minIntervalMs := minIntervalMs th; queue := queue th;
                 lastTime := lastTime th; active := false |}.

(** *** A throttle inside an event loop

    The state of one throttle together with the clock, the timers it has
    armed and two observation logs: every task handed to [enqueue], and
    every task start with its instant. *)
Record sys := Sys {
  clock : Z;
  thr : t;
  timers : list Z;              (* due instants of the armed timers *)
  started : list (Task * Z);    (* oldest first *)
  submitted : list Task         (* oldest first *)
}.

(** What a task does while it runs, as far as the throttle can observe:
    the tasks it enqueues synchronously and the time it keeps the thread. *)
Variable spawns : Task -> list Task.
Variable cost : Task -> nat.

Definition init (m : Z) (t0 : Z) : sys :=
  {| clock := t0; thr := new m; timers := []; started := []; submitted := [] |}.

(** [setTimeout(cb, wait)] issued at instant [now]. *)
Definition arm (now : Z) (wait : option Z) (ts : list Z) : list Z :=
  match wait with
  | Some w => ts ++ [now + w]
  | None => ts
  end.

Definition advance (d : nat) (s : sys) : sys :=
  {| clock := clock s + Z.of_nat d; thr := thr s; timers := timers s;
     started := started s; submitted := submitted s |}.

Definition do_enqueue (s : sys) (fn : Task) : sys :=
  let '(th, w) := enqueue fn (clock s) (thr s) in
  {| clock := clock s; thr := th; timers := arm (clock s) w (timers s);
     started := started s; submitted := submitted s ++ [fn] |}.

(** [fn()]: the synchronous part of a task. *)
Definition run_task (fn : Task) (s : sys) : sys :=
  advance (cost fn) (foldl do_enqueue s (spawns fn)).

(** The arrow function given to [setTimeout] in [process], run when the
    runtime fires the timer at position [i].  The callback does not look
    at the clock before it starts the task: it runs whenever it is
    called. *)
Definition fire (i : nat) (s : sys) : sys :=
  match timers s !! i with
  | Some due =>
      let '(ofn, th1) := shift (clock s) (thr s) in
      let s1 := {| clock := clock s; thr := th1;
                   timers := delete i (timers s);
                   started := started s; submitted := submitted s |} in
      match ofn with
      | None => s1          (* [fn()] throws: the callback stops here *)
      | Some fn =>
          let s2 := run_task fn
                      {| clock := clock s1; thr := thr s1;
                         timers := timers s1;
                         started := started s1 ++ [(fn, clock s1)];
                         submitted := submitted s1 |} in
          let '(th3, w) := release (clock s2) (thr s2) in
          {| clock := clock s2; thr := th3;
             timers := arm (clock s2) w (timers s2);
             started := started s2; submitted := submitted s2 |}
      end
  | None => s
  end.

(** What can happen around a throttle: time passes, somebody calls
    [enqueue], an armed timer fires. *)
Inductive event :=
| Tick (d : nat)
| Enqueue (fn : Task)
| Fire (i : nat).

Definition react (s : sys) (e : event) : sys :=
  match e with
  | Tick d => advance d s
  | Enqueue fn => do_enqueue s fn
  | Fire i => fire i s
  end.

Definition run (m t0 : Z) (sched : list event) : sys :=
  foldl react (init m t0) sched.

(** The timer that [e] fires, if any, is due: the runtime has not run the
    callback of [setTimeout(cb, wait)] before [wait] milliseconds have
    passed on the clock that [Date.now()] reads. *)
Definition on_time (s : sys) (e : event) : bool :=
  match e with
  | Fire i =>
      match timers s !! i with
      | Some due => due <=? clock s
      | None => true
      end
  | _ => true
  end.

(** No timer of the schedule fires early. *)
Fixpoint punctual (s : sys) (sched : list event) : bool :=
  match sched with
  | [] => true
  | e :: sched => on_time s e && punctual (react s e) sched
  end.

(** Consecutive instants of a log are at least [m] apart. *)
Definition spaced (m : Z) (ts : list Z) : Prop :=
  Forall (fun p : Z * Z => fst p + m <= snd p) (zip ts (tail ts)).

(** What holds of a throttle between two callbacks of the event loop. *)
Record inv (m : Z) (s : sys) : Prop := Inv {
  inv_interval : minIntervalMs (thr s) = m;
  inv_fifo : (started s).*1 ++ queue (thr s) = submitted s;
  inv_last : forall l, last (started s).*2 = Some l -> lastTime (thr s) = l;
  inv_timer :
    if active (thr s)
    then queue (thr s) <> [] /\
         exists due, timers s = [due] /\
           forall l, last (started s).*2 = Some l -> l + m <= due
    else queue (thr s) = [] /\ timers s = []
}.

End WithTask.
Arguments t : clear implicits.
Arguments sys : clear implicits.
Arguments event : clear implicits.
End Throttle.

(** ** RetryPolicy (main.js, lines 42-65) *)

Module Http.
(** What the callback of [request] receives: [(error, response, body)].
    Only the fields the program reads are kept. *)
Record error := { code : string }.
Record response := { statusCode : Z }.

(** A body carries its text and what [JSON.parse] makes of it, as far as
    the crawler reads the result; [json = None] stands for a [try] block
    around [JSON.parse(body).field] that throws. *)
Record Project := { identifier : string; name : string }.
Record Attachment := { id : option Z; filename : string }.
Record WikiPage := {
  title : string;
  text : string;
  attachments : option (list Attachment)
}.
Record document := {
  projects : option (list Project);      (* [parsed.projects] *)
  wiki_pages : option (list string);     (* titles of [parsed.wiki_pages] *)
  wiki_page : option WikiPage           (* [parsed.wiki_page] *)
}.
Record body := { raw : string; json : option document }.

Record outcome := {
  err : option error;
  resp : option response;
  content : option body
}.

(** JavaScript truthiness of a body: [undefined] and [''] are falsy. *)
Definition truthy (b : option body) : bool :=
  match b with
  | Some b => negb (String.eqb (raw b) "")
  | None => false
  end.
End Http.

Module Retry.
Import Http.

Definition isConnectionRefused (o : outcome) : bool :=
  match err o with
  | Some e => String.eqb (code e) "ECONNREFUSED" || String.eqb (code e) "ECONNRESET"
  | None => false
  end.

Definition isRateLimited (o : outcome) : bool :=
  match resp o with
  | Some r => (statusCode r =? 429) || (statusCode r =? 503)
  | None => false
  end.

Definition transient (o : outcome) : bool :=
  isConnectionRefused o || isRateLimited o.

(** The two branches of the callback inside [tryRequest]. *)
Inductive verdict :=
| Again (attempt : nat) (delay : Z)   (* [setTimeout(tryRequest, delay)] *)
| Resolve (o : outcome).              (* [resolve({error, response, body})] *)

Definition decide (maxRetries : nat) (baseDelay : Z) (attempt : nat)
    (o : outcome) : verdict :=
  if transient o && (attempt <? maxRetries)%nat then
    let attempt := S attempt in
    Again attempt (baseDelay * 2 ^ Z.of_nat (attempt - 1))
  else Resolve o.

(** The default arguments of [retryRequest]. *)
Definition maxRetries_default : nat := 5.
Definition baseDelay_default : Z := 5000.

(** What an observer of one [retryRequest] call sees. *)
Record report := {
  resolved : outcome;       (* the value the promise resolves with *)
  invocations : nat;        (* how many times [requestFn] was called *)
  waits : list Z            (* the delays given to [setTimeout], in order *)
}.

(** [tryRequest], with the request function given by the outcome of each
    of its successive invocations ([requestFn n] is what the [n]-th
    invocation, counted from 0, hands to its callback).  [calls] and
    [delays] accumulate the observation. *)
Definition inspect {A} (a : A) : {b : A | a = b} := exist _ a eq_refl.

Section Loop.
Variable requestFn : nat -> outcome.
Variable maxRetries : nat.
Variable baseDelay : Z.

Equations? tryRequest (attempt calls : nat) (delays : list Z) : report
  by wf (maxRetries - attempt)%nat lt :=
tryRequest attempt calls delays
  with inspect (decide maxRetries baseDelay attempt (requestFn calls)) => {
  | exist _ (Again attempt' delay) Hd :=
      tryRequest attempt' (S calls) (delays ++ [delay]);
  | exist _ (Resolve o) _ :=
      {| resolved := o; invocations := S calls; waits := delays |} }.
Proof.
  unfold decide in Hd.
  destruct (transient _ && (attempt <? maxRetries)%nat) eqn:Hc; [|discriminate].
  apply andb_true_iff in Hc as [_ Hlt]. apply Nat.ltb_lt in Hlt.
  injection Hd as <- _. lia.
Qed.

(** [retryRequest(requestFn, maxRetries, baseDelay)]: [let attempt = 0;
    tryRequest();]. *)
Definition retryRequest : report := tryRequest 0 0 [].
End Loop.
(** The delays of attempts [j], [j+1], ..., [j+n-1]. *)
Definition backoff (baseDelay : Z) (j n : nat) : list Z :=
  (fun i => baseDelay * 2 ^ Z.of_nat i) <$> seq j n.

End Retry.

(** ** Crawler and Exporter (main.js, lines 67-309), run by an event loop *)

Module Crawler.
Import Http.

Definition NB_PROJECTS_PER_PAGE : nat := 25.

(** The four requests of the program ([newRequest] applied to a path). *)
Inductive request :=
| GetProjects (offset : nat)                   (* /projects.json?offset=N *)
| GetWikiIndex (identifier : string)           (* /projects/ID/wiki/index.json *)
| GetWikiPage (identifier pageName : string)   (* /projects/ID/wiki/TITLE.json?include=attachments *)
| GetAttachment (id : Z).                      (* /attachments/download/N *)

(** The closures given to [throttle.enqueue]: the [async () => ...] of
    [getProjectListPage] and the one of [getWikiPages]. *)
Inductive job :=
| ProjectListJob (offset : nat)
| WikiPagesJob (project : Project).

(** An [async] function suspended at its [await retryRequest(...)], with
    what the rest of its body needs. *)
Inductive suspended :=
| AtProjectListPage
| AtWikiPages (project : Project)
| AtWikiPage (project : Project) (pageName : string)
| AtAttachment (attachmentDir : string) (attachment : Attachment).

(** One [retryRequest] in progress: its request function, its [attempt]
    counter and the function waiting for it. *)
Record pending := { req : request; attempt : nat; awaiting : suspended }.

(** The callbacks given to [setTimeout]. *)
Inductive timer_callback :=
| ThrottleTimer                 (* the arrow function in [Throttle.process] *)
| TryRequest (p : pending).     (* [tryRequest] of a [retryRequest] *)

(** Where a call of [request] is made from. *)
Inductive origin :=
| ThrottleLane      (* inside a task the throttle has dequeued *)
| BackoffTimer      (* inside [tryRequest] run by its back-off timer *)
| Direct.           (* inside [getWikiPage] or [getAttachment], called directly *)

Record sent := { instant : Z; what : request; try : nat; via : origin }.

Inductive file_content :=
| Text (s : string)
| Metadata (entries : list (string * string))   (* [{identifier, name}, ...] *)
| Binary (s : string).

Inductive fs_op :=
| Mkdir (path : string)
| WriteFile (path : string) (c : file_content).

Inductive log_line :=
| RequestingProjectList (page : nat)
| LoggedError (e : error)
| AuthenticationFailed
| UnexpectedStatus (status : Z)
| ResponseBody (raw : string)
| ParseFailure (raw : string)
| NoResponseBody
| Retrying (delay : Z) (attempt : nat)
| ProjectsFound (n : nat)
| MetadataSaved
| WikiPagesFound (n : nat) (identifier : string)
| RequestingPath (identifier pageName : string)
| UncaughtTypeError.

(** The program state between two callbacks. *)
Record world := World {
  now : Z;                                       (* [Date.now()] *)
  throttle : Throttle.t job;                     (* the global [throttle] *)
  timers : list (Z * timer_callback);            (* armed timers, with due instant *)
  inflight : list (Z * pending * outcome);       (* requests sent, with the instant of their reply *)
  page : nat;                                    (* [page] of [getProjects] *)
  projects_acc : list Project;                   (* [projects] of [getProjects] *)
  disk : list fs_op;                             (* filesystem calls, oldest first *)
  console : list log_line;
  wire : list sent;                              (* calls of [request], oldest first *)
  enqueued : list job                            (* calls of [throttle.enqueue], oldest first *)
}.

Definition set_now (t : Z) (w : world) : world :=
  World t (throttle w) (timers w) (inflight w) (page w) (projects_acc w)
        (disk w) (console w) (wire w) (enqueued w).
Definition set_throttle (th : Throttle.t job) (w : world) : world :=
  World (now w) th (timers w) (inflight w) (page w) (projects_acc w)
        (disk w) (console w) (wire w) (enqueued w).
Definition set_timers (ts : list (Z * timer_callback)) (w : world) : world :=
  World (now w) (throttle w) ts (inflight w) (page w) (projects_acc w)
        (disk w) (console w) (wire w) (enqueued w).
Definition set_inflight (fl : list (Z * pending * outcome)) (w : world) : world :=
  World (now w) (throttle w) (timers w) fl (page w) (projects_acc w)
        (disk w) (console w) (wire w) (enqueued w).
Definition set_listing (p : nat) (acc : list Project) (w : world) : world :=
  World (now w) (throttle w) (timers w) (inflight w) p acc
        (disk w) (console w) (wire w) (enqueued w).
Definition fs (op : fs_op) (w : world) : world :=
  World (now w) (throttle w) (timers w) (inflight w) (page w) (projects_acc w)
        (disk w ++ [op]) (console w) (wire w) (enqueued w).
Definition log (l : log_line) (w : world) : world :=
  World (now w) (throttle w) (timers w) (inflight w) (page w) (projects_acc w)
        (disk w) (console w ++ [l]) (wire w) (enqueued w).
Definition record_sent (s : sent) (w : world) : world :=
  World (now w) (throttle w) (timers w) (inflight w) (page w) (projects_acc w)
        (disk w) (console w) (wire w ++ [s]) (enqueued w).
Definition record_enqueued (j : job) (w : world) : world :=
  World (now w) (throttle w) (timers w) (inflight w) (page w) (projects_acc w)
        (disk w) (console w) (wire w) (enqueued w ++ [j]).

(** [a + b] where [a] may be [undefined]. *)
Definition plus (a : option string) (b : string) : string :=
  match a with
  | Some a => a +:+ b
  | None => "undefined" +:+ b
  end.

Section Run.
(** The server and the network: the reply to a request on its [n]-th
    attempt and the time it takes to arrive. *)
Variable server : request -> nat -> nat * outcome.
(** [outputDir], after the normalisation at lines 231-234. *)
Variable outputDir : option string.

Definition setTimeout (cb : timer_callback) (delay : Z) (w : world) : world :=
  set_timers (timers w ++ [(now w + delay, cb)]) w.

(** [request(req, cb)]: the request goes on the wire now, [cb] runs when
    the reply arrives. *)
Definition request_ (from : origin) (p : pending) (w : world) : world :=
  let '(latency, o) := server (req p) (attempt p) in
  set_inflight (inflight w ++ [(now w + Z.of_nat latency, p, o)])
    (record_sent {| instant := now w; what := req p; try := attempt p;
                    via := from |} w).

(** [retryRequest(cb => request(r, cb))] followed by [await]:
    [attempt = 0; tryRequest()] runs synchronously. *)
Definition retryRequest (from : origin) (r : request) (k : suspended)
    (w : world) : world :=
  request_ from {| req := r; attempt := 0; awaiting := k |} w.

Definition throttle_enqueue (j : job) (w : world) : world :=
  let '(th, wait) := Throttle.enqueue j (now w) (throttle w) in
  let w := record_enqueued j (set_throttle th w) in
  match wait with
  | Some d => setTimeout ThrottleTimer d w
  | None => w
  end.

Definition getProjectListPage (page : nat) (w : world) : world :=
  let offset := (page * NB_PROJECTS_PER_PAGE)%nat in
  throttle_enqueue (ProjectListJob offset) (log (RequestingProjectList page) w).

Definition getWikiPages (w : world) (project : Project) : world :=
  throttle_enqueue (WikiPagesJob project) w.

Definition getWikiPage (project : Project) (w : world) (pageName : string)
    : world :=
  retryRequest Direct (GetWikiPage (identifier project) pageName)
    (AtWikiPage project pageName)
    (log (RequestingPath (identifier project) pageName) w).

(** [attachment.id] is truthy: present and not 0. *)
Definition has_id (a : Attachment) : option Z :=
  match id a with
  | Some n => if n =? 0 then None else Some n
  | None => None
  end.

Definition getAttachment (attachmentDir : string) (w : world)
    (a : Attachment) : world :=
  match has_id a with
  | Some n => retryRequest Direct (GetAttachment n) (AtAttachment attachmentDir a) w
  | None => w
  end.

(** [initDirectory]: an existing directory is not an error, so the call
    is recorded and nothing else happens. *)
Definition initDirectory (directory : string) (w : world) : world :=
  if String.eqb directory "" then w else fs (Mkdir directory) w.

Definition backupWikiPage (project : Project) (p : WikiPage) (w : world)
    : world :=
  let projectDir := plus outputDir (identifier project) in
  let w := initDirectory projectDir w in
  let w := fs (WriteFile (projectDir +:+ "/" +:+ title p +:+ ".md") (Text (text p))) w in
  match attachments p with
  | Some atts =>
      let attachmentDir := projectDir +:+ "/attachments" in
      foldl (getAttachment attachmentDir) (initDirectory attachmentDir w) atts
  | None => w
  end.

(** The callback given to [redmine.getProjects] at line 247. *)
Definition on_projects (projects : list Project) (w : world) : world :=
  let w := log (ProjectsFound (length projects)) w in
  let w := fs (WriteFile (plus outputDir "projects-metadata.json")
                 (Metadata ((fun p => (identifier p, name p)) <$> projects))) w in
  foldl getWikiPages (log MetadataSaved w) projects.

(** [next], the callback of every listing page (lines 100-108). *)
Definition next (projectList : list Project) (w : world) : world :=
  let acc := projects_acc w ++ projectList in
  if (length projectList =? NB_PROJECTS_PER_PAGE)%nat then
    let page := S (page w) in
    getProjectListPage page (set_listing page acc w)
  else on_projects acc (set_listing (page w) acc w).

(** [getProjects]: [page = 0; projects = []; getProjectListPage(page, next)]. *)
Definition getProjects (w : world) : world :=
  getProjectListPage 0 (set_listing 0 [] w).

Definition log_body (b : option body) (w : world) : world :=
  match b with
  | Some b => if truthy (Some b) then log (ResponseBody (raw b)) w else w
  | None => w
  end.

(** The status checks shared by [getProjectListPage] and [getWikiPages]
    (lines 121-141 and 152-170): [k] is the branch [else if (body)]. *)
Definition checked (o : outcome) (k : body -> world -> world) (w : world)
    : world :=
  match err o with
  | Some e => log (LoggedError e) w
  | None =>
      let status := statusCode <$> resp o in
      if bool_decide (status = Some 401) then
        log_body (content o) (log AuthenticationFailed w)
      else if bool_decide (status <> None /\ status <> Some 200) then
        log_body (content o) (log (UnexpectedStatus (default 0 status)) w)
      else
        match content o with
        | Some b => if truthy (Some b) then k b w else log NoResponseBody w
        | None => log NoResponseBody w
        end
  end.

(** The callback given to [getWikiPages] at line 259. *)
Definition on_wiki_pages (project : Project) (pages : option (list string))
    (w : world) : world :=
  match pages with
  | None => log UncaughtTypeError w      (* [pages.length] of [undefined] *)
  | Some pages =>
      if (0 <? length pages)%nat then
        foldl (getWikiPage project)
          (log (WikiPagesFound (length pages) (identifier project)) w) pages
      else w
  end.

(** The rest of an [async] function once [retryRequest] has resolved
    with [o]. *)
Definition resume (k : suspended) (o : outcome) (w : world) : world :=
  match k with
  | AtProjectListPage =>
      checked o (fun b w =>
        match json b with
        | Some d => next (default [] (projects d)) w
        | None => next [] (log (ResponseBody (raw b)) (log (ParseFailure (raw b)) w))
        end) w
  | AtWikiPages project =>
      checked o (fun b w =>
        match json b with
        | Some d => on_wiki_pages project (wiki_pages d) w
        | None => on_wiki_pages project (Some []) (log (ParseFailure (raw b)) w)
        end) w
  | AtWikiPage project pageName =>
      match err o with
      | Some e => log (LoggedError e) w
      | None =>
          match content o with
          | Some b =>
              if truthy (Some b) then
                match json b with
                | Some d =>
                    match wiki_page d with
                    | Some p => backupWikiPage project p w
                    | None => w
                    end
                | None => log (ParseFailure (raw b)) w
                end
              else w
          | None => w
          end
      end
  | AtAttachment attachmentDir a =>
      match err o with
      | Some e => log (LoggedError e) w
      | None =>
          match content o with
          | Some b =>
              if truthy (Some b) then
                fs (WriteFile (attachmentDir +:+ "/" +:+ filename a)
                      (Binary (raw b))) w
              else w
          | None => w
          end
      end
  end.

(** The callback [(error, response, body) => ...] inside [tryRequest]. *)
Definition on_response (p : pending) (o : outcome) (w : world) : world :=
  match Retry.decide Retry.maxRetries_default Retry.baseDelay_default
          (attempt p) o with
  | Retry.Again attempt' delay =>
      setTimeout
        (TryRequest {| req := req p; attempt := attempt'; awaiting := awaiting p |})
        delay (log (Retrying delay attempt') w)
  | Retry.Resolve o => resume (awaiting p) o w
  end.

(** The synchronous part of a throttled task: up to its [await]. *)
Definition run_job (j : job) (w : world) : world :=
  match j with
  | ProjectListJob offset =>
      retryRequest ThrottleLane (GetProjects offset) AtProjectListPage w
  | WikiPagesJob project =>
      retryRequest ThrottleLane (GetWikiIndex (identifier project))
        (AtWikiPages project) w
  end.

(** The arrow function armed by [Throttle.process]. *)
Definition throttle_tick (w : world) : world :=
  let '(ofn, th1) := Throttle.shift (now w) (throttle w) in
  let w := set_throttle th1 w in
  match ofn with
  | None => w
  | Some fn =>
      let w := run_job fn w in
      let '(th3, wait) := Throttle.release (now w) (throttle w) in
      let w := set_throttle th3 w in
      match wait with
      | Some d => setTimeout ThrottleTimer d w
      | None => w
      end
  end.

Definition on_timer (cb : timer_callback) (w : world) : world :=
  match cb with
  | ThrottleTimer => throttle_tick w
  | TryRequest p => request_ BackoffTimer p w
  end.

(** *** The event loop

    One turn runs the callback that is due first; a timer goes before a
    reply due at the same instant, and among equals the oldest goes
    first.  The clock jumps to the instant the callback is due. *)
Fixpoint earliest_from {A} (key : A -> Z) (best : nat * A) (i : nat)
    (l : list A) : nat * A :=
  match l with
  | [] => best
  | x :: l =>
      if key x <? key (snd best) then earliest_from key (i, x) (S i) l
      else earliest_from key best (S i) l
  end.

Definition earliest {A} (key : A -> Z) (l : list A) : option (nat * A) :=
  match l with
  | [] => None
  | x :: l => Some (earliest_from key (0%nat, x) 1 l)
  end.

(** The callback of the armed timer [t], at position [i], run at the
    instant [moment]; the callback of the reply [r], at position [i]. *)
Definition timer_at (i : nat) (t : Z * timer_callback) (moment : Z) (w : world)
    : world :=
  on_timer (snd t) (set_timers (delete i (timers w)) (set_now moment w)).

Definition reply_at (i : nat) (r : Z * pending * outcome) (moment : Z) (w : world)
    : world :=
  on_response (snd (fst r)) (snd r)
    (set_inflight (delete i (inflight w)) (set_now moment w)).

Definition run_timer (i : nat) (t : Z * timer_callback) (w : world) : world :=
  timer_at i t (Z.max (now w) (fst t)) w.

Definition run_reply (i : nat) (r : Z * pending * outcome) (w : world) : world :=
  reply_at i r (Z.max (now w) (fst (fst r))) w.

Definition turn (w : world) : option world :=
  match earliest fst (timers w), earliest (fun r => fst (fst r)) (inflight w) with
  | None, None => None
  | Some (i, t), None => Some (run_timer i t w)
  | None, Some (i, r) => Some (run_reply i r w)
  | Some (i, t), Some (j, r) =>
      if fst t <=? fst (fst r) then Some (run_timer i t w)
      else Some (run_reply j r w)
  end.

Fixpoint loop (fuel : nat) (w : world) : world :=
  match fuel with
  | O => w
  | S fuel =>
      match turn w with
      | Some w => loop fuel w
      | None => w
      end
  end.

(** Nothing is left to run: the process exits. *)
Definition idle (w : world) : bool :=
  match timers w, inflight w with
  | [], [] => true
  | _, _ => false
  end.

(** *** Any schedule

    The event loop above runs callbacks as soon as they are due.  A real
    one may be late, may order differently what is due together and may
    run a timer before it is due on the clock [Date.now()] reads: a
    schedule picks, turn after turn, an armed timer or a reply in flight
    and the instant its callback runs, not before the present instant
    and, for a reply, not before the reply has arrived.  A choice that is
    not possible is skipped. *)
Inductive choice :=
| FireTimer (i : nat) (moment : Z)
| Deliver (i : nat) (moment : Z).

Definition act (w : world) (c : choice) : world :=
  match c with
  | FireTimer i moment =>
      match timers w !! i with
      | Some t => if now w <=? moment then timer_at i t moment w else w
      | None => w
      end
  | Deliver i moment =>
      match inflight w !! i with
      | Some r => if Z.max (now w) (fst (fst r)) <=? moment then reply_at i r moment w else w
      | None => w
      end
  end.

Definition play (w : world) (schedule : list choice) : world :=
  foldl act w schedule.

(** The timer that [c] fires, if any, is due. *)
Definition on_time (w : world) (c : choice) : bool :=
  match c with
  | FireTimer i moment =>
      match timers w !! i with
      | Some t => fst t <=? moment
      | None => true
      end
  | Deliver _ _ => true
  end.

(** No timer of the schedule fires early. *)
Fixpoint punctual (w : world) (schedule : list choice) : bool :=
  match schedule with
  | [] => true
  | c :: schedule => on_time w c && punctual (act w c) schedule
  end.

(** The program from line 229 on, started at instant [t0]:
    [throttle = new Throttle(1200)], [initDirectory(outputDir)],
    [redmine.getProjects(...)]. *)
Definition start (t0 : Z) : world :=
  getProjects
    (initDirectory (default "" outputDir)
       {| now := t0; throttle := Throttle.new 1200; timers := [];
          inflight := []; page := 0; projects_acc := []; disk := [];
          console := []; wire := []; enqueued := [] |}).

Definition main (t0 : Z) (fuel : nat) : world := loop fuel (start t0).
End Run.


(** *** Properties of runs that the theorems are stated with *)

(** The server answers the listing request at [offset] with HTTP 200 and
    a body that parses into the project list [l]. *)
Definition serves (server : request -> nat -> nat * outcome) (offset : nat)
    (l : list Project) : Prop :=
  exists latency raw d,
    server (GetProjects offset) 0%nat =
      (latency,
       {| err := None; resp := Some {| statusCode := 200 |};
          content := Some {| raw := raw; json := Some d |} |}) /\
    raw <> ""%string /\ projects d = Some l.

(** The state in which round [k] of the listing begins: its task is the
    only one in the throttle, whose timer is the only thing armed. *)
Record round (pages : list (list Project)) (k : nat) (w : world) : Prop := {
  round_timers : exists due, timers w = [(due, ThrottleTimer)];
  round_inflight : inflight w = [];
  round_queue : Throttle.queue (throttle w) = [ProjectListJob (k * NB_PROJECTS_PER_PAGE)];
  round_active : Throttle.active (throttle w) = true;
  round_page : page w = k;
  round_acc : projects_acc w = concat (take k pages);
  round_wire : what <$> wire w
               = (fun i => GetProjects (i * NB_PROJECTS_PER_PAGE)) <$> seq 0 k;
  round_enqueued : enqueued w
               = (fun i => ProjectListJob (i * NB_PROJECTS_PER_PAGE)) <$> seq 0 (S k);
  round_disk : Forall (fun op => match op with Mkdir _ => True | _ => False end) (disk w)
}.

(** What every call of [request] obeys: a request sent from a throttled
    task is the first attempt of a listing or wiki-index fetch; a request
    sent directly is the first attempt of a page or attachment fetch; a
    request sent from a back-off timer is a retry. *)
Definition disciplined (s : sent) : Prop :=
  match via s with
  | ThrottleLane =>
      try s = 0%nat /\
      match what s with GetProjects _ | GetWikiIndex _ => True | _ => False end
  | Direct =>
      try s = 0%nat /\
      match what s with GetWikiPage _ _ | GetAttachment _ => True | _ => False end
  | BackoffTimer => (1 <= try s)%nat
  end.

Definition retry_timer (t : Z * timer_callback) : Prop :=
  match snd t with
  | ThrottleTimer => True
  | TryRequest p => (1 <= attempt p)%nat
  end.

Definition ok (w : world) : Prop :=
  Forall disciplined (wire w) /\ Forall retry_timer (timers w).

(** A step that leaves the wire and the timers alone. *)
Definition silent (f : world -> world) : Prop :=
  forall w, wire (f w) = wire w /\ timers (f w) = timers w.

(** A request that left from a throttled task. *)
Definition from_lane (s : sent) : bool :=
  match via s with ThrottleLane => true | _ => false end.

(** The offsets of the listing requests on the wire, oldest first. *)
Definition listing_offsets (w : world) : list nat :=
  omap (fun s => match what s with GetProjects o => Some o | _ => None end) (wire w).

(** The project lists written to the sidecar file, oldest first. *)
Definition metadata_written (w : world) : list (list (string * string)) :=
  omap (fun op => match op with
                  | WriteFile _ (Metadata l) => Some l
                  | _ => None
                  end) (disk w).

(** A [retryRequest] that is neither a listing request nor awaited by the
    listing. *)
Definition foreign (p : pending) : Prop :=
  match req p, awaiting p with
  | GetProjects _, _ => False
  | _, AtProjectListPage => False
  | _, _ => True
  end.

Definition foreign_timer (t : Z * timer_callback) : Prop :=
  match snd t with ThrottleTimer => True | TryRequest p => foreign p end.

Definition wiki_job (j : job) : Prop :=
  match j with WikiPagesJob _ => True | ProjectListJob _ => False end.

(** Nothing of the listing is left in the program: not in the throttle,
    not in a timer, not on the wire. *)
Record listed (w : world) : Prop := {
  listed_queue : Forall wiki_job (Throttle.queue (throttle w));
  listed_timers : Forall foreign_timer (timers w);
  listed_inflight : Forall (fun r => foreign (snd (fst r))) (inflight w)
}.

(** A step that keeps it so and leaves what the listing produced alone. *)
Definition settled (f : world -> world) : Prop :=
  forall w, listed w ->
    listed (f w) /\ listing_offsets (f w) = listing_offsets w /\
    metadata_written (f w) = metadata_written w /\
    projects_acc (f w) = projects_acc w.

(** *** Configuration (lines 214-234) *)
Record config := {
  redmineUrl : option string;
  user : option string;
  password : option string;
  config_outputDir : option string;
  insecure : bool
}.

(** [x.endsWith('/')] *)
Definition ends_with_slash (x : string) : bool :=
  match String.rev x with
  | String "/" _ => true
  | _ => false
  end.

(** [outputDir] as the export uses it (lines 231-234). *)
Definition outputDir_of (c : config) : option string :=
  match config_outputDir c with
  | Some d =>
      if negb (String.eqb d "") && negb (ends_with_slash d) then Some (d +:+ "/")
      else Some d
  | None => None
  end.

End Crawler.

(** ** Text functions of the runtime, on byte strings *)

Module Text.
Local Open Scope char_scope.

(** [s.startsWith(p)], returning what follows [p]. *)
Fixpoint strip (p s : string) : option string :=
  match p, s with
  | EmptyString, _ => Some s
  | String a p, String b s => if Ascii.eqb a b then strip p s else None
  | String _ _, EmptyString => None
  end.

Definition startsWith (p s : string) : bool :=
  match strip p s with Some _ => true | None => false end.

(** [s.endsWith(p)] *)
Definition endsWith (p s : string) : bool :=
  startsWith (String.rev p) (String.rev s).

(** [s.includes(p)] *)
Fixpoint includes (p s : string) : bool :=
  startsWith p s ||
  match s with
  | EmptyString => false
  | String _ s => includes p s
  end.

(** The longest prefix whose characters all satisfy [f], and the rest: a
    greedy character class [[...]*]. *)
Fixpoint span (f : ascii -> bool) (s : string) : string * string :=
  match s with
  | EmptyString => (EmptyString, EmptyString)
  | String c r =>
      if f c then let '(a, b) := span f r in (String c a, b)
      else (EmptyString, s)
  end.

(** The white space of one byte: tab, line feed, vertical tab, form feed,
    carriage return, space. *)
Definition is_space (c : ascii) : bool :=
  let n := nat_of_ascii c in
  ((9 <=? n) && (n <=? 13))%nat || (n =? 32)%nat.

(** The class [\s]: whether the text starts with a white-space character,
    and the number of bytes it takes.  Besides the six above these are
    U+00A0 ([C2 A0]), U+1680 ([E1 9A 80]), U+2000 to U+200A ([E2 80 80] to
    [E2 80 8A]), U+2028 and U+2029 ([E2 80 A8], [E2 80 A9]), U+202F
    ([E2 80 AF]), U+205F ([E2 81 9F]), U+3000 ([E3 80 80]) and U+FEFF
    ([EF BB BF]). *)
Definition white_space (s : string) : option (nat * unit) :=
  match s with
  | EmptyString => None
  | String c r =>
      if is_space c then Some (1%nat, tt)
      else
        match r with
        | EmptyString => None
        | String c1 r1 =>
            let n := nat_of_ascii c in
            let n1 := nat_of_ascii c1 in
            if ((n =? 194) && (n1 =? 160))%nat then Some (2%nat, tt)
            else
              match r1 with
              | EmptyString => None
              | String c2 _ =>
                  let n2 := nat_of_ascii c2 in
                  if ((n =? 225) && (n1 =? 154) && (n2 =? 128)) ||
                     ((n =? 226) && (n1 =? 128) &&
                      (((128 <=? n2) && (n2 <=? 138)) || (n2 =? 168) ||
                       (n2 =? 169) || (n2 =? 175))) ||
                     ((n =? 226) && (n1 =? 129) && (n2 =? 159)) ||
                     ((n =? 227) && (n1 =? 128) && (n2 =? 128)) ||
                     ((n =? 239) && (n1 =? 187) && (n2 =? 191))
                  then Some (3%nat, tt) else None
              end%nat
        end
  end.

(** [\d] *)
Definition is_digit (c : ascii) : bool :=
  let n := nat_of_ascii c in ((48 <=? n) && (n <=? 57))%nat.

(** The line terminators of one byte: line feed and carriage return. *)
Definition is_newline (c : ascii) : bool :=
  let n := nat_of_ascii c in ((n =? 10) || (n =? 13))%nat.

(** What [.] refuses: the text starts with a line terminator, which is
    LF, CR, U+2028 or U+2029; in UTF-8 the last two are the bytes
    [E2 80 A8] and [E2 80 A9]. *)
Definition line_terminator (s : string) : bool :=
  match s with
  | String c r =>
      is_newline c ||
      match r with
      | String c1 (String c2 _) =>
          ((nat_of_ascii c =? 226) && (nat_of_ascii c1 =? 128) &&
           ((nat_of_ascii c2 =? 168) || (nat_of_ascii c2 =? 169)))%nat
      | _ => false
      end
  | EmptyString => false
  end.

(** No line terminator in [s]. *)
Fixpoint one_line (s : string) : bool :=
  match s with
  | EmptyString => true
  | String _ r => negb (line_terminator s) && one_line r
  end.

(** [s.toLowerCase()], on ASCII *)
Definition lower (c : ascii) : ascii :=
  let n := nat_of_ascii c in
  if ((65 <=? n) && (n <=? 90))%nat then ascii_of_nat (n + 32) else c.

Fixpoint toLowerCase (s : string) : string :=
  match s with
  | EmptyString => EmptyString
  | String c s => String (lower c) (toLowerCase s)
  end.

(** [s.replace(p, r)] with a string pattern: the first occurrence only. *)
Fixpoint replace_first (p r s : string) : string :=
  match strip p s with
  | Some rest => r +:+ rest
  | None =>
      match s with
      | EmptyString => EmptyString
      | String c s => String c (replace_first p r s)
      end
  end.

(** [s.split(':', 2)] when [s] contains a colon: the text before the first
    colon and the text between the first and the second one. *)
Definition not_colon (c : ascii) : bool := negb (Ascii.eqb c ":").

Definition split_colon (s : string) : string * string :=
  let '(a, rest) := span not_colon s in
  match rest with
  | String _ rest => (a, fst (span not_colon rest))
  | EmptyString => (a, EmptyString)
  end.

(** *** Percent encoding *)

Definition hex_digit (n : N) : ascii :=
  if (n <? 10)%N then ascii_of_N (48 + n) else ascii_of_N (55 + n).

Definition hex_value (c : ascii) : option N :=
  let n := N_of_ascii c in
  if ((48 <=? n) && (n <=? 57))%N then Some (n - 48)%N
  else if ((65 <=? n) && (n <=? 70))%N then Some (n - 55)%N
  else if ((97 <=? n) && (n <=? 102))%N then Some (n - 87)%N
  else None.

(** The characters [encodeURIComponent] leaves alone:
    [A-Z a-z 0-9 - _ . ! ~ * ' ( )]. *)
Definition unreserved (c : ascii) : bool :=
  let n := N_of_ascii c in
  ((65 <=? n) && (n <=? 90) || (97 <=? n) && (n <=? 122) ||
   (48 <=? n) && (n <=? 57))%N ||
  existsb (Ascii.eqb c) ["-"; "_"; "."; "!"; "~"; "*"; "'"; "("; ")"].

(** [encodeURIComponent(s)]: every other byte of the UTF-8 text becomes
    [%XX]. *)
Fixpoint encodeURIComponent (s : string) : string :=
  match s with
  | EmptyString => EmptyString
  | String c s =>
      if unreserved c then String c (encodeURIComponent s)
      else
        let n := N_of_ascii c in
        String "%" (String (hex_digit (n / 16)) (String (hex_digit (n mod 16))
          (encodeURIComponent s)))
  end.

(** [decodeURIComponent(s)], in two passes.  The first reads the escapes;
    an escape that is not [%] followed by two hexadecimal digits is a
    [URIError] ([None]). *)
Inductive unit_ :=
| Plain (c : ascii)     (* a character of the text *)
| Escaped (b : N).      (* the byte of a [%XX] *)

Fixpoint unescape (s : string) : option (list unit_) :=
  match s with
  | EmptyString => Some []
  | String "%" (String h (String l rest)) =>
      match hex_value h, hex_value l, unescape rest with
      | Some h, Some l, Some us => Some (Escaped (16 * h + l) :: us)
      | _, _, _ => None
      end
  | String "%" _ => None
  | String c rest =>
      match unescape rest with
      | Some us => Some (Plain c :: us)
      | None => None
      end
  end.

(** The second pass checks that escaped bytes of 128 and more form the
    UTF-8 encoding of a code point, lead byte first: the continuation bytes
    must be escapes too, and overlong forms, surrogates and values above
    U+10FFFF are refused. *)
Definition bytes_of (us : list unit_) : string :=
  string_of_list_ascii
    ((fun u => match u with Plain c => c | Escaped b => ascii_of_N b end) <$> us).

(** A code point [cp] written on [n] bytes is neither overlong nor a
    surrogate nor out of range. *)
Definition scalar_ok (n : nat) (cp : N) : bool :=
  match n with
  | 2%nat => (128 <=? cp)%N
  | 3%nat => (2048 <=? cp)%N && negb ((55296 <=? cp) && (cp <=? 57343))%N
  | 4%nat => ((65536 <=? cp) && (cp <=? 1114111))%N
  | _ => false
  end.

(** The length a lead byte announces, and the bits it contributes. *)
Definition lead (b : N) : option (nat * N) :=
  if (b <? 192)%N then None
  else if (b <? 224)%N then Some (2%nat, b - 192)%N
  else if (b <? 240)%N then Some (3%nat, b - 224)%N
  else if (b <? 248)%N then Some (4%nat, b - 240)%N
  else None.

(** [open] is the sequence being read, if any: continuation bytes still
    expected, announced length, bits read so far. *)
Fixpoint well_formed (open : option (nat * nat * N)) (us : list unit_) : bool :=
  match us with
  | [] => match open with None => true | Some _ => false end
  | u :: us =>
      match open with
      | Some (S k, n, acc) =>
          match u with
          | Escaped b =>
              if ((128 <=? b) && (b <? 192))%N then
                let acc := (64 * acc + (b - 128))%N in
                match k with
                | O => scalar_ok n acc && well_formed None us
                | S _ => well_formed (Some (k, n, acc)) us
                end
              else false
          | Plain _ => false
          end
      | _ =>
          match u with
          | Plain _ => well_formed None us
          | Escaped b =>
              if (b <? 128)%N then well_formed None us
              else
                match lead b with
                | Some (n, bits) => well_formed (Some (Nat.pred n, n, bits)) us
                | None => false
                end
          end
      end
  end.

Definition decodeURIComponent (s : string) : option string :=
  match unescape s with
  | Some us => if well_formed None us then Some (bytes_of us) else None
  | None => None
  end.

(** *** Global replacement with a callback

    [scan m s] cuts [s] the way [s.replace(re, f)] with a [g] flag does:
    [m] tells whether the expression matches at the start of a text, how
    many characters it takes and what it captures; the search resumes after
    each match. *)
Inductive piece (M : Type) :=
| Lit (c : ascii)
| Hit (m : M).
Arguments Lit {M} c.
Arguments Hit {M} m.

Fixpoint scan {M} (m : string -> option (nat * M)) (skip : nat) (s : string)
    : list (piece M) :=
  match s with
  | EmptyString => []
  | String c r =>
      match skip with
      | S k => scan m k r
      | O =>
          match m s with
          | Some (n, x) => Hit x :: scan m (n - 1) r
          | None => Lit c :: scan m 0 r
          end
      end
  end.

(** The text put back together with [f] applied to each match. *)
Fixpoint render {M} (f : M -> string) (ps : list (piece M)) : string :=
  match ps with
  | [] => EmptyString
  | Lit c :: ps => String c (render f ps)
  | Hit x :: ps => f x +:+ render f ps
  end.

(** [s.replace(/\s+/g, r)]: the white-space characters are found one
    after the other, and each run of them gives one [r]. *)
Fixpoint one_per_run (r : string) (in_run : bool) (ps : list (piece unit))
    : string :=
  match ps with
  | [] => EmptyString
  | Lit c :: ps => String c (one_per_run r false ps)
  | Hit _ :: ps =>
      if in_run then one_per_run r true ps
      else r +:+ one_per_run r true ps
  end.

Definition replace_spaces (r : string) (in_run : bool) (s : string) : string :=
  one_per_run r in_run (scan white_space 0 s).

(** A lazy [.*?] followed by [tail]: the shortest run of characters other
    than line terminators after which [tail] matches. *)
Fixpoint lazy_dots {R} (tail : string -> option R) (s : string)
    : option (string * R) :=
  match tail s with
  | Some r => Some (EmptyString, r)
  | None =>
      match s with
      | EmptyString => None
      | String c r =>
          if line_terminator s then None
          else
            match lazy_dots tail r with
            | Some (t, r) => Some (String c t, r)
            | None => None
            end
      end
  end.

End Text.

(** ** The filesystem the two post-passes read and write *)

Module Fs.

#[warnings="-register-all"]
Inductive node :=
| File (content : string)
| Dir (entries : list (string * node)).   (* in the order [readdirSync] lists them *)

(** An absolute path, as its segments. *)
Definition path := list string.

Definition entry (name : string) (es : list (string * node)) : option node :=
  snd <$> find (fun e => String.eqb (fst e) name) es.

Fixpoint lookup (p : path) (n : node) : option node :=
  match p with
  | [] => Some n
  | x :: p =>
      match n with
      | Dir es =>
          match entry x es with
          | Some n => lookup p n
          | None => None
          end
      | File _ => None
      end
  end.

(** [fs.statSync(p).isDirectory()] *)
Definition isDirectory (n : node) : bool :=
  match n with Dir _ => true | File _ => false end.

(** [fs.readdirSync(p)]; [None] when it throws. *)
Definition readdirSync (root : node) (p : path) : option (list (string * node)) :=
  match lookup p root with
  | Some (Dir es) => Some es
  | _ => None
  end.

(** [fs.readFileSync(p, 'utf8')]; [None] when it throws. *)
Definition readFileSync (root : node) (p : path) : option string :=
  match lookup p root with
  | Some (File c) => Some c
  | _ => None
  end.

(** The entry [name] replaced where it is, or added at the end. *)
Fixpoint set_entry (name : string) (n : node) (es : list (string * node))
    : list (string * node) :=
  match es with
  | [] => [(name, n)]
  | (x, m) :: es =>
      if String.eqb x name then (x, n) :: es else (x, m) :: set_entry name n es
  end.

(** [fs.writeFileSync(p, c, 'utf8')]; [None] when it throws (no such
    directory, or [p] is a directory). *)
Fixpoint writeFileSync (p : path) (c : string) (n : node) : option node :=
  match p, n with
  | [x], Dir es =>
      match entry x es with
      | Some (Dir _) => None
      | _ => Some (Dir (set_entry x (File c) es))
      end
  | x :: p, Dir es =>
      match entry x es with
      | Some child =>
          match writeFileSync p c child with
          | Some child' => Some (Dir (set_entry x child' es))
          | None => None
          end
      | None => None
      end
  | _, _ => None
  end.

(** [path.dirname(p)] and [path.basename(p)] *)
Definition dirname (p : path) : path := removelast p.
Definition basename (p : path) : string := List.last p EmptyString.

(** The segments of a relative path written with [/]. *)
Fixpoint segments (cur : string) (s : string) : list string :=
  match s with
  | EmptyString => [String.rev cur]
  | String c s =>
      if Ascii.eqb c "/" then String.rev cur :: segments EmptyString s
      else segments (String c cur) s
  end.

(** [path.join(base, rel)]: [rel] is appended and the result normalised
    (empty and [.] segments dropped, [..] resolved, never above the root).
    The flag tells whether the result ends with a separator. *)
Definition step (stack : list string) (seg : string) : list string :=
  if String.eqb seg "" || String.eqb seg "." then stack
  else if String.eqb seg ".." then tail stack
  else seg :: stack.

Definition join (base : path) (rel : string) : path * bool :=
  let segs := segments EmptyString rel in
  (rev (foldl step (rev base) segs),
   String.eqb (List.last segs EmptyString) "" && negb (String.eqb rel "")).

(** [fs.existsSync(path.join(base, rel))]: a path ending with a separator
    names a directory only. *)
Definition existsSync (root : node) (base : path) (rel : string) : bool :=
  let '(p, trailing) := join base rel in
  match lookup p root with
  | Some (Dir _) => true
  | Some (File _) => negb trailing
  | None => false
  end.

End Fs.

(** ** LinkRewriter (fix-links.js) *)

Module LinkRewriter.
Import Text.
Local Open Scope char_scope.

(** [redmineUrl] as the script computes it (lines 324-336): the configured
    URL without one trailing slash, or the default. *)
Definition redmineUrl_of (configured : option string) : string :=
  match configured with
  | Some u =>
      if String.eqb u "" then "https://www.redmine.org"%string
      else if endsWith "/" u then String.rev (match String.rev u with
                                              | String _ r => r
                                              | EmptyString => EmptyString
                                              end)
      else u
  | None => "https://www.redmine.org"%string
  end.

Definition is_not (x : ascii) (c : ascii) : bool := negb (Ascii.eqb c x).

(** How many characters of [s] come before its suffix [rest]. *)
Definition consumed (s rest : string) : nat :=
  (String.length s - String.length rest)%nat.

(** *** Category 1: [/\[\[([^\]]+)\]\]/g] *)

Definition wiki_syntax (s : string) : option (nat * string) :=
  match strip "[[" s with
  | Some s1 =>
      let '(pageName, s2) := span (is_not "]") s1 in
      match pageName, strip "]]" s2 with
      | String _ _, Some rest => Some (consumed s rest, pageName)
      | _, _ => None
      end
  | None => None
  end.

(** The callback of lines 348-359. *)
Definition wiki_syntax_link (pageName : string) : string :=
  if includes ":" pageName then
    let '(project, page) := split_colon pageName in
    let pageFile := replace_spaces "_" false page in
    "[" +:+ page +:+ "](../" +:+ project +:+ "/" +:+ pageFile +:+ ".md)"
  else
    let pageFile := replace_spaces "_" false pageName in
    "[" +:+ pageName +:+ "](" +:+ pageFile +:+ ".md)".

Definition category1 (content : string) : string :=
  render wiki_syntax_link (scan wiki_syntax 0 content).

Section WithUrl.
(** The URL is escaped before it enters the regular expressions
    (line 339), so it stands for itself there. *)
Variable redmineUrl : string.

(** *** Category 2:
    [(\[.*?\])\(URL\/projects\/([^\/]+)\/wiki\/([^)#?]+)(#[^)]+)?\)] *)

Record wiki_link := {
  text : string; linkProject : string; page : string; anchor : option string
}.

(** The text every match of category 2 contains, after its link text. *)
Definition absolute_wiki_target : string := "](" +:+ redmineUrl +:+ "/projects/".

Definition page_char (c : ascii) : bool :=
  negb (Ascii.eqb c ")" || Ascii.eqb c "#" || Ascii.eqb c "?").

(** What follows the lazy [.*?]: from [\]] to the closing [\)].  The
    greedy classes take their longest run; a shorter run would be
    followed by a character of the same class, which the next element of
    the expression never accepts. *)
Definition wiki_url_tail (s : string)
    : option (string * string * option string * string) :=
  s ← strip absolute_wiki_target s;
  let '(linkProject, s) := span (is_not "/") s in
  if String.eqb linkProject "" then None else
  s ← strip "/wiki/" s;
  let '(page, s) := span page_char s in
  if String.eqb page "" then None else
  match s with
  | String ")" rest => Some (linkProject, page, None, rest)
  | String "#" s =>
      let '(a, s) := span (is_not ")") s in
      match a, s with
      | String _ _, String ")" rest => Some (linkProject, page, Some (String "#" a), rest)
      | _, _ => None
      end
  | _ => None
  end.

Definition wiki_url (s : string) : option (nat * wiki_link) :=
  match s with
  | String "[" s1 =>
      match lazy_dots wiki_url_tail s1 with
      | Some (inner, (linkProject, page, anchor, rest)) =>
          Some (consumed s rest,
                {| text := "[" +:+ inner +:+ "]"; linkProject := linkProject;
                   page := page; anchor := anchor |})
      | None => None
      end
  | _ => None
  end.

(** The callback of lines 367-380. *)
Definition wiki_url_link (currentProject : string) (m : wiki_link) : string :=
  let rel :=
    if String.eqb (linkProject m) currentProject then page m +:+ ".md"
    else "../" +:+ linkProject m +:+ "/" +:+ page m +:+ ".md" in
  let rel := match anchor m with Some a => rel +:+ a | None => rel end in
  text m +:+ "(" +:+ rel +:+ ")".

Definition category2 (currentProject : string) (content : string) : string :=
  render (wiki_url_link currentProject) (scan wiki_url 0 content).

(** *** Category 3:
    [(!\[.*?\])\(URL\/attachments\/(?:download\/)?(\d+)\/([^)]+)\)] *)

Record attachment_link := {
  matched : string; alt : string; id : string; filename : string
}.

Definition attachment_url_tail (s : string)
    : option (string * string * string) :=
  s ← strip ("](" +:+ redmineUrl +:+ "/attachments/") s;
  let s := match strip "download/" s with Some s => s | None => s end in
  let '(id, s) := span is_digit s in
  if String.eqb id "" then None else
  s ← strip "/" s;
  let '(filename, s) := span (is_not ")") s in
  match filename, s with
  | String _ _, String ")" rest => Some (id, filename, rest)
  | _, _ => None
  end.

Definition attachment_url (s : string) : option (nat * attachment_link) :=
  match strip "![" s with
  | Some s1 =>
      match lazy_dots attachment_url_tail s1 with
      | Some (inner, (id, filename, rest)) =>
          let n := consumed s rest in
          Some (n, {| matched := substring 0 n s;
                      alt := "![" +:+ inner +:+ "]"; id := id;
                      filename := filename |})
      | None => None
      end
  | None => None
  end.

Inductive warning :=
| AttachmentNotFound (decodedFilename : string) (filePath : Fs.path).

(** The callback of lines 392-420, for the file [filePath] of the
    directory [projectDir]; [None] when [decodeURIComponent] throws. *)
Definition attachment_target (root : Fs.node) (projectDir : Fs.path)
    (filePath : Fs.path) (m : attachment_link)
    : option (string * list warning) :=
  decodedFilename ← decodeURIComponent (filename m);
  let localAttachmentsDir := projectDir ++ ["attachments"%string] in
  if Fs.existsSync root localAttachmentsDir decodedFilename then
    Some (alt m +:+ "(attachments/" +:+ encodeURIComponent decodedFilename +:+ ")", [])
  else
    let parentDir := Fs.dirname projectDir in
    entries ← Fs.readdirSync root parentDir;
    let projects := fst <$> filter (fun e => Fs.isDirectory (snd e) = true) entries in
    match find (fun proj => Fs.existsSync root
                              (parentDir ++ [proj; "attachments"%string])
                              decodedFilename) projects with
    | Some proj =>
        Some (alt m +:+ "(../" +:+ proj +:+ "/attachments/" +:+
              encodeURIComponent decodedFilename +:+ ")", [])
    | None =>
        Some (matched m, [AttachmentNotFound decodedFilename filePath])
    end.

(** The callbacks run in the order of the matches; the first that throws
    ends the replacement. *)
Fixpoint render_with (f : attachment_link -> option (string * list warning))
    (ps : list (piece attachment_link)) : option (string * list warning) :=
  match ps with
  | [] => Some (EmptyString, [])
  | Lit c :: ps =>
      '(s, ws) ← render_with f ps;
      Some (String c s, ws)
  | Hit m :: ps =>
      '(r, w1) ← f m;
      '(s, w2) ← render_with f ps;
      Some (r +:+ s, w1 ++ w2)
  end.

Definition category3 (root : Fs.node) (filePath : Fs.path) (content : string)
    : option (string * list warning) :=
  render_with (attachment_target root (Fs.dirname filePath) filePath)
    (scan attachment_url 0 content).

(** Categories 1 and 2, in the order [processMarkdownFile] applies them. *)
Definition wiki_links (currentProject : string) (content : string) : string :=
  category2 currentProject (category1 content).

(** [processMarkdownFile(filePath)]: the new filesystem and the warnings
    printed; [None] when the function throws. *)
Definition processMarkdownFile (root : Fs.node) (filePath : Fs.path)
    : option (Fs.node * list warning) :=
  content ← Fs.readFileSync root filePath;
  let currentProject := Fs.basename (Fs.dirname filePath) in
  let content := wiki_links currentProject content in
  '(content, warnings) ← category3 root filePath content;
  root ← Fs.writeFileSync filePath content root;
  Some (root, warnings).

(** [walkDir(dir)], where [n] is what [dir] names when the walk gets
    there: rewriting changes the content of files, never the shape of the
    tree. *)
Fixpoint walkDir (n : Fs.node) (dir : Fs.path)
    (st : Fs.node * list warning) {struct n} : option (Fs.node * list warning) :=
  match n with
  | Fs.File _ => None
  | Fs.Dir es =>
      (fix each (es : list (string * Fs.node)) (st : Fs.node * list warning)
         : option (Fs.node * list warning) :=
         match es with
         | [] => Some st
         | (file, child) :: es =>
             match child with
             | Fs.Dir _ =>
                 st ← walkDir child (dir ++ [file]) st;
                 each es st
             | Fs.File _ =>
                 if endsWith ".md" file then
                   '(root, warnings) ← processMarkdownFile (fst st) (dir ++ [file]);
                   each es (root, snd st ++ warnings)
                 else each es st
             end
         end) es st
  end.

(** [outputDir = path.join(__dirname, 'output')] (line 320). *)
Definition outputDir (dirname : Fs.path) : Fs.path := dirname ++ ["output"%string].

(** The script: [walkDir(outputDir)]. *)
Definition fix_links (dirname : Fs.path) (root : Fs.node)
    : option (Fs.node * list warning) :=
  n ← Fs.lookup (outputDir dirname) root;
  walkDir n (outputDir dirname) (root, []).
End WithUrl.

End LinkRewriter.

(** ** IndexBuilder (create-indexes.js) *)

Module IndexBuilder.
Import Text.

(** [projectMetadata], filled by
    [metadata.forEach(p => projectMetadata[p.identifier] = p.name)]. *)
Definition load_metadata (metadata : list (string * string)) : gmap string string :=
  foldl (fun m p => <[fst p := snd p]> m) ∅ metadata.

(** [projectMetadata[projectId] || projectId] *)
Definition project_name (projectMetadata : gmap string string)
    (projectId : string) : string :=
  match projectMetadata !! projectId with
  | Some n => if String.eqb n "" then projectId else n
  | None => projectId
  end.

(** [fs.readdirSync(projectDir).filter(f => f.endsWith('.md'))] *)
Definition md_files (entries : list (string * Fs.node)) : list string :=
  List.filter (endsWith ".md") (fst <$> entries).

(** [list.includes(x)] *)
Definition list_includes (x : string) (l : list string) : bool :=
  existsb (String.eqb x) l.

Definition variations (projectName : string) : list string :=
  [ "Wiki.md"; "Index.md";
    projectName +:+ ".md";
    replace_spaces "_" false projectName +:+ ".md";
    replace_spaces "-" false projectName +:+ ".md";
    replace_spaces "" false projectName +:+ ".md" ].

Definition nameVariations (projectName : string) : list string :=
  let projectNameLower := toLowerCase projectName in
  [ replace_spaces "" false projectNameLower;
    replace_spaces "_" false projectNameLower;
    replace_spaces "-" false projectNameLower ].

(** The test of the partial-match loop (lines 63-69). *)
Definition partial_match (projectName file : string) : bool :=
  let fileLower := replace_first ".md" "" (toLowerCase file) in
  existsb (fun nameVar => String.eqb fileLower nameVar || includes nameVar fileLower)
    (nameVariations projectName).

Definition findIndexCandidate (entries : list (string * Fs.node))
    (projectName : string) : option string :=
  let files := md_files entries in
  match find (fun candidate => list_includes candidate files) (variations projectName) with
  | Some candidate => Some candidate
  | None =>
      let variationsLower := toLowerCase <$> variations projectName in
      match find (fun file => list_includes (toLowerCase file) variationsLower) files with
      | Some file => Some file
      | None =>
          match find (partial_match projectName) files with
          | Some file => Some file
          | None => head files
          end
      end
  end.

Definition nl : string := String "010"%char EmptyString.

(** The basic index of lines 105-110. *)
Definition basic_index (projectName : string) (files : list string) : string :=
  foldl (fun content file =>
           let name := replace_first ".md" "" file in
           content +:+ "- [" +:+ name +:+ "](" +:+ file +:+ ")" +:+ nl)
        ("# " +:+ projectName +:+ nl +:+ nl +:+ "## Pages" +:+ nl +:+ nl) files.

Inductive log_line :=
| CreatedFrom (projectId candidate : string)
| AlreadyExists (projectId : string)
| CreatedBasic (projectId : string).

(** Writing [Index.md] into a directory; [None] when something of that
    name is a directory. *)
Definition write_index (content : string) (entries : list (string * Fs.node))
    : option (list (string * Fs.node)) :=
  match Fs.entry "Index.md" entries with
  | Some (Fs.Dir _) => None
  | _ => Some (Fs.set_entry "Index.md" (Fs.File content) entries)
  end.

(** The body of [projectDirs.forEach] (lines 85-116) for the project
    directory [projectId] whose entries are [entries]: the entries
    afterwards and the line printed; [None] when a filesystem call throws. *)
Definition createProjectIndex (projectMetadata : gmap string string)
    (projectId : string) (entries : list (string * Fs.node))
    : option (list (string * Fs.node) * log_line) :=
  let projectName := project_name projectMetadata projectId in
  match findIndexCandidate entries projectName with
  | Some candidate =>
      if negb (String.eqb candidate "Index.md") then
        match Fs.entry candidate entries with
        | Some (Fs.File candidateContent) =>
            entries ← write_index candidateContent entries;
            Some (entries, CreatedFrom projectId candidate)
        | _ => None
        end
      else Some (entries, AlreadyExists projectId)
  | None =>
      let files := md_files entries in
      entries ← write_index (basic_index projectName files) entries;
      Some (entries, CreatedBasic projectId)
  end.

(** [createProjectIndexes()] on the entries of the output directory. *)
Fixpoint createProjectIndexes (projectMetadata : gmap string string)
    (items : list (string * Fs.node))
    : option (list (string * Fs.node) * list log_line * list (string * string)) :=
  match items with
  | [] => Some ([], [], [])
  | (item, Fs.File c) :: items =>
      '(items, lines, projectList) ← createProjectIndexes projectMetadata items;
      Some ((item, Fs.File c) :: items, lines, projectList)
  | (projectId, Fs.Dir entries) :: items =>
      '(entries, line) ← createProjectIndex projectMetadata projectId entries;
      '(items, lines, projectList) ← createProjectIndexes projectMetadata items;
      Some ((projectId, Fs.Dir entries) :: items, line :: lines,
            (projectId, project_name projectMetadata projectId) :: projectList)
  end.

(** *** Where the post-passes look (fix-links.js line 320,
    create-indexes.js lines 12 and 17) *)

(** [path.join(__dirname, 'output')] *)
Definition outputDir (dirname : Fs.path) : Fs.path := dirname ++ ["output"].

(** [path.join(outputDir, 'projects-metadata.json')] *)
Definition metadata_path (dirname : Fs.path) : Fs.path :=
  outputDir dirname ++ ["projects-metadata.json"].

End IndexBuilder.

(** ** The export, replayed on the filesystem *)

Module Exporter.
Import Crawler.

(** [fs.mkdirSync(p)] inside [initDirectory]: an existing entry is left as
    it is; [None] when the parent is missing (the error is thrown again). *)
Fixpoint mkdirSync (p : Fs.path) (n : Fs.node) : option Fs.node :=
  match p, n with
  | [], _ => Some n
  | [x], Fs.Dir es =>
      match Fs.entry x es with
      | Some _ => Some n
      | None => Some (Fs.Dir (Fs.set_entry x (Fs.Dir []) es))
      end
  | x :: p, Fs.Dir es =>
      match Fs.entry x es with
      | Some child =>
          match mkdirSync p child with
          | Some child' => Some (Fs.Dir (Fs.set_entry x child' es))
          | None => None
          end
      | None => None
      end
  | _, Fs.File _ => None
  end.

(** A path of the program, relative to the working directory unless it
    starts with a separator. *)
Definition resolve (cwd : Fs.path) (p : string) : Fs.path :=
  fst (Fs.join (if Text.startsWith "/" p then [] else cwd) p).

Definition quote : string := String "034"%char EmptyString.
Definition backslash : string := String "092"%char EmptyString.

(** [JSON.stringify] of a string. *)
Definition json_char (c : ascii) : string :=
  let n := N_of_ascii c in
  if (n =? 34)%N then backslash +:+ quote
  else if (n =? 92)%N then backslash +:+ backslash
  else if (n =? 8)%N then backslash +:+ "b"
  else if (n =? 9)%N then backslash +:+ "t"
  else if (n =? 10)%N then backslash +:+ "n"
  else if (n =? 12)%N then backslash +:+ "f"
  else if (n =? 13)%N then backslash +:+ "r"
  else if (n <? 32)%N then
    backslash +:+ "u00" +:+
    String (Text.lower (Text.hex_digit (n / 16)))
      (String (Text.lower (Text.hex_digit (n mod 16))) EmptyString)
  else String c EmptyString.

Fixpoint json_chars (s : string) : string :=
  match s with
  | EmptyString => EmptyString
  | String c s => json_char c +:+ json_chars s
  end.

Definition json_string (s : string) : string := quote +:+ json_chars s +:+ quote.

(** [JSON.stringify(projectMetadata, null, 2)] *)
Definition json_project (p : string * string) : string :=
  "  {" +:+ IndexBuilder.nl +:+
  "    " +:+ json_string "identifier" +:+ ": " +:+ json_string (fst p) +:+ "," +:+ IndexBuilder.nl +:+
  "    " +:+ json_string "name" +:+ ": " +:+ json_string (snd p) +:+ IndexBuilder.nl +:+
  "  }".

Fixpoint json_projects (l : list (string * string)) : string :=
  match l with
  | [] => EmptyString
  | [p] => json_project p +:+ IndexBuilder.nl
  | p :: l => json_project p +:+ "," +:+ IndexBuilder.nl +:+ json_projects l
  end.

Definition stringify (l : list (string * string)) : string :=
  match l with
  | [] => "[]"
  | _ => "[" +:+ IndexBuilder.nl +:+ json_projects l +:+ "]"
  end.

Definition bytes (c : file_content) : string :=
  match c with
  | Text s => s
  | Binary s => s
  | Metadata l => stringify l
  end.

Definition apply (cwd : Fs.path) (root : option Fs.node) (op : fs_op)
    : option Fs.node :=
  root ← root;
  match op with
  | Mkdir p => mkdirSync (resolve cwd p) root
  | WriteFile p c => Fs.writeFileSync (resolve cwd p) (bytes c) root
  end.

(** The filesystem after the calls of a run; [None] when one of them
    throws. *)
Definition replay (cwd : Fs.path) (ops : list fs_op) (root : Fs.node)
    : option Fs.node :=
  foldl (apply cwd) (Some root) ops.

End Exporter.

(** ** Observations of a run, and concrete servers *)

Module Scenario.
Import Http Crawler.

Definition ok (d : document) (raw : string) : outcome :=
  {| err := None; resp := Some {| statusCode := 200 |};
     content := Some {| raw := raw; json := Some d |} |}.

Definition status (code : Z) (raw : string) : outcome :=
  {| err := None; resp := Some {| statusCode := code |};
     content := Some {| raw := raw; json := None |} |}.

Definition listing (l : list Project) : document :=
  {| projects := Some l; wiki_pages := None; wiki_page := None |}.
Definition index (titles : list string) : document :=
  {| projects := None; wiki_pages := Some titles; wiki_page := None |}.
Definition page (p : WikiPage) : document :=
  {| projects := None; wiki_pages := None; wiki_page := Some p |}.

Definition project (n : nat) : Project :=
  {| identifier := "p" +:+ pretty n; name := "Project " +:+ pretty n |}.

(** [n] projects numbered from [from]. *)
Definition batch (from n : nat) : list Project := project <$> seq from n.

(** A listing of 57 projects served in pages of 25, 25 and 7; no project
    has a wiki. *)
Definition server_57 (r : request) (n : nat) : nat * outcome :=
  match r with
  | GetProjects 0 => (80%nat, ok (listing (batch 0 25)) "{...}")
  | GetProjects 25 => (80%nat, ok (listing (batch 25 25)) "{...}")
  | GetProjects 50 => (80%nat, ok (listing (batch 50 7)) "{...}")
  | _ => (40%nat, status 404 "Not found")
  end.

(** A listing whose second page is refused with HTTP 500. *)
Definition server_500 (r : request) (n : nat) : nat * outcome :=
  match r with
  | GetProjects 0 => (80%nat, ok (listing (batch 0 25)) "{...}")
  | GetProjects _ => (80%nat, status 500 "Internal Server Error")
  | _ => (40%nat, status 404 "Not found")
  end.

(** A listing whose second page is served with a body that is not JSON. *)
Definition server_garbled (r : request) (n : nat) : nat * outcome :=
  match r with
  | GetProjects 0 => (80%nat, ok (listing (batch 0 25)) "{...}")
  | GetProjects _ =>
      (80%nat, {| err := None; resp := Some {| statusCode := 200 |};
                  content := Some {| raw := "<html>"; json := None |} |})
  | _ => (40%nat, status 404 "Not found")
  end.

(** One project, [demo], with two wiki pages; [Home] has one attachment. *)
Definition demo : Project := {| identifier := "demo"; name := "Demo" |}.
Definition logo : Attachment := {| id := Some 7; filename := "logo.png" |}.
Definition home : WikiPage :=
  {| title := "Home"; text := "Welcome"; attachments := Some [logo] |}.
Definition setup : WikiPage :=
  {| title := "Setup"; text := "Install"; attachments := None |}.

Definition server_demo (r : request) (n : nat) : nat * outcome :=
  match r with
  | GetProjects _ => (80%nat, ok (listing [demo]) "{...}")
  | GetWikiIndex _ => (60%nat, ok (index ["Home"; "Setup"]) "{...}")
  | GetWikiPage _ "Home" => (70%nat, ok (page home) "{...}")
  | GetWikiPage _ _ => (90%nat, ok (page setup) "{...}")
  | GetAttachment _ => (50%nat, ok (listing []) "PNG")
  end.

(** The same server when it is busy at first: the listing gets HTTP 503
    once, then succeeds. *)
Definition server_busy (r : request) (n : nat) : nat * outcome :=
  match r, n with
  | GetProjects _, O => (100%nat, status 503 "Service Unavailable")
  | _, _ => server_demo r n
  end.

(** What is on the wire: request, attempt, origin and instant relative to
    the start [t0]. *)
Definition trace (t0 : Z) (w : world) : list (request * nat * origin * Z) :=
  (fun s => (what s, try s, via s, instant s - t0)) <$> wire w.

(** A request function that is refused twice (HTTP 503, then a reset
    connection) and then answered. *)
Definition refused_twice (n : nat) : outcome :=
  match n with
  | 0%nat => status 503 "Service Unavailable"
  | 1%nat => {| err := Some {| code := "ECONNRESET" |}; resp := None; content := None |}
  | _ => ok (listing []) "{}"
  end.

(** An exported tree under [/app/output]: project [alpha] with four pages
    and two attachments, projects [beta] and [gamma] with one attachment
    of the same name. *)
Definition site : Fs.node :=
  Fs.Dir [("app", Fs.Dir [("output", Fs.Dir [
    ("alpha", Fs.Dir [
       ("Home.md", Fs.File "![pic](http://srv/attachments/download/42/My%20File.png)");
       ("Links.md", Fs.File "[spec](http://srv/attachments/download/5/spec.pdf)");
       ("Shared.md", Fs.File "![d](http://srv/attachments/7/other.png)");
       ("Missing.md", Fs.File "![n](http://srv/attachments/7/none.png)");
       ("attachments", Fs.Dir [("My File.png", Fs.File "PNG");
                               ("spec.pdf", Fs.File "PDF")])]);
    ("beta", Fs.Dir [("attachments", Fs.Dir [("other.png", Fs.File "PNG")])]);
    ("gamma", Fs.Dir [("attachments", Fs.Dir [("other.png", Fs.File "PNG")])]);
    ("projects-metadata.json", Fs.File "[]")])])].

Definition alpha : Fs.path := ["app"; "output"; "alpha"].

(** The content of a file after [processMarkdownFile], with the warnings
    printed. *)
Definition rewritten (root : Fs.node) (filePath : Fs.path)
    : option (string * list LinkRewriter.warning) :=
  '(root, warnings) ← LinkRewriter.processMarkdownFile "http://srv" root filePath;
  content ← Fs.readFileSync root filePath;
  Some (content, warnings).

(** The directory of a project named "My Project" where [Wiki.md] sits
    next to [My_Project.md]. *)
Definition my_project_dir : list (string * Fs.node) :=
  [("My_Project.md", Fs.File "home"); ("Wiki.md", Fs.File "wiki")].

Definition my_project : gmap string string :=
  IndexBuilder.load_metadata [("myproj", "My Project")].

(** A configuration that sends the export to [export]. *)
Definition to_export : config :=
  {| redmineUrl := Some "http://srv"; user := None; password := None;
     config_outputDir := Some "export"; insecure := false |}.

(** A machine where the program is installed in [/app] and nothing has
    been exported yet. *)
Definition fresh : Fs.node := Fs.Dir [("app", Fs.Dir [])].

End Scenario.

(** ** Further properties of runs and of texts that the theorems of
    Part III are stated with *)

Module Bounds.
Import Throttle.

(** The last start of a throttle is not in the future and none of its
    timers is due later than one interval from now. *)
Record prompt {Task : Type} (m : Z) (s : sys Task) : Prop := {
  prompt_interval : minIntervalMs (thr s) = m;
  prompt_last : lastTime (thr s) <= clock s;
  prompt_timers : Forall (fun due => due <= clock s + m) (timers s)
}.
End Bounds.

Module Utf8.
Import Text.

(** The bytes of [s] are the UTF-8 encoding of a sequence of code points:
    the check [decodeURIComponent] makes on escaped bytes, made on every
    byte. *)
Definition valid (s : string) : bool :=
  well_formed None ((fun c => Escaped (N_of_ascii c)) <$> list_ascii_of_string s).

(** What [decodeURIComponent] reads in [encodeURIComponent(s)]. *)
Definition units (s : string) : list unit_ :=
  (fun c => if unreserved c then Plain c else Escaped (N_of_ascii c))
    <$> list_ascii_of_string s.
End Utf8.

(** ** class Redmine: the constructor and newRequest (main.js, lines
    70-94), and the paths of the four requests *)

Module Redmine.
Import Crawler.

Record t := { redmineUrl : option string; user : option string; password : option string }.

(** [constructor(config)]: one trailing slash is taken off the URL. *)
Definition new (config : Crawler.config) : t :=
  {| redmineUrl :=
       match Crawler.redmineUrl config with
       | Some u =>
           if negb (String.eqb u "") && ends_with_slash u
           then Some (substring 0 (String.length u - 1) u)
           else Some u
       | None => None
       end;
     user := Crawler.user config;
     password := Crawler.password config |}.

(** The options object given to [request]. *)
Record options := {
  url : string;
  auth : option (string * string);     (* [{user, password}] *)
  encoding : option string
}.

(** [newRequest(requestPath)]: credentials are attached when both are
    truthy. *)
Definition newRequest (r : t) (requestPath : string) : options :=
  {| url := plus (redmineUrl r) requestPath;
     auth :=
       match user r, password r with
       | Some u, Some p =>
           if negb (String.eqb u "") && negb (String.eqb p "") then Some (u, p)
           else None
       | _, _ => None
       end;
     encoding := None |}.

(** The path each request is made with (lines 118, 149, 175-176, 198);
    numbers are written in decimal. *)
Definition requestPath (q : request) : string :=
  match q with
  | GetProjects offset => "/projects.json?offset=" +:+ pretty offset
  | GetWikiIndex identifier => "/projects/" +:+ identifier +:+ "/wiki/index.json"
  | GetWikiPage identifier pageName =>
      "/projects/" +:+ identifier +:+ "/wiki/" +:+
      Text.encodeURIComponent pageName +:+ ".json" +:+ "?include=attachments"
  | GetAttachment id => "/attachments/download/" +:+ pretty id
  end.

(** What [request] is called with for [q]; an attachment is asked for as
    binary (line 199). *)
Definition request_options (r : t) (q : request) : options :=
  let o := newRequest r (requestPath q) in
  match q with
  | GetAttachment _ => {| url := url o; auth := auth o; encoding := Some "binary"%string |}
  | _ => o
  end.
End Redmine.

(** ** Objects used as maps *)

Module Objects.
(** The names an object created by [{}] inherits from [Object.prototype]:
    reading one of them yields a function, not [undefined], and assigning
    a string to [__proto__] is ignored.  A map modelled as a [gmap] stands
    for such an object on every other key. *)
Definition inherited : list string :=
  [ "constructor"; "__proto__"; "hasOwnProperty"; "isPrototypeOf";
    "propertyIsEnumerable"; "toLocaleString"; "toString"; "valueOf";
    "__defineGetter__"; "__defineSetter__"; "__lookupGetter__";
    "__lookupSetter__" ]%string.
End Objects.

(** ** The top-level index (create-indexes.js, lines 121-142) *)

Module MainIndex.
Import IndexBuilder.

(** An entry of the output directory that [createProjectIndexes] takes for
    a project, and one it has left with an [Index.md]. *)
Definition is_project (e : string * Fs.node) : bool := Fs.isDirectory (snd e).

Definition indexed (e : string * Fs.node) : Prop :=
  match snd e with
  | Fs.Dir es => Fs.entry "Index.md" es <> None
  | Fs.File _ => True
  end.

Section Collation.
(** [a.localeCompare(b)]: negative, zero or positive. *)
Variable localeCompare : string -> string -> Z.

(** [projectList.sort((a, b) => a.name.localeCompare(b.name))] on the
    pairs [(id, name)]: the sort is stable, an entry goes before the first
    entry that does not come before it. *)
Fixpoint insert (p : string * string) (l : list (string * string))
    : list (string * string) :=
  match l with
  | [] => [p]
  | q :: l =>
      if localeCompare (snd p) (snd q) <=? 0 then p :: q :: l
      else q :: insert p l
  end.

Definition sort (projectList : list (string * string)) : list (string * string) :=
  foldr insert [] projectList.

(** The line of a project: [- [name](id/Index.md)]. *)
Definition line (project : string * string) : string :=
  "- [" +:+ snd project +:+ "](" +:+ fst project +:+ "/Index.md)" +:+ nl.

Definition heading : string :=
  "# Redmine Wiki Export" +:+ nl +:+ nl +:+
  "This site contains exported wiki pages from Redmine." +:+ nl +:+ nl +:+
  "## Projects" +:+ nl +:+ nl.

Definition content (projectList : list (string * string)) : string :=
  foldl (fun content project => content +:+ line project) heading (sort projectList).

(** [createMainIndex(projectList)]; [None] when the write throws. *)
Definition createMainIndex (dirname : Fs.path) (projectList : list (string * string))
    (root : Fs.node) : option Fs.node :=
  Fs.writeFileSync (outputDir dirname ++ ["Index.md"%string]) (content projectList) root.

(** Each entry comes before the next, or is equal to it, by name. *)
Fixpoint ordered (l : list (string * string)) : Prop :=
  match l with
  | [] => True
  | p :: l' =>
      match l' with
      | [] => True
      | q :: _ => localeCompare (snd p) (snd q) <= 0
      end /\ ordered l'
  end.
End Collation.
End MainIndex.

(** ** What a pass over the tree may change *)

Module Tree.

(** What [p] names in the tree, as far as its shape goes: nothing, a
    file, or a directory with the names it lists. *)
Definition kind (n : Fs.node) : option (list string) :=
  match n with
  | Fs.File _ => None
  | Fs.Dir es => Some (fst <$> es)
  end.

Definition shape_at (root : Fs.node) (p : Fs.path) : option (option (list string)) :=
  kind <$> Fs.lookup p root.

(** [root'] has the shape of [root], and the files whose name does not
    end in [.md] have the content they have in [root]. *)
Definition only_markdown_differs (root root' : Fs.node) : Prop :=
  forall p,
    shape_at root' p = shape_at root p /\
    (Text.endsWith ".md" (Fs.basename p) = false ->
     Fs.readFileSync root' p = Fs.readFileSync root p).
End Tree.

(** ** What every run of the crawler keeps *)

Module Kept.
Import Http Crawler.

(** The wait after attempt [k] of a request has come back with a
    transient outcome: [baseDelay * 2^k]. *)
Definition backoff_delay (k : nat) : Z := Retry.baseDelay_default * 2 ^ Z.of_nat k.

(** Attempt [k] of the request [r] is on the wire, and it left at least
    [wait] before [bound]. *)
Definition sent_before (l : list sent) (r : request) (k : nat) (wait bound : Z)
    : Prop :=
  exists j s, l !! j = Some s /\ what s = r /\ try s = k /\ instant s + wait <= bound.

(** Every retry on the wire comes after the attempt before it and, when
    the timers were on time ([timely]), not sooner than the back-off delay
    after it was sent. *)
Definition backed_off (timely : Prop) (l : list sent) : Prop :=
  forall i s, l !! i = Some s -> (0 < try s)%nat ->
    exists j s', (j < i)%nat /\ l !! j = Some s' /\
      what s' = what s /\ S (try s') = try s /\
      (timely -> instant s' + backoff_delay (try s') <= instant s).

Section Run.
Variable server : request -> nat -> nat * outcome.
Variable outputDir : option string.

(** The server gave [o] in reply to a call of [request] for [r] that is
    on the wire [l]. *)
Definition answered (l : list sent) (r : request) (o : outcome) : Prop :=
  exists s, In s l /\ what s = r /\ snd (server r (try s)) = o.

(** The body of [o] parses into [d]. *)
Definition parsed (o : outcome) (d : document) : Prop :=
  exists b, content o = Some b /\ json b = Some d.

(** The server returned [p] in a page of the project listing. *)
Definition listed (l : list sent) (p : Project) : Prop :=
  exists offset o d ps,
    answered l (GetProjects offset) o /\ parsed o d /\
    projects d = Some ps /\ In p ps.

(** The server returned [page] for a page of the wiki of [p]. *)
Definition fetched (l : list sent) (p : Project) (page : WikiPage) : Prop :=
  exists pageName o d,
    answered l (GetWikiPage (identifier p) pageName) o /\ parsed o d /\
    wiki_page d = Some page.

(** [a] is an attachment of such a page of a listed project. *)
Definition attached (l : list sent) (p : Project) (a : Attachment) : Prop :=
  exists page atts,
    listed l p /\ fetched l p page /\ attachments page = Some atts /\ In a atts.

(** Where the files of the export go and what is in them: the output
    directory; for a project of the listing, the directory named by its
    identifier; in it, for a page the server returned, the file named by
    the title the server gave, with the text the server gave, and the
    directory [attachments]; in that one, for an attachment of the page,
    the file named by its file name, with the body the server returned
    for its id; in the output directory, the sidecar file with
    identifiers and names of listed projects. *)
Inductive placed (l : list sent) : fs_op -> Prop :=
| placed_root d :
    outputDir = Some d -> placed l (Mkdir d)
| placed_project p :
    listed l p -> placed l (Mkdir (plus outputDir (identifier p)))
| placed_attachments p page :
    listed l p -> fetched l p page ->
    placed l (Mkdir (plus outputDir (identifier p) +:+ "/attachments"))
| placed_metadata ps :
    Forall (listed l) ps ->
    placed l (WriteFile (plus outputDir "projects-metadata.json")
                (Metadata ((fun p => (identifier p, name p)) <$> ps)))
| placed_page p page :
    listed l p -> fetched l p page ->
    placed l (WriteFile (plus outputDir (identifier p) +:+ "/" +:+ title page +:+ ".md")
                (Text (text page)))
| placed_attachment p a n o b :
    attached l p a -> has_id a = Some n ->
    answered l (GetAttachment n) o -> content o = Some b ->
    placed l (WriteFile ((plus outputDir (identifier p) +:+ "/attachments")
                           +:+ "/" +:+ filename a)
                (Binary (raw b))).

(** What a [retryRequest] in progress is about: the request it makes
    belongs to the function that waits for it, and the project, page or
    attachment that function holds came from the server. *)
Definition known (l : list sent) (p : pending) : Prop :=
  match awaiting p with
  | AtProjectListPage => exists offset, req p = GetProjects offset
  | AtWikiPages project => listed l project
  | AtWikiPage project pageName =>
      listed l project /\ req p = GetWikiPage (identifier project) pageName
  | AtAttachment dir a =>
      exists project n,
        attached l project a /\
        dir = plus outputDir (identifier project) +:+ "/attachments" /\
        has_id a = Some n /\ req p = GetAttachment n
  end.

(** A task of the throttle holds a listed project. *)
Definition queued (l : list sent) (j : job) : Prop :=
  match j with
  | ProjectListJob _ => True
  | WikiPagesJob project => listed l project
  end.

(** An armed retry: its attempt number is within the budget, and the
    attempt before it was sent at least the back-off delay before the timer
    is due. *)
Definition retrying (l : list sent) (t : Z * timer_callback) : Prop :=
  match snd t with
  | ThrottleTimer => True
  | TryRequest p =>
      (1 <= attempt p <= Retry.maxRetries_default)%nat /\
      known l p /\
      sent_before l (req p) (attempt p - 1) (backoff_delay (attempt p - 1)) (fst t)
  end.

(** A request in flight: it is on the wire, and its reply is the
    server's. *)
Definition flying (l : list sent) (r : Z * pending * outcome) : Prop :=
  known l (snd (fst r)) /\
  (exists bound, sent_before l (req (snd (fst r))) (attempt (snd (fst r))) 0 bound) /\
  snd r = snd (server (req (snd (fst r))) (attempt (snd (fst r)))).

(** What holds between two callbacks; [timely] stands for: no timer has
    fired before it was due. *)
Record kept (timely : Prop) (w : world) : Prop := {
  kept_budget : Forall (fun s => (try s <= Retry.maxRetries_default)%nat) (wire w);
  kept_backed : backed_off timely (wire w);
  kept_past : Forall (fun s => instant s <= now w) (wire w);
  kept_timers : Forall (retrying (wire w)) (timers w);
  kept_inflight : Forall (flying (wire w)) (inflight w);
  kept_queue : Forall (queued (wire w)) (Throttle.queue (throttle w));
  kept_acc : Forall (listed (wire w)) (projects_acc w);
  kept_disk : Forall (placed (wire w)) (disk w)
}.
End Run.
End Kept.

(** ** The URL inside the regular expressions (fix-links.js, line 339) *)

Module RegexEscape.
Local Open Scope char_scope.

(** The characters of the class [[.*+?^${}()|[\]\\]]; they are the syntax
    characters of regular expressions. *)
Definition special (c : ascii) : bool :=
  existsb (Ascii.eqb c)
    ["."; "*"; "+"; "?"; "^"; "$"; "{"; "}"; "("; ")"; "|"; "["; "]"; "092"].

(** [s.replace(/[.*+?^${}()|[\]\\]/g, '\\$&')]: a backslash goes before
    each of them. *)
Fixpoint escape (s : string) : string :=
  match s with
  | EmptyString => EmptyString
  | String c s =>
      if special c then String "092" (String c (escape s))
      else String c (escape s)
  end.

Definition escapedUrl (redmineUrl : string) : string := escape redmineUrl.

(** The text a pattern stands for when the pattern is a sequence of
    literal characters: a character that is not a syntax character stands
    for itself, and so does a syntax character after a backslash.  [None]
    for a pattern with anything else in it. *)
Fixpoint literal (skip : bool) (pattern : string) : option string :=
  match pattern with
  | EmptyString => if skip then None else Some EmptyString
  | String c rest =>
      if skip then
        if special c then String c <$> literal false rest else None
      else if Ascii.eqb c "092" then literal true rest
      else if special c then None
      else String c <$> literal false rest
  end.
End RegexEscape.

(** ** The order of the throttled requests *)

Module Fifo.
Import Http Crawler.

(** The request a throttled task sends when it starts. *)
Definition job_request (j : job) : request :=
  match j with
  | ProjectListJob offset => GetProjects offset
  | WikiPagesJob project => GetWikiIndex (identifier project)
  end.

(** The requests sent from throttled tasks, oldest first. *)
Definition lane_sent (w : world) : list sent := List.filter from_lane (wire w).

Definition lane_requests (w : world) : list request := what <$> lane_sent w.

(** The requests sent from throttled tasks and the requests of the tasks
    still queued are together the requests of the tasks enqueued, in the
    order of the calls of [enqueue]. *)
Definition in_order (w : world) : Prop :=
  lane_requests w ++ (job_request <$> Throttle.queue (throttle w))
  = job_request <$> enqueued w.

(** A step that leaves the throttle, the calls of [enqueue] and the
    requests of the throttled tasks alone. *)
Definition calm (f : world -> world) : Prop :=
  forall w, throttle (f w) = throttle w /\ enqueued (f w) = enqueued w /\
            lane_sent (f w) = lane_sent w.
End Fifo.

(** ** Reading the sidecar file (create-indexes.js, line 17)

    [JSON.parse], as far as the sidecar file needs it: an array of objects
    whose members are [identifier] and [name], in this order, both strings.
    The result is [None] when the text is not JSON, and also for JSON that
    this reader does not cover (numbers, literals, nested values, another
    order of the members, [\u] escapes outside ASCII). *)

Module Json.
Local Open Scope char_scope.

Inductive token :=
| Punct (c : ascii)      (* one of [[ ] { } : ,] *)
| Str (s : string).      (* a string, unescaped *)

Inductive state :=
| Outside
| Inside (acc : list ascii)                     (* the characters read, last first *)
| Escape (acc : list ascii)                     (* after a backslash *)
| Unicode (acc : list ascii) (digits : list N). (* after [\u] *)

Definition is_space (c : ascii) : bool :=
  existsb (Ascii.eqb c) [" "; "009"; "010"; "013"].

Definition is_punct (c : ascii) : bool :=
  existsb (Ascii.eqb c) ["["; "]"; "{"; "}"; ":"; ","].

(** The character an escape stands for. *)
Definition escaped (c : ascii) : option ascii :=
  if Ascii.eqb c "034" then Some "034"
  else if Ascii.eqb c "092" then Some "092"
  else if Ascii.eqb c "/" then Some "/"
  else if Ascii.eqb c "b" then Some "008"
  else if Ascii.eqb c "f" then Some "012"
  else if Ascii.eqb c "n" then Some "010"
  else if Ascii.eqb c "r" then Some "013"
  else if Ascii.eqb c "t" then Some "009"
  else None.

Fixpoint lex (st : state) (s : string) : option (list token) :=
  match s with
  | EmptyString => match st with Outside => Some [] | _ => None end
  | String c rest =>
      match st with
      | Outside =>
          if is_space c then lex Outside rest
          else if Ascii.eqb c "034" then lex (Inside []) rest
          else if is_punct c then cons (Punct c) <$> lex Outside rest
          else None
      | Inside acc =>
          if Ascii.eqb c "034" then
            cons (Str (string_of_list_ascii (rev acc))) <$> lex Outside rest
          else if Ascii.eqb c "092" then lex (Escape acc) rest
          else if (N_of_ascii c <? 32)%N then None
          else lex (Inside (c :: acc)) rest
      | Escape acc =>
          if Ascii.eqb c "u" then lex (Unicode acc []) rest
          else
            match escaped c with
            | Some x => lex (Inside (x :: acc)) rest
            | None => None
            end
      | Unicode acc digits =>
          match Text.hex_value c with
          | Some d =>
              match digits with
              | [d1; d2; d3] =>
                  let cp := (((d1 * 16 + d2) * 16 + d3) * 16 + d)%N in
                  if (cp <? 128)%N then lex (Inside (ascii_of_N cp :: acc)) rest
                  else None
              | _ => lex (Unicode acc (digits ++ [d])) rest
              end
          | None => None
          end
      end
  end.

Definition punct (c : ascii) (t : token) : bool :=
  match t with Punct x => Ascii.eqb x c | Str _ => false end.

(** The objects of the array, up to its closing bracket. *)
Fixpoint elements (ts : list token) : option (list (string * string)) :=
  match ts with
  | t1 :: Str k1 :: t2 :: Str v1 :: t3 :: Str k2 :: t4 :: Str v2 :: t5 :: more =>
      if punct "{" t1 && String.eqb k1 "identifier" && punct ":" t2 &&
         punct "," t3 && String.eqb k2 "name" && punct ":" t4 && punct "}" t5
      then
        match more with
        | [t6] => if punct "]" t6 then Some [(v1, v2)] else None
        | t6 :: more =>
            if punct "," t6 then cons (v1, v2) <$> elements more else None
        | [] => None
        end
      else None
  | _ => None
  end.

(** [JSON.parse(text)] for the sidecar file. *)
Definition parse (text : string) : option (list (string * string)) :=
  match lex Outside text with
  | Some [t1; t2] => if punct "[" t1 && punct "]" t2 then Some [] else None
  | Some (t1 :: ts) => if punct "[" t1 then elements ts else None
  | _ => None
  end.
(** The tokens of the text [JSON.stringify] writes for a project and for a
    list of projects that is not empty, after the opening bracket. *)
Definition object_tokens (p : string * string) (rest : list token) : list token :=
  Punct "{" :: Str "identifier" :: Punct ":" :: Str (fst p) :: Punct "," ::
  Str "name" :: Punct ":" :: Str (snd p) :: Punct "}" :: rest.

Fixpoint array_tokens (l : list (string * string)) : list token :=
  match l with
  | [] => []
  | [p] => object_tokens p [Punct "]"]
  | p :: l => object_tokens p (Punct "," :: array_tokens l)
  end.
End Json.

(** ** The listing as one chain *)

Module Single.
Import Http Crawler.

(** Where the listing can be between two callbacks: in a task of the
    throttle's queue, in a request in flight, in the timer of a retry. *)
Definition listing_job (j : job) : bool :=
  match j with ProjectListJob _ => true | WikiPagesJob _ => false end.

Definition listing_wait (p : pending) : bool :=
  match awaiting p with AtProjectListPage => true | _ => false end.

Definition listing_timer (t : Z * timer_callback) : bool :=
  match snd t with ThrottleTimer => false | TryRequest p => listing_wait p end.

Definition bit (b : bool) : nat := if b then 1%nat else 0%nat.

(** How many elements of [l] satisfy [f]. *)
Definition load {A} (f : A -> bool) (l : list A) : nat := length (List.filter f l).

Definition listing_threads (w : world) : nat :=
  load listing_job (Throttle.queue (throttle w)) +
  load (fun r => listing_wait (snd (fst r))) (inflight w) +
  load listing_timer (timers w).

(** The listing in progress, and the sidecar files written. *)
Definition weight (w : world) : nat :=
  listing_threads w + length (metadata_written w).

(** A step that leaves both alone. *)
Definition apart (f : world -> world) : Prop := forall w, weight (f w) = weight w.
End Single.

(** ** A second pass of the link rewriter over its own output *)

Module SecondPass.
Import Text LinkRewriter.

(** The matches of a global replacement, in the order they are found. *)
Definition hits {M} (ps : list (piece M)) : list M :=
  omap (fun p => match p with Hit m => Some m | Lit _ => None end) ps.

(** The page names category 1 finds between [[[] and []]]. *)
Definition page_names (content : string) : list string :=
  hits (scan wiki_syntax 0 content).

(** No match of category 1 starts anywhere in [s]. *)
Fixpoint quiet1 (s : string) : bool :=
  match wiki_syntax s with
  | Some _ => false
  | None =>
      match s with
      | EmptyString => true
      | String _ r => quiet1 r
      end
  end.

(** What decides a match of category 1 once [[[] has been read: the run of
    characters up to the first []] is not empty, and two []] follow
    it. *)
Definition named (y : string) : bool :=
  negb (String.eqb (fst (span (is_not "]") y)) "").

Definition closes (y : string) : bool :=
  startsWith "]]" (snd (span (is_not "]") y)).

Section WithUrl.
Variable redmineUrl : string.
Variable currentProject : string.

(** What the callback of category 2 writes between the parentheses
    (lines 369-378). *)
Definition new_target (m : wiki_link) : string :=
  let rel :=
    if String.eqb (linkProject m) currentProject then page m +:+ ".md"
    else "../" +:+ linkProject m +:+ "/" +:+ page m +:+ ".md" in
  match anchor m with Some a => rel +:+ a | None => rel end.

(** The absolute target as it stands in the text of a match. *)
Definition old_target (m : wiki_link) : string :=
  redmineUrl +:+ "/projects/" +:+ linkProject m +:+ "/wiki/" +:+ page m +:+
  (match anchor m with Some a => a | None => "" end).

(** A link that category 2 rewrites: its text does not hold the start of
    an absolute target, and the relative target written for it holds no
    []] and does not begin like an absolute one. *)
Definition link_ok (m : wiki_link) : bool :=
  negb (includes (absolute_wiki_target redmineUrl) (text m)) &&
  negb (includes "]" (new_target m)) &&
  negb (startsWith (redmineUrl +:+ "/projects/") (new_target m)).

(** Along the search of category 2 in [s]: every link it rewrites is as
    above, and where it finds nothing the text does not go on with
    [](URL/projects/].  So the start of an absolute target occurs in [s]
    only as the target of a link that is rewritten. *)
Fixpoint tidy (skip : nat) (s : string) : bool :=
  match s with
  | EmptyString => true
  | String _ r =>
      match skip with
      | S k => tidy k r
      | O =>
          match wiki_url redmineUrl s with
          | Some (n, m) => link_ok m && tidy (n - 1) r
          | None => negb (startsWith (absolute_wiki_target redmineUrl) s) && tidy 0 r
          end
      end
  end.
End WithUrl.
End SecondPass.
(* ===================================================================== *)
(** * Part II: theorems *)
(* ===================================================================== *)

(** ** Throttle: FIFO order and spacing *)

Module ThrottleFacts.
Import Throttle.
Section WithTask.
Context {Task : Type}.
Variable spawns : Task -> list Task.
Variable cost : Task -> nat.

Abbreviation sys := (sys Task).
Abbreviation react := (react spawns cost).
Abbreviation run := (run spawns cost).

Lemma spaced_snoc m ts t :
  spaced m ts -> (forall l, last ts = Some l -> l + m <= t) ->
  spaced m (ts ++ [t]).
Proof.
  unfold spaced. induction ts as [|a [|b ts] IH]; simpl; intros Hs Hl.
  - constructor.
  - constructor; [|constructor]. simpl. apply Hl. reflexivity.
  - inversion Hs as [|? ? Hab Hrest]; subst. constructor; [exact Hab|].
    apply IH; [exact Hrest|]. intros l Hlast. apply Hl. exact Hlast.
Qed.

Lemma inv_init m t0 : inv m (init (Task:=Task) m t0).
Proof. split; simpl; done. Qed.

(** Enqueueing while the runner is active only grows the queue. *)
Lemma do_enqueue_active (s : sys) fn :
  active (thr s) = true ->
  do_enqueue s fn =
    {| clock := clock s;
       thr := {| minIntervalMs := minIntervalMs (thr s);
                 queue := queue (thr s) ++ [fn];
                 lastTime := lastTime (thr s); active := true |};
       timers := timers s; started := started s;
       submitted := submitted s ++ [fn] |}.
Proof.
  intros Ha. unfold do_enqueue, enqueue, process. simpl. rewrite Ha. simpl.
  reflexivity.
Qed.

Lemma spawns_active fns : forall s : sys,
  active (thr s) = true ->
  foldl (do_enqueue) s fns =
    {| clock := clock s;
       thr := {| minIntervalMs := minIntervalMs (thr s);
                 queue := queue (thr s) ++ fns;
                 lastTime := lastTime (thr s); active := true |};
       timers := timers s; started := started s;
       submitted := submitted s ++ fns |}.
Proof.
  induction fns as [|fn fns IH]; intros s Ha; simpl.
  - rewrite !app_nil_r. destruct s as [c [m q l a] ts st su]. simpl in *.
    subst a. reflexivity.
  - rewrite IH; rewrite do_enqueue_active by exact Ha; simpl; [|reflexivity].
    rewrite <- !app_assoc. reflexivity.
Qed.

Lemma inv_advance m d (s : sys) : inv m s -> inv m (advance d s).
Proof. intros [H1 H2 H4 H5]. split; simpl; assumption. Qed.

Lemma inv_enqueue m fn (s : sys) : inv m s -> inv m (do_enqueue s fn).
Proof.
  intros [H1 H2 H4 H5].
  destruct (active (thr s)) eqn:Ha.
  - rewrite do_enqueue_active by exact Ha. split; simpl; try assumption.
    + rewrite app_assoc, H2. reflexivity.
    + destruct H5 as [Hq Hd]. split; [|exact Hd].
      destruct (queue (thr s)); [done|discriminate].
  - destruct H5 as [Hq Ht].
    unfold do_enqueue, enqueue, process. simpl. rewrite Ha, Hq. simpl.
    split; simpl; try assumption.
    + rewrite <- H2, Hq, app_nil_r. reflexivity.
    + split; [discriminate|]. rewrite Ht. simpl. eexists. split; [reflexivity|].
      intros l Hl. apply H4 in Hl. lia.
Qed.

Lemma last_snoc_Some {A} (l : list A) x : last (l ++ [x]) = Some x.
Proof. apply last_snoc. Qed.

Lemma inv_fire m i (s : sys) : inv m s -> inv m (fire spawns cost i s).
Proof.
  intros Hinv. pose proof Hinv as [H1 H2 H4 H5].
  unfold fire. destruct (timers s !! i) as [due|] eqn:Hi; [|exact Hinv].
  destruct (active (thr s)) eqn:Ha.
  2:{ destruct H5 as [_ Ht]. rewrite Ht in Hi. discriminate. }
  destruct H5 as [Hq (due' & Ht & Hgap)].
  rewrite Ht in Hi. destruct i as [|i]; [|discriminate].
  simpl in Hi. injection Hi as ->.
  unfold shift. destruct (queue (thr s)) as [|fn rest] eqn:Hqueue; [done|].
  simpl. unfold run_task. rewrite spawns_active by (simpl; exact Ha).
  simpl. rewrite Ht. simpl.
  unfold release, process. simpl.
  destruct (length (rest ++ spawns fn) =? 0)%nat eqn:Hlen; simpl.
  - apply Nat.eqb_eq in Hlen. apply nil_length_inv in Hlen.
    split; simpl.
    + exact H1.
    + rewrite fmap_app. simpl. rewrite <- app_assoc. simpl.
      rewrite Hlen, <- H2. simpl.
      apply app_eq_nil in Hlen as [-> ->]. rewrite !app_nil_r. reflexivity.
    + intros l. rewrite fmap_app. simpl. rewrite last_snoc_Some.
      intros [= <-]. reflexivity.
    + split; [exact Hlen|reflexivity].
  - apply Nat.eqb_neq in Hlen.
    split; simpl.
    + exact H1.
    + rewrite fmap_app. simpl. rewrite <- !app_assoc. simpl.
      rewrite <- H2. simpl. rewrite <- app_assoc. reflexivity.
    + intros l. rewrite fmap_app. simpl. rewrite last_snoc_Some.
      intros [= <-]. reflexivity.
    + split.
      * intros Hnil. rewrite Hnil in Hlen. simpl in Hlen. lia.
      * eexists. split; [reflexivity|].
        intros l. rewrite fmap_app. simpl. rewrite last_snoc_Some.
        intros [= <-]. rewrite H1. lia.
Qed.

Lemma inv_react m e (s : sys) : inv m s -> inv m (react s e).
Proof.
  destruct e; simpl; auto using inv_advance, inv_enqueue, inv_fire.
Qed.

Lemma inv_foldl m es : forall s : sys, inv m s -> inv m (foldl react s es).
Proof.
  induction es as [|e es IH]; intros s Hs; simpl; [exact Hs|].
  apply IH, inv_react, Hs.
Qed.


(** What starts, starts from the timer: enqueueing and waiting start
    nothing. *)
Lemma started_do_enqueue (s : sys) fn : started (do_enqueue s fn) = started s.
Proof. unfold do_enqueue. destruct (enqueue _ _ _). reflexivity. Qed.

(** A timer that fires on time starts its task one interval after the
    last start, or later. *)
Lemma spaced_fire m i (s : sys) :
  inv m s -> on_time s (Fire i) = true ->
  spaced m (started s).*2 -> spaced m (started (fire spawns cost i s)).*2.
Proof.
  intros [H1 H2 H4 H5] Hdue Hsp. unfold fire. simpl in Hdue.
  destruct (timers s !! i) as [due|] eqn:Hi; [|exact Hsp].
  apply Z.leb_le in Hdue.
  destruct (active (thr s)) eqn:Ha.
  2:{ destruct H5 as [_ Ht]. rewrite Ht in Hi. discriminate. }
  destruct H5 as [Hq (due' & Ht & Hgap)].
  rewrite Ht in Hi. destruct i as [|i]; [|discriminate].
  simpl in Hi. injection Hi as ->.
  unfold shift. destruct (queue (thr s)) as [|fn rest] eqn:Hqueue; [done|].
  simpl. unfold run_task. rewrite spawns_active by (simpl; exact Ha).
  simpl. destruct (release _ _). simpl.
  rewrite fmap_app. simpl. apply spaced_snoc; [exact Hsp|].
  intros l Hl. specialize (Hgap l Hl). lia.
Qed.

Lemma spaced_react m e (s : sys) :
  inv m s -> on_time s e = true ->
  spaced m (started s).*2 -> spaced m (started (react s e)).*2.
Proof.
  destruct e as [d|fn|i]; simpl; intros Hs Ht Hsp.
  - exact Hsp.
  - rewrite started_do_enqueue. exact Hsp.
  - apply (spaced_fire m i s Hs Ht Hsp).
Qed.

Lemma spaced_foldl m es : forall s : sys,
  inv m s -> punctual spawns cost s es = true ->
  spaced m (started s).*2 -> spaced m (started (foldl react s es)).*2.
Proof.
  induction es as [|e es IH]; intros s Hs Hp Hsp; simpl; [exact Hsp|].
  simpl in Hp. apply andb_true_iff in Hp as [He Hes].
  apply IH; [apply inv_react, Hs|exact Hes|apply spaced_react; assumption].
Qed.

Lemma punctual_app es1 : forall (s : sys) es2,
  punctual spawns cost s (es1 ++ es2)
  = punctual spawns cost s es1 && punctual spawns cost (foldl react s es1) es2.
Proof.
  induction es1 as [|e es1 IH]; intros s es2; simpl; [reflexivity|].
  rewrite IH, andb_assoc. reflexivity.
Qed.

(** The log of enqueued tasks only grows, at its end. *)
Lemma submitted_do_enqueue (s : sys) fn :
  submitted (do_enqueue s fn) = submitted s ++ [fn].
Proof. unfold do_enqueue. destruct (enqueue _ _ _). reflexivity. Qed.

Lemma submitted_spawns fns : forall s : sys,
  submitted (foldl do_enqueue s fns) = submitted s ++ fns.
Proof.
  induction fns as [|fn fns IH]; intros s; simpl.
  - rewrite app_nil_r. reflexivity.
  - rewrite IH, submitted_do_enqueue, <- app_assoc. reflexivity.
Qed.

Lemma submitted_react (s : sys) e : submitted s `prefix_of` submitted (react s e).
Proof.
  destruct e as [d|fn|i]; simpl.
  - reflexivity.
  - rewrite submitted_do_enqueue. apply prefix_app_r. reflexivity.
  - unfold fire. destruct (timers s !! i); [|reflexivity].
    destruct (shift _ _) as [[fn|] th1]; [|reflexivity].
    destruct (release _ _). simpl. unfold run_task. simpl.
    rewrite submitted_spawns. simpl. apply prefix_app_r. reflexivity.
Qed.

Lemma submitted_foldl es : forall s : sys,
  submitted s `prefix_of` submitted (foldl react s es).
Proof.
  induction es as [|e es IH]; intros s; simpl; [reflexivity|].
  etransitivity; [apply submitted_react|apply IH].
Qed.

(** The head of a non-empty queue starts when its timer is due. *)
Lemma head_starts m (s : sys) fn rest :
  inv m s -> queue (thr s) = fn :: rest ->
  exists d t,
    punctual spawns cost s [Tick d; Fire 0] = true /\
    started (react (react s (Tick d)) (Fire 0)) = started s ++ [(fn, t)].
Proof.
  intros [H1 H2 H4 H5] Hq.
  destruct (active (thr s)) eqn:Ha.
  2:{ destruct H5 as [Hnil _]. rewrite Hnil in Hq. discriminate. }
  destruct H5 as [_ (due & Ht & _)].
  exists (Z.to_nat (due - clock s)), (clock s + Z.of_nat (Z.to_nat (due - clock s))).
  split.
  - simpl. rewrite Ht. simpl. rewrite andb_true_r. apply Z.leb_le. lia.
  - simpl. unfold fire. simpl. rewrite Ht. simpl.
    unfold shift. simpl. rewrite Hq. unfold run_task.
    rewrite spawns_active by (simpl; exact Ha). simpl.
    destruct (release _ _). reflexivity.
Qed.

Lemma drain m n : forall s : sys,
  inv m s -> (n <= length (queue (thr s)))%nat ->
  exists es, punctual spawns cost s es = true /\
    length (started (foldl react s es)) = (length (started s) + n)%nat.
Proof.
  induction n as [|n IH]; intros s Hs Hn.
  - exists []. simpl. split; [reflexivity|lia].
  - destruct (queue (thr s)) as [|fn rest] eqn:Hq; [simpl in Hn; lia|].
    destruct (head_starts m s fn rest Hs Hq) as (d & t & Hp & Hst).
    set (s1 := react (react s (Tick d)) (Fire 0)) in *.
    assert (Hs1 : inv m s1) by (apply inv_react, inv_react, Hs).
    assert (Hlen : (n <= length (queue (thr s1)))%nat).
    { pose proof (inv_fifo _ _ Hs1) as F1. pose proof (inv_fifo _ _ Hs) as F0.
      pose proof (submitted_foldl [Tick d; Fire 0] s) as Hpre.
      change (foldl react s [Tick d; Fire 0]) with s1 in Hpre.
      apply prefix_length in Hpre.
      rewrite <- F1, <- F0, Hst, Hq in Hpre.
      rewrite !length_app, !length_fmap, length_app in Hpre. simpl in *. lia. }
    destruct (IH s1 Hs1 Hlen) as (es & Hpes & Hes).
    exists ([Tick d; Fire 0] ++ es). split.
    + rewrite punctual_app, Hp. exact Hpes.
    + change (foldl react s ([Tick d; Fire 0] ++ es)) with (foldl react s1 es).
      rewrite Hes, Hst, length_app. simpl. lia.
Qed.

End WithTask.
End ThrottleFacts.

(** Three tasks enqueued at once on a throttle of 1200 ms: the first
    starts at once and the others when their timers are due or later,
    1200 ms apart at least, in the order they were enqueued. *)
Example throttle_three_tasks :
  Throttle.started
    (Throttle.run (fun _ : string => []) (fun _ => 0%nat) 1200 1700000000000
       [Throttle.Enqueue "a"%string; Throttle.Enqueue "b"%string;
        Throttle.Enqueue "c"%string; Throttle.Fire 0;
        Throttle.Tick 1200; Throttle.Fire 0;
        Throttle.Tick 1500; Throttle.Fire 0])
  = [("a"%string, 1700000000000); ("b"%string, 1700000001200);
     ("c"%string, 1700000002700)].
Proof. reflexivity. Qed.

(** C3 (amended). For every schedule of the event loop around a throttle
    of minimum interval [m] (time passing, calls of [enqueue], timers
    firing, tasks that themselves enqueue and take time), the tasks that
    have started are, in start order, exactly the first tasks that were
    enqueued (FIFO).  When no timer of the schedule has fired before it
    was due, any two consecutive start instants are at least [m] apart.
    Every schedule can be continued, with timers that fire when they are
    due, so that every task enqueued so far has started. *)
Theorem throttle_fifo_min_interval {Task : Type}
    (spawns : Task -> list Task) (cost : Task -> nat)
    (m t0 : Z) (sched : list (Throttle.event Task)) :
  let s := Throttle.run spawns cost m t0 sched in
  (Throttle.started s).*1 ++ Throttle.queue (Throttle.thr s)
    = Throttle.submitted s /\
  (Throttle.punctual spawns cost (Throttle.init m t0) sched = true ->
   Throttle.spaced m (Throttle.started s).*2) /\
  exists more,
    Throttle.punctual spawns cost s more = true /\
    (Throttle.started (Throttle.run spawns cost m t0 (sched ++ more))).*1
      = Throttle.submitted s.
Proof.
  intros s.
  assert (Hs : Throttle.inv m s)
    by apply ThrottleFacts.inv_foldl, ThrottleFacts.inv_init.
  split; [apply (Throttle.inv_fifo _ _ Hs)|].
  split.
  { intros Hp. apply ThrottleFacts.spaced_foldl;
      [apply ThrottleFacts.inv_init|exact Hp|constructor]. }
  destruct (ThrottleFacts.drain spawns cost m _ s Hs (le_n _)) as (more & Hp & Hlen).
  exists more. split; [exact Hp|].
  unfold Throttle.run. rewrite foldl_app. fold (Throttle.run spawns cost m t0 sched).
  fold s.
  set (s' := foldl _ s more) in *.
  assert (Hs' : Throttle.inv m s')
    by apply ThrottleFacts.inv_foldl, Hs.
  pose proof (Throttle.inv_fifo _ _ Hs') as F1.
  pose proof (Throttle.inv_fifo _ _ Hs) as F0.
  pose proof (ThrottleFacts.submitted_foldl spawns cost more s) as [k Hk].
  fold s' in Hk.
  assert (Hl : length (Throttle.started s').*1 = length (Throttle.submitted s)).
  { rewrite length_fmap, Hlen, <- F0, length_app, length_fmap. reflexivity. }
  rewrite Hk in F1. apply app_inj_1 in F1; [apply F1|exact Hl].
Qed.

(** The throttle theorem at three tasks whose timers fire when they are
    due, the last one 300 ms late. *)
Lemma throttle_fifo_min_interval_witness :
  let sched :=
    [Throttle.Enqueue "a"%string; Throttle.Enqueue "b"%string;
     Throttle.Enqueue "c"%string; Throttle.Fire 0;
     Throttle.Tick 1200; Throttle.Fire 0;
     Throttle.Tick 1500; Throttle.Fire 0] in
  let s := Throttle.run (fun _ : string => []) (fun _ => 0%nat) 1200 1700000000000 sched in
  Throttle.punctual (fun _ : string => []) (fun _ => 0%nat)
    (Throttle.init 1200 1700000000000) sched = true /\
  (Throttle.started s).*2 = [1700000000000; 1700000001200; 1700000002700] /\
  Throttle.spaced 1200 (Throttle.started s).*2.
Proof.
  intros sched s.
  assert (Hp : Throttle.punctual (fun _ : string => []) (fun _ => 0%nat)
                 (Throttle.init 1200 1700000000000) sched = true) by reflexivity.
  split; [exact Hp|]. split; [reflexivity|].
  destruct (throttle_fifo_min_interval (fun _ : string => []) (fun _ => 0%nat)
              1200 1700000000000 sched) as (_ & H & _).
  exact (H Hp).
Defined.

(** C3, as stated, fails: the callback of the timer starts the next task
    whenever the runtime calls it.  When the timer of the second task is
    run one millisecond before it is due, the two tasks start 1199 ms
    apart on a throttle of 1200 ms. *)
Lemma throttle_timer_fires_early :
  let s := Throttle.run (fun _ : string => []) (fun _ => 0%nat) 1200 1700000000000
             [Throttle.Enqueue "a"%string; Throttle.Enqueue "b"%string;
              Throttle.Fire 0; Throttle.Tick 1199; Throttle.Fire 0] in
  Throttle.started s
    = [("a"%string, 1700000000000); ("b"%string, 1700000001199)] /\
  ~ Throttle.spaced 1200 (Throttle.started s).*2.
Proof.
  intros s. split; [reflexivity|].
  assert (E : (Throttle.started s).*2 = [1700000000000; 1700000001199])
    by reflexivity.
  rewrite E. unfold Throttle.spaced. simpl. intros H.
  apply Forall_inv in H. simpl in H. lia.
Qed.

(** ** RetryPolicy *)

Module RetryFacts.
Import Http Retry.
Section Loop.
Variable requestFn : nat -> outcome.
Variable maxRetries : nat.
Variable baseDelay : Z.

Abbreviation tryRequest := (tryRequest requestFn maxRetries baseDelay).

(** The body of [tryRequest], as one equation. *)
Lemma tryRequest_unfold attempt calls delays :
  tryRequest attempt calls delays =
  match decide maxRetries baseDelay attempt (requestFn calls) with
  | Again attempt' delay => tryRequest attempt' (S calls) (delays ++ [delay])
  | Resolve o => {| resolved := o; invocations := S calls; waits := delays |}
  end.
Proof.
  simp tryRequest. unfold inspect.
  set (v := decide maxRetries baseDelay attempt (requestFn calls)).
  enough (G : forall w (H : v = w),
    Retry.tryRequest_unfold_clause_1 requestFn maxRetries baseDelay attempt
      calls (exist _ w H) delays =
    match w with
    | Again attempt' delay => tryRequest attempt' (S calls) (delays ++ [delay])
    | Resolve o => {| resolved := o; invocations := S calls; waits := delays |}
    end) by apply G.
  intros [a d|o] H; reflexivity.
Qed.

(** A transient outcome within the budget schedules one more attempt. *)
Lemma decide_transient attempt o :
  transient o = true -> (attempt < maxRetries)%nat ->
  decide maxRetries baseDelay attempt o
    = Again (S attempt) (baseDelay * 2 ^ Z.of_nat attempt).
Proof.
  intros Ht Hlt. unfold decide. rewrite Ht.
  apply Nat.ltb_lt in Hlt. rewrite Hlt. simpl.
  rewrite Nat.sub_0_r. reflexivity.
Qed.

Lemma decide_terminal attempt o :
  transient o = false -> decide maxRetries baseDelay attempt o = Resolve o.
Proof. intros Ht. unfold decide. rewrite Ht. reflexivity. Qed.

Lemma decide_exhausted attempt o :
  (maxRetries <= attempt)%nat -> decide maxRetries baseDelay attempt o = Resolve o.
Proof.
  intros Hge. unfold decide.
  apply Nat.ltb_ge in Hge. rewrite Hge, andb_false_r. reflexivity.
Qed.

Lemma tryRequest_run K :
  (forall i, (i < K)%nat -> transient (requestFn i) = true) ->
  transient (requestFn K) = false ->
  (K <= maxRetries)%nat ->
  forall n j delays, (j + n = K)%nat ->
    tryRequest j j delays =
      {| resolved := requestFn K; invocations := S K;
         waits := delays ++ backoff baseDelay j n |}.
Proof.
  intros Hfail Hok Hbudget. induction n as [|n IH]; intros j delays Hj.
  - rewrite Nat.add_0_r in Hj. subst j.
    rewrite tryRequest_unfold, decide_terminal by exact Hok.
    unfold backoff. simpl. rewrite app_nil_r. reflexivity.
  - rewrite tryRequest_unfold, decide_transient by (try apply Hfail; lia).
    rewrite IH by lia. unfold backoff. simpl. rewrite <- app_assoc. reflexivity.
Qed.
End Loop.
End RetryFacts.

(** C4. If the first [K] invocations of [requestFn] end in a transient
    outcome, the next one does not, and [K <= maxRetries], then
    [retryRequest] resolves with the outcome of invocation [K], has called
    [requestFn] exactly [K+1] times, and has waited
    [baseDelay * 2^0, ..., baseDelay * 2^(K-1)], in this order. *)
Theorem retryRequest_succeeds_after_K (requestFn : nat -> Http.outcome)
    (maxRetries : nat) (baseDelay : Z) (K : nat) :
  (forall i, (i < K)%nat -> Retry.transient (requestFn i) = true) ->
  Retry.transient (requestFn K) = false ->
  (K <= maxRetries)%nat ->
  Retry.retryRequest requestFn maxRetries baseDelay =
    {| Retry.resolved := requestFn K;
       Retry.invocations := S K;
       Retry.waits := (fun i => baseDelay * 2 ^ Z.of_nat i) <$> seq 0 K |}.
Proof.
  intros Hfail Hok Hbudget. unfold Retry.retryRequest.
  rewrite (RetryFacts.tryRequest_run requestFn maxRetries baseDelay K
             Hfail Hok Hbudget K 0 []) by reflexivity.
  reflexivity.
Qed.

(** ** Crawler: the listing loop *)

Module ListingFacts.
Import Http Crawler.
Section Run.
Variable server : request -> nat -> nat * outcome.
Variable outputDir : option string.

Abbreviation turn := (turn server outputDir).
Abbreviation loop := (loop server outputDir).

Abbreviation serves := (Crawler.serves server).

Lemma loop_add a : forall b w, loop (a + b) w = loop b (loop a w).
Proof.
  induction a as [|a IH]; intros b w; simpl; [reflexivity|].
  destruct (turn w) as [w'|] eqn:Hturn; [apply IH|].
  destruct b; simpl; [reflexivity|]. rewrite Hturn. reflexivity.
Qed.

Lemma round_start pages t0 : round pages 0 (start outputDir t0).
Proof.
  unfold start, getProjects, getProjectListPage, initDirectory.
  destruct (String.eqb _ _); split; simpl; eauto.
  all: repeat constructor.
Qed.

(** First turn of a round: the throttle timer fires and the request goes
    on the wire. *)
Lemma round_send now0 m lt due k pg acc dk co wi en lat o :
  server (GetProjects k) 0%nat = (lat, o) ->
  turn {| now := now0;
          throttle := {| Throttle.minIntervalMs := m;
                         Throttle.queue := [ProjectListJob k];
                         Throttle.lastTime := lt; Throttle.active := true |};
          timers := [(due, ThrottleTimer)]; inflight := [];
          page := pg; projects_acc := acc; disk := dk; console := co;
          wire := wi; enqueued := en |}
  = Some {| now := Z.max now0 due;
            throttle := {| Throttle.minIntervalMs := m; Throttle.queue := [];
                           Throttle.lastTime := Z.max now0 due;
                           Throttle.active := false |};
            timers := [];
            inflight := [(Z.max now0 due + Z.of_nat lat,
                          {| req := GetProjects k; attempt := 0;
                             awaiting := AtProjectListPage |}, o)];
            page := pg; projects_acc := acc; disk := dk; console := co;
            wire := wi ++ [{| instant := Z.max now0 due; what := GetProjects k;
                              try := 0; via := ThrottleLane |}];
            enqueued := en |}.
Proof.
  intros Hs. unfold turn, Crawler.turn. cbn -[Z.max Z.add Z.of_nat].
  unfold run_timer, timer_at, on_timer, throttle_tick. cbn -[Z.max Z.add Z.of_nat].
  unfold retryRequest, request_. cbn -[Z.max Z.add Z.of_nat].
  rewrite Hs. reflexivity.
Qed.

(** Second turn: the reply arrives, is not retried, and [next] gets the
    projects it lists. *)
Lemma round_reply now0 th t lat raw d l pg acc dk co wi en :
  raw <> ""%string -> projects d = Some l ->
  let p := {| req := GetProjects t; attempt := 0; awaiting := AtProjectListPage |} in
  let o := {| err := None; resp := Some {| statusCode := 200 |};
              content := Some {| raw := raw; json := Some d |} |} in
  turn {| now := now0; throttle := th; timers := []; inflight := [(lat, p, o)];
          page := pg; projects_acc := acc; disk := dk; console := co;
          wire := wi; enqueued := en |}
  = Some (next outputDir l
            {| now := Z.max now0 lat; throttle := th; timers := [];
               inflight := []; page := pg; projects_acc := acc; disk := dk;
               console := co; wire := wi; enqueued := en |}).
Proof.
  intros Hraw Hd p o. unfold turn, Crawler.turn. cbn -[Z.max].
  unfold run_reply, reply_at, on_response. cbn -[Z.max next].
  unfold checked. cbn -[Z.max next].
  destruct (String.eqb raw "") eqn:He.
  { apply String.eqb_eq in He. contradiction. }
  cbn -[Z.max next]. rewrite Hd. reflexivity.
Qed.

Lemma round_step pages k page w :
  round pages k w -> pages !! k = Some page ->
  serves (k * NB_PROJECTS_PER_PAGE) page ->
  length page = NB_PROJECTS_PER_PAGE ->
  round pages (S k) (loop 2 w).
Proof.
  intros [[due Ht] Hi Hq Ha Hp Hacc Hw He Hd] Hpage (lat & raw & d & Hs & Hraw & Hd') Hlen.
  destruct w as [now0 [m q lt a] ts fl pg acc dk co wi en]. simpl in *. subst.
  unfold loop, Crawler.loop.
  rewrite (round_send _ _ _ _ _ _ _ _ _ _ _ _ _ Hs).
  rewrite (round_reply _ _ _ _ _ _ _ _ _ _ _ _ _ Hraw Hd').
  unfold next. cbn -[Z.max Z.add Z.of_nat Nat.mul NB_PROJECTS_PER_PAGE seq].
  rewrite Hlen, Nat.eqb_refl.
  unfold getProjectListPage, throttle_enqueue.
  cbn -[Z.max Z.add Z.of_nat Z.sub Nat.mul NB_PROJECTS_PER_PAGE seq].
  split; cbn -[Z.max Z.add Z.of_nat Z.sub Nat.mul NB_PROJECTS_PER_PAGE seq];
    try reflexivity; try assumption.
  - eexists. reflexivity.
  - rewrite (take_S_r _ _ _ Hpage), concat_app. simpl. rewrite app_nil_r. reflexivity.
  - rewrite seq_S, !fmap_app, Hw. reflexivity.
  - rewrite (seq_S (S k)), fmap_app. reflexivity.
Qed.

(** Enqueueing the wiki index of each project touches neither the wire
    nor the disk. *)
Lemma getWikiPages_all ps : forall w,
  let w' := foldl (getWikiPages) w ps in
  wire w' = wire w /\ disk w' = disk w /\ projects_acc w' = projects_acc w /\
  page w' = page w /\ enqueued w' = enqueued w ++ (WikiPagesJob <$> ps).
Proof.
  induction ps as [|p ps IH]; intros w.
  - simpl. rewrite app_nil_r. auto.
  - simpl. destruct (IH (getWikiPages w p)) as (H1 & H2 & H3 & H4 & H5).
    rewrite H1, H2, H3, H4, H5. unfold getWikiPages, throttle_enqueue.
    destruct (Throttle.enqueue _ _ _) as [th [wait|]]; simpl;
      rewrite <- app_assoc; auto.
Qed.

Lemma listed_getWikiPages ps : forall w, listed w -> listed (foldl getWikiPages w ps).
Proof.
  induction ps as [|p ps IH]; intros w Hw; simpl; [exact Hw|].
  apply IH. destruct Hw as [H1 H2 H3].
  unfold getWikiPages, throttle_enqueue, Throttle.enqueue, Throttle.process. simpl.
  assert (Hq : Forall wiki_job (Throttle.queue (throttle w) ++ [WikiPagesJob p]))
    by (apply Forall_app; split; [exact H1|repeat constructor]).
  destruct (_ || _); split; simpl; try assumption.
  apply Forall_app. split; [exact H2|]. repeat constructor.
Qed.

(** The round whose page does not have [NB_PROJECTS_PER_PAGE] entries
    ends the listing: the callback of [getProjects] runs. *)
Lemma round_last pages k page w :
  round pages k w -> length pages = k ->
  serves (k * NB_PROJECTS_PER_PAGE) page ->
  length page <> NB_PROJECTS_PER_PAGE ->
  let w' := loop 2 w in
  let all := concat pages ++ page in
  (what <$> wire w' = (fun i => GetProjects (i * NB_PROJECTS_PER_PAGE)) <$> seq 0 (S k) /\
   projects_acc w' = all /\
   metadata_written w' = [(fun p => (identifier p, name p)) <$> all] /\
   enqueued w' = ((fun i => ProjectListJob (i * NB_PROJECTS_PER_PAGE)) <$> seq 0 (S k))
                 ++ (WikiPagesJob <$> all)) /\
  listed w'.
Proof.
  intros [[due Ht] Hi Hq Ha Hp Hacc Hw He Hd] Hk (lat & raw & d & Hs & Hraw & Hd') Hlen.
  destruct w as [now0 [m q lt a] ts fl pg acc dk co wi en]. simpl in *. subst.
  unfold loop, Crawler.loop.
  rewrite (round_send _ _ _ _ _ _ _ _ _ _ _ _ _ Hs).
  rewrite (round_reply _ _ _ _ _ _ _ _ _ _ _ _ _ Hraw Hd').
  unfold next. cbn -[Z.max Z.add Z.of_nat Nat.mul NB_PROJECTS_PER_PAGE seq on_projects].
  apply Nat.eqb_neq in Hlen. rewrite Hlen.
  rewrite firstn_all.
  unfold on_projects. split.
  - match goal with |- context [foldl getWikiPages ?w0 ?ps] =>
      destruct (getWikiPages_all ps w0) as (H1 & H2 & H3 & H4 & H5) end.
    rewrite H1, H3, H5. unfold metadata_written. rewrite H2.
    cbn -[Z.max Z.add Z.of_nat Nat.mul NB_PROJECTS_PER_PAGE seq].
    clear H1 H2 H3 H4 H5. repeat split.
    + rewrite fmap_app, Hw.
      transitivity ((fun i => GetProjects (i * NB_PROJECTS_PER_PAGE))
                      <$> seq 0 (S (length pages))); [|reflexivity].
      rewrite seq_S, fmap_app. reflexivity.
    + rewrite omap_app. simpl.
      replace (omap _ dk) with (@nil (list (string * string))); [reflexivity|].
      symmetry. clear -Hd. induction Hd as [|[?|? ?] ? Hx ? IH]; simpl; try done.
  - apply listed_getWikiPages. split; simpl; constructor.
Qed.

(** All rounds, from the start of the program. *)
Lemma rounds pages t0 :
  (forall k page, pages !! k = Some page ->
     length page = NB_PROJECTS_PER_PAGE /\ serves (k * NB_PROJECTS_PER_PAGE) page) ->
  forall k, (k <= length pages)%nat ->
    round pages k (loop (2 * k) (start outputDir t0)).
Proof.
  intros Hpages. induction k as [|k IH]; intros Hk.
  - apply round_start.
  - replace (2 * S k)%nat with (2 * k + 2)%nat by lia. rewrite loop_add.
    destruct (lookup_lt_is_Some_2 pages k) as [page Hpage]; [lia|].
    destruct (Hpages k page Hpage) as [Hlen Hserves].
    apply (round_step pages k page); auto. apply IH. lia.
Qed.
End Run.
End ListingFacts.

(** ** Crawler: which requests go through the throttle *)

Module WireFacts.
Import Http Crawler.

(** Case analysis on the condition of the first [if] of the goal. *)
Ltac case_if :=
  match goal with |- context [if ?c then _ else _] => destruct c end.

Section Run.
Variable server : request -> nat -> nat * outcome.
Variable outputDir : option string.

Lemma ok_silent f w : silent f -> ok w -> ok (f w).
Proof.
  intros Hf [H1 H2]. destruct (Hf w) as [E1 E2]. unfold ok.
  rewrite E1, E2. split; assumption.
Qed.

Lemma silent_log l : silent (log l).
Proof. intros w. split; reflexivity. Qed.
Lemma silent_fs op : silent (fs op).
Proof. intros w. split; reflexivity. Qed.
Lemma silent_set_listing p acc : silent (set_listing p acc).
Proof. intros w. split; reflexivity. Qed.
Lemma silent_set_throttle th : silent (set_throttle th).
Proof. intros w. split; reflexivity. Qed.
Lemma silent_set_now t : silent (set_now t).
Proof. intros w. split; reflexivity. Qed.
Lemma silent_initDirectory d : silent (initDirectory d).
Proof.
  intros w. unfold initDirectory. destruct (String.eqb d ""); split; reflexivity.
Qed.

Lemma ok_setTimeout cb d w :
  retry_timer (0, cb) -> ok w -> ok (setTimeout cb d w).
Proof.
  intros Hcb [H1 H2]. split; simpl; [exact H1|].
  apply Forall_app. split; [exact H2|]. constructor; [exact Hcb|constructor].
Qed.

Lemma ok_request from p w :
  disciplined {| instant := now w; what := req p; try := attempt p; via := from |} ->
  ok w -> ok (request_ server from p w).
Proof.
  intros Hs [H1 H2]. unfold request_. destruct (server _ _) as [lat o].
  split; simpl; [|exact H2].
  apply Forall_app. split; [exact H1|]. constructor; [exact Hs|constructor].
Qed.

Lemma ok_throttle_enqueue j w : ok w -> ok (throttle_enqueue j w).
Proof.
  intros Hw. unfold throttle_enqueue.
  destruct (Throttle.enqueue _ _ _) as [th [d|]].
  - apply ok_setTimeout; [exact I|]. destruct Hw. split; assumption.
  - destruct Hw. split; assumption.
Qed.

Lemma ok_getProjectListPage p w : ok w -> ok (getProjectListPage p w).
Proof.
  intros Hw. apply ok_throttle_enqueue, (ok_silent _ _ (silent_log _)), Hw.
Qed.

Lemma ok_getWikiPages ps : forall w, ok w -> ok (foldl getWikiPages w ps).
Proof.
  induction ps as [|p ps IH]; intros w Hw; simpl; [exact Hw|].
  apply IH, ok_throttle_enqueue, Hw.
Qed.

Lemma ok_getWikiPage project pageName w :
  ok w -> ok (getWikiPage server project w pageName).
Proof.
  intros Hw. apply ok_request; [split; [reflexivity|exact I]|].
  apply (ok_silent _ _ (silent_log _)), Hw.
Qed.

Lemma ok_getWikiPage_all project ps : forall w,
  ok w -> ok (foldl (getWikiPage server project) w ps).
Proof.
  induction ps as [|p ps IH]; intros w Hw; simpl; [exact Hw|].
  apply IH, ok_getWikiPage, Hw.
Qed.

Lemma ok_getAttachment dir a w : ok w -> ok (getAttachment server dir w a).
Proof.
  intros Hw. unfold getAttachment. destruct (has_id a); [|exact Hw].
  apply ok_request; [split; [reflexivity|exact I]|exact Hw].
Qed.

Lemma ok_getAttachment_all dir atts : forall w,
  ok w -> ok (foldl (getAttachment server dir) w atts).
Proof.
  induction atts as [|a atts IH]; intros w Hw; simpl; [exact Hw|].
  apply IH, ok_getAttachment, Hw.
Qed.

Lemma ok_backupWikiPage project p w :
  ok w -> ok (backupWikiPage server outputDir project p w).
Proof.
  intros Hw. unfold backupWikiPage.
  assert (H1 : ok (fs (WriteFile (plus outputDir (identifier project) +:+ "/" +:+
                                  title p +:+ ".md") (Text (text p)))
                     (initDirectory (plus outputDir (identifier project)) w))).
  { apply (ok_silent _ _ (silent_fs _)), (ok_silent _ _ (silent_initDirectory _)), Hw. }
  destruct (attachments p); [|exact H1].
  apply ok_getAttachment_all, (ok_silent _ _ (silent_initDirectory _)), H1.
Qed.

Lemma ok_on_projects ps w : ok w -> ok (on_projects outputDir ps w).
Proof.
  intros Hw. unfold on_projects.
  apply ok_getWikiPages, (ok_silent _ _ (silent_log _)),
    (ok_silent _ _ (silent_fs _)), (ok_silent _ _ (silent_log _)), Hw.
Qed.

Lemma ok_next l w : ok w -> ok (next outputDir l w).
Proof.
  intros Hw. unfold next. destruct (_ =? _)%nat.
  - apply ok_getProjectListPage, (ok_silent _ _ (silent_set_listing _ _)), Hw.
  - apply ok_on_projects, (ok_silent _ _ (silent_set_listing _ _)), Hw.
Qed.

Lemma ok_log_body b w : ok w -> ok (log_body b w).
Proof.
  intros Hw. unfold log_body. destruct b as [b|]; [|exact Hw].
  destruct (truthy _); [|exact Hw]. apply (ok_silent _ _ (silent_log _)), Hw.
Qed.

Lemma ok_checked o k w :
  (forall b w, ok w -> ok (k b w)) -> ok w -> ok (checked o k w).
Proof.
  intros Hk Hw. unfold checked.
  destruct (err o); [apply (ok_silent _ _ (silent_log _)), Hw|].
  repeat case_bool_decide.
  - apply ok_log_body, (ok_silent _ _ (silent_log _)), Hw.
  - apply ok_log_body, (ok_silent _ _ (silent_log _)), Hw.
  - destruct (content o) as [b|]; [|apply (ok_silent _ _ (silent_log _)), Hw].
    destruct (truthy _); [apply Hk, Hw|apply (ok_silent _ _ (silent_log _)), Hw].
Qed.

Lemma ok_on_wiki_pages project pages w :
  ok w -> ok (on_wiki_pages server project pages w).
Proof.
  intros Hw. unfold on_wiki_pages.
  destruct pages as [pages|]; [|apply (ok_silent _ _ (silent_log _)), Hw].
  destruct (_ <? _)%nat; [|exact Hw].
  apply ok_getWikiPage_all, (ok_silent _ _ (silent_log _)), Hw.
Qed.

Lemma ok_resume k o w : ok w -> ok (resume server outputDir k o w).
Proof.
  intros Hw. destruct k as [|project|project pageName|dir a]; simpl.
  - apply ok_checked; [|exact Hw]. intros b w' Hw'.
    destruct (json b).
    + apply ok_next, Hw'.
    + apply ok_next, (ok_silent _ _ (silent_log _)), (ok_silent _ _ (silent_log _)), Hw'.
  - apply ok_checked; [|exact Hw]. intros b w' Hw'.
    destruct (json b).
    + apply ok_on_wiki_pages, Hw'.
    + apply (ok_silent _ _ (silent_log _)), Hw'.
  - destruct (err o); [apply (ok_silent _ _ (silent_log _)), Hw|].
    destruct (content o) as [b|]; [|exact Hw].
    case_if; [|exact Hw].
    destruct (json b) as [d|]; [|apply (ok_silent _ _ (silent_log _)), Hw].
    destruct (wiki_page d); [|exact Hw]. apply ok_backupWikiPage, Hw.
  - destruct (err o); [apply (ok_silent _ _ (silent_log _)), Hw|].
    destruct (content o) as [b|]; [|exact Hw].
    case_if; [|exact Hw]. apply (ok_silent _ _ (silent_fs _)), Hw.
Qed.

Lemma ok_on_response p o w : ok w -> ok (on_response server outputDir p o w).
Proof.
  intros Hw. unfold on_response, Retry.decide.
  destruct (_ && _).
  - apply ok_setTimeout; [simpl; unfold retry_timer; simpl; lia|].
    apply (ok_silent _ _ (silent_log _)), Hw.
  - apply ok_resume, Hw.
Qed.

Lemma ok_run_job j w : ok w -> ok (run_job server j w).
Proof.
  intros Hw. destruct j; simpl; (apply ok_request; [split; [reflexivity|exact I]|exact Hw]).
Qed.

Lemma ok_throttle_tick w : ok w -> ok (throttle_tick server w).
Proof.
  intros Hw. unfold throttle_tick.
  destruct (Throttle.shift _ _) as [[fn|] th1].
  - destruct (Throttle.release _ _) as [th3 [d|]].
    + apply ok_setTimeout; [exact I|].
      apply (ok_silent _ _ (silent_set_throttle _)), ok_run_job,
        (ok_silent _ _ (silent_set_throttle _)), Hw.
    + apply (ok_silent _ _ (silent_set_throttle _)), ok_run_job,
        (ok_silent _ _ (silent_set_throttle _)), Hw.
  - apply (ok_silent _ _ (silent_set_throttle _)), Hw.
Qed.

Lemma earliest_from_In {A} (key : A -> Z) l : forall best i,
  snd (earliest_from key best i l) = snd best \/ In (snd (earliest_from key best i l)) l.
Proof.
  induction l as [|x l IH]; intros best i; simpl; [left; reflexivity|].
  destruct (_ <? _).
  - destruct (IH (i, x) (S i)) as [H|H]; right; [left|right]; simpl in *; auto.
  - destruct (IH best (S i)) as [H|H]; [left|right; right]; auto.
Qed.

Lemma earliest_In {A} (key : A -> Z) l i x :
  earliest key l = Some (i, x) -> In x l.
Proof.
  destruct l as [|y l]; simpl; [discriminate|]. intros [= H].
  pose proof (earliest_from_In key l (0%nat, y) 1%nat) as Hin.
  rewrite H in Hin. simpl in Hin. destruct Hin; auto.
Qed.

Lemma ok_timer_at i t moment w :
  In t (timers w) -> ok w -> ok (timer_at server i t moment w).
Proof.
  intros Hin [H1 H2]. unfold timer_at.
  assert (Ht : retry_timer t) by (rewrite Forall_forall in H2; apply H2, list_elem_of_In, Hin).
  assert (Hw : ok (set_timers (delete i (timers w)) (set_now moment w))).
  { split; simpl; [exact H1|]. apply Forall_delete, H2. }
  destruct t as [due [|p]]; simpl.
  - apply ok_throttle_tick, Hw.
  - apply ok_request; [exact Ht|exact Hw].
Qed.

Lemma ok_reply_at i r moment w :
  ok w -> ok (reply_at server outputDir i r moment w).
Proof.
  intros [H1 H2]. unfold reply_at. apply ok_on_response. split; assumption.
Qed.

Lemma ok_run_timer i t w : In t (timers w) -> ok w -> ok (run_timer server i t w).
Proof. apply ok_timer_at. Qed.

Lemma ok_run_reply i r w : ok w -> ok (run_reply server outputDir i r w).
Proof. apply ok_reply_at. Qed.

Lemma ok_act c w : ok w -> ok (act server outputDir w c).
Proof.
  intros Hw. destruct c as [i moment|i moment]; simpl.
  - destruct (timers w !! i) as [t|] eqn:Hi; [|exact Hw].
    destruct (_ <=? _); [|exact Hw].
    apply ok_timer_at; [|exact Hw].
    apply list_elem_of_In, (list_elem_of_lookup_2 _ _ _ Hi).
  - destruct (inflight w !! i) as [r|]; [|exact Hw].
    destruct (_ <=? _); [|exact Hw]. apply ok_reply_at, Hw.
Qed.

Lemma ok_play schedule : forall w, ok w -> ok (play server outputDir w schedule).
Proof.
  induction schedule as [|c cs IH]; intros w Hw; simpl; [exact Hw|].
  apply IH, ok_act, Hw.
Qed.

Lemma ok_turn w w' : turn server outputDir w = Some w' -> ok w -> ok w'.
Proof.
  unfold turn. intros Hturn Hw.
  destruct (earliest fst (timers w)) as [[i t]|] eqn:Ht;
    destruct (earliest _ (inflight w)) as [[j r]|] eqn:Hr;
    try discriminate.
  - destruct (_ <=? _); injection Hturn as <-.
    + eapply ok_run_timer; [eapply earliest_In, Ht|exact Hw].
    + apply ok_run_reply, Hw.
  - injection Hturn as <-. eapply ok_run_timer; [eapply earliest_In, Ht|exact Hw].
  - injection Hturn as <-. apply ok_run_reply, Hw.
Qed.

Lemma ok_loop fuel : forall w, ok w -> ok (loop server outputDir fuel w).
Proof.
  induction fuel as [|fuel IH]; intros w Hw; simpl; [exact Hw|].
  destruct (turn server outputDir w) as [w'|] eqn:Hturn; [|exact Hw].
  eapply IH, ok_turn; eauto.
Qed.

Lemma ok_start t0 : ok (start outputDir t0).
Proof.
  unfold start, getProjects. apply ok_getProjectListPage.
  apply (ok_silent _ _ (silent_set_listing _ _)),
    (ok_silent _ _ (silent_initDirectory _)).
  split; constructor.
Qed.

(** At every point of every run, the wire obeys the discipline. *)
Lemma wire_disciplined t0 fuel :
  Forall disciplined (wire (main server outputDir t0 fuel)).
Proof. apply ok_loop, ok_start. Qed.

Lemma wire_disciplined_play t0 schedule :
  Forall disciplined (wire (play server outputDir (start outputDir t0) schedule)).
Proof. apply ok_play, ok_start. Qed.
End Run.
End WireFacts.

(** ** Crawler: the event loop is one of the schedules *)

Module LoopFacts.
Import Http Crawler.

Section Run.
Variable server : request -> nat -> nat * outcome.
Variable outputDir : option string.

Lemma earliest_from_lookup {A} (key : A -> Z) l : forall best i,
  let r := earliest_from key best i l in
  r = best \/ ((i <= fst r)%nat /\ l !! (fst r - i)%nat = Some (snd r)).
Proof.
  induction l as [|x l IH]; intros best i; simpl; [left; reflexivity|].
  destruct (_ <? _).
  - right. destruct (IH (i, x) (S i)) as [->|[Hle Hl]]; simpl.
    + split; [lia|]. rewrite Nat.sub_diag. reflexivity.
    + split; [lia|]. replace (_ - i)%nat with (S (fst (earliest_from key (i, x) (S i) l) - S i)) by lia.
      exact Hl.
  - destruct (IH best (S i)) as [->|[Hle Hl]]; [left; reflexivity|right].
    split; [lia|].
    replace (_ - i)%nat with (S (fst (earliest_from key best (S i) l) - S i)) by lia.
    exact Hl.
Qed.

Lemma earliest_lookup {A} (key : A -> Z) l i x :
  earliest key l = Some (i, x) -> l !! i = Some x.
Proof.
  destruct l as [|y l]; simpl; [discriminate|]. intros [= H].
  destruct (earliest_from_lookup key l (0%nat, y) 1%nat) as [E|[Hle Hl]];
    rewrite H in *.
  - injection E as -> ->. reflexivity.
  - cbn [fst snd] in *. destruct i; [lia|].
    replace (S i - 1)%nat with i in Hl by lia. exact Hl.
Qed.

(** A turn of the event loop is a choice of a schedule, and the timer it
    runs is due. *)
Lemma turn_is_act w w' :
  turn server outputDir w = Some w' ->
  exists c, on_time w c = true /\ act server outputDir w c = w'.
Proof.
  unfold turn. intros Hturn.
  assert (Htimer : forall i t, earliest fst (timers w) = Some (i, t) ->
            on_time w (FireTimer i (Z.max (now w) (fst t))) = true /\
            act server outputDir w (FireTimer i (Z.max (now w) (fst t)))
            = run_timer server i t w).
  { intros i t Ht. simpl. rewrite (earliest_lookup _ _ _ _ Ht).
    assert (H1 : (fst t <=? Z.max (now w) (fst t)) = true) by (apply Z.leb_le; lia).
    assert (H2 : (now w <=? Z.max (now w) (fst t)) = true) by (apply Z.leb_le; lia).
    rewrite H1, H2. split; reflexivity. }
  assert (Hreply : forall i r,
            earliest (fun r => fst (fst r)) (inflight w) = Some (i, r) ->
            on_time w (Deliver i (Z.max (now w) (fst (fst r)))) = true /\
            act server outputDir w (Deliver i (Z.max (now w) (fst (fst r))))
            = run_reply server outputDir i r w).
  { intros i r Hr. simpl. rewrite (earliest_lookup _ _ _ _ Hr), Z.leb_refl.
    split; reflexivity. }
  destruct (earliest fst (timers w)) as [[i t]|] eqn:Ht;
    destruct (earliest _ (inflight w)) as [[j r]|] eqn:Hr;
    try discriminate.
  - destruct (_ <=? _); injection Hturn as <-; eauto.
  - injection Hturn as <-. eauto.
  - injection Hturn as <-. eauto.
Qed.

Lemma loop_is_play fuel : forall w,
  exists schedule,
    punctual server outputDir w schedule = true /\
    loop server outputDir fuel w = play server outputDir w schedule.
Proof.
  induction fuel as [|fuel IH]; intros w; simpl; [exists []; split; reflexivity|].
  destruct (turn server outputDir w) as [w'|] eqn:Hturn;
    [|exists []; split; reflexivity].
  destruct (turn_is_act _ _ Hturn) as (c & Hc & <-).
  destruct (IH (act server outputDir w c)) as (cs & Hp & Hcs).
  exists (c :: cs). simpl. rewrite Hc, Hp. split; [reflexivity|exact Hcs].
Qed.
End Run.
End LoopFacts.

(** ** Crawler: after the listing *)

Module SettledFacts.
Import Http Crawler.
Import WireFacts.

Section Run.
Variable server : request -> nat -> nat * outcome.
Variable outputDir : option string.

Lemma settled_compose f g : settled f -> settled g -> settled (fun w => f (g w)).
Proof.
  intros Hf Hg w Hw. destruct (Hg w Hw) as (G0 & G1 & G2 & G3).
  destruct (Hf (g w) G0) as (F0 & F1 & F2 & F3).
  rewrite F1, F2, F3, G1, G2, G3. auto.
Qed.

Lemma settled_id : settled (fun w => w).
Proof. intros w Hw. auto. Qed.

Lemma settled_foldl {A} (f : world -> A -> world) l :
  (forall a, settled (fun w => f w a)) -> settled (fun w => foldl f w l).
Proof.
  intros Hf. induction l as [|a l IH]; simpl; [apply settled_id|].
  apply (settled_compose (fun w => foldl f w l) (fun w => f w a)); auto.
Qed.

Lemma settled_log l : settled (log l).
Proof. intros w [H1 H2 H3]. repeat split; assumption. Qed.

Lemma settled_set_now t : settled (set_now t).
Proof. intros w [H1 H2 H3]. repeat split; assumption. Qed.

(** Writing anything but the sidecar file. *)
Lemma settled_fs op :
  match op with WriteFile _ (Metadata _) => False | _ => True end ->
  settled (fs op).
Proof.
  intros Hop w [H1 H2 H3]. repeat split; try assumption.
  unfold metadata_written. simpl. rewrite omap_app. simpl.
  destruct op as [p|p [s|l|s]]; try contradiction; simpl; apply app_nil_r.
Qed.

Lemma settled_initDirectory d : settled (initDirectory d).
Proof.
  unfold initDirectory. destruct (String.eqb d ""); [apply settled_id|].
  apply settled_fs. exact I.
Qed.

Lemma settled_request from p : foreign p -> settled (request_ server from p).
Proof.
  intros Hp w [H1 H2 H3]. unfold request_. destruct (server _ _) as [lat o].
  repeat split; simpl; try assumption.
  - apply Forall_app. split; [exact H3|]. repeat constructor. exact Hp.
  - unfold listing_offsets. simpl. rewrite omap_app. simpl.
    unfold foreign in Hp. destruct (req p); try contradiction; simpl; apply app_nil_r.
Qed.

Lemma settled_setTimeout cb d : foreign_timer (0, cb) -> settled (setTimeout cb d).
Proof.
  intros Hcb w [H1 H2 H3]. repeat split; simpl; try assumption.
  apply Forall_app. split; [exact H2|]. repeat constructor. exact Hcb.
Qed.

Lemma settled_set_throttle th :
  Forall wiki_job (Throttle.queue th) -> settled (set_throttle th).
Proof. intros Hth w [H1 H2 H3]. repeat split; assumption. Qed.

Lemma settled_getWikiPage project pageName :
  settled (fun w => getWikiPage server project w pageName).
Proof.
  unfold getWikiPage, retryRequest.
  apply (settled_compose (request_ server Direct _) (log _));
    [apply settled_request; exact I|apply settled_log].
Qed.

Lemma settled_getAttachment dir a :
  settled (fun w => getAttachment server dir w a).
Proof.
  unfold getAttachment. destruct (has_id a); [|apply settled_id].
  apply settled_request. exact I.
Qed.

Lemma settled_backupWikiPage project p :
  settled (backupWikiPage server outputDir project p).
Proof.
  unfold backupWikiPage.
  set (dir := plus outputDir (identifier project)).
  assert (H1 : settled (fun w => fs (WriteFile (dir +:+ "/" +:+ title p +:+ ".md")
                                       (Text (text p))) (initDirectory dir w)))
    by (apply (settled_compose (fs _) (initDirectory _));
          [apply settled_fs; exact I|apply settled_initDirectory]).
  destruct (attachments p) as [atts|]; [|exact H1].
  apply (settled_compose (fun w => foldl (getAttachment server _) w atts)
           (fun w => initDirectory _ (fs _ (initDirectory dir w)))).
  - apply settled_foldl. intros a. apply settled_getAttachment.
  - apply (settled_compose (initDirectory _)); [apply settled_initDirectory|exact H1].
Qed.

Lemma settled_on_wiki_pages project pages :
  settled (on_wiki_pages server project pages).
Proof.
  unfold on_wiki_pages. destruct pages as [pages|]; [|apply settled_log].
  destruct (_ <? _)%nat; [|apply settled_id].
  apply (settled_compose (fun w => foldl (getWikiPage server project) w pages) (log _));
    [|apply settled_log].
  apply settled_foldl. intros a. apply settled_getWikiPage.
Qed.

Lemma settled_log_body b : settled (log_body b).
Proof.
  unfold log_body. destruct b as [b|]; [|apply settled_id].
  destruct (truthy _); [apply settled_log|apply settled_id].
Qed.

Lemma settled_checked o k :
  (forall b, settled (k b)) -> settled (checked o k).
Proof.
  intros Hk. unfold checked.
  destruct (err o); [apply settled_log|].
  repeat case_bool_decide.
  - apply (settled_compose (log_body _) (log _)); [apply settled_log_body|apply settled_log].
  - apply (settled_compose (log_body _) (log _)); [apply settled_log_body|apply settled_log].
  - destruct (content o) as [b|]; [|apply settled_log].
    destruct (truthy _); [apply Hk|apply settled_log].
Qed.

Lemma settled_resume k o :
  k <> AtProjectListPage -> settled (resume server outputDir k o).
Proof.
  intros Hk w Hw.
  destruct k as [|project|project pageName|dir a]; [contradiction| | |]; simpl.
  - apply settled_checked; [|exact Hw]. intros b. destruct (json b).
    + apply settled_on_wiki_pages.
    + apply settled_log.
  - destruct (err o); [apply settled_log, Hw|].
    destruct (content o) as [b|]; [|apply settled_id, Hw].
    case_if; [|apply settled_id, Hw].
    destruct (json b) as [d|]; [|apply settled_log, Hw].
    destruct (wiki_page d); [|apply settled_id, Hw].
    apply settled_backupWikiPage, Hw.
  - destruct (err o); [apply settled_log, Hw|].
    destruct (content o) as [b|]; [|apply settled_id, Hw].
    case_if; [|apply settled_id, Hw]. apply settled_fs; [exact I|exact Hw].
Qed.

Lemma foreign_awaiting p : foreign p -> awaiting p <> AtProjectListPage.
Proof. unfold foreign. intros H E. rewrite E in H. destruct (req p); exact H. Qed.

Lemma settled_on_response p o :
  foreign p -> settled (on_response server outputDir p o).
Proof.
  intros Hp. unfold on_response. destruct (Retry.decide _ _ _ _).
  - apply (settled_compose (setTimeout _ _) (log _)); [|apply settled_log].
    apply settled_setTimeout. exact Hp.
  - apply settled_resume, foreign_awaiting, Hp.
Qed.

Lemma settled_run_job j : wiki_job j -> settled (run_job server j).
Proof.
  intros Hj. destruct j; [contradiction|]. simpl. apply settled_request. exact I.
Qed.

Lemma settled_throttle_tick : settled (throttle_tick server).
Proof.
  intros w Hw. pose proof Hw as [H1 H2 H3].
  unfold throttle_tick, Throttle.shift.
  destruct (Throttle.queue (throttle w)) as [|fn rest] eqn:Hq.
  - apply settled_set_throttle; [constructor|exact Hw].
  - inversion H1 as [|? ? Hfn Hrest]; subst.
    set (th1 := Throttle.Build _ rest _ _).
    assert (S1 : settled (fun w => run_job server fn (set_throttle th1 w)))
      by (apply (settled_compose (run_job server fn) (set_throttle th1));
            [apply settled_run_job, Hfn|apply settled_set_throttle, Hrest]).
    destruct (S1 w Hw) as (L & E1 & E2 & E3).
    set (w2 := run_job server fn (set_throttle th1 w)) in *.
    assert (Hq2 : Throttle.queue (throttle w2) = rest).
    { unfold w2. destruct fn; simpl; unfold retryRequest, request_;
        destruct (server _ _); reflexivity. }
    unfold Throttle.release, Throttle.process. simpl. rewrite Hq2.
    destruct rest as [|fn' rest]; simpl.
    + match goal with |- context [set_throttle ?th w2] =>
        destruct (settled_set_throttle th (Forall_nil_2 _) w2 L)
          as (L' & F1 & F2 & F3) end.
      exact (conj L' (conj (eq_trans F1 E1) (conj (eq_trans F2 E2) (eq_trans F3 E3)))).
    + match goal with |- context [setTimeout ThrottleTimer ?d (set_throttle ?th w2)] =>
        destruct (settled_compose (setTimeout ThrottleTimer d) (set_throttle th)
                    (settled_setTimeout ThrottleTimer d I)
                    (settled_set_throttle th Hrest) w2 L) as (L' & F1 & F2 & F3) end.
      exact (conj L' (conj (eq_trans F1 E1) (conj (eq_trans F2 E2) (eq_trans F3 E3)))).
Qed.

Lemma settled_run_timer i t w :
  In t (timers w) -> listed w ->
  let w' := run_timer server i t w in
  listed w' /\ listing_offsets w' = listing_offsets w /\
  metadata_written w' = metadata_written w /\ projects_acc w' = projects_acc w.
Proof.
  intros Hin Hw. pose proof Hw as [H1 H2 H3]. unfold run_timer, timer_at.
  assert (Ht : foreign_timer t)
    by (rewrite Forall_forall in H2; apply H2, list_elem_of_In, Hin).
  assert (Hw0 : listed (set_timers (delete i (timers w))
                          (set_now (Z.max (now w) (fst t)) w))).
  { split; simpl; try assumption. apply Forall_delete, H2. }
  destruct t as [due [|p]]; simpl.
  - apply (settled_throttle_tick _ Hw0).
  - apply (settled_request BackoffTimer p Ht _ Hw0).
Qed.

Lemma settled_run_reply i r w :
  In r (inflight w) -> listed w ->
  let w' := run_reply server outputDir i r w in
  listed w' /\ listing_offsets w' = listing_offsets w /\
  metadata_written w' = metadata_written w /\ projects_acc w' = projects_acc w.
Proof.
  intros Hin Hw. pose proof Hw as [H1 H2 H3]. unfold run_reply, reply_at.
  assert (Hr : foreign (snd (fst r)))
    by (rewrite Forall_forall in H3; apply (H3 r), list_elem_of_In, Hin).
  assert (Hw0 : listed (set_inflight (delete i (inflight w))
                          (set_now (Z.max (now w) (fst (fst r))) w))).
  { split; simpl; try assumption. apply Forall_delete, H3. }
  apply (settled_on_response _ _ Hr _ Hw0).
Qed.

Lemma settled_turn w w' :
  turn server outputDir w = Some w' -> listed w ->
  listed w' /\ listing_offsets w' = listing_offsets w /\
  metadata_written w' = metadata_written w /\ projects_acc w' = projects_acc w.
Proof.
  unfold turn. intros Hturn Hw.
  destruct (earliest fst (timers w)) as [[i t]|] eqn:Ht;
    destruct (earliest _ (inflight w)) as [[j r]|] eqn:Hr;
    try discriminate.
  - destruct (_ <=? _); injection Hturn as <-.
    + eapply settled_run_timer; [eapply earliest_In, Ht|exact Hw].
    + eapply settled_run_reply; [eapply earliest_In, Hr|exact Hw].
  - injection Hturn as <-. eapply settled_run_timer; [eapply earliest_In, Ht|exact Hw].
  - injection Hturn as <-. eapply settled_run_reply; [eapply earliest_In, Hr|exact Hw].
Qed.

(** Once nothing of the listing is left, the rest of the run sends no
    listing request and does not touch the sidecar file. *)
Lemma settled_loop fuel : forall w, listed w ->
  let w' := loop server outputDir fuel w in
  listing_offsets w' = listing_offsets w /\
  metadata_written w' = metadata_written w /\ projects_acc w' = projects_acc w.
Proof.
  induction fuel as [|fuel IH]; intros w Hw; simpl; [auto|].
  destruct (turn server outputDir w) as [w'|] eqn:Hturn; [|auto].
  destruct (settled_turn _ _ Hturn Hw) as (L & E1 & E2 & E3).
  destruct (IH w' L) as (F1 & F2 & F3). rewrite F1, F2, F3. auto.
Qed.
End Run.
End SettledFacts.

(** C5. On a machine where the filesystem calls made during the listing
    succeed (the output directory is made or is there already, the
    sidecar file is written), when the listing source serves pages
    [p_0, ..., p_(n-1)] of exactly 25 entries each and then a page [last]
    of fewer than 25 entries, [getProjects] sends one request per page, at
    offsets [0, 25, ..., 25 n] in this order, and then calls back with
    [p_0 ++ ... ++ p_(n-1) ++ last]: the sidecar file lists these projects
    in this order and the wiki index of each is enqueued; however long the
    run goes on afterwards, it sends no other listing request and writes
    no other sidecar file.  For pages of sizes [25, 25, 7] the run sends
    exactly 3 listing requests, at offsets 0, 25 and 50, and finds 57
    projects. *)
Theorem getProjects_pagination (server : Crawler.request -> nat -> nat * Http.outcome)
    (outputDir : option string) (t0 : Z)
    (pages : list (list Http.Project)) (last : list Http.Project)
    (cwd : Fs.path) (root : Fs.node) :
  (forall k page, pages !! k = Some page ->
     length page = Crawler.NB_PROJECTS_PER_PAGE /\
     Crawler.serves server (k * Crawler.NB_PROJECTS_PER_PAGE) page) ->
  Crawler.serves server (length pages * Crawler.NB_PROJECTS_PER_PAGE) last ->
  (length last < Crawler.NB_PROJECTS_PER_PAGE)%nat ->
  Exporter.replay cwd
    (Crawler.disk (Crawler.main server outputDir t0 (2 * S (length pages)))) root
    <> None ->
  let all := concat pages ++ last in
  let offsets := (fun i => i * Crawler.NB_PROJECTS_PER_PAGE)%nat
                   <$> seq 0 (S (length pages)) in
  (let w := Crawler.main server outputDir t0 (2 * S (length pages)) in
   Crawler.what <$> Crawler.wire w = Crawler.GetProjects <$> offsets /\
   Crawler.enqueued w
     = (Crawler.ProjectListJob <$> offsets) ++ (Crawler.WikiPagesJob <$> all)) /\
  (forall more,
     let w := Crawler.main server outputDir t0 (2 * S (length pages) + more) in
     Crawler.listing_offsets w = offsets /\
     Crawler.projects_acc w = all /\
     Crawler.metadata_written w
       = [(fun p => (Http.identifier p, Http.name p)) <$> all]) /\
  (let w := Crawler.main Scenario.server_57 (Some "out/"%string) 1700000000000 200 in
   Crawler.idle w = true /\
   Crawler.listing_offsets w = [0; 25; 50]%nat /\
   Crawler.metadata_written w
     = [(fun p => (Http.identifier p, Http.name p)) <$> Scenario.batch 0 57]).
Proof.
  intros Hpages Hlast Hfewer _ all offsets.
  assert (Hlen : length last <> Crawler.NB_PROJECTS_PER_PAGE) by lia.
  revert Hpages Hlast Hlen. clear Hfewer. intros Hpages Hlast Hlen.
  assert (Hend := ListingFacts.round_last server outputDir pages (length pages) last
                    _ (ListingFacts.rounds server outputDir pages t0 Hpages
                         (length pages) (le_n _)) eq_refl Hlast Hlen).
  rewrite <- ListingFacts.loop_add in Hend.
  replace (2 * length pages + 2)%nat with (2 * S (length pages))%nat in Hend by lia.
  destruct Hend as [(H1 & H2 & H3 & H4) Hlisted].
  split; [|split].
  - unfold Crawler.main. unfold offsets. rewrite <- !list_fmap_compose.
    split; [exact H1|exact H4].
  - intros more. unfold Crawler.main. rewrite ListingFacts.loop_add.
    destruct (SettledFacts.settled_loop server outputDir more _ Hlisted)
      as (E1 & E2 & E3).
    rewrite E1, E2, E3. split; [|split; [exact H2|exact H3]].
    unfold Crawler.listing_offsets.
    clear -H1. revert H1. unfold offsets.
    generalize (seq 0 (S (length pages))).
    generalize (Crawler.wire (Crawler.loop server outputDir (2 * S (length pages))
                                (Crawler.start outputDir t0))).
    intros ws. induction ws as [|s ws IH]; intros [|o os] H; simpl in *;
      try discriminate; [reflexivity|].
    injection H as Hs Hws. rewrite Hs. simpl. f_equal. apply IH. exact Hws.
  - vm_compute. auto.
Qed.

(** The pagination theorem at the server that serves 57 projects in
    pages of 25, 25 and 7, on a machine where [/app/out] can be made. *)
Lemma getProjects_pagination_witness :
  let w := Crawler.main Scenario.server_57 (Some "out/"%string) 0 6 in
  Exporter.replay ["app"%string] (Crawler.disk w) Scenario.fresh <> None /\
  Crawler.what <$> Crawler.wire w
    = [Crawler.GetProjects 0; Crawler.GetProjects 25; Crawler.GetProjects 50] /\
  Crawler.projects_acc w = Scenario.batch 0 57.
Proof.
  intros w.
  assert (Hfs : Exporter.replay ["app"%string] (Crawler.disk w) Scenario.fresh <> None)
    by (vm_compute; discriminate).
  split; [exact Hfs|].
  pose proof (getProjects_pagination Scenario.server_57 (Some "out/"%string) 0
                [Scenario.batch 0 25; Scenario.batch 25 25] (Scenario.batch 50 7)
                ["app"%string] Scenario.fresh) as H.
  destruct H as ((H1 & _) & H2 & _).
  - intros [|[|k]] page Hk; simpl in Hk; try discriminate;
      injection Hk as <-; (split; [reflexivity|]);
      exists 80%nat, "{...}"%string; eexists; (split; [reflexivity|]);
      split; [discriminate|reflexivity | discriminate|reflexivity].
  - exists 80%nat, "{...}"%string. eexists. split; [reflexivity|].
    split; [discriminate|reflexivity].
  - vm_compute. lia.
  - exact Hfs.
  - split; [exact H1|]. destruct (H2 0%nat) as (_ & H3 & _). exact H3.
Defined.

(** C1 (the code departs from it). In every run, however its callbacks
    are scheduled, the requests that leave from a throttled task are
    listing and wiki-index fetches only: page and attachment fetches are
    sent directly.  [getWikiPage] puts its request
    on the wire at once and leaves the throttle and its queue as they
    were.  On a server with one project of two pages and one attachment,
    five requests are sent for two calls of [throttle.enqueue], and both
    page fetches leave at the same instant. *)
Theorem page_and_attachment_fetches_skip_throttle :
  (forall server outputDir t0 schedule,
     Forall Crawler.disciplined
       (Crawler.wire (Crawler.play server outputDir
                        (Crawler.start outputDir t0) schedule))) /\
  (forall server project w pageName,
     let w' := Crawler.getWikiPage server project w pageName in
     Crawler.throttle w' = Crawler.throttle w /\
     Crawler.enqueued w' = Crawler.enqueued w /\
     Crawler.wire w' = Crawler.wire w ++
       [{| Crawler.instant := Crawler.now w;
           Crawler.what := Crawler.GetWikiPage (Http.identifier project) pageName;
           Crawler.try := 0; Crawler.via := Crawler.Direct |}]) /\
  (let w := Crawler.main Scenario.server_demo (Some "out/"%string) 1700000000000 200 in
   Crawler.idle w = true /\
   Scenario.trace 1700000000000 w =
     [(Crawler.GetProjects 0, 0%nat, Crawler.ThrottleLane, 0);
      (Crawler.GetWikiIndex "demo", 0%nat, Crawler.ThrottleLane, 1200);
      (Crawler.GetWikiPage "demo" "Home", 0%nat, Crawler.Direct, 1260);
      (Crawler.GetWikiPage "demo" "Setup", 0%nat, Crawler.Direct, 1260);
      (Crawler.GetAttachment 7, 0%nat, Crawler.Direct, 1330)] /\
   Crawler.enqueued w =
     [Crawler.ProjectListJob 0; Crawler.WikiPagesJob Scenario.demo]).
Proof.
  split; [|split].
  - intros. apply WireFacts.wire_disciplined_play.
  - intros server project w pageName. unfold Crawler.getWikiPage,
      Crawler.retryRequest, Crawler.request_. simpl.
    destruct (server _ _). simpl. auto.
  - vm_compute. auto.
Qed.

(** C2 (the code departs from it). When the second listing page is
    answered with HTTP 500, the run ends with the 25 projects of the first
    page discovered and dropped: nothing but the two listing requests is
    sent and nothing is written.  When the second page is answered with a
    body that does not parse, the same 25 projects are exported. *)
Theorem listing_error_drops_discovered_projects :
  (let w := Crawler.main Scenario.server_500 (Some "out/"%string) 1700000000000 200 in
   Crawler.idle w = true /\
   Crawler.projects_acc w = Scenario.batch 0 25 /\
   Crawler.what <$> Crawler.wire w = [Crawler.GetProjects 0; Crawler.GetProjects 25] /\
   Crawler.disk w = [Crawler.Mkdir "out/"]) /\
  (let w := Crawler.main Scenario.server_garbled (Some "out/"%string) 1700000000000 200 in
   Crawler.idle w = true /\
   Crawler.metadata_written w
     = [(fun p => (Http.identifier p, Http.name p)) <$> Scenario.batch 0 25] /\
   Crawler.what <$> Crawler.wire w
     = [Crawler.GetProjects 0; Crawler.GetProjects 25]
       ++ ((fun p => Crawler.GetWikiIndex (Http.identifier p)) <$> Scenario.batch 0 25)).
Proof. split; vm_compute; auto. Qed.

(** C10. In every run, however its callbacks are scheduled (the event
    loop that runs them as soon as they are due is one such schedule), a
    request that is a retry leaves from the back-off timer and a request
    that leaves from a throttled task is a first attempt.  The callback of
    a reply that is transient, within the retry budget, arms a timer for
    [tryRequest] and touches neither the throttle nor the wire; when that
    timer fires, the request goes on the wire at once and the throttle is
    not consulted.  On a server that answers the listing with HTTP 503
    once, the retried listing request and the wiki index request of the
    next throttled task leave 80 ms apart, less than the 1200 ms of the
    throttle. *)
Theorem retries_skip_throttle (server : Crawler.request -> nat -> nat * Http.outcome)
    (outputDir : option string) :
  (forall t0 schedule,
     let w := Crawler.play server outputDir (Crawler.start outputDir t0) schedule in
     Forall Crawler.disciplined (Crawler.wire w)) /\
  (forall t0 fuel, exists schedule,
     Crawler.punctual server outputDir (Crawler.start outputDir t0) schedule = true /\
     Crawler.main server outputDir t0 fuel
     = Crawler.play server outputDir (Crawler.start outputDir t0) schedule) /\
  (forall p o w,
     Retry.transient o = true ->
     (Crawler.attempt p < Retry.maxRetries_default)%nat ->
     let w' := Crawler.on_response server outputDir p o w in
     Crawler.throttle w' = Crawler.throttle w /\
     Crawler.enqueued w' = Crawler.enqueued w /\
     Crawler.wire w' = Crawler.wire w /\
     Crawler.timers w' = Crawler.timers w ++
       [(Crawler.now w + Retry.baseDelay_default * 2 ^ Z.of_nat (Crawler.attempt p),
         Crawler.TryRequest
           {| Crawler.req := Crawler.req p;
              Crawler.attempt := S (Crawler.attempt p);
              Crawler.awaiting := Crawler.awaiting p |})]) /\
  (forall p w,
     let w' := Crawler.on_timer server (Crawler.TryRequest p) w in
     Crawler.throttle w' = Crawler.throttle w /\
     Crawler.enqueued w' = Crawler.enqueued w /\
     Crawler.timers w' = Crawler.timers w /\
     Crawler.wire w' = Crawler.wire w ++
       [{| Crawler.instant := Crawler.now w; Crawler.what := Crawler.req p;
           Crawler.try := Crawler.attempt p;
           Crawler.via := Crawler.BackoffTimer |}]) /\
  (let w := Crawler.main Scenario.server_busy (Some "out/"%string) 1700000000000 200 in
   Crawler.idle w = true /\
   Scenario.trace 1700000000000 w =
     [(Crawler.GetProjects 0, 0%nat, Crawler.ThrottleLane, 0);
      (Crawler.GetProjects 0, 1%nat, Crawler.BackoffTimer, 5100);
      (Crawler.GetWikiIndex "demo", 0%nat, Crawler.ThrottleLane, 5180);
      (Crawler.GetWikiPage "demo" "Home", 0%nat, Crawler.Direct, 5240);
      (Crawler.GetWikiPage "demo" "Setup", 0%nat, Crawler.Direct, 5240);
      (Crawler.GetAttachment 7, 0%nat, Crawler.Direct, 5310)] /\
   Crawler.enqueued w =
     [Crawler.ProjectListJob 0; Crawler.WikiPagesJob Scenario.demo]).
Proof.
  repeat apply conj.
  - intros t0 schedule. apply WireFacts.wire_disciplined_play.
  - intros t0 fuel. apply LoopFacts.loop_is_play.
  - intros p o w Ht Hlt. unfold Crawler.on_response.
    rewrite (RetryFacts.decide_transient _ _ _ _ Ht Hlt). simpl. auto.
  - intros p w. simpl. unfold Crawler.request_. destruct (server _ _). simpl. auto.
  - vm_compute. reflexivity.
  - vm_compute. reflexivity.
  - vm_compute. reflexivity.
Qed.

(** The retry theorem at the busy server: the reply to the first listing
    attempt is transient and within budget. *)
Lemma retries_skip_throttle_witness :
  let p := {| Crawler.req := Crawler.GetProjects 0; Crawler.attempt := 0;
              Crawler.awaiting := Crawler.AtProjectListPage |} in
  let o := Scenario.status 503 "Service Unavailable" in
  let w := Crawler.start (Some "out/"%string) 0 in
  Retry.transient o = true /\
  (Crawler.attempt p < Retry.maxRetries_default)%nat /\
  Crawler.timers (Crawler.on_response Scenario.server_busy (Some "out/"%string) p o w)
    = Crawler.timers w ++
        [(5000, Crawler.TryRequest
                  {| Crawler.req := Crawler.GetProjects 0; Crawler.attempt := 1;
                     Crawler.awaiting := Crawler.AtProjectListPage |})].
Proof.
  intros p o w.
  assert (Ht : Retry.transient o = true) by reflexivity.
  assert (Hlt : (Crawler.attempt p < Retry.maxRetries_default)%nat)
    by (vm_compute; lia).
  split; [exact Ht|]. split; [exact Hlt|].
  destruct (retries_skip_throttle Scenario.server_busy (Some "out/"%string))
    as (_ & _ & H & _).
  destruct (H p o w Ht Hlt) as (_ & _ & _ & Htimers).
  exact Htimers.
Defined.

(** The retry policy at a request function that is refused twice and then
    answered. *)
Lemma retryRequest_succeeds_after_K_witness :
  Retry.retryRequest Scenario.refused_twice 5 5000 =
    {| Retry.resolved := Scenario.ok (Scenario.listing []) "{}";
       Retry.invocations := 3;
       Retry.waits := [5000; 10000] |}.
Proof.
  apply (retryRequest_succeeds_after_K Scenario.refused_twice 5 5000 2).
  - intros [|[|i]] Hi; [reflexivity|reflexivity|lia].
  - reflexivity.
  - lia.
Defined.

(** ** IndexBuilder: the candidate and what is written *)

Module IndexFacts.
Import Text IndexBuilder.

Lemma find_entry_none x es :
  Fs.entry x es = None -> ~ In x (fst <$> es).
Proof.
  unfold Fs.entry. induction es as [|[y n] es IH]; simpl; [tauto|].
  destruct (String.eqb y x) eqn:E; [discriminate|].
  intros H [Hyx|Hin]; [|exact (IH H Hin)].
  subst y. rewrite String.eqb_refl in E. discriminate.
Qed.

Lemma find_entry_some x n es :
  Fs.entry x es = Some n -> In x (fst <$> es).
Proof.
  unfold Fs.entry. induction es as [|[y m] es IH]; simpl; [discriminate|].
  destruct (String.eqb y x) eqn:E.
  - apply String.eqb_eq in E. auto.
  - auto.
Qed.

Lemma list_includes_true x l : list_includes x l = true <-> In x l.
Proof.
  unfold list_includes. rewrite existsb_exists. split.
  - intros (y & Hin & E). apply String.eqb_eq in E. subst. exact Hin.
  - intros Hin. exists x. split; [exact Hin|apply String.eqb_refl].
Qed.

Lemma md_files_In x es :
  In x (md_files es) <-> In x (fst <$> es) /\ endsWith ".md" x = true.
Proof. unfold md_files. apply filter_In. Qed.

(** A name absent from the directory is not among its markdown files. *)
Lemma absent_not_included x es :
  Fs.entry x es = None -> list_includes x (md_files es) = false.
Proof.
  intros H. apply not_true_is_false. rewrite list_includes_true, md_files_In.
  intros [Hin _]. exact (find_entry_none _ _ H Hin).
Qed.

Lemma present_included x n es :
  Fs.entry x es = Some n -> endsWith ".md" x = true ->
  list_includes x (md_files es) = true.
Proof.
  intros H Hmd. rewrite list_includes_true, md_files_In.
  split; [exact (find_entry_some _ _ _ H)|exact Hmd].
Qed.

Lemma entry_set_entry x n es : Fs.entry x (Fs.set_entry x n es) = Some n.
Proof.
  unfold Fs.entry. induction es as [|[y m] es IH]; simpl.
  - rewrite String.eqb_refl. reflexivity.
  - destruct (String.eqb y x) eqn:E; simpl; rewrite E; [reflexivity|exact IH].
Qed.

Lemma entry_set_entry_other x y n es :
  x <> y -> Fs.entry y (Fs.set_entry x n es) = Fs.entry y es.
Proof.
  intros Hxy. unfold Fs.entry. induction es as [|[z m] es IH]; simpl.
  - destruct (String.eqb x y) eqn:E; [|reflexivity].
    apply String.eqb_eq in E. contradiction.
  - destruct (String.eqb z x) eqn:E; simpl.
    + apply String.eqb_eq in E. subst z.
      destruct (String.eqb x y) eqn:E'; [|reflexivity].
      apply String.eqb_eq in E'. contradiction.
    + destruct (String.eqb z y); [reflexivity|exact IH].
Qed.

(** Writing a name the directory does not have adds it at the end. *)
Lemma set_entry_absent x n es :
  Fs.entry x es = None -> Fs.set_entry x n es = es ++ [(x, n)].
Proof.
  unfold Fs.entry. induction es as [|[y m] es IH]; simpl; [reflexivity|].
  destruct (String.eqb y x); [discriminate|]. intros H. rewrite IH by exact H.
  reflexivity.
Qed.

(** Without markdown file there is no candidate. *)
Lemma no_file_no_candidate es projectName :
  md_files es = [] -> findIndexCandidate es projectName = None.
Proof.
  intros H. unfold findIndexCandidate. rewrite H.
  unfold variations. simpl. reflexivity.
Qed.

Lemma no_file_no_index es : md_files es = [] -> Fs.entry "Index.md" es = None.
Proof.
  intros H. destruct (Fs.entry "Index.md" es) as [n|] eqn:E; [|reflexivity].
  assert (Hin : In "Index.md"%string (md_files es)).
  { apply md_files_In. split; [exact (find_entry_some _ _ _ E)|reflexivity]. }
  rewrite H in Hin. destruct Hin.
Qed.

End IndexFacts.

(** C8 (amended). For a project directory that is not named like a
    property every JavaScript object inherits ([constructor],
    [toString], ...), whose display name is "My Project" and which holds
    a file [My_Project.md] of valid UTF-8 text and nothing named
    [Wiki.md], [Index.md] or [My Project.md], IndexBuilder writes an
    [Index.md] with the content of [My_Project.md], which stays in place.
    For a directory without any name ending in [.md], the [Index.md]
    written is the heading with the project name followed by an empty list
    of pages, and the other entries stay as they are.  When the winning
    candidate is [Index.md] itself, the directory is left as it is. *)
Theorem createProjectIndex_cases (projectMetadata : gmap string string)
    (projectId : string) (entries : list (string * Fs.node)) :
  ~ In projectId Objects.inherited ->
  let projectName := IndexBuilder.project_name projectMetadata projectId in
  (forall content,
     projectName = "My Project"%string ->
     Fs.entry "My_Project.md" entries = Some (Fs.File content) ->
     Utf8.valid content = true ->
     Fs.entry "Wiki.md" entries = None ->
     Fs.entry "Index.md" entries = None ->
     Fs.entry "My Project.md" entries = None ->
     exists entries',
       IndexBuilder.createProjectIndex projectMetadata projectId entries
         = Some (entries', IndexBuilder.CreatedFrom projectId "My_Project.md") /\
       Fs.entry "Index.md" entries' = Some (Fs.File content) /\
       Fs.entry "My_Project.md" entries' = Some (Fs.File content)) /\
  (IndexBuilder.md_files entries = [] ->
     exists entries',
       IndexBuilder.createProjectIndex projectMetadata projectId entries
         = Some (entries', IndexBuilder.CreatedBasic projectId) /\
       Fs.entry "Index.md" entries'
         = Some (Fs.File ("# " +:+ projectName +:+ IndexBuilder.nl +:+ IndexBuilder.nl
                          +:+ "## Pages" +:+ IndexBuilder.nl +:+ IndexBuilder.nl)) /\
       forall x, x <> "Index.md"%string -> Fs.entry x entries' = Fs.entry x entries) /\
  (IndexBuilder.findIndexCandidate entries projectName = Some "Index.md"%string ->
     IndexBuilder.createProjectIndex projectMetadata projectId entries
       = Some (entries, IndexBuilder.AlreadyExists projectId)).
Proof.
  intros _ projectName. repeat apply conj.
  - intros content Hname Hfile _ Hwiki Hindex Hexact.
    exists (Fs.set_entry "Index.md" (Fs.File content) entries).
    assert (Hc : IndexBuilder.findIndexCandidate entries "My Project"
                 = Some "My_Project.md"%string).
    { unfold IndexBuilder.findIndexCandidate.
      assert (Hv : IndexBuilder.variations "My Project" =
                   ["Wiki.md"; "Index.md"; "My Project.md"; "My_Project.md";
                    "My-Project.md"; "MyProject.md"]%string) by reflexivity.
      rewrite Hv. cbn [find].
      rewrite (IndexFacts.absent_not_included _ _ Hwiki),
        (IndexFacts.absent_not_included _ _ Hindex),
        (IndexFacts.absent_not_included _ _ Hexact),
        (IndexFacts.present_included _ _ _ Hfile) by reflexivity.
      reflexivity. }
    unfold IndexBuilder.createProjectIndex. fold projectName.
    rewrite Hname, Hc. simpl. rewrite Hfile.
    unfold IndexBuilder.write_index. rewrite Hindex. simpl.
    split; [reflexivity|]. split.
    + apply IndexFacts.entry_set_entry.
    + rewrite IndexFacts.entry_set_entry_other by discriminate. exact Hfile.
  - intros Hnone. eexists. unfold IndexBuilder.createProjectIndex. fold projectName.
    rewrite (IndexFacts.no_file_no_candidate _ _ Hnone), Hnone.
    unfold IndexBuilder.write_index.
    rewrite (IndexFacts.no_file_no_index _ Hnone). simpl.
    split; [reflexivity|]. split.
    + apply IndexFacts.entry_set_entry.
    + intros x Hx. apply IndexFacts.entry_set_entry_other. congruence.
  - intros Hc. unfold IndexBuilder.createProjectIndex. fold projectName.
    rewrite Hc. reflexivity.
Qed.

(** ** LinkRewriter: text without anything to rewrite *)

Module RewriteFacts.
Import Text LinkRewriter.

Lemma includes_cons p c s :
  includes p (String c s) = false ->
  startsWith p (String c s) = false /\ includes p s = false.
Proof. simpl. intros H. apply orb_false_iff in H. exact H. Qed.

Lemma strip_none p s : startsWith p s = false -> strip p s = None.
Proof. unfold startsWith. destruct (strip p s); [discriminate|reflexivity]. Qed.

(** No two opening square brackets in a row: category 1 finds nothing. *)
Lemma category1_idle s : includes "[[" s = false -> category1 s = s.
Proof.
  unfold category1. induction s as [|c r IH]; intros H; [reflexivity|].
  apply includes_cons in H as [Hhere Hrest].
  cbn [scan]. unfold wiki_syntax at 1. rewrite (strip_none _ _ Hhere).
  cbn [render]. rewrite IH by exact Hrest. reflexivity.
Qed.

Section WithUrl.
Variable redmineUrl : string.

Abbreviation absolute_wiki_target := (LinkRewriter.absolute_wiki_target redmineUrl).

Lemma wiki_url_tail_none s :
  startsWith absolute_wiki_target s = false -> wiki_url_tail redmineUrl s = None.
Proof.
  intros H. unfold wiki_url_tail. fold absolute_wiki_target.
  rewrite (strip_none _ _ H). reflexivity.
Qed.

Lemma lazy_dots_none s :
  includes absolute_wiki_target s = false ->
  lazy_dots (wiki_url_tail redmineUrl) s = None.
Proof.
  induction s as [|c r IH]; intros H.
  - cbn [lazy_dots]. rewrite wiki_url_tail_none by reflexivity. reflexivity.
  - apply includes_cons in H as [Hhere Hrest].
    cbn [lazy_dots]. rewrite (wiki_url_tail_none _ Hhere), IH by exact Hrest.
    destruct (line_terminator _); reflexivity.
Qed.

Lemma wiki_url_none s :
  includes absolute_wiki_target s = false -> wiki_url redmineUrl s = None.
Proof.
  intros H. unfold wiki_url. destruct s as [|c r]; [reflexivity|].
  apply includes_cons in H as [_ Hrest].
  rewrite (lazy_dots_none _ Hrest).
  destruct c as [[] [] [] [] [] [] [] []]; reflexivity.
Qed.

(** No absolute wiki target in the text: category 2 finds nothing. *)
Lemma category2_idle currentProject s :
  includes absolute_wiki_target s = false ->
  category2 redmineUrl currentProject s = s.
Proof.
  unfold category2. induction s as [|c r IH]; intros H; [reflexivity|].
  cbn [scan]. rewrite (wiki_url_none _ H).
  apply includes_cons in H as [_ Hrest].
  cbn [render]. rewrite IH by exact Hrest. reflexivity.
Qed.
End WithUrl.
End RewriteFacts.

(** The three cases on three directories: one with [My_Project.md] and
    another page, one without markdown file, one with an [Index.md]. *)
Lemma createProjectIndex_cases_witness :
  ~ In "myproj"%string Objects.inherited /\
  Utf8.valid "home" = true /\
  (exists entries',
     IndexBuilder.createProjectIndex Scenario.my_project "myproj"
       [("My_Project.md"%string, Fs.File "home"); ("Notes.md"%string, Fs.File "notes")]
       = Some (entries', IndexBuilder.CreatedFrom "myproj" "My_Project.md") /\
     Fs.entry "Index.md" entries' = Some (Fs.File "home") /\
     Fs.entry "My_Project.md" entries' = Some (Fs.File "home")) /\
  (exists entries',
     IndexBuilder.createProjectIndex Scenario.my_project "myproj"
       [("attachments"%string, Fs.Dir [])]
       = Some (entries', IndexBuilder.CreatedBasic "myproj") /\
     Fs.entry "Index.md" entries'
       = Some (Fs.File ("# My Project" +:+ IndexBuilder.nl +:+ IndexBuilder.nl +:+
                        "## Pages" +:+ IndexBuilder.nl +:+ IndexBuilder.nl)) /\
     Fs.entry "attachments" entries' = Some (Fs.Dir [])) /\
  IndexBuilder.createProjectIndex Scenario.my_project "myproj"
    [("Index.md"%string, Fs.File "index"); ("My_Project.md"%string, Fs.File "home")]
    = Some ([("Index.md"%string, Fs.File "index");
             ("My_Project.md"%string, Fs.File "home")],
            IndexBuilder.AlreadyExists "myproj").
Proof.
  assert (Hid : ~ In "myproj"%string Objects.inherited).
  { simpl. intros H. repeat destruct H as [H|H]; try discriminate H. exact H. }
  split; [exact Hid|]. split; [reflexivity|]. repeat apply conj.
  - apply (createProjectIndex_cases Scenario.my_project "myproj"
             [("My_Project.md"%string, Fs.File "home");
              ("Notes.md"%string, Fs.File "notes")] Hid); reflexivity.
  - destruct (createProjectIndex_cases Scenario.my_project "myproj"
                [("attachments"%string, Fs.Dir [])] Hid) as (_ & H & _).
    destruct (H eq_refl) as (entries' & H1 & H2 & H3).
    exists entries'. split; [exact H1|]. split; [exact H2|].
    rewrite H3 by discriminate. reflexivity.
  - apply (createProjectIndex_cases Scenario.my_project "myproj"
             [("Index.md"%string, Fs.File "index");
              ("My_Project.md"%string, Fs.File "home")] Hid). reflexivity.
Defined.

(** C8, as stated, fails: in a directory that holds [My_Project.md] and
    [Wiki.md], the [Index.md] written has the content of [Wiki.md]. *)
Lemma index_prefers_wiki_page :
  IndexBuilder.project_name Scenario.my_project "myproj" = "My Project"%string /\
  Fs.entry "My_Project.md" Scenario.my_project_dir = Some (Fs.File "home") /\
  exists entries',
    IndexBuilder.createProjectIndex Scenario.my_project "myproj" Scenario.my_project_dir
      = Some (entries', IndexBuilder.CreatedFrom "myproj" "Wiki.md") /\
    Fs.entry "Index.md" entries' = Some (Fs.File "wiki") /\
    Fs.entry "Index.md" entries' <> Fs.entry "My_Project.md" Scenario.my_project_dir.
Proof.
  split; [reflexivity|]. split; [reflexivity|].
  eexists. split; [reflexivity|]. split; [reflexivity|]. discriminate.
Qed.

(** C6 (the code departs from it). A markdown link, without [!], to an
    attachment that exists in the project's [attachments/] directory is
    left as it is, without warning.  The same kind of target in an image is
    rewritten: to the local file when it exists, else to the first sibling
    project that has a file of that name, else left alone with a warning. *)
Theorem attachment_link_without_bang_is_not_rewritten :
  Fs.existsSync Scenario.site (Scenario.alpha ++ ["attachments"%string]) "spec.pdf" = true /\
  Scenario.rewritten Scenario.site (Scenario.alpha ++ ["Links.md"%string])
    = Some ("[spec](http://srv/attachments/download/5/spec.pdf)"%string, []) /\
  Scenario.rewritten Scenario.site (Scenario.alpha ++ ["Home.md"%string])
    = Some ("![pic](attachments/My%20File.png)"%string, []) /\
  Scenario.rewritten Scenario.site (Scenario.alpha ++ ["Shared.md"%string])
    = Some ("![d](../beta/attachments/other.png)"%string, []) /\
  Scenario.rewritten Scenario.site (Scenario.alpha ++ ["Missing.md"%string])
    = Some ("![n](http://srv/attachments/7/none.png)"%string,
            [LinkRewriter.AttachmentNotFound "none.png"
               (Scenario.alpha ++ ["Missing.md"%string])]).
Proof. repeat apply conj; reflexivity. Qed.

(** C7 (the code departs from it). With [outputDir] configured as
    [export] and the program installed and run in [/app], the export
    writes the sidecar file and the pages under [/app/export]; the
    post-passes look under [/app/output], where there is nothing: the
    sidecar file is not found and listing the directory throws, in
    [fix-links.js] as in [create-indexes.js]. *)
Theorem post_passes_read_another_tree :
  let w := Crawler.main Scenario.server_demo
             (Crawler.outputDir_of Scenario.to_export) 1700000000000 200 in
  Crawler.idle w = true /\
  exists tree,
    Exporter.replay ["app"%string] (Crawler.disk w) Scenario.fresh = Some tree /\
    Fs.readFileSync tree ["app"; "export"; "projects-metadata.json"]%string
      = Some (Exporter.stringify [("demo", "Demo")]%string) /\
    Fs.readFileSync tree ["app"; "export"; "demo"; "Home.md"]%string
      = Some "Welcome"%string /\
    IndexBuilder.metadata_path ["app"%string]
      = ["app"; "output"; "projects-metadata.json"]%string /\
    Fs.readFileSync tree (IndexBuilder.metadata_path ["app"%string]) = None /\
    Fs.readdirSync tree (IndexBuilder.outputDir ["app"%string]) = None /\
    LinkRewriter.fix_links "http://srv" ["app"%string] tree = None.
Proof.
  split; [reflexivity|]. eexists. split; [vm_compute; reflexivity|].
  repeat apply conj; reflexivity.
Qed.

(* ===================================================================== *)
(** * Part III: more of what the code guarantees *)
(* ===================================================================== *)

(** ** retryRequest, for every request function *)

Module RetryBounds.
Import Http Retry.
Section Loop.
Variable requestFn : nat -> outcome.
Variable maxRetries : nat.
Variable baseDelay : Z.

(** From attempt [j] on, [tryRequest] stops at the first outcome that is
    not transient, or at attempt [maxRetries]. *)
Lemma tryRequest_stops n : forall j delays,
  (j + n = maxRetries)%nat ->
  exists K, (j <= K <= maxRetries)%nat /\
    tryRequest requestFn maxRetries baseDelay j j delays =
      {| resolved := requestFn K; invocations := S K;
         waits := delays ++ backoff baseDelay j (K - j) |} /\
    (forall i, (j <= i < K)%nat -> transient (requestFn i) = true) /\
    (K = maxRetries \/ transient (requestFn K) = false).
Proof.
  induction n as [|n IH]; intros j delays Hj.
  - exists j. rewrite RetryFacts.tryRequest_unfold,
      RetryFacts.decide_exhausted by lia.
    rewrite Nat.sub_diag. unfold backoff. simpl. rewrite app_nil_r.
    split; [lia|]. split; [reflexivity|]. split; [intros; lia|left; lia].
  - rewrite RetryFacts.tryRequest_unfold.
    destruct (transient (requestFn j)) eqn:Ht.
    + rewrite RetryFacts.decide_transient by (try exact Ht; lia).
      destruct (IH (S j) (delays ++ [baseDelay * 2 ^ Z.of_nat j]))
        as (K & HK & Hrun & Hfail & Hlast); [lia|].
      exists K. split; [lia|]. split; [|split; [|exact Hlast]].
      * rewrite Hrun. f_equal. rewrite <- app_assoc. f_equal.
        replace (K - j)%nat with (S (K - S j)) by lia. reflexivity.
      * intros i Hi. destruct (Nat.eq_dec i j) as [->|Hne]; [exact Ht|].
        apply Hfail. lia.
    + exists j. rewrite RetryFacts.decide_terminal by exact Ht.
      rewrite Nat.sub_diag. unfold backoff. simpl. rewrite app_nil_r.
      split; [lia|]. split; [reflexivity|]. split; [intros; lia|right; exact Ht].
Qed.

(** The delays of [K] retries add up to [baseDelay * (2^K - 1)]. *)
Lemma backoff_sum K :
  foldr Z.add 0 (backoff baseDelay 0 K) = baseDelay * (2 ^ Z.of_nat K - 1).
Proof.
  unfold backoff. induction K as [|K IH].
  - simpl. lia.
  - rewrite seq_S, fmap_app, foldr_app. simpl.
    rewrite Nat2Z.inj_succ, Z.pow_succ_r by lia.
    transitivity (baseDelay * 2 ^ Z.of_nat K
                  + foldr Z.add 0 ((fun i => baseDelay * 2 ^ Z.of_nat i) <$> seq 0 K)).
    + generalize ((fun i => baseDelay * 2 ^ Z.of_nat i) <$> seq 0 K).
      generalize (baseDelay * 2 ^ Z.of_nat K). clear.
      intros x l. induction l as [|y l IHl]; simpl; [lia|].
      rewrite IHl. lia.
    + rewrite IH. lia.
Qed.
End Loop.
End RetryBounds.

(** X3. Whatever the request function does, [retryRequest] resolves: with the
    outcome of the first invocation that is not transient when there is one
    among the first [maxRetries], with the outcome of invocation
    [maxRetries] otherwise (a transient outcome then, handed to the caller
    as it is).  It never calls [requestFn] more than [maxRetries + 1]
    times, and before retry [k] it waits [baseDelay * 2^(k-1)]. *)
Theorem retryRequest_always_resolves (requestFn : nat -> Http.outcome)
    (maxRetries : nat) (baseDelay : Z) :
  exists K, (K <= maxRetries)%nat /\
    Retry.retryRequest requestFn maxRetries baseDelay =
      {| Retry.resolved := requestFn K;
         Retry.invocations := S K;
         Retry.waits := (fun i => baseDelay * 2 ^ Z.of_nat i) <$> seq 0 K |} /\
    (forall i, (i < K)%nat -> Retry.transient (requestFn i) = true) /\
    (K = maxRetries \/ Retry.transient (requestFn K) = false).
Proof.
  destruct (RetryBounds.tryRequest_stops requestFn maxRetries baseDelay
              maxRetries 0 []) as (K & HK & Hrun & Hfail & Hlast); [lia|].
  exists K. split; [lia|]. split; [|split; [|exact Hlast]].
  - unfold Retry.retryRequest. rewrite Hrun, Nat.sub_0_r. reflexivity.
  - intros i Hi. apply Hfail. lia.
Qed.

(** X4. The time one [retryRequest] spends waiting between its attempts is
    [baseDelay * (2^(n-1) - 1)] when it has called [requestFn] [n] times;
    with the default arguments this is never more than 155 seconds. *)
Theorem retryRequest_total_wait (requestFn : nat -> Http.outcome)
    (maxRetries : nat) (baseDelay : Z) :
  let r := Retry.retryRequest requestFn maxRetries baseDelay in
  foldr Z.add 0 (Retry.waits r)
    = baseDelay * (2 ^ Z.of_nat (Retry.invocations r - 1) - 1) /\
  foldr Z.add 0
    (Retry.waits (Retry.retryRequest requestFn Retry.maxRetries_default
                    Retry.baseDelay_default)) <= 155000.
Proof.
  assert (Hsum : forall maxRetries baseDelay,
    let r := Retry.retryRequest requestFn maxRetries baseDelay in
    exists K, (K <= maxRetries)%nat /\ Retry.invocations r = S K /\
      foldr Z.add 0 (Retry.waits r) = baseDelay * (2 ^ Z.of_nat K - 1)).
  { intros mr bd r.
    destruct (RetryBounds.tryRequest_stops requestFn mr bd mr 0 [])
      as (K & HK & Hrun & _); [lia|].
    exists K. unfold r, Retry.retryRequest. rewrite Hrun. simpl.
    rewrite Nat.sub_0_r, RetryBounds.backoff_sum. repeat split. lia. }
  intros r. split.
  - destruct (Hsum maxRetries baseDelay) as (K & _ & Hn & Hs).
    fold r in Hn, Hs. rewrite Hn, Hs. simpl. rewrite Nat.sub_0_r. reflexivity.
  - destruct (Hsum Retry.maxRetries_default Retry.baseDelay_default)
      as (K & HK & _ & Hs).
    rewrite Hs. unfold Retry.maxRetries_default in HK.
    unfold Retry.baseDelay_default.
    assert (2 ^ Z.of_nat K <= 2 ^ 5) by (apply Z.pow_le_mono_r; lia).
    lia.
Qed.

(** ** Throttle: its timer *)

Module ThrottleTimer.
Import Throttle Bounds.
Section WithTask.
Context {Task : Type}.
Variable spawns : Task -> list Task.
Variable cost : Task -> nat.
Variable m : Z.
Hypothesis m_nonneg : 0 <= m.

Abbreviation prompt := (Bounds.prompt m).

Lemma prompt_process (s : sys Task) th :
  prompt s -> minIntervalMs th = m -> lastTime th <= clock s ->
  let '(th', w) := process (clock s) th in
  prompt {| clock := clock s; thr := th'; timers := arm (clock s) w (timers s);
            started := started s; submitted := submitted s |}.
Proof.
  intros [H1 H2 H3] Hm Hl. unfold process.
  destruct (active th || _).
  - split; simpl; assumption.
  - split; simpl; try assumption.
    apply Forall_app. split; [exact H3|].
    constructor; [|constructor]. rewrite Hm. lia.
Qed.

Lemma prompt_do_enqueue (s : sys Task) fn : prompt s -> prompt (do_enqueue s fn).
Proof.
  intros Hs. unfold do_enqueue, enqueue.
  pose proof (prompt_process s
    {| minIntervalMs := minIntervalMs (thr s); queue := queue (thr s) ++ [fn];
       lastTime := lastTime (thr s); active := active (thr s) |} Hs
    (prompt_interval _ _ Hs) (prompt_last _ _ Hs)) as Hp.
  destruct (process _ _) as [th' w].
  destruct Hp as [H1 H2 H3]. split; assumption.
Qed.

Lemma prompt_spawns fns : forall s : sys Task,
  prompt s -> prompt (foldl do_enqueue s fns).
Proof.
  induction fns as [|fn fns IH]; intros s Hs; simpl; [exact Hs|].
  apply IH, prompt_do_enqueue, Hs.
Qed.

Lemma prompt_advance d (s : sys Task) : prompt s -> prompt (advance d s).
Proof.
  intros [H1 H2 H3]. split; simpl; [exact H1|lia|].
  eapply Forall_impl; [exact H3|]. simpl. intros due Hdue. lia.
Qed.

Lemma prompt_fire i (s : sys Task) : prompt s -> prompt (fire spawns cost i s).
Proof.
  intros Hs. unfold fire.
  destruct (timers s !! i) as [due|]; [|exact Hs].
  destruct Hs as [H1 H2 H3].
  assert (Hdel : Forall (fun due => due <= clock s + m) (delete i (timers s)))
    by apply Forall_delete, H3.
  unfold shift. destruct (queue (thr s)) as [|fn rest].
  - split; simpl; [exact H1|lia|exact Hdel].
  - set (s1 := {| clock := clock s;
                  thr := {| minIntervalMs := minIntervalMs (thr s); queue := rest;
                            lastTime := clock s; active := active (thr s) |};
                  timers := delete i (timers s);
                  started := started s ++ [(fn, clock s)];
                  submitted := submitted s |}).
    assert (Hs1 : prompt s1) by (split; simpl; [exact H1|lia|exact Hdel]).
    assert (Hs2 : prompt (run_task spawns cost fn s1))
      by apply prompt_advance, prompt_spawns, Hs1.
    simpl. fold s1. unfold release.
    pose proof (prompt_process _
      {| minIntervalMs := minIntervalMs (thr (run_task spawns cost fn s1));
         queue := queue (thr (run_task spawns cost fn s1));
         lastTime := lastTime (thr (run_task spawns cost fn s1));
         active := false |} Hs2
      (prompt_interval _ _ Hs2) (prompt_last _ _ Hs2)) as Hp.
    destruct (process _ _) as [th3 w]. exact Hp.
Qed.

Lemma prompt_react e (s : sys Task) : prompt s -> prompt (react spawns cost s e).
Proof.
  destruct e; simpl;
    [apply prompt_advance|apply prompt_do_enqueue|apply prompt_fire].
Qed.

Lemma prompt_foldl es : forall s : sys Task,
  prompt s -> prompt (foldl (react spawns cost) s es).
Proof.
  induction es as [|e es IH]; intros s Hs; simpl; [exact Hs|].
  apply IH, prompt_react, Hs.
Qed.
End WithTask.
End ThrottleTimer.

(** X1. Between two callbacks a throttle has armed one timer when tasks are
    waiting and none when its queue is empty, and it is [active] exactly
    when tasks are waiting: it never runs two tasks from two timers, and it
    never stays idle with work queued.  (The tasks return: they are
    [async] functions in the program.) *)
Theorem throttle_one_timer {Task : Type}
    (spawns : Task -> list Task) (cost : Task -> nat)
    (m t0 : Z) (sched : list (Throttle.event Task)) :
  let s := Throttle.run spawns cost m t0 sched in
  (length (Throttle.timers s) <= 1)%nat /\
  (Throttle.timers s = [] <-> Throttle.queue (Throttle.thr s) = []) /\
  (Throttle.active (Throttle.thr s) = false
   <-> Throttle.queue (Throttle.thr s) = []).
Proof.
  intros s.
  assert (Hs : Throttle.inv m s)
    by apply ThrottleFacts.inv_foldl, ThrottleFacts.inv_init.
  pose proof (Throttle.inv_timer _ _ Hs) as Ht.
  destruct (Throttle.active (Throttle.thr s)).
  - destruct Ht as (Hq & due & -> & _). simpl.
    split; [lia|]. split; split; intros H; try discriminate; contradiction.
  - destruct Ht as [-> ->]. simpl. split; [lia|]. split; split; reflexivity.
Qed.



(** ** Percent encoding *)

Module CodecFacts.
Import Text Utf8.
Local Open Scope char_scope.

Ltac each_byte c := destruct c as [[] [] [] [] [] [] [] []].

Lemma unescape_plain c rest :
  c <> "%" ->
  unescape (String c rest)
  = match unescape rest with Some us => Some (Plain c :: us) | None => None end.
Proof. each_byte c; intros H; try reflexivity; contradiction H; reflexivity. Qed.

Lemma unescape_escape h l rest :
  unescape (String "%" (String h (String l rest)))
  = match hex_value h, hex_value l, unescape rest with
    | Some h, Some l, Some us => Some (Escaped (16 * h + l) :: us)
    | _, _, _ => None
    end.
Proof. reflexivity. Qed.

Lemma unreserved_ascii c : unreserved c = true -> (N_of_ascii c <? 128)%N = true.
Proof. each_byte c; vm_compute; congruence. Qed.

Lemma unreserved_not_percent c : unreserved c = true -> c <> "%".
Proof. intros H ->. discriminate H. Qed.

Lemma hex_high c :
  hex_value (hex_digit (N_of_ascii c / 16)) = Some (N_of_ascii c / 16)%N.
Proof. each_byte c; reflexivity. Qed.

Lemma hex_low c :
  hex_value (hex_digit (N_of_ascii c mod 16)) = Some (N_of_ascii c mod 16)%N.
Proof. each_byte c; reflexivity. Qed.

Lemma hex_unreserved c :
  unreserved (hex_digit (N_of_ascii c / 16)) = true /\
  unreserved (hex_digit (N_of_ascii c mod 16)) = true.
Proof. each_byte c; split; reflexivity. Qed.

(** Reading the escapes of an encoded text gives back its bytes, the
    escaped ones marked. *)
Lemma unescape_encode s : unescape (encodeURIComponent s) = Some (units s).
Proof.
  unfold units. induction s as [|c s IH]; [reflexivity|].
  cbn [encodeURIComponent list_ascii_of_string fmap list_fmap].
  destruct (unreserved c) eqn:Hc.
  - rewrite unescape_plain by (apply unreserved_not_percent, Hc).
    rewrite IH. reflexivity.
  - rewrite unescape_escape, hex_high, hex_low, IH.
    do 3 f_equal. symmetry. apply N.div_mod. discriminate.
Qed.

Lemma bytes_of_units s : bytes_of (units s) = s.
Proof.
  unfold bytes_of, units. rewrite <- list_fmap_compose.
  induction s as [|c s IH]; [reflexivity|].
  cbn [list_ascii_of_string fmap list_fmap string_of_list_ascii compose].
  f_equal; [|exact IH].
  destruct (unreserved c); [reflexivity|apply ascii_N_embedding].
Qed.

(** The check of the second pass does not see the difference between a
    byte left alone and the same byte escaped. *)
Lemma well_formed_units s : forall open,
  well_formed open (units s)
  = well_formed open ((fun c => Escaped (N_of_ascii c)) <$> list_ascii_of_string s).
Proof.
  unfold units. induction s as [|c s IH]; intros open; [reflexivity|].
  cbn [list_ascii_of_string fmap list_fmap].
  destruct (unreserved c) eqn:Hc.
  - pose proof (unreserved_ascii c Hc) as Hlt.
    assert (Hge : (128 <=? N_of_ascii c)%N = false)
      by (apply N.leb_gt; apply N.ltb_lt in Hlt; exact Hlt).
    destruct open as [[[[|k] n] acc]|]; cbn [well_formed];
      rewrite ?Hlt, ?Hge; cbn [andb]; try apply IH; reflexivity.
  - destruct open as [[[[|k] n] acc]|]; cbn [well_formed].
    + destruct (_ <? 128)%N; [apply IH|]. destruct (lead _) as [[n' bits]|]; [apply IH|reflexivity].
    + destruct (_ && _); [|reflexivity]. destruct k; [rewrite IH; reflexivity|apply IH].
    + destruct (_ <? 128)%N; [apply IH|]. destruct (lead _) as [[n' bits]|]; [apply IH|reflexivity].
Qed.

Lemma encode_injective a b :
  encodeURIComponent a = encodeURIComponent b -> a = b.
Proof.
  intros H. apply (f_equal unescape) in H. rewrite !unescape_encode in H.
  injection H as H. apply (f_equal bytes_of) in H.
  rewrite !bytes_of_units in H. exact H.
Qed.

Lemma encode_alphabet s :
  Forall (fun c => unreserved c = true \/ c = "%")
    (list_ascii_of_string (encodeURIComponent s)).
Proof.
  induction s as [|c s IH]; [constructor|].
  cbn [encodeURIComponent]. destruct (unreserved c) eqn:Hc.
  - constructor; [left; exact Hc|exact IH].
  - destruct (hex_unreserved c) as [H1 H2].
    constructor; [right; reflexivity|].
    constructor; [left; exact H1|]. constructor; [left; exact H2|exact IH].
Qed.
End CodecFacts.

(** X8. A name that is well-formed UTF-8 survives the round trip: decoding
    what [encodeURIComponent] made of it succeeds and gives the name back.
    It is what the page request of [getWikiPage] and the attachment links
    written by fix-links.js rely on. *)
Theorem decodeURIComponent_encodeURIComponent (s : string) :
  Utf8.valid s = true ->
  Text.decodeURIComponent (Text.encodeURIComponent s) = Some s.
Proof.
  intros Hs. unfold Text.decodeURIComponent.
  rewrite CodecFacts.unescape_encode, CodecFacts.well_formed_units.
  unfold Utf8.valid in Hs. rewrite Hs, CodecFacts.bytes_of_units. reflexivity.
Qed.

(** A file name with a space and an accented letter. *)
Lemma decodeURIComponent_encodeURIComponent_witness :
  let s := ("My Caf" +:+ String "195"%char (String "169"%char " (1).png"))%string in
  Utf8.valid s = true /\
  Text.encodeURIComponent s = "My%20Caf%C3%A9%20(1).png"%string /\
  Text.decodeURIComponent (Text.encodeURIComponent s) = Some s.
Proof.
  intros s. split; [reflexivity|]. split; [reflexivity|].
  apply (decodeURIComponent_encodeURIComponent s). reflexivity.
Defined.

(** ** Strings as lists of characters *)

Module StringFacts.

Lemma to_list_app a b :
  list_ascii_of_string (a +:+ b) = list_ascii_of_string a ++ list_ascii_of_string b.
Proof.
  induction a as [|c a IH]; [reflexivity|].
  change (String c a +:+ b) with (String c (a +:+ b)). cbn. f_equal. exact IH.
Qed.

Lemma to_list_inj a b :
  list_ascii_of_string a = list_ascii_of_string b -> a = b.
Proof.
  intros H. rewrite <- (string_of_list_ascii_of_string a),
    <- (string_of_list_ascii_of_string b), H. reflexivity.
Qed.

Lemma to_list_rev_app a : forall b,
  list_ascii_of_string (String.rev_app a b)
  = rev (list_ascii_of_string a) ++ list_ascii_of_string b.
Proof.
  induction a as [|c a IH]; intros b; [reflexivity|].
  cbn [String.rev_app list_ascii_of_string rev]. rewrite IH, <- app_assoc. reflexivity.
Qed.

Lemma to_list_rev a :
  list_ascii_of_string (String.rev a) = rev (list_ascii_of_string a).
Proof. unfold String.rev. rewrite to_list_rev_app, app_nil_r. reflexivity. Qed.

Lemma append_inj_r s a b : a +:+ s = b +:+ s -> a = b.
Proof.
  intros H. apply to_list_inj. apply (f_equal list_ascii_of_string) in H.
  rewrite !to_list_app in H. apply app_inv_tail in H. exact H.
Qed.

Lemma append_inj_l s a b : s +:+ a = s +:+ b -> a = b.
Proof. apply String.app_inj. Qed.

Lemma append_assoc a b c : (a +:+ b) +:+ c = a +:+ b +:+ c.
Proof.
  apply to_list_inj. rewrite !to_list_app, app_assoc. reflexivity.
Qed.

Lemma append_nil_r a : a +:+ "" = a.
Proof. apply to_list_inj. rewrite to_list_app. apply app_nil_r. Qed.
End StringFacts.

(** ** The URLs of the requests *)

Module PathFacts.
Import Crawler Redmine StringFacts.
Local Open Scope char_scope.

(** A text is cut in one way only at its last slash. *)
Lemma last_slash (l1 : list ascii) : forall l2 x y,
  l1 ++ "/" :: x = l2 ++ "/" :: y -> ~ In "/" x -> ~ In "/" y ->
  l1 = l2 /\ x = y.
Proof.
  induction l1 as [|c l1 IH]; intros [|d l2] x y H Hx Hy; simpl in H.
  - injection H as ->. split; reflexivity.
  - injection H as <- ->. contradiction Hx. apply in_or_app. right. left. reflexivity.
  - injection H as -> <-. contradiction Hy. apply in_or_app. right. left. reflexivity.
  - injection H as -> H. destruct (IH _ _ _ H Hx Hy) as [-> ->]. split; reflexivity.
Qed.

Lemma encoded_no_slash s c :
  Text.unreserved c = false -> c <> "%" ->
  ~ In c (list_ascii_of_string (Text.encodeURIComponent s)).
Proof.
  intros Hc Hp Hin.
  pose proof (CodecFacts.encode_alphabet s) as Ha.
  rewrite Forall_forall in Ha. destruct (Ha c) as [H|H].
  - apply list_elem_of_In, Hin.
  - congruence.
  - contradiction.
Qed.

Ltac to_lists H :=
  apply (f_equal list_ascii_of_string) in H; rewrite ?to_list_app in H.

Ltac by_prefix H := to_lists H; simpl in H; discriminate H.

Ltac by_suffix H :=
  to_lists H; apply (f_equal (@rev ascii)) in H;
  rewrite ?rev_app_distr in H; simpl in H; discriminate H.

Lemma requestPath_inj q1 q2 : requestPath q1 = requestPath q2 -> q1 = q2.
Proof.
  destruct q1 as [o1|i1|i1 n1|a1], q2 as [o2|i2|i2 n2|a2];
    unfold requestPath; intros H;
    try (by_prefix H); try (by_suffix H).
  - apply String.app_inj in H. f_equal. exact (pretty_nat_inj _ _ H).
  - apply String.app_inj, append_inj_r in H. congruence.
  - apply String.app_inj in H. to_lists H.
    change (list_ascii_of_string "/wiki/") with (["/"; "w"; "i"; "k"; "i"] ++ ["/"]) in H.
    rewrite <- !(app_assoc _ ["/"]) in H.
    rewrite !(app_assoc (list_ascii_of_string _) ["/"; "w"; "i"; "k"; "i"]) in H.
    simpl in H.
    apply last_slash in H.
    + destruct H as [Hi He]. apply app_inv_tail in Hi, He.
      apply to_list_inj in Hi, He. apply CodecFacts.encode_injective in He.
      congruence.
    + intros Hin. apply in_app_or in Hin as [Hin|Hin].
      * revert Hin. apply encoded_no_slash; [reflexivity|discriminate].
      * simpl in Hin. repeat (destruct Hin as [Hin|Hin]; [discriminate Hin|]). exact Hin.
    + intros Hin. apply in_app_or in Hin as [Hin|Hin].
      * revert Hin. apply encoded_no_slash; [reflexivity|discriminate].
      * simpl in Hin. repeat (destruct Hin as [Hin|Hin]; [discriminate Hin|]). exact Hin.
  - apply String.app_inj in H. f_equal. exact (pretty_Z_inj _ _ H).
Qed.
End PathFacts.

(** X7. Two different requests never go to the same URL: the listing pages,
    the wiki indexes, the pages and the attachments have URLs of their
    own, two offsets, two projects, two page titles or two attachment
    numbers give two URLs.  A page title in particular cannot pass for
    another resource: it is percent-encoded into one path segment. *)
Theorem request_urls_are_distinct (r : Redmine.t) (q1 q2 : Crawler.request) :
  Redmine.url (Redmine.request_options r q1)
    = Redmine.url (Redmine.request_options r q2) ->
  q1 = q2.
Proof.
  intros H. apply PathFacts.requestPath_inj.
  assert (Hurl : forall q, Redmine.url (Redmine.request_options r q)
                           = Crawler.plus (Redmine.redmineUrl r) (Redmine.requestPath q))
    by (intros []; reflexivity).
  rewrite !Hurl in H. unfold Crawler.plus in H.
  destruct (Redmine.redmineUrl r); apply String.app_inj in H; exact H.
Qed.

(** One page of project [demo], asked for twice. *)
Lemma request_urls_are_distinct_witness :
  let r := Redmine.new Scenario.to_export in
  Redmine.url (Redmine.request_options r (Crawler.GetWikiPage "demo" "Release notes"))
    = "http://srv/projects/demo/wiki/Release%20notes.json?include=attachments"%string /\
  Crawler.GetWikiPage "demo" "Release notes" = Crawler.GetWikiPage "demo" "Release notes".
Proof.
  intros r. split; [reflexivity|].
  apply (request_urls_are_distinct r). reflexivity.
Defined.

(** ** The base URL, in main.js and in fix-links.js *)

Module BaseUrlFacts.
Import StringFacts.
Local Open Scope char_scope.

Lemma ends_with_slash_endsWith u :
  Crawler.ends_with_slash u = Text.endsWith "/" u.
Proof.
  unfold Crawler.ends_with_slash, Text.endsWith, Text.startsWith.
  change (String.rev "/") with "/"%string.
  destruct (String.rev u) as [|c r]; [reflexivity|].
  CodecFacts.each_byte c; reflexivity.
Qed.

Lemma substring_prefix a : forall b,
  substring 0 (String.length a) (a +:+ b) = a.
Proof.
  induction a as [|c a IH]; intros b.
  - destruct b; reflexivity.
  - change (String c a +:+ b) with (String c (a +:+ b)). simpl. f_equal. apply IH.
Qed.

(** A text whose reverse is [c] followed by [r] is the reverse of [r]
    followed by [c]. *)
Lemma rev_cons u c r :
  String.rev u = String c r -> u = String.rev r +:+ String c "".
Proof.
  intros H. apply to_list_inj. rewrite to_list_app, to_list_rev.
  apply (f_equal list_ascii_of_string) in H. rewrite to_list_rev in H.
  apply (f_equal (@rev ascii)) in H. rewrite rev_involutive in H.
  rewrite H. reflexivity.
Qed.

Lemma length_append a b :
  String.length (a +:+ b) = (String.length a + String.length b)%nat.
Proof.
  induction a as [|c a IH]; [reflexivity|].
  change (String c a +:+ b) with (String c (a +:+ b)). simpl. f_equal. exact IH.
Qed.
End BaseUrlFacts.

(** X5. The two scripts agree on the server: when [config.json] gives a
    [redmineUrl], the URL the crawler sends its requests to (one trailing
    slash taken off, by [substr]) is the URL fix-links.js looks for in the
    pages (one trailing slash taken off, by [slice]). *)
Theorem base_url_agreement (c : Crawler.config) (u : string) :
  Crawler.redmineUrl c = Some u -> u <> ""%string ->
  Redmine.redmineUrl (Redmine.new c) = Some (LinkRewriter.redmineUrl_of (Some u)).
Proof.
  intros Hc Hu. unfold Redmine.new, LinkRewriter.redmineUrl_of. simpl. rewrite Hc.
  assert (He : String.eqb u "" = false) by (apply String.eqb_neq, Hu).
  rewrite He, <- BaseUrlFacts.ends_with_slash_endsWith. simpl.
  unfold Crawler.ends_with_slash.
  destruct (String.rev u) as [|x r] eqn:Hr; [reflexivity|].
  assert (Hx : u = String.rev r +:+ String x "") by (apply BaseUrlFacts.rev_cons, Hr).
  destruct (Ascii.eqb x "/") eqn:Hs.
  - apply Ascii.eqb_eq in Hs. subst x.
    f_equal. rewrite Hx at 1 2. rewrite BaseUrlFacts.length_append. simpl.
    replace (String.length (String.rev r) + 1 - 1)%nat
      with (String.length (String.rev r)) by lia.
    apply BaseUrlFacts.substring_prefix.
  - assert (Hm : match x with "/"%char => true | _ => false end = false).
    { clear -Hs. CodecFacts.each_byte x; try reflexivity. discriminate Hs. }
    rewrite Hm. reflexivity.
Qed.

Lemma base_url_agreement_witness :
  let c := {| Crawler.redmineUrl := Some "https://redmine.example.org/"%string;
              Crawler.user := None; Crawler.password := None;
              Crawler.config_outputDir := None; Crawler.insecure := false |} in
  Redmine.redmineUrl (Redmine.new c) = Some "https://redmine.example.org"%string /\
  Redmine.redmineUrl (Redmine.new c)
    = Some (LinkRewriter.redmineUrl_of (Some "https://redmine.example.org/"%string)).
Proof.
  intros c. split; [reflexivity|].
  apply (base_url_agreement c "https://redmine.example.org/"); [reflexivity|discriminate].
Defined.

(** ** IndexBuilder: the candidate, and running the pass again *)

Module IndexMore.
Import Text IndexBuilder IndexFacts.

Lemma entry_In x es : In x (fst <$> es) -> Fs.entry x es <> None.
Proof.
  intros Hin H. exact (find_entry_none _ _ H Hin).
Qed.

Lemma included_iff y es :
  list_includes y (md_files es) = true
  <-> Fs.entry y es <> None /\ endsWith ".md" y = true.
Proof.
  rewrite list_includes_true, md_files_In. split; intros [H1 H2]; split; auto.
  - apply entry_In, H1.
  - destruct (Fs.entry y es) as [n|] eqn:E; [|contradiction].
    exact (find_entry_some _ _ _ E).
Qed.

(** The candidate is a markdown file of the directory. *)
Lemma candidate_in es projectName c :
  findIndexCandidate es projectName = Some c -> In c (md_files es).
Proof.
  unfold findIndexCandidate.
  destruct (find _ (variations projectName)) as [v|] eqn:H1.
  { intros [= <-]. apply find_some in H1 as [_ H1].
    apply list_includes_true, H1. }
  destruct (find _ (md_files es)) as [f|] eqn:H2.
  { intros [= <-]. apply find_some in H2 as [H2 _]. exact H2. }
  destruct (find (partial_match projectName) (md_files es)) as [f|] eqn:H3.
  { intros [= <-]. apply find_some in H3 as [H3 _]. exact H3. }
  destruct (md_files es) as [|f fs]; [discriminate|].
  intros [= <-]. left. reflexivity.
Qed.

Lemma candidate_none es projectName :
  findIndexCandidate es projectName = None <-> md_files es = [].
Proof.
  split; [|apply no_file_no_candidate].
  unfold findIndexCandidate.
  destruct (find _ (variations projectName)); [discriminate|].
  destruct (find _ (md_files es)); [discriminate|].
  destruct (find (partial_match projectName) (md_files es)); [discriminate|].
  destruct (md_files es); [reflexivity|discriminate].
Qed.

(** [Wiki.md] wins over everything, [Index.md] over everything else. *)
Lemma wiki_first es projectName :
  list_includes "Wiki.md" (md_files es) = true ->
  findIndexCandidate es projectName = Some "Wiki.md"%string.
Proof.
  intros H. unfold findIndexCandidate, variations. cbn [find]. rewrite H. reflexivity.
Qed.

Lemma index_second es projectName :
  list_includes "Wiki.md" (md_files es) = false ->
  list_includes "Index.md" (md_files es) = true ->
  findIndexCandidate es projectName = Some "Index.md"%string.
Proof.
  intros H1 H2. unfold findIndexCandidate, variations. cbn [find].
  rewrite H1, H2. reflexivity.
Qed.

Lemma included_set_entry_other x y n es :
  x <> y ->
  list_includes y (md_files (Fs.set_entry x n es)) = list_includes y (md_files es).
Proof.
  intros Hxy. apply eq_true_iff_eq. rewrite !included_iff.
  rewrite entry_set_entry_other by exact Hxy. reflexivity.
Qed.

Lemma included_set_entry x n es :
  endsWith ".md" x = true ->
  list_includes x (md_files (Fs.set_entry x n es)) = true.
Proof.
  intros Hx. apply included_iff. rewrite entry_set_entry. split; [discriminate|exact Hx].
Qed.

Lemma set_entry_twice x n es :
  Fs.set_entry x n (Fs.set_entry x n es) = Fs.set_entry x n es.
Proof.
  induction es as [|[y m] es IH]; simpl.
  - rewrite String.eqb_refl. reflexivity.
  - destruct (String.eqb y x) eqn:E; simpl; rewrite E; [reflexivity|].
    f_equal. exact IH.
Qed.

Lemma names_set_entry x n es :
  fst <$> Fs.set_entry x n es = fst <$> es \/
  fst <$> Fs.set_entry x n es = (fst <$> es) ++ [x].
Proof.
  induction es as [|[y m] es IH]; [right; reflexivity|].
  cbn [Fs.set_entry]. destruct (String.eqb y x); [left; reflexivity|].
  rewrite !fmap_cons. cbn [fst].
  destruct IH as [IH|IH]; rewrite IH; [left|right]; reflexivity.
Qed.

Lemma write_index_result content es es' :
  write_index content es = Some es' ->
  es' = Fs.set_entry "Index.md" (Fs.File content) es.
Proof.
  unfold write_index. destruct (Fs.entry "Index.md" es) as [[c|d]|];
    intros [= <-]; reflexivity.
Qed.

Lemma write_index_again content es :
  let es' := Fs.set_entry "Index.md" (Fs.File content) es in
  write_index content es' = Some es'.
Proof.
  intros es'. unfold write_index, es'. rewrite entry_set_entry, set_entry_twice.
  reflexivity.
Qed.

(** What one pass leaves in a project directory. *)
Lemma createProjectIndex_result projectMetadata projectId es es' line :
  createProjectIndex projectMetadata projectId es = Some (es', line) ->
  (es' = es /\
   findIndexCandidate es (project_name projectMetadata projectId)
     = Some "Index.md"%string) \/
  (exists content, es' = Fs.set_entry "Index.md" (Fs.File content) es /\
     (md_files es = [] \/
      Fs.entry "Wiki.md" es = Some (Fs.File content) \/
      list_includes "Wiki.md" (md_files es) = false)).
Proof.
  unfold createProjectIndex.
  destruct (findIndexCandidate es _) as [c|] eqn:Hc.
  - destruct (String.eqb c "Index.md") eqn:E; simpl.
    + apply String.eqb_eq in E. subst c. intros [= <- _]. left. split; reflexivity.
    + destruct (Fs.entry c es) as [[content|d]|] eqn:Hf; try discriminate.
      destruct (write_index content es) as [es1|] eqn:Hw; simpl; [|discriminate].
      intros [= <- _]. right. exists content.
      split; [apply write_index_result, Hw|]. right.
      destruct (list_includes "Wiki.md" (md_files es)) eqn:Hwiki; [left|right; reflexivity].
      rewrite (wiki_first _ _ Hwiki) in Hc. injection Hc as <-. exact Hf.
  - destruct (write_index _ es) as [es1|] eqn:Hw; simpl; [|discriminate].
    intros [= <- _]. right. eexists. split; [apply write_index_result, Hw|].
    left. apply candidate_none in Hc. exact Hc.
Qed.
End IndexMore.

(** X24. The file [findIndexCandidate] picks is one of the names of the
    directory that end in [.md], whatever the project is called; it finds
    none exactly when the directory has no such name. *)
Theorem findIndexCandidate_is_a_file (entries : list (string * Fs.node))
    (projectName : string) :
  (forall c, IndexBuilder.findIndexCandidate entries projectName = Some c ->
     In c (IndexBuilder.md_files entries) /\ Fs.entry c entries <> None) /\
  (IndexBuilder.findIndexCandidate entries projectName = None
   <-> IndexBuilder.md_files entries = []).
Proof.
  split; [|apply IndexMore.candidate_none].
  intros c Hc. apply IndexMore.candidate_in in Hc. split; [exact Hc|].
  apply IndexFacts.md_files_In in Hc as [Hin _]. apply IndexMore.entry_In, Hin.
Qed.

(** X26. After the pass, a project directory has an [Index.md], and every
    other entry of the directory is what it was: pages and attachments
    are never modified, renamed or removed, and the names in the
    directory are those it had, with [Index.md] added when it was not
    there (in whatever order the system lists them).  (The directory is
    not named like a property of [Object.prototype], for which the lookup
    of the project name does not yield a string.) *)
Theorem createProjectIndex_only_writes_index
    (projectMetadata : gmap string string) (projectId : string)
    (entries entries' : list (string * Fs.node)) (line : IndexBuilder.log_line) :
  ~ In projectId Objects.inherited ->
  IndexBuilder.createProjectIndex projectMetadata projectId entries
    = Some (entries', line) ->
  Fs.entry "Index.md" entries' <> None /\
  (forall x, x <> "Index.md"%string -> Fs.entry x entries' = Fs.entry x entries) /\
  (Permutation (fst <$> entries') (fst <$> entries) \/
   Permutation (fst <$> entries') ("Index.md"%string :: (fst <$> entries))).
Proof.
  intros _ H. apply IndexMore.createProjectIndex_result in H
    as [[-> Hc]|(content & -> & _)].
  - split; [|split; [reflexivity|left; reflexivity]].
    apply IndexMore.candidate_in, IndexFacts.md_files_In in Hc as [Hin _].
    apply IndexMore.entry_In, Hin.
  - split; [rewrite IndexFacts.entry_set_entry; discriminate|].
    split; [intros x Hx; apply IndexFacts.entry_set_entry_other; congruence|].
    destruct (IndexMore.names_set_entry "Index.md" (Fs.File content) entries)
      as [->| ->]; [left; reflexivity|right].
    symmetry. apply Permutation_cons_append.
Qed.

(** X27. Running the pass a second time changes nothing: the directory the
    first pass leaves is a fixed point of [createProjectIndex] (for a
    directory that is not named like a property of [Object.prototype]). *)
Theorem createProjectIndex_twice
    (projectMetadata : gmap string string) (projectId : string)
    (entries entries' : list (string * Fs.node)) (line : IndexBuilder.log_line) :
  ~ In projectId Objects.inherited ->
  IndexBuilder.createProjectIndex projectMetadata projectId entries
    = Some (entries', line) ->
  exists line',
    IndexBuilder.createProjectIndex projectMetadata projectId entries'
      = Some (entries', line').
Proof.
  intros _ H. pose proof H as Hres. apply IndexMore.createProjectIndex_result in Hres
    as [[-> Hc]|(content & -> & Hcase)].
  - exists line. exact H.
  - set (es' := Fs.set_entry "Index.md" (Fs.File content) entries).
    assert (Hindex : IndexBuilder.list_includes "Index.md" (IndexBuilder.md_files es') = true)
      by (apply IndexMore.included_set_entry; reflexivity).
    assert (Hsame : IndexBuilder.list_includes "Wiki.md" (IndexBuilder.md_files es')
                    = IndexBuilder.list_includes "Wiki.md" (IndexBuilder.md_files entries))
      by (apply IndexMore.included_set_entry_other; discriminate).
    assert (Hidle : IndexBuilder.list_includes "Wiki.md" (IndexBuilder.md_files entries) = false ->
              exists line', IndexBuilder.createProjectIndex projectMetadata projectId es'
                            = Some (es', line')).
    { intros Hno. rewrite <- Hsame in Hno.
      eexists. unfold IndexBuilder.createProjectIndex.
      rewrite (IndexMore.index_second _ _ Hno Hindex). reflexivity. }
    destruct Hcase as [Hnone|[Hwiki|Hno]].
    + apply Hidle. rewrite Hnone. reflexivity.
    + assert (Hw : IndexBuilder.list_includes "Wiki.md" (IndexBuilder.md_files es') = true).
      { rewrite Hsame. apply IndexMore.included_iff. rewrite Hwiki.
        split; [discriminate|reflexivity]. }
      eexists. unfold IndexBuilder.createProjectIndex.
      rewrite (IndexMore.wiki_first _ _ Hw). simpl.
      unfold es' at 1. rewrite IndexFacts.entry_set_entry_other by discriminate.
      rewrite Hwiki. fold es'. unfold es'.
      rewrite (IndexMore.write_index_again content entries). reflexivity.
    + apply Hidle, Hno.
Qed.

(** The directory of "My Project", where [Wiki.md] is the candidate. *)
Lemma createProjectIndex_only_writes_index_witness :
  ~ In "myproj"%string Objects.inherited /\
  exists entries' line,
    IndexBuilder.createProjectIndex Scenario.my_project "myproj" Scenario.my_project_dir
      = Some (entries', line) /\
    Fs.entry "Index.md" entries' <> None /\
    (forall x, x <> "Index.md"%string ->
       Fs.entry x entries' = Fs.entry x Scenario.my_project_dir) /\
    (Permutation (fst <$> entries') (fst <$> Scenario.my_project_dir) \/
     Permutation (fst <$> entries')
       ("Index.md"%string :: (fst <$> Scenario.my_project_dir))).
Proof.
  assert (Hown : ~ In "myproj"%string Objects.inherited).
  { intros Hin. repeat (destruct Hin as [Hin|Hin]; [discriminate Hin|]). exact Hin. }
  split; [exact Hown|].
  eexists. exists (IndexBuilder.CreatedFrom "myproj" "Wiki.md").
  split; [reflexivity|].
  eapply (createProjectIndex_only_writes_index Scenario.my_project "myproj"
            Scenario.my_project_dir); [exact Hown|reflexivity].
Defined.

(** The same directory, and one with a single page that is no variation
    of the name: the second pass finds the [Index.md] of the first. *)
Lemma createProjectIndex_twice_witness :
  ~ In "myproj"%string Objects.inherited /\
  (let entries' := [("My_Project.md"%string, Fs.File "home"); ("Wiki.md"%string, Fs.File "wiki");
                    ("Index.md"%string, Fs.File "wiki")] in
   IndexBuilder.createProjectIndex Scenario.my_project "myproj" Scenario.my_project_dir
     = Some (entries', IndexBuilder.CreatedFrom "myproj" "Wiki.md") /\
   exists line',
     IndexBuilder.createProjectIndex Scenario.my_project "myproj" entries'
       = Some (entries', line')) /\
  (let entries' := [("Notes.md"%string, Fs.File "notes"); ("Index.md"%string, Fs.File "notes")] in
   IndexBuilder.createProjectIndex Scenario.my_project "myproj"
     [("Notes.md"%string, Fs.File "notes")]
     = Some (entries', IndexBuilder.CreatedFrom "myproj" "Notes.md") /\
   exists line',
     IndexBuilder.createProjectIndex Scenario.my_project "myproj" entries'
       = Some (entries', line')).
Proof.
  assert (Hown : ~ In "myproj"%string Objects.inherited).
  { intros Hin. repeat (destruct Hin as [Hin|Hin]; [discriminate Hin|]). exact Hin. }
  split; [exact Hown|].
  split; intros entries'; (split; [reflexivity|]).
  - apply (createProjectIndex_twice Scenario.my_project "myproj"
             Scenario.my_project_dir entries'
             (IndexBuilder.CreatedFrom "myproj" "Wiki.md")); [exact Hown|reflexivity].
  - apply (createProjectIndex_twice Scenario.my_project "myproj"
             [("Notes.md"%string, Fs.File "notes")] entries'
             (IndexBuilder.CreatedFrom "myproj" "Notes.md")); [exact Hown|reflexivity].
Defined.

(** ** IndexBuilder: the names of the projects *)

Module MetadataFacts.
Import IndexBuilder.

Lemma load_snoc l p :
  load_metadata (l ++ [p]) = <[fst p := snd p]> (load_metadata l).
Proof. unfold load_metadata. rewrite foldl_app. reflexivity. Qed.

Lemma load_absent l k : ~ In k (fst <$> l) -> load_metadata l !! k = None.
Proof.
  induction l as [|p l IH] using rev_ind; intros Hk; [apply lookup_empty|].
  rewrite load_snoc. rewrite fmap_app, in_app_iff in Hk.
  rewrite lookup_insert_ne; [apply IH; tauto|].
  intros E. apply Hk. right. left. exact E.
Qed.

Lemma load_last l1 k v : forall l2,
  ~ In k (fst <$> l2) -> load_metadata (l1 ++ (k, v) :: l2) !! k = Some v.
Proof.
  induction l2 as [|p l2 IH] using rev_ind; intros Hk.
  - rewrite load_snoc. simpl. apply lookup_insert_eq.
  - rewrite fmap_app, in_app_iff in Hk.
    change (l1 ++ (k, v) :: l2 ++ [p]) with (l1 ++ ((k, v) :: l2) ++ [p]).
    rewrite app_assoc, load_snoc.
    rewrite lookup_insert_ne; [apply IH; tauto|].
    intros E. apply Hk. right. left. exact E.
Qed.
End MetadataFacts.

(** X23. The name a project directory is shown under, for a directory that
    is not named like a property of [Object.prototype]: the [name] of the
    last entry of the sidecar file that carries its identifier, when this
    name is not empty; the identifier itself when that name is empty or
    when no entry carries the identifier. *)
Theorem project_name_from_metadata (metadata : list (string * string))
    (projectId : string) :
  ~ In projectId Objects.inherited ->
  (~ In projectId (fst <$> metadata) ->
   IndexBuilder.project_name (IndexBuilder.load_metadata metadata) projectId
     = projectId) /\
  (forall before name after,
     metadata = before ++ (projectId, name) :: after ->
     ~ In projectId (fst <$> after) ->
     IndexBuilder.project_name (IndexBuilder.load_metadata metadata) projectId
       = if String.eqb name "" then projectId else name).
Proof.
  intros _. unfold IndexBuilder.project_name. split.
  - intros H. rewrite (MetadataFacts.load_absent _ _ H). reflexivity.
  - intros before name after -> H.
    rewrite (MetadataFacts.load_last _ _ _ _ H). reflexivity.
Qed.

(** A sidecar file that names project [a] twice and project [c] with an
    empty name; directory [b] is not in it. *)
Lemma project_name_from_metadata_witness :
  let metadata := [("a", "First"); ("c", ""); ("a", "Second")]%string in
  ~ In "a"%string Objects.inherited /\
  IndexBuilder.project_name (IndexBuilder.load_metadata metadata) "a" = "Second"%string /\
  IndexBuilder.project_name (IndexBuilder.load_metadata metadata) "b" = "b"%string /\
  IndexBuilder.project_name (IndexBuilder.load_metadata metadata) "c" = "c"%string.
Proof.
  intros metadata.
  assert (Hown : forall x, In x ["a"; "b"; "c"]%string -> ~ In x Objects.inherited).
  { intros x Hx Hin. simpl in Hx.
    destruct Hx as [<-|[<-|[<-|[]]]];
      repeat (destruct Hin as [Hin|Hin]; [discriminate Hin|]); exact Hin. }
  assert (Ha : In "a"%string ["a"; "b"; "c"]%string) by (simpl; auto).
  assert (Hb : In "b"%string ["a"; "b"; "c"]%string) by (simpl; auto).
  assert (Hc : In "c"%string ["a"; "b"; "c"]%string) by (simpl; auto).
  split; [apply Hown, Ha|]. repeat apply conj.
  - destruct (project_name_from_metadata metadata "a" (Hown _ Ha)) as [_ H].
    apply (H [("a", "First"); ("c", "")]%string "Second"%string []); [reflexivity|].
    intros [].
  - destruct (project_name_from_metadata metadata "b" (Hown _ Hb)) as [H _].
    apply H. simpl. intros [E|[E|[E|[]]]]; discriminate E.
  - destruct (project_name_from_metadata metadata "c" (Hown _ Hc)) as [_ H].
    apply (H [("a", "First")]%string ""%string [("a", "Second")]%string); [reflexivity|].
    simpl. intros [E|[]]. discriminate E.
Defined.

(** ** IndexBuilder: every directory, and the top-level index *)

Module DirectoryFacts.
Import IndexBuilder MainIndex.

Lemma createProjectIndexes_result projectMetadata items :
  forall items' lines projectList,
  createProjectIndexes projectMetadata items = Some (items', lines, projectList) ->
  fst <$> items' = fst <$> items /\
  is_project <$> items' = is_project <$> items /\
  projectList = (fun e => (fst e, project_name projectMetadata (fst e)))
                  <$> List.filter is_project items /\
  length lines = length projectList /\
  Forall indexed items'.
Proof.
  induction items as [|[x [c|es]] items IH]; intros items' lines projectList H.
  - injection H as <- <- <-. repeat split. constructor.
  - cbn [createProjectIndexes] in H.
    destruct (createProjectIndexes projectMetadata items) as [[[i l] p]|]; [|discriminate].
    injection H as <- <- <-.
    destruct (IH i l p eq_refl) as (H1 & H2 & H3 & H4 & H5).
    rewrite !fmap_cons, H1, H2. simpl. repeat split; try assumption.
    constructor; [exact I|exact H5].
  - cbn [createProjectIndexes] in H.
    destruct (createProjectIndex projectMetadata x es) as [[es' line]|] eqn:Hone;
      [|discriminate].
    simpl in H.
    destruct (createProjectIndexes projectMetadata items) as [[[i l] p]|]; [|discriminate].
    injection H as <- <- <-.
    destruct (IH i l p eq_refl) as (H1 & H2 & H3 & H4 & H5).
    rewrite !fmap_cons, H1, H2. subst p. simpl. rewrite H4. repeat split.
    constructor; [|exact H5].
    unfold indexed. simpl.
    apply IndexMore.createProjectIndex_result in Hone
      as [[-> Hc]|(content & -> & _)].
    + apply IndexMore.candidate_in, IndexFacts.md_files_In in Hc as [Hin _].
      apply IndexMore.entry_In, Hin.
    + rewrite IndexFacts.entry_set_entry. discriminate.
Qed.
End DirectoryFacts.

(** X29. [createProjectIndexes] takes every directory of the output directory
    for a project, in the order of the listing, also one that holds no
    page: each gets an [Index.md] and an entry of the project list, under
    the name the sidecar file gives it.  The names and the kinds of the
    entries of the output directory do not change.  (No directory is named
    like a property of [Object.prototype].) *)
Theorem createProjectIndexes_covers_every_directory
    (projectMetadata : gmap string string)
    (items items' : list (string * Fs.node)) (lines : list IndexBuilder.log_line)
    (projectList : list (string * string)) :
  Forall (fun e => ~ In (fst e) Objects.inherited) items ->
  IndexBuilder.createProjectIndexes projectMetadata items
    = Some (items', lines, projectList) ->
  fst <$> items' = fst <$> items /\
  MainIndex.is_project <$> items' = MainIndex.is_project <$> items /\
  projectList
    = (fun e => (fst e, IndexBuilder.project_name projectMetadata (fst e)))
        <$> List.filter MainIndex.is_project items /\
  Forall MainIndex.indexed items'.
Proof.
  intros _ H.
  destruct (DirectoryFacts.createProjectIndexes_result _ _ _ _ _ H)
    as (H1 & H2 & H3 & _ & H5).
  repeat split; assumption.
Qed.

(** An output directory with the sidecar file, a project with one page
    and a directory without page. *)
Lemma createProjectIndexes_covers_every_directory_witness :
  let items := [("projects-metadata.json"%string, Fs.File "[]");
                ("demo"%string, Fs.Dir [("Home.md"%string, Fs.File "Welcome")]);
                ("empty"%string, Fs.Dir [])] in
  Forall (fun e => ~ In (fst e) Objects.inherited) items /\
  exists items' lines,
    IndexBuilder.createProjectIndexes (IndexBuilder.load_metadata [("demo", "Demo")]%string) items
      = Some (items', lines, [("demo", "Demo"); ("empty", "empty")]%string) /\
    fst <$> items' = fst <$> items /\
    Forall MainIndex.indexed items'.
Proof.
  intros items.
  assert (Hown : Forall (fun e => ~ In (fst e) Objects.inherited) items).
  { repeat constructor; simpl; intros Hin;
      repeat (destruct Hin as [Hin|Hin]; [discriminate Hin|]); exact Hin. }
  split; [exact Hown|]. eexists. eexists. split; [reflexivity|].
  eapply (createProjectIndexes_covers_every_directory
            (IndexBuilder.load_metadata [("demo", "Demo")]%string) items) in Hown;
    [|reflexivity].
  destruct Hown as (H1 & _ & _ & H4). split; [exact H1|exact H4].
Defined.

Module SortFacts.
Import MainIndex.
Section Collation.
Variable localeCompare : string -> string -> Z.
Hypothesis total : forall a b, localeCompare a b <= 0 \/ localeCompare b a <= 0.

Lemma insert_perm p l : Permutation (insert localeCompare p l) (p :: l).
Proof.
  induction l as [|q l IH]; simpl; [reflexivity|].
  destruct (_ <=? _); [reflexivity|].
  rewrite IH. apply perm_swap.
Qed.

Lemma sort_perm l : Permutation (sort localeCompare l) l.
Proof.
  induction l as [|p l IH]; simpl; [reflexivity|].
  rewrite insert_perm, IH. reflexivity.
Qed.

Lemma insert_ordered p l :
  ordered localeCompare l -> ordered localeCompare (insert localeCompare p l).
Proof.
  induction l as [|q l IH]; intros Hl; simpl; [split; exact I|].
  destruct (localeCompare (snd p) (snd q) <=? 0) eqn:E.
  - apply Z.leb_le in E. split; [exact E|exact Hl].
  - apply Z.leb_gt in E. destruct Hl as [Hq Hl]. split; [|apply IH, Hl].
    destruct l as [|r l]; simpl.
    + destruct (total (snd q) (snd p)); lia.
    + destruct (localeCompare (snd p) (snd r) <=? 0).
      * destruct (total (snd q) (snd p)); lia.
      * exact Hq.
Qed.

Lemma sort_ordered l : ordered localeCompare (sort localeCompare l).
Proof.
  induction l as [|p l IH]; simpl; [exact I|]. apply insert_ordered, IH.
Qed.

Lemma content_lines l s :
  foldl (fun content project => content +:+ line project) s l
  = s +:+ foldr (fun project rest => line project +:+ rest) "" l.
Proof.
  revert s. induction l as [|p l IH]; intros s; simpl.
  - symmetry. apply StringFacts.append_nil_r.
  - rewrite IH. apply StringFacts.append_assoc.
Qed.
End Collation.
End SortFacts.

(** X30. The top-level index has one line for each entry of the project list,
    [- [name](id/Index.md)], after its heading; the lines are those of the
    project list in another order, and when [localeCompare] compares any
    two names one way or the other, each line comes before the next by
    name. *)
Theorem createMainIndex_lists_every_project
    (localeCompare : string -> string -> Z)
    (projectList : list (string * string)) :
  (forall a b, localeCompare a b <= 0 \/ localeCompare b a <= 0) ->
  let sorted := MainIndex.sort localeCompare projectList in
  MainIndex.content localeCompare projectList
    = MainIndex.heading +:+
      foldr (fun project rest => MainIndex.line project +:+ rest) "" sorted /\
  Permutation sorted projectList /\
  MainIndex.ordered localeCompare sorted.
Proof.
  intros total sorted. split; [apply SortFacts.content_lines|].
  split; [apply SortFacts.sort_perm|apply SortFacts.sort_ordered, total].
Qed.

(** Three projects, compared by the length of their names. *)
Lemma createMainIndex_lists_every_project_witness :
  let byLength := fun a b : string => Z.of_nat (String.length a) - Z.of_nat (String.length b) in
  let projectList := [("z", "Zebra"); ("a", "Ant"); ("e", "Elephant")]%string in
  (forall a b, byLength a b <= 0 \/ byLength b a <= 0) /\
  MainIndex.sort byLength projectList
    = [("a", "Ant"); ("z", "Zebra"); ("e", "Elephant")]%string /\
  Permutation (MainIndex.sort byLength projectList) projectList /\
  MainIndex.ordered byLength (MainIndex.sort byLength projectList).
Proof.
  intros byLength projectList.
  assert (total : forall a b, byLength a b <= 0 \/ byLength b a <= 0)
    by (intros a b; unfold byLength; lia).
  split; [exact total|]. split; [reflexivity|].
  destruct (createMainIndex_lists_every_project byLength projectList total)
    as (_ & H2 & H3).
  split; [exact H2|exact H3].
Defined.

(** X28. The basic index never lists a page: it is written only for a
    directory without any name ending in [.md], so the loop that would
    add one line per page has nothing to go through, and the [Index.md]
    written is the heading alone. *)
Theorem basic_index_lists_no_page (projectMetadata : gmap string string)
    (projectId : string) (entries entries' : list (string * Fs.node)) :
  ~ In projectId Objects.inherited ->
  IndexBuilder.createProjectIndex projectMetadata projectId entries
    = Some (entries', IndexBuilder.CreatedBasic projectId) ->
  IndexBuilder.md_files entries = [] /\
  Fs.entry "Index.md" entries'
    = Some (Fs.File ("# " +:+ IndexBuilder.project_name projectMetadata projectId +:+
                     IndexBuilder.nl +:+ IndexBuilder.nl +:+ "## Pages" +:+
                     IndexBuilder.nl +:+ IndexBuilder.nl)).
Proof.
  intros _. unfold IndexBuilder.createProjectIndex.
  destruct (IndexBuilder.findIndexCandidate entries _) as [c|] eqn:Hc.
  - destruct (negb (String.eqb c "Index.md")); [|discriminate].
    destruct (Fs.entry c entries) as [[content|d]|]; try discriminate.
    destruct (IndexBuilder.write_index content entries); discriminate.
  - apply IndexMore.candidate_none in Hc. rewrite Hc.
    destruct (IndexBuilder.write_index _ entries) as [es1|] eqn:Hw; [|discriminate].
    simpl. intros [= <-]. split; [reflexivity|].
    apply IndexMore.write_index_result in Hw. subst es1.
    apply IndexFacts.entry_set_entry.
Qed.

(** A project directory that holds only attachments. *)
Lemma basic_index_lists_no_page_witness :
  let entries := [("attachments"%string, Fs.Dir [("logo.png"%string, Fs.File "PNG")])] in
  ~ In "myproj"%string Objects.inherited /\
  exists entries',
    IndexBuilder.createProjectIndex Scenario.my_project "myproj" entries
      = Some (entries', IndexBuilder.CreatedBasic "myproj") /\
    Fs.entry "Index.md" entries'
      = Some (Fs.File ("# My Project" +:+ IndexBuilder.nl +:+ IndexBuilder.nl +:+
                       "## Pages" +:+ IndexBuilder.nl +:+ IndexBuilder.nl)).
Proof.
  intros entries.
  assert (Hown : ~ In "myproj"%string Objects.inherited).
  { intros Hin. repeat (destruct Hin as [Hin|Hin]; [discriminate Hin|]). exact Hin. }
  split; [exact Hown|]. eexists. split; [reflexivity|].
  eapply (basic_index_lists_no_page Scenario.my_project "myproj" entries);
    [exact Hown|reflexivity].
Defined.

(** X25. [Wiki.md] is the candidate exactly when the directory has that name,
    whatever the project is called and whatever else is there; [Index.md]
    is the candidate exactly when the directory has it and has no
    [Wiki.md]: next to a [Wiki.md], an [Index.md] that exists is not the
    candidate. *)
Theorem index_candidate_priority (entries : list (string * Fs.node))
    (projectName : string) :
  (IndexBuilder.findIndexCandidate entries projectName = Some "Wiki.md"%string
   <-> In "Wiki.md"%string (IndexBuilder.md_files entries)) /\
  (IndexBuilder.findIndexCandidate entries projectName = Some "Index.md"%string
   <-> In "Index.md"%string (IndexBuilder.md_files entries) /\
       ~ In "Wiki.md"%string (IndexBuilder.md_files entries)).
Proof.
  split; split.
  - apply IndexMore.candidate_in.
  - intros H. apply IndexMore.wiki_first, IndexFacts.list_includes_true, H.
  - intros H. split; [apply (IndexMore.candidate_in _ _ _ H)|].
    intros Hw. apply IndexFacts.list_includes_true in Hw.
    rewrite (IndexMore.wiki_first _ projectName Hw) in H. discriminate H.
  - intros [Hi Hw]. apply IndexMore.index_second.
    + apply not_true_is_false. intros E. apply Hw, IndexFacts.list_includes_true, E.
    + apply IndexFacts.list_includes_true, Hi.
Qed.

(** ** The filesystem: writing a file that exists *)

Module TreeFacts.
Import Tree.

Lemma names_set_entry_present x n m es :
  Fs.entry x es = Some m -> fst <$> Fs.set_entry x n es = fst <$> es.
Proof.
  unfold Fs.entry. induction es as [|[y k] es IH]; simpl; [discriminate|].
  destruct (String.eqb y x) eqn:E; [reflexivity|].
  intros H. rewrite !fmap_cons, IH by exact H. reflexivity.
Qed.

Lemma set_entry_same x n es :
  Fs.entry x es = Some n -> Fs.set_entry x n es = es.
Proof.
  unfold Fs.entry. induction es as [|[y k] es IH]; simpl; [discriminate|].
  destruct (String.eqb y x) eqn:E.
  - simpl. intros [= ->]. reflexivity.
  - intros H. rewrite IH by exact H. reflexivity.
Qed.

Lemma lookup_cons x p es :
  Fs.lookup (x :: p) (Fs.Dir es)
  = match Fs.entry x es with Some n => Fs.lookup p n | None => None end.
Proof. reflexivity. Qed.

Lemma lookup_file p c :
  Fs.lookup p (Fs.File c) = match p with [] => Some (Fs.File c) | _ => None end.
Proof. destruct p; reflexivity. Qed.

(** The two equations of [writeFileSync] in a directory. *)
Lemma write_last x c es :
  Fs.writeFileSync [x] c (Fs.Dir es)
  = match Fs.entry x es with
    | Some (Fs.Dir _) => None
    | _ => Some (Fs.Dir (Fs.set_entry x (Fs.File c) es))
    end.
Proof. reflexivity. Qed.

Lemma write_deeper x y p c es :
  Fs.writeFileSync (x :: y :: p) c (Fs.Dir es)
  = match Fs.entry x es with
    | Some child =>
        match Fs.writeFileSync (y :: p) c child with
        | Some child' => Some (Fs.Dir (Fs.set_entry x child' es))
        | None => None
        end
    | None => None
    end.
Proof. reflexivity. Qed.

(** Writing over a file: the shape of the tree stays, and every other
    file keeps its content. *)
Lemma write_over p : forall c old n n',
  Fs.readFileSync n p = Some old ->
  Fs.writeFileSync p c n = Some n' ->
  Fs.readFileSync n' p = Some c /\
  forall q, shape_at n' q = shape_at n q /\
            (q <> p -> Fs.readFileSync n' q = Fs.readFileSync n q).
Proof.
  induction p as [|x p IH]; intros c old n n' Hread Hwrite.
  { destruct n; discriminate Hwrite. }
  destruct n as [c0|es]; [destruct p; discriminate Hwrite|].
  unfold Fs.readFileSync in Hread. rewrite lookup_cons in Hread.
  destruct (Fs.entry x es) as [child|] eqn:Hx; [|discriminate Hread].
  destruct p as [|y p].
  - (* the file is an entry of this directory *)
    simpl in Hread. destruct child as [c1|]; [|discriminate Hread].
    rewrite write_last, Hx in Hwrite. injection Hwrite as <-.
    split.
    { unfold Fs.readFileSync. rewrite lookup_cons, IndexFacts.entry_set_entry.
      reflexivity. }
    intros [|z q].
    + split; [|reflexivity]. unfold shape_at. simpl.
      rewrite (names_set_entry_present _ _ _ _ Hx). reflexivity.
    + unfold shape_at, Fs.readFileSync. rewrite !lookup_cons.
      destruct (String.eqb x z) eqn:E.
      * apply String.eqb_eq in E. subst z.
        rewrite IndexFacts.entry_set_entry, Hx, !lookup_file.
        destruct q; [|split; reflexivity].
        split; [reflexivity|]. intros Hne. contradiction Hne. reflexivity.
      * apply String.eqb_neq in E.
        rewrite IndexFacts.entry_set_entry_other by exact E. split; reflexivity.
  - (* the file is further down *)
    rewrite write_deeper, Hx in Hwrite.
    destruct (Fs.writeFileSync (y :: p) c child) as [child'|] eqn:Hc; [|discriminate Hwrite].
    injection Hwrite as <-.
    destruct (IH c old child child' Hread Hc) as [Hnew Hrest].
    split.
    { unfold Fs.readFileSync. rewrite lookup_cons, IndexFacts.entry_set_entry.
      exact Hnew. }
    intros [|z q].
    + split; [|reflexivity]. unfold shape_at. simpl.
      rewrite (names_set_entry_present _ _ _ _ Hx). reflexivity.
    + unfold shape_at, Fs.readFileSync. rewrite !lookup_cons.
      destruct (String.eqb x z) eqn:E.
      * apply String.eqb_eq in E. subst z.
        rewrite IndexFacts.entry_set_entry, Hx.
        destruct (Hrest q) as [Hs Hr]. split; [exact Hs|].
        intros Hne. apply Hr. congruence.
      * apply String.eqb_neq in E.
        rewrite IndexFacts.entry_set_entry_other by exact E. split; reflexivity.
Qed.

(** Induction on a tree, with the property at hand for every entry of a
    directory. *)
Lemma node_ind_nested (P : Fs.node -> Prop) :
  (forall c, P (Fs.File c)) ->
  (forall es, Forall (fun e => P (snd e)) es -> P (Fs.Dir es)) ->
  forall n, P n.
Proof.
  intros Hf Hd. fix IH 1. intros [c|es]; [apply Hf|]. apply Hd.
  revert es. fix IHes 1. intros [|e es].
  - apply Forall_nil_2.
  - apply Forall_cons_2; [apply IH|apply IHes].
Qed.

(** Writing to a file the content it has changes nothing. *)
Lemma write_same p : forall c n,
  p <> [] -> Fs.readFileSync n p = Some c -> Fs.writeFileSync p c n = Some n.
Proof.
  induction p as [|x p IH]; intros c n Hp Hread; [contradiction Hp; reflexivity|].
  destruct n as [c0|es]; [destruct p; discriminate Hread|].
  unfold Fs.readFileSync in Hread. rewrite lookup_cons in Hread.
  destruct (Fs.entry x es) as [child|] eqn:Hx; [|discriminate Hread].
  destruct p as [|y p].
  - simpl in Hread. destruct child as [c1|]; [|discriminate Hread].
    injection Hread as ->.
    rewrite write_last, Hx, (set_entry_same _ _ _ Hx). reflexivity.
  - rewrite write_deeper, Hx, (IH c child) by (try discriminate; exact Hread).
    rewrite (set_entry_same _ _ _ Hx). reflexivity.
Qed.
End TreeFacts.

(** ** LinkRewriter: what a file and a walk may change *)

Module RewriteMore.
Import Text LinkRewriter Tree TreeFacts RewriteFacts.

Section WithUrl.
Variable redmineUrl : string.

(** No image in the text: category 3 finds nothing and reads nothing. *)
Lemma category3_scan_idle s :
  includes "![" s = false ->
  scan (attachment_url redmineUrl) 0 s = Lit <$> list_ascii_of_string s.
Proof.
  induction s as [|c r IH]; intros H; [reflexivity|].
  apply includes_cons in H as [Hhere Hrest].
  cbn [scan]. unfold attachment_url at 1. rewrite (strip_none _ _ Hhere).
  cbn [list_ascii_of_string]. rewrite fmap_cons. f_equal. apply IH, Hrest.
Qed.

Lemma render_with_lits f s :
  render_with f (Lit <$> list_ascii_of_string s) = Some (s, []).
Proof.
  induction s as [|c r IH]; [reflexivity|].
  cbn [list_ascii_of_string]. rewrite fmap_cons. cbn [render_with].
  rewrite IH. reflexivity.
Qed.

Lemma category3_idle root filePath s :
  includes "![" s = false -> category3 redmineUrl root filePath s = Some (s, []).
Proof.
  intros H. unfold category3. rewrite (category3_scan_idle _ H).
  apply render_with_lits.
Qed.

(** One callback that throws ends the replacement. *)
Lemma render_with_abort f ps m :
  In (Hit m) ps -> f m = None -> render_with f ps = None.
Proof.
  intros Hin Hf. induction ps as [|[c|x] ps IH]; [destruct Hin| |].
  - destruct Hin as [E|Hin]; [discriminate E|].
    cbn [render_with]. rewrite (IH Hin). reflexivity.
  - cbn [render_with]. destruct Hin as [E|Hin].
    + injection E as ->. rewrite Hf. reflexivity.
    + rewrite (IH Hin). destruct (f x) as [[r w1]|]; reflexivity.
Qed.

(** What [processMarkdownFile] does to the tree. *)
Lemma processMarkdownFile_differs root filePath root' warnings :
  processMarkdownFile redmineUrl root filePath = Some (root', warnings) ->
  forall q, shape_at root' q = shape_at root q /\
            (q <> filePath -> Fs.readFileSync root' q = Fs.readFileSync root q).
Proof.
  unfold processMarkdownFile. intros H.
  destruct (Fs.readFileSync root filePath) as [content|] eqn:Hread; [|discriminate H].
  simpl in H.
  destruct (category3 _ _ _ _) as [[content' ws]|]; [|discriminate H].
  simpl in H.
  destruct (Fs.writeFileSync filePath content' root) as [r|] eqn:Hwrite; [|discriminate H].
  injection H as <- _.
  apply (write_over _ _ _ _ _ Hread Hwrite).
Qed.

Lemma differs_refl root : only_markdown_differs root root.
Proof. intros p. split; reflexivity. Qed.

Lemma differs_trans a b c :
  only_markdown_differs a b -> only_markdown_differs b c ->
  only_markdown_differs a c.
Proof.
  intros Hab Hbc p. destruct (Hab p) as [H1 H2], (Hbc p) as [H3 H4].
  split; [congruence|]. intros Hp. rewrite H4, H2 by exact Hp. reflexivity.
Qed.

Lemma basename_snoc dir file : Fs.basename (dir ++ [file]) = file.
Proof. unfold Fs.basename. apply last_last. Qed.

Lemma processMarkdownFile_markdown root dir file root' warnings :
  endsWith ".md" file = true ->
  processMarkdownFile redmineUrl root (dir ++ [file]) = Some (root', warnings) ->
  only_markdown_differs root root'.
Proof.
  intros Hmd H p.
  destruct (processMarkdownFile_differs _ _ _ _ H p) as [H1 H2].
  split; [exact H1|]. intros Hp. apply H2. intros ->.
  rewrite basename_snoc in Hp. congruence.
Qed.

(** [walkDir] visits a directory and what is below it. *)
Lemma walkDir_differs n : forall dir st st',
  walkDir redmineUrl n dir st = Some st' ->
  only_markdown_differs (fst st) (fst st').
Proof.
  induction n as [c|es IH] using node_ind_nested; intros dir st st' H;
    [discriminate H|].
  cbn [walkDir] in H. revert st H.
  induction IH as [|[file child] es Hchild _ IHes]; intros st H.
  - injection H as <-. apply differs_refl.
  - destruct child as [c|sub].
    + destruct (endsWith ".md" file) eqn:Hmd.
      * destruct (processMarkdownFile redmineUrl (fst st) (dir ++ [file]))
          as [[root ws]|] eqn:Hp; [|discriminate H].
        simpl in H. apply IHes in H. simpl in H.
        eapply differs_trans; [|exact H].
        eapply processMarkdownFile_markdown; [exact Hmd|exact Hp].
      * apply IHes, H.
    + destruct (walkDir redmineUrl (Fs.Dir sub) (dir ++ [file]) st) as [st1|] eqn:Hw;
        [|discriminate H].
      simpl in H. apply IHes in H.
      eapply differs_trans; [|exact H].
      apply (Hchild _ _ _ Hw).
Qed.
End WithUrl.
End RewriteMore.

(** X20. A page that holds no [[[], no link to a wiki page of the server and no
    image is written back as it was read: the pass leaves the tree as it
    is and prints no warning.  (The page is well-formed UTF-8, so that
    reading it as text and writing the text back gives the same bytes.) *)
Theorem processMarkdownFile_without_links (redmineUrl : string)
    (root : Fs.node) (filePath : Fs.path) (content : string) :
  filePath <> [] ->
  Fs.readFileSync root filePath = Some content ->
  Utf8.valid content = true ->
  Text.includes "[[" content = false ->
  Text.includes (LinkRewriter.absolute_wiki_target redmineUrl) content = false ->
  Text.includes "![" content = false ->
  LinkRewriter.processMarkdownFile redmineUrl root filePath = Some (root, []).
Proof.
  intros Hp Hread _ H1 H2 H3. unfold LinkRewriter.processMarkdownFile.
  rewrite Hread. simpl. unfold LinkRewriter.wiki_links.
  rewrite (RewriteFacts.category1_idle _ H1),
    (RewriteFacts.category2_idle _ _ _ H2),
    (RewriteMore.category3_idle _ _ _ _ H3). simpl.
  rewrite (TreeFacts.write_same _ _ _ Hp Hread). reflexivity.
Qed.

(** The page [Links.md] of project [alpha], whose only link is a plain
    link to an attachment. *)
Lemma processMarkdownFile_without_links_witness :
  let filePath := Scenario.alpha ++ ["Links.md"%string] in
  Fs.readFileSync Scenario.site filePath
    = Some "[spec](http://srv/attachments/download/5/spec.pdf)"%string /\
  LinkRewriter.processMarkdownFile "http://srv" Scenario.site filePath
    = Some (Scenario.site, []).
Proof.
  intros filePath. split; [reflexivity|].
  apply (processMarkdownFile_without_links "http://srv" Scenario.site filePath
           "[spec](http://srv/attachments/download/5/spec.pdf)");
    [discriminate|reflexivity..].
Defined.

(** X21. An image whose file name on the server is not a valid percent-encoding
    makes [decodeURIComponent] throw inside the replacement: the function
    does not return, and the page is not written. *)
Theorem processMarkdownFile_malformed_escape (redmineUrl : string)
    (root : Fs.node) (filePath : Fs.path) (content : string)
    (m : LinkRewriter.attachment_link) :
  Fs.readFileSync root filePath = Some content ->
  In (Text.Hit m)
     (Text.scan (LinkRewriter.attachment_url redmineUrl) 0
        (LinkRewriter.wiki_links redmineUrl
           (Fs.basename (Fs.dirname filePath)) content)) ->
  Text.decodeURIComponent (LinkRewriter.filename m) = None ->
  LinkRewriter.processMarkdownFile redmineUrl root filePath = None.
Proof.
  intros Hread Hin Hbad. unfold LinkRewriter.processMarkdownFile.
  rewrite Hread. simpl. unfold LinkRewriter.category3.
  rewrite (RewriteMore.render_with_abort _ _ m Hin); [reflexivity|].
  unfold LinkRewriter.attachment_target. rewrite Hbad. reflexivity.
Qed.

(** A page with an image named [100%.png]: the whole walk stops there. *)
Lemma processMarkdownFile_malformed_escape_witness :
  let root := Fs.Dir [("app"%string, Fs.Dir [("output"%string, Fs.Dir [
                ("demo"%string, Fs.Dir [
                   ("Home.md"%string,
                    Fs.File "![chart](http://srv/attachments/download/3/100%.png)")])])])] in
  Text.decodeURIComponent "100%.png" = None /\
  LinkRewriter.processMarkdownFile "http://srv" root ["app"; "output"; "demo"; "Home.md"]%string
    = None /\
  LinkRewriter.fix_links "http://srv" ["app"%string] root = None.
Proof.
  intros root. split; [reflexivity|]. split; [|reflexivity].
  apply (processMarkdownFile_malformed_escape "http://srv" root
           ["app"; "output"; "demo"; "Home.md"]%string
           "![chart](http://srv/attachments/download/3/100%.png)"
           {| LinkRewriter.matched := "![chart](http://srv/attachments/download/3/100%.png)";
              LinkRewriter.alt := "![chart]"; LinkRewriter.id := "3";
              LinkRewriter.filename := "100%.png" |});
    [reflexivity|left; reflexivity|reflexivity].
Defined.

(** X22. fix-links.js rewrites pages only: when the walk ends, the tree has
    the directories and the names it had, and every file whose name does
    not end in [.md] has the content it had. *)
Theorem fix_links_only_touches_markdown (redmineUrl : string)
    (dirname : Fs.path) (root root' : Fs.node)
    (warnings : list LinkRewriter.warning) :
  LinkRewriter.fix_links redmineUrl dirname root = Some (root', warnings) ->
  Tree.only_markdown_differs root root'.
Proof.
  unfold LinkRewriter.fix_links. intros H.
  destruct (Fs.lookup _ root) as [n|]; [|discriminate H]. simpl in H.
  apply (RewriteMore.walkDir_differs _ _ _ _ _ H).
Qed.

(** The exported tree of the scenario: the attachments are what they
    were. *)
Lemma fix_links_only_touches_markdown_witness :
  exists root' warnings,
    LinkRewriter.fix_links "http://srv" ["app"%string] Scenario.site
      = Some (root', warnings) /\
    Fs.readFileSync root' (Scenario.alpha ++ ["Home.md"%string])
      = Some "![pic](attachments/My%20File.png)"%string /\
    Tree.only_markdown_differs Scenario.site root'.
Proof.
  eexists. eexists. split; [vm_compute; reflexivity|]. split; [reflexivity|].
  eapply (fix_links_only_touches_markdown "http://srv" ["app"%string] Scenario.site).
  vm_compute. reflexivity.
Defined.

(** ** LinkRewriter: one wiki link in a text *)

Module LinkFacts.
Import Text LinkRewriter.
Local Open Scope char_scope.

Lemma cons_append c a b : String c a +:+ b = String c (a +:+ b).
Proof. reflexivity. Qed.

(** A greedy class stops at the first character it refuses. *)
Lemma span_stops f a : forall c b,
  Forall (fun x => f x = true) (list_ascii_of_string a) -> f c = false ->
  span f (a +:+ String c b) = (a, String c b).
Proof.
  induction a as [|x a IH]; intros c b Ha Hc.
  - change ("" +:+ String c b)%string with (String c b). simpl. rewrite Hc. reflexivity.
  - rewrite cons_append. cbn [list_ascii_of_string] in Ha.
    apply Forall_cons in Ha as [Hx Ha]. cbn [span]. rewrite Hx, (IH _ _ Ha Hc).
    reflexivity.
Qed.

(** After a match of [n] characters the search resumes behind it. *)
Lemma scan_skip {M} (m : string -> option (nat * M)) a : forall b,
  scan m (String.length a) (a +:+ b) = scan m 0 b.
Proof.
  induction a as [|x a IH]; intros b; [destruct b; reflexivity|].
  rewrite cons_append. cbn [String.length scan]. apply IH.
Qed.

Lemma render_app {M} (f : M -> string) ps qs :
  render f (ps ++ qs) = render f ps +:+ render f qs.
Proof.
  induction ps as [|[c|x] ps IH]; [reflexivity| |]; simpl; rewrite IH.
  - reflexivity.
  - symmetry. apply StringFacts.append_assoc.
Qed.

Lemma wiki_syntax_here name post :
  name <> ""%string ->
  Forall (fun c => c <> "]") (list_ascii_of_string name) ->
  wiki_syntax ("[[" +:+ name +:+ "]]" +:+ post)
  = Some (4 + String.length name, name)%nat.
Proof.
  intros Hname Hchars. unfold wiki_syntax.
  change (strip "[[" ("[[" +:+ name +:+ "]]" +:+ post))
    with (Some (name +:+ String "]" (String "]" post))).
  cbv beta iota. rewrite span_stops.
  - destruct name as [|c name]; [contradiction Hname; reflexivity|].
    change (strip "]]" (String "]" (String "]" post))) with (Some post).
    f_equal. f_equal. unfold consumed.
    change ("[[" +:+ String c name +:+ "]]" +:+ post)%string
      with (String "[" (String "[" ((String c name) +:+ ("]]" +:+ post))))%string.
    cbn [String.length]. rewrite BaseUrlFacts.length_append.
    change (String.length ("]]" +:+ post)) with (S (S (String.length post))).
    cbn [String.length]. lia.
  - eapply Forall_impl; [exact Hchars|]. intros c Hc. unfold is_not.
    apply negb_true_iff, Ascii.eqb_neq, Hc.
  - reflexivity.
Qed.

Lemma wiki_syntax_not_here c rest : c <> "[" -> wiki_syntax (String c rest) = None.
Proof.
  intros Hc. unfold wiki_syntax. cbn [strip].
  assert (E : Ascii.eqb "[" c = false) by (apply Ascii.eqb_neq; congruence).
  rewrite E. reflexivity.
Qed.

Lemma category1_prefix pre : forall s,
  Forall (fun c => c <> "[") (list_ascii_of_string pre) ->
  category1 (pre +:+ s) = pre +:+ category1 s.
Proof.
  unfold category1. induction pre as [|c pre IH]; intros s Hpre; [reflexivity|].
  cbn [list_ascii_of_string] in Hpre. apply Forall_cons in Hpre as [Hc Hpre].
  rewrite !cons_append. cbn [scan]. rewrite (wiki_syntax_not_here _ _ Hc).
  cbn [render]. rewrite (IH _ Hpre). reflexivity.
Qed.
End LinkFacts.

(** X17. A wiki link [[[name]]] whose name is not empty and holds no closing
    bracket, after a text without opening bracket, is replaced by what the
    callback makes of the name (a link to [name.md] with the white space
    of the name turned into underscores, or to [../project/page.md] for
    [project:page]); the text before it is kept and the text after it is
    rewritten in the same way. *)
Theorem category1_rewrites_link (pre name post : string) :
  Forall (fun c => c <> "["%char) (list_ascii_of_string pre) ->
  name <> ""%string ->
  Forall (fun c => c <> "]"%char) (list_ascii_of_string name) ->
  LinkRewriter.category1 (pre +:+ "[[" +:+ name +:+ "]]" +:+ post)
  = pre +:+ LinkRewriter.wiki_syntax_link name +:+ LinkRewriter.category1 post.
Proof.
  intros Hpre Hname Hchars.
  rewrite (LinkFacts.category1_prefix _ _ Hpre). f_equal.
  unfold LinkRewriter.category1.
  pose proof (LinkFacts.wiki_syntax_here name post Hname Hchars) as Hm.
  change ("[[" +:+ name +:+ "]]" +:+ post)%string
    with (String "["%char ("[" +:+ name +:+ "]]" +:+ post))%string in *.
  cbn [Text.scan]. rewrite Hm. cbn [Text.render]. f_equal.
  replace ("[" +:+ name +:+ "]]" +:+ post)%string
    with (("[" +:+ name +:+ "]]") +:+ post)%string
    by (rewrite !StringFacts.append_assoc; reflexivity).
  replace (4 + String.length name - 1)%nat
    with (String.length ("[" +:+ name +:+ "]]")%string).
  - rewrite LinkFacts.scan_skip. reflexivity.
  - change ("[" +:+ name +:+ "]]")%string with (String "["%char (name +:+ "]]"))%string.
    cbn [String.length]. rewrite BaseUrlFacts.length_append. simpl. lia.
Qed.

(** A link to a page of the project and a link to a page of another
    project. *)
Lemma category1_rewrites_link_witness :
  LinkRewriter.category1 "See [[Release notes]] and [[infra:Run book]]."
  = "See [Release notes](Release_notes.md) and [Run book](../infra/Run_book.md)."%string /\
  LinkRewriter.category1 ("See " +:+ "[[" +:+ "Release notes" +:+ "]]" +:+ " and [[infra:Run book]].")
  = ("See " +:+ LinkRewriter.wiki_syntax_link "Release notes" +:+
     LinkRewriter.category1 " and [[infra:Run book]].")%string.
Proof.
  split; [reflexivity|].
  apply (category1_rewrites_link "See " "Release notes" " and [[infra:Run book]].").
  - repeat constructor; discriminate.
  - discriminate.
  - repeat constructor; discriminate.
Defined.

(** ** Crawler: the retry budget, the back-off and the place of the files,
    in every run *)

Module KeptFacts.
Import Http Crawler Kept.

Section Run.
Variable server : request -> nat -> nat * outcome.
Variable outputDir : option string.
Variable timely : Prop.

Abbreviation kept := (Kept.kept server outputDir timely).
Abbreviation answered := (Kept.answered server).
Abbreviation listed := (Kept.listed server).
Abbreviation fetched := (Kept.fetched server).
Abbreviation attached := (Kept.attached server).
Abbreviation placed := (Kept.placed server outputDir).
Abbreviation known := (Kept.known server outputDir).
Abbreviation queued := (Kept.queued server).
Abbreviation retrying := (Kept.retrying server outputDir).
Abbreviation flying := (Kept.flying server outputDir).

(** What is known of the wire stays known when the wire grows. *)
Lemma sent_before_app l l' r k wait bound :
  sent_before l r k wait bound -> sent_before (l ++ l') r k wait bound.
Proof.
  intros (j & s & Hj & H). exists j, s. split; [apply lookup_app_l_Some, Hj|exact H].
Qed.

Lemma answered_app l l' r o : answered l r o -> answered (l ++ l') r o.
Proof.
  intros (s & Hs & H). exists s. split; [apply in_or_app; left; exact Hs|exact H].
Qed.

Lemma listed_app l l' p : listed l p -> listed (l ++ l') p.
Proof.
  intros (offset & o & d & ps & H1 & H). exists offset, o, d, ps.
  split; [apply answered_app, H1|exact H].
Qed.

Lemma fetched_app l l' p page : fetched l p page -> fetched (l ++ l') p page.
Proof.
  intros (pageName & o & d & H1 & H). exists pageName, o, d.
  split; [apply answered_app, H1|exact H].
Qed.

Lemma attached_app l l' p a : attached l p a -> attached (l ++ l') p a.
Proof.
  intros (page & atts & H1 & H2 & H). exists page, atts.
  split; [apply listed_app, H1|]. split; [apply fetched_app, H2|exact H].
Qed.

Lemma placed_app l l' op : placed l op -> placed (l ++ l') op.
Proof.
  intros H. destruct H as [d Hd|p Hp|p page Hp Hpage|ps Hps|p page Hp Hpage
                          |p a n o b Ha Hn Ho Hb].
  - apply placed_root, Hd.
  - apply placed_project, listed_app, Hp.
  - apply (placed_attachments _ _ _ p page); [apply listed_app, Hp|apply fetched_app, Hpage].
  - apply placed_metadata. eapply Forall_impl; [exact Hps|].
    intros p Hp. apply listed_app, Hp.
  - apply placed_page; [apply listed_app, Hp|apply fetched_app, Hpage].
  - apply (placed_attachment _ _ _ p a n o b);
      [apply attached_app, Ha|exact Hn|apply answered_app, Ho|exact Hb].
Qed.

Lemma known_app l l' p : known l p -> known (l ++ l') p.
Proof.
  unfold Kept.known. destruct (awaiting p) as [|project|project pageName|dir a].
  - auto.
  - apply listed_app.
  - intros [H1 H2]. split; [apply listed_app, H1|exact H2].
  - intros (project & n & H1 & H). exists project, n.
    split; [apply attached_app, H1|exact H].
Qed.

Lemma queued_app l l' j : queued l j -> queued (l ++ l') j.
Proof. destruct j; simpl; [auto|apply listed_app]. Qed.

Lemma retrying_app l l' t : retrying l t -> retrying (l ++ l') t.
Proof.
  unfold Kept.retrying. destruct (snd t) as [|p]; [auto|].
  intros (H1 & H2 & H3). split; [exact H1|]. split; [apply known_app, H2|].
  apply sent_before_app, H3.
Qed.

Lemma flying_app l l' r : flying l r -> flying (l ++ l') r.
Proof.
  intros (H1 & [bound H2] & H3). split; [apply known_app, H1|].
  split; [exists bound; apply sent_before_app, H2|exact H3].
Qed.

Lemma backed_off_snoc l s :
  backed_off timely l ->
  (try s = 0%nat \/
   exists j s', l !! j = Some s' /\ what s' = what s /\ S (try s') = try s /\
     (timely -> instant s' + backoff_delay (try s') <= instant s)) ->
  backed_off timely (l ++ [s]).
Proof.
  intros Hl Hs i x Hi Hx.
  apply lookup_app_Some in Hi as [Hin|[Hge Hlast]].
  - destruct (Hl i x Hin Hx) as (j & s' & Hj & Hs' & Hrest).
    exists j, s'. split; [exact Hj|]. split; [apply lookup_app_l_Some, Hs'|exact Hrest].
  - apply list_lookup_singleton_Some in Hlast as [_ ->].
    destruct Hs as [H0|(j & s' & Hj & Hrest)]; [lia|].
    exists j, s'. split; [apply lookup_lt_Some in Hj; lia|].
    split; [apply lookup_app_l_Some, Hj|exact Hrest].
Qed.

(** The throttle's own steps leave its queue as it is. *)
Lemma process_queue n (th : Throttle.t job) :
  Throttle.queue (fst (Throttle.process n th)) = Throttle.queue th.
Proof. unfold Throttle.process. destruct (_ || _); reflexivity. Qed.

(** *** The primitive steps *)

Lemma kept_log l w : kept w -> kept (log l w).
Proof. intros [H1 H2 H3 H4 H5 H6 H7 H8]. split; assumption. Qed.

Lemma kept_set_listing p acc w :
  Forall (listed (wire w)) acc -> kept w -> kept (set_listing p acc w).
Proof. intros Hacc [H1 H2 H3 H4 H5 H6 H7 H8]. split; assumption. Qed.

Lemma kept_set_throttle th w :
  Forall (queued (wire w)) (Throttle.queue th) -> kept w -> kept (set_throttle th w).
Proof. intros Hq [H1 H2 H3 H4 H5 H6 H7 H8]. split; assumption. Qed.

Lemma kept_record_enqueued j w : kept w -> kept (record_enqueued j w).
Proof. intros [H1 H2 H3 H4 H5 H6 H7 H8]. split; assumption. Qed.

Lemma kept_set_now t w : now w <= t -> kept w -> kept (set_now t w).
Proof.
  intros Ht [H1 H2 H3 H4 H5 H6 H7 H8]. split; try assumption. simpl.
  eapply Forall_impl; [exact H3|]. simpl. intros s Hs. lia.
Qed.

Lemma kept_delete_timer i w : kept w -> kept (set_timers (delete i (timers w)) w).
Proof.
  intros [H1 H2 H3 H4 H5 H6 H7 H8]. split; try assumption. simpl.
  apply Forall_delete, H4.
Qed.

Lemma kept_delete_inflight i w :
  kept w -> kept (set_inflight (delete i (inflight w)) w).
Proof.
  intros [H1 H2 H3 H4 H5 H6 H7 H8]. split; try assumption. simpl.
  apply Forall_delete, H5.
Qed.

Lemma kept_fs op w : placed (wire w) op -> kept w -> kept (fs op w).
Proof.
  intros Hop [H1 H2 H3 H4 H5 H6 H7 H8]. split; try assumption. simpl.
  apply Forall_app. split; [exact H8|]. constructor; [exact Hop|constructor].
Qed.

Lemma kept_initDirectory d w :
  d = ""%string \/ placed (wire w) (Mkdir d) -> kept w -> kept (initDirectory d w).
Proof.
  intros Hd Hw. unfold initDirectory.
  destruct (String.eqb d "") eqn:E; [exact Hw|].
  destruct Hd as [->|Hd]; [discriminate E|]. apply kept_fs; assumption.
Qed.

Lemma kept_setTimeout cb d w :
  retrying (wire w) (now w + d, cb) -> kept w -> kept (setTimeout cb d w).
Proof.
  intros Hcb [H1 H2 H3 H4 H5 H6 H7 H8]. split; try assumption. simpl.
  apply Forall_app. split; [exact H4|]. constructor; [exact Hcb|constructor].
Qed.

Lemma kept_request from p w :
  (attempt p <= Retry.maxRetries_default)%nat ->
  known (wire w) p ->
  (attempt p = 0%nat \/
   exists j s', wire w !! j = Some s' /\ what s' = req p /\ S (try s') = attempt p /\
     (timely -> instant s' + backoff_delay (try s') <= now w)) ->
  kept w -> kept (request_ server from p w).
Proof.
  intros Hbudget Hk Hprev [H1 H2 H3 H4 H5 H6 H7 H8]. unfold request_.
  destruct (server (req p) (attempt p)) as [latency o] eqn:Hserver.
  set (s := {| instant := now w; what := req p; try := attempt p; via := from |}).
  split; simpl; fold s.
  - apply Forall_app. split; [exact H1|]. constructor; [exact Hbudget|constructor].
  - apply backed_off_snoc; [exact H2|exact Hprev].
  - apply Forall_app. split; [exact H3|]. constructor; [simpl; lia|constructor].
  - eapply Forall_impl; [exact H4|]. intros t. apply retrying_app.
  - apply Forall_app. split.
    + eapply Forall_impl; [exact H5|]. intros r. apply flying_app.
    + constructor; [|constructor]. split; [apply known_app, Hk|]. split.
      * exists (now w), (length (wire w)), s. split.
        -- rewrite lookup_app_r, Nat.sub_diag by lia. reflexivity.
        -- simpl. repeat split. lia.
      * simpl. rewrite Hserver. reflexivity.
  - eapply Forall_impl; [exact H6|]. intros j. apply queued_app.
  - eapply Forall_impl; [exact H7|]. intros q. apply listed_app.
  - eapply Forall_impl; [exact H8|]. intros op. apply placed_app.
Qed.

(** *** The functions of the crawler *)

Lemma kept_throttle_enqueue j w :
  queued (wire w) j -> kept w -> kept (throttle_enqueue j w).
Proof.
  intros Hj Hw. unfold throttle_enqueue.
  pose proof (process_queue (now w)
    {| Throttle.minIntervalMs := Throttle.minIntervalMs (throttle w);
       Throttle.queue := Throttle.queue (throttle w) ++ [j];
       Throttle.lastTime := Throttle.lastTime (throttle w);
       Throttle.active := Throttle.active (throttle w) |}) as Hq.
  unfold Throttle.enqueue. destruct (Throttle.process _ _) as [th wait].
  simpl in Hq.
  assert (Hth : kept (record_enqueued j (set_throttle th w))).
  { apply kept_record_enqueued, kept_set_throttle; [|exact Hw].
    rewrite Hq. apply Forall_app. split; [apply (kept_queue _ _ _ _ Hw)|].
    constructor; [exact Hj|constructor]. }
  destruct wait as [d|]; [|exact Hth].
  apply kept_setTimeout; [exact I|exact Hth].
Qed.

Lemma kept_getProjectListPage p w : kept w -> kept (getProjectListPage p w).
Proof. intros Hw. apply kept_throttle_enqueue; [exact I|apply kept_log, Hw]. Qed.

Lemma kept_getWikiPages ps : forall w,
  Forall (listed (wire w)) ps -> kept w -> kept (foldl getWikiPages w ps).
Proof.
  induction ps as [|p ps IH]; intros w Hps Hw; simpl; [exact Hw|].
  apply Forall_cons in Hps as [Hp Hps].
  assert (Hwire : wire (getWikiPages w p) = wire w).
  { unfold getWikiPages, throttle_enqueue. destruct (Throttle.enqueue _ _ _) as [th [d|]];
      reflexivity. }
  apply IH; [rewrite Hwire; exact Hps|].
  apply kept_throttle_enqueue; [exact Hp|exact Hw].
Qed.

Lemma kept_first from r k w :
  known (wire w) {| req := r; attempt := 0; awaiting := k |} ->
  kept w -> kept (retryRequest server from r k w).
Proof.
  intros Hk Hw. apply kept_request; simpl;
    [unfold Retry.maxRetries_default; lia|exact Hk|left; reflexivity|exact Hw].
Qed.

Lemma wire_request from p w : exists s, wire (request_ server from p w) = wire w ++ [s].
Proof. unfold request_. destruct (server _ _). simpl. eauto. Qed.

Lemma kept_getWikiPage_all project ps : forall w,
  listed (wire w) project ->
  kept w -> kept (foldl (getWikiPage server project) w ps).
Proof.
  induction ps as [|p ps IH]; intros w Hp Hw; simpl; [exact Hw|].
  apply IH.
  - unfold getWikiPage, retryRequest.
    destruct (wire_request Direct
                {| req := GetWikiPage (identifier project) p; attempt := 0;
                   awaiting := AtWikiPage project p |}
                (log (RequestingPath (identifier project) p) w)) as [s ->].
    apply listed_app, Hp.
  - apply kept_first; [split; [exact Hp|reflexivity]|]. apply kept_log, Hw.
Qed.

Lemma kept_getAttachment_all project dir atts : forall w,
  dir = plus outputDir (identifier project) +:+ "/attachments" ->
  Forall (attached (wire w) project) atts ->
  kept w -> kept (foldl (getAttachment server dir) w atts).
Proof.
  induction atts as [|a atts IH]; intros w Hdir Hatts Hw; simpl; [exact Hw|].
  apply Forall_cons in Hatts as [Ha Hatts].
  unfold getAttachment at 2. destruct (has_id a) as [n|] eqn:Hn.
  - apply IH; [exact Hdir| |].
    + unfold retryRequest.
      destruct (wire_request Direct
                  {| req := GetAttachment n; attempt := 0;
                     awaiting := AtAttachment dir a |} w) as [s ->].
      eapply Forall_impl; [exact Hatts|]. intros b. apply attached_app.
    + apply kept_first; [|exact Hw]. exists project, n. auto.
  - apply IH; assumption.
Qed.

Lemma kept_backupWikiPage project p w :
  listed (wire w) project -> fetched (wire w) project p ->
  kept w -> kept (backupWikiPage server outputDir project p w).
Proof.
  intros Hproject Hpage Hw. unfold backupWikiPage.
  assert (H1 : kept (fs (WriteFile (plus outputDir (identifier project) +:+ "/" +:+
                                    title p +:+ ".md") (Text (text p)))
                       (initDirectory (plus outputDir (identifier project)) w))).
  { apply kept_fs.
    - unfold initDirectory. destruct (String.eqb _ _); apply placed_page; assumption.
    - apply kept_initDirectory; [right; apply placed_project, Hproject|exact Hw]. }
  destruct (attachments p) as [atts|] eqn:Hatts; [|exact H1].
  assert (Hwire : forall d w0, wire (initDirectory d w0) = wire w0)
    by (intros d w0; unfold initDirectory; destruct (String.eqb _ _); reflexivity).
  apply (kept_getAttachment_all project); [reflexivity| |].
  - rewrite Hwire. simpl. rewrite Hwire.
    apply List.Forall_forall. intros a Ha. exists p, atts. auto.
  - apply kept_initDirectory; [|exact H1]. right. simpl. rewrite Hwire.
    apply (placed_attachments _ _ _ project p); assumption.
Qed.

Lemma kept_on_projects ps w :
  Forall (listed (wire w)) ps -> kept w -> kept (on_projects outputDir ps w).
Proof.
  intros Hps Hw. unfold on_projects.
  apply kept_getWikiPages; [exact Hps|]. apply kept_log, kept_fs.
  - apply placed_metadata, Hps.
  - apply kept_log, Hw.
Qed.

Lemma kept_next l w :
  Forall (listed (wire w)) l -> kept w -> kept (next outputDir l w).
Proof.
  intros Hl Hw. unfold next.
  assert (Hacc : Forall (listed (wire w)) (projects_acc w ++ l))
    by (apply Forall_app; split; [apply (kept_acc _ _ _ _ Hw)|exact Hl]).
  destruct (_ =? _)%nat.
  - apply kept_getProjectListPage, kept_set_listing; assumption.
  - apply kept_on_projects; [exact Hacc|]. apply kept_set_listing; assumption.
Qed.

Lemma kept_log_body b w : kept w -> kept (log_body b w).
Proof.
  intros Hw. unfold log_body. destruct b as [b|]; [|exact Hw].
  destruct (truthy _); [|exact Hw]. apply kept_log, Hw.
Qed.

Lemma kept_checked o k w :
  (forall b, content o = Some b -> kept (k b w)) ->
  kept w -> kept (checked o k w).
Proof.
  intros Hk Hw. unfold checked.
  destruct (err o); [apply kept_log, Hw|].
  repeat case_bool_decide.
  - apply kept_log_body, kept_log, Hw.
  - apply kept_log_body, kept_log, Hw.
  - destruct (content o) as [b|]; [|apply kept_log, Hw].
    destruct (truthy _); [apply Hk; reflexivity|apply kept_log, Hw].
Qed.

Lemma kept_on_wiki_pages project pages w :
  listed (wire w) project ->
  kept w -> kept (on_wiki_pages server project pages w).
Proof.
  intros Hp Hw. unfold on_wiki_pages.
  destruct pages as [pages|]; [|apply kept_log, Hw].
  destruct (_ <? _)%nat; [|exact Hw].
  apply kept_getWikiPage_all; [exact Hp|apply kept_log, Hw].
Qed.

(** The rest of an [async] function, run with the reply the server gave
    to its request. *)
Lemma kept_resume p o w :
  known (wire w) p -> answered (wire w) (req p) o ->
  kept w -> kept (resume server outputDir (awaiting p) o w).
Proof.
  intros Hk Ho Hw. unfold Kept.known in Hk.
  destruct (awaiting p) as [|project|project pageName|dir a]; simpl.
  - destruct Hk as [offset Hreq]. rewrite Hreq in Ho.
    apply kept_checked; [|exact Hw]. intros b Hb.
    destruct (json b) as [d|] eqn:Hd.
    + apply kept_next; [|exact Hw].
      destruct (projects d) as [ps|] eqn:Hps; simpl; [|constructor].
      apply List.Forall_forall. intros q Hq.
      exists offset, o, d, ps. split; [exact Ho|].
      split; [exists b; auto|auto].
    + apply kept_next; [constructor|]. apply kept_log, kept_log, Hw.
  - apply kept_checked; [|exact Hw]. intros b Hb.
    destruct (json b).
    + apply kept_on_wiki_pages; [exact Hk|exact Hw].
    + apply kept_log, Hw.
  - destruct Hk as [Hproject Hreq]. rewrite Hreq in Ho.
    destruct (err o); [apply kept_log, Hw|].
    destruct (content o) as [b|] eqn:Hb; [|exact Hw].
    WireFacts.case_if; [|exact Hw].
    destruct (json b) as [d|] eqn:Hd; [|apply kept_log, Hw].
    destruct (wiki_page d) as [page|] eqn:Hpage; [|exact Hw].
    apply kept_backupWikiPage; [exact Hproject| |exact Hw].
    exists pageName, o, d. split; [exact Ho|]. split; [exists b; auto|exact Hpage].
  - destruct Hk as (project & n & Ha & -> & Hn & Hreq). rewrite Hreq in Ho.
    destruct (err o); [apply kept_log, Hw|].
    destruct (content o) as [b|] eqn:Hb; [|exact Hw].
    WireFacts.case_if; [|exact Hw].
    apply kept_fs; [|exact Hw].
    apply (placed_attachment _ _ _ project a n o b); assumption.
Qed.

Lemma kept_on_response p o w :
  known (wire w) p -> answered (wire w) (req p) o ->
  (exists bound, sent_before (wire w) (req p) (attempt p) 0 bound) ->
  kept w -> kept (on_response server outputDir p o w).
Proof.
  intros Hk Ho (bound & j & s & Hj & Hwhat & Htry & _) Hw.
  unfold on_response, Retry.decide.
  destruct (Retry.transient o && (attempt p <? Retry.maxRetries_default)%nat) eqn:E.
  - apply andb_true_iff in E as [_ Hlt]. apply Nat.ltb_lt in Hlt.
    apply kept_setTimeout; [|apply kept_log, Hw].
    unfold Kept.retrying. simpl. split; [lia|]. split; [exact Hk|].
    exists j, s. rewrite Nat.sub_0_r. repeat split; try assumption.
    pose proof (Forall_lookup_1 _ _ _ _ (kept_past _ _ _ _ Hw) Hj) as Hpast.
    simpl in Hpast. unfold backoff_delay. lia.
  - apply kept_resume; assumption.
Qed.

Lemma kept_run_job j w :
  queued (wire w) j -> kept w -> kept (run_job server j w).
Proof.
  intros Hj Hw. destruct j as [offset|project]; simpl.
  - apply kept_first; [exists offset; reflexivity|exact Hw].
  - apply kept_first; [exact Hj|exact Hw].
Qed.

Lemma kept_throttle_tick w : kept w -> kept (throttle_tick server w).
Proof.
  intros Hw. unfold throttle_tick, Throttle.shift.
  pose proof (kept_queue _ _ _ _ Hw) as Hq.
  destruct (Throttle.queue (throttle w)) as [|fn rest] eqn:Hqueue.
  - apply kept_set_throttle; [constructor|exact Hw].
  - apply Forall_cons in Hq as [Hfn Hrest].
    set (th1 := {| Throttle.minIntervalMs := Throttle.minIntervalMs (throttle w);
                   Throttle.queue := rest; Throttle.lastTime := now w;
                   Throttle.active := Throttle.active (throttle w) |}).
    assert (Hw2 : kept (run_job server fn (set_throttle th1 w))).
    { apply kept_run_job; [exact Hfn|]. apply kept_set_throttle; [exact Hrest|exact Hw]. }
    set (w2 := run_job server fn (set_throttle th1 w)) in *.
    pose proof (process_queue (now w2)
      {| Throttle.minIntervalMs := Throttle.minIntervalMs (throttle w2);
         Throttle.queue := Throttle.queue (throttle w2);
         Throttle.lastTime := Throttle.lastTime (throttle w2);
         Throttle.active := false |}) as Hp.
    unfold Throttle.release. destruct (Throttle.process _ _) as [th3 wait].
    simpl in Hp.
    assert (Hw3 : kept (set_throttle th3 w2)).
    { apply kept_set_throttle; [|exact Hw2]. rewrite Hp.
      apply (kept_queue _ _ _ _ Hw2). }
    destruct wait as [d|]; [|exact Hw3].
    apply kept_setTimeout; [exact I|exact Hw3].
Qed.

(** *** The event loop *)

Lemma kept_timer_at i t moment w :
  timers w !! i = Some t -> now w <= moment -> (timely -> fst t <= moment) ->
  kept w -> kept (timer_at server i t moment w).
Proof.
  intros Hi Hnow Hdue Hw. unfold timer_at.
  pose proof (Forall_lookup_1 _ _ _ _ (kept_timers _ _ _ _ Hw) Hi) as Ht.
  assert (Hw' : kept (set_timers (delete i (timers w)) (set_now moment w))).
  { apply (kept_delete_timer i (set_now moment w)), kept_set_now; assumption. }
  destruct t as [due [|p]]; simpl.
  - apply kept_throttle_tick, Hw'.
  - unfold Kept.retrying in Ht. simpl in Ht. destruct Ht as (Hb & Hk & Hs).
    apply kept_request; [lia|exact Hk| |exact Hw'].
    right. destruct Hs as (j & s & Hj & Hwhat & Htry & Hbound).
    exists j, s. simpl in *. split; [exact Hj|]. split; [exact Hwhat|].
    split; [lia|]. intros Htimely. specialize (Hdue Htimely).
    rewrite Htry. lia.
Qed.

Lemma kept_reply_at i r moment w :
  inflight w !! i = Some r -> now w <= moment ->
  kept w -> kept (reply_at server outputDir i r moment w).
Proof.
  intros Hi Hnow Hw. unfold reply_at.
  pose proof (Forall_lookup_1 _ _ _ _ (kept_inflight _ _ _ _ Hw) Hi) as (Hk & Hs & Hr).
  apply kept_on_response; [exact Hk| |exact Hs|].
  - destruct Hs as (bound & j & s & Hj & Hwhat & Htry & _).
    exists s. split; [apply list_elem_of_In, (list_elem_of_lookup_2 _ j), Hj|].
    split; [exact Hwhat|]. rewrite Htry. symmetry. exact Hr.
  - apply (kept_delete_inflight i (set_now moment w)), kept_set_now; assumption.
Qed.

Lemma kept_act c w :
  (timely -> on_time w c = true) -> kept w -> kept (act server outputDir w c).
Proof.
  intros Hc Hw. destruct c as [i moment|i moment]; simpl in *.
  - destruct (timers w !! i) as [t|] eqn:Hi; [|exact Hw].
    destruct (now w <=? moment) eqn:E; [|exact Hw]. apply Z.leb_le in E.
    apply kept_timer_at; [exact Hi|lia| |exact Hw].
    intros Htimely. apply Z.leb_le, Hc, Htimely.
  - destruct (inflight w !! i) as [r|] eqn:Hi; [|exact Hw].
    destruct (_ <=? _) eqn:E; [|exact Hw]. apply Z.leb_le in E.
    apply kept_reply_at; [exact Hi|lia|exact Hw].
Qed.

Lemma kept_play schedule : forall w,
  (timely -> punctual server outputDir w schedule = true) ->
  kept w -> kept (play server outputDir w schedule).
Proof.
  induction schedule as [|c cs IH]; intros w Hp Hw; simpl; [exact Hw|].
  apply IH.
  - intros Htimely. specialize (Hp Htimely). simpl in Hp.
    apply andb_true_iff in Hp as [_ Hp]. exact Hp.
  - apply kept_act; [|exact Hw]. intros Htimely. specialize (Hp Htimely).
    simpl in Hp. apply andb_true_iff in Hp as [Hp _]. exact Hp.
Qed.

Lemma kept_start t0 : kept (start outputDir t0).
Proof.
  unfold start, getProjects. apply kept_getProjectListPage, kept_set_listing;
    [constructor|].
  apply kept_initDirectory.
  - destruct outputDir as [d|]; [right; apply placed_root; reflexivity|left; reflexivity].
  - split; simpl; try constructor. intros i s Hi. discriminate Hi.
Qed.

Lemma kept_run t0 schedule :
  (timely -> punctual server outputDir (start outputDir t0) schedule = true) ->
  kept (play server outputDir (start outputDir t0) schedule).
Proof. intros Hp. apply kept_play; [exact Hp|apply kept_start]. Qed.
End Run.
End KeptFacts.

(** X9. In every run, however its callbacks are scheduled, a request is tried
    six times at most: no call of [request] is a retry beyond the fifth,
    whatever the server answers. *)
Theorem crawler_retry_budget (server : Crawler.request -> nat -> nat * Http.outcome)
    (outputDir : option string) (t0 : Z) (schedule : list Crawler.choice) :
  let w := Crawler.play server outputDir (Crawler.start outputDir t0) schedule in
  Forall (fun s => (Crawler.try s <= 5)%nat) (Crawler.wire w).
Proof.
  intros w. apply (Kept.kept_budget server outputDir False w).
  apply KeptFacts.kept_run. contradiction.
Qed.

(** X10. In every run, however its callbacks are scheduled, a retry leaves
    after the attempt before it for the same resource.  When no timer of
    the run has fired before it was due, it leaves not sooner than the
    back-off delay after that attempt was sent: 5 s before the first
    retry, then 10 s, 20 s, 40 s and 80 s. *)
Theorem crawler_retries_back_off (server : Crawler.request -> nat -> nat * Http.outcome)
    (outputDir : option string) (t0 : Z) (schedule : list Crawler.choice) :
  let w := Crawler.play server outputDir (Crawler.start outputDir t0) schedule in
  forall i s, Crawler.wire w !! i = Some s -> (0 < Crawler.try s)%nat ->
    exists j s', (j < i)%nat /\ Crawler.wire w !! j = Some s' /\
      Crawler.what s' = Crawler.what s /\
      S (Crawler.try s') = Crawler.try s /\
      (Crawler.punctual server outputDir (Crawler.start outputDir t0) schedule = true ->
       Crawler.instant s' + 5000 * 2 ^ Z.of_nat (Crawler.try s') <= Crawler.instant s).
Proof.
  intros w.
  apply (Kept.kept_backed server outputDir
           (Crawler.punctual server outputDir (Crawler.start outputDir t0) schedule = true) w).
  apply KeptFacts.kept_run. auto.
Qed.

(** The listing of the busy server, started at instant 1000: the first
    attempt leaves at 1200 and comes back at 1300 with HTTP 503; the retry
    is due at 6300 and leaves at 6400, when its timer fires. *)
Lemma crawler_retries_back_off_witness :
  let schedule :=
    [Crawler.FireTimer 0 1200; Crawler.Deliver 0 1300; Crawler.FireTimer 0 6400] in
  let w := Crawler.play Scenario.server_busy (Some "out/"%string)
             (Crawler.start (Some "out/"%string) 1000) schedule in
  Crawler.punctual Scenario.server_busy (Some "out/"%string)
    (Crawler.start (Some "out/"%string) 1000) schedule = true /\
  Scenario.trace 0 w
    = [(Crawler.GetProjects 0, 0%nat, Crawler.ThrottleLane, 1200);
       (Crawler.GetProjects 0, 1%nat, Crawler.BackoffTimer, 6400)] /\
  exists j s', (j < 1)%nat /\ Crawler.wire w !! j = Some s' /\
    Crawler.instant s' + 5000 * 2 ^ Z.of_nat (Crawler.try s') <= 6400.
Proof.
  intros schedule w.
  assert (Hp : Crawler.punctual Scenario.server_busy (Some "out/"%string)
                 (Crawler.start (Some "out/"%string) 1000) schedule = true)
    by reflexivity.
  split; [exact Hp|]. split; [reflexivity|].
  destruct (crawler_retries_back_off Scenario.server_busy (Some "out/"%string) 1000
              schedule 1%nat
              {| Crawler.instant := 6400; Crawler.what := Crawler.GetProjects 0;
                 Crawler.try := 1; Crawler.via := Crawler.BackoffTimer |}
              eq_refl ltac:(simpl; lia))
    as (j & s' & Hj & Hs' & _ & _ & Hb).
  exists j, s'. split; [exact Hj|]. split; [exact Hs'|exact (Hb Hp)].
Defined.

(** X13. In every run, however its callbacks are scheduled and whatever the
    server answers, every call the export makes into the filesystem is
    one of these: it makes the output directory; for a project the server
    listed, it makes [<outputDir><identifier>]; for a page the server
    returned for that project, it makes
    [<outputDir><identifier>/attachments] and writes the text of the page
    to [<outputDir><identifier>/<title>.md], under the title the server
    returned; for an attachment of such a page, it writes the body the
    server returned for the id of the attachment to
    [<outputDir><identifier>/attachments/<filename>]; it writes
    identifiers and names of listed projects to the sidecar file in the
    output directory.  It makes and writes nothing else.  (Without an
    [outputDir] in the configuration the paths start with the text
    [undefined].) *)
Theorem crawler_file_layout (server : Crawler.request -> nat -> nat * Http.outcome)
    (outputDir : option string) (t0 : Z) (schedule : list Crawler.choice) :
  let w := Crawler.play server outputDir (Crawler.start outputDir t0) schedule in
  Forall (Kept.placed server outputDir (Crawler.wire w)) (Crawler.disk w).
Proof.
  intros w. apply (Kept.kept_disk server outputDir False w).
  apply KeptFacts.kept_run. contradiction.
Qed.

(** ** The URL as a pattern, and the output directory *)

Module EscapeFacts.
Import RegexEscape.

Lemma backslash_special c : Ascii.eqb c "092" = true -> special c = true.
Proof. intros H. apply Ascii.eqb_eq in H. subst c. reflexivity. Qed.
End EscapeFacts.

(** X16. Escaped as fix-links.js escapes it, the URL of the server is a
    pattern that stands for the URL itself, character by character: a dot
    of the host name matches a dot only, and nothing of the URL is taken
    for an operator. *)
Theorem escapedUrl_is_literal (redmineUrl : string) :
  RegexEscape.literal false (RegexEscape.escapedUrl redmineUrl) = Some redmineUrl.
Proof.
  unfold RegexEscape.escapedUrl.
  induction redmineUrl as [|c s IH]; [reflexivity|].
  cbn [RegexEscape.escape]. destruct (RegexEscape.special c) eqn:Hc.
  - cbn [RegexEscape.literal]. rewrite Ascii.eqb_refl, Hc, IH. reflexivity.
  - cbn [RegexEscape.literal]. rewrite Hc.
    destruct (Ascii.eqb c "092") eqn:Hb.
    + rewrite (EscapeFacts.backslash_special _ Hb) in Hc. discriminate Hc.
    + rewrite IH. reflexivity.
Qed.

(** A configured output directory that is not empty is used with a slash
    at its end, added when the configuration has none: the directory and
    the identifier of a project never run together in a path. *)
Theorem outputDir_ends_with_slash (c : Crawler.config) (d : string) :
  Crawler.config_outputDir c = Some d -> d <> ""%string ->
  exists base,
    Crawler.outputDir_of c = Some (base +:+ "/") /\
    (d = base \/ d = base +:+ "/").
Proof.
  intros Hc Hd. unfold Crawler.outputDir_of. rewrite Hc.
  assert (He : String.eqb d "" = false) by (apply String.eqb_neq, Hd).
  rewrite He. simpl. unfold Crawler.ends_with_slash.
  destruct (String.rev d) as [|x r] eqn:Hr.
  - exists d. split; [reflexivity|left; reflexivity].
  - pose proof (BaseUrlFacts.rev_cons _ _ _ Hr) as Hx.
    destruct (Ascii.eqb x "/") eqn:Hs.
    + apply Ascii.eqb_eq in Hs. subst x. simpl.
      exists (String.rev r). split; [f_equal; exact Hx|right; exact Hx].
    + assert (Hm : match x with "/"%char => true | _ => false end = false).
      { clear -Hs. CodecFacts.each_byte x; try reflexivity. discriminate Hs. }
      rewrite Hm. simpl. exists d. split; [reflexivity|left; reflexivity].
Qed.

Lemma outputDir_ends_with_slash_witness :
  Crawler.outputDir_of Scenario.to_export = Some "export/"%string /\
  exists base,
    Crawler.outputDir_of Scenario.to_export = Some (base +:+ "/") /\
    ("export"%string = base \/ "export"%string = base +:+ "/").
Proof.
  split; [reflexivity|].
  apply (outputDir_ends_with_slash Scenario.to_export "export"); [reflexivity|discriminate].
Defined.

(** ** Crawler: the throttled requests leave in the order of the calls of
    enqueue *)

Module FifoFacts.
Import Http Crawler Fifo.

Section Run.
Variable server : request -> nat -> nat * outcome.
Variable outputDir : option string.

Lemma in_order_calm f w : calm f -> in_order w -> in_order (f w).
Proof.
  intros Hf Hw. destruct (Hf w) as (E1 & E2 & E3).
  unfold in_order, lane_requests. rewrite E1, E2, E3. exact Hw.
Qed.

Lemma calm_compose f g : calm f -> calm g -> calm (fun w => f (g w)).
Proof.
  intros Hf Hg w. destruct (Hf (g w)) as (E1 & E2 & E3).
  destruct (Hg w) as (F1 & F2 & F3).
  rewrite E1, E2, E3, F1, F2, F3. auto.
Qed.

Lemma calm_id : calm (fun w => w).
Proof. intros w. auto. Qed.

Lemma calm_foldl {A} (f : world -> A -> world) l :
  (forall a, calm (fun w => f w a)) -> calm (fun w => foldl f w l).
Proof.
  intros Hf. induction l as [|a l IH]; simpl; [apply calm_id|].
  intros w. destruct (IH (f w a)) as (E1 & E2 & E3).
  destruct (Hf a w) as (F1 & F2 & F3).
  rewrite E1, E2, E3, F1, F2, F3. auto.
Qed.

Lemma calm_log l : calm (log l).
Proof. intros w. auto. Qed.
Lemma calm_fs op : calm (fs op).
Proof. intros w. auto. Qed.
Lemma calm_set_listing p acc : calm (set_listing p acc).
Proof. intros w. auto. Qed.
Lemma calm_set_now t : calm (set_now t).
Proof. intros w. auto. Qed.
Lemma calm_set_inflight fl : calm (set_inflight fl).
Proof. intros w. auto. Qed.
Lemma calm_set_timers ts : calm (set_timers ts).
Proof. intros w. auto. Qed.
Lemma calm_setTimeout cb d : calm (setTimeout cb d).
Proof. intros w. auto. Qed.
Lemma calm_initDirectory d : calm (initDirectory d).
Proof. intros w. unfold initDirectory. destruct (String.eqb d ""); auto. Qed.

Lemma lane_sent_request from p w :
  lane_sent (request_ server from p w)
  = lane_sent w ++
    List.filter from_lane
      [{| instant := now w; what := req p; try := attempt p; via := from |}].
Proof.
  unfold request_, lane_sent. destruct (server _ _) as [lat o]. simpl.
  apply List.filter_app.
Qed.

Lemma calm_request from p :
  from <> ThrottleLane -> calm (request_ server from p).
Proof.
  intros Hfrom w. split; [|split].
  - unfold request_. destruct (server _ _). reflexivity.
  - unfold request_. destruct (server _ _). reflexivity.
  - rewrite lane_sent_request. destruct from; try contradiction; apply app_nil_r.
Qed.

Lemma calm_getWikiPage project pageName :
  calm (fun w => getWikiPage server project w pageName).
Proof.
  unfold getWikiPage, retryRequest.
  apply (calm_compose (request_ server Direct _) (log _));
    [apply calm_request; discriminate|apply calm_log].
Qed.

Lemma calm_getAttachment dir a :
  calm (fun w => getAttachment server dir w a).
Proof.
  unfold getAttachment. destruct (has_id a); [|apply calm_id].
  apply calm_request. discriminate.
Qed.

Lemma calm_backupWikiPage project p :
  calm (backupWikiPage server outputDir project p).
Proof.
  unfold backupWikiPage.
  set (dir := plus outputDir (identifier project)).
  assert (H1 : calm (fun w => fs (WriteFile (dir +:+ "/" +:+ title p +:+ ".md")
                                    (Text (text p))) (initDirectory dir w)))
    by (apply (calm_compose (fs _) (initDirectory _));
          [apply calm_fs|apply calm_initDirectory]).
  destruct (attachments p) as [atts|]; [|exact H1].
  apply (calm_compose (fun w => foldl (getAttachment server _) w atts)
           (fun w => initDirectory _ (fs _ (initDirectory dir w)))).
  - apply calm_foldl. intros a. apply calm_getAttachment.
  - apply (calm_compose (initDirectory _)); [apply calm_initDirectory|exact H1].
Qed.

Lemma calm_on_wiki_pages project pages :
  calm (on_wiki_pages server project pages).
Proof.
  unfold on_wiki_pages. destruct pages as [pages|]; [|apply calm_log].
  destruct (_ <? _)%nat; [|apply calm_id].
  apply (calm_compose (fun w => foldl (getWikiPage server project) w pages) (log _));
    [|apply calm_log].
  apply calm_foldl. intros a. apply calm_getWikiPage.
Qed.

Lemma calm_log_body b : calm (log_body b).
Proof.
  unfold log_body. destruct b as [b|]; [|apply calm_id].
  destruct (truthy _); [apply calm_log|apply calm_id].
Qed.

(** [enqueue] puts the task at the end of the queue. *)
Lemma in_order_throttle_enqueue j w : in_order w -> in_order (throttle_enqueue j w).
Proof.
  unfold in_order, lane_requests, lane_sent. intros Hw.
  unfold throttle_enqueue, Throttle.enqueue, Throttle.process. simpl.
  destruct (Throttle.active (throttle w) || _); simpl;
    rewrite !fmap_app, app_assoc, Hw; reflexivity.
Qed.

Lemma in_order_getProjectListPage p w :
  in_order w -> in_order (getProjectListPage p w).
Proof.
  intros Hw. apply in_order_throttle_enqueue, (in_order_calm _ _ (calm_log _)), Hw.
Qed.

Lemma in_order_getWikiPages ps : forall w,
  in_order w -> in_order (foldl getWikiPages w ps).
Proof.
  induction ps as [|p ps IH]; intros w Hw; simpl; [exact Hw|].
  apply IH, in_order_throttle_enqueue, Hw.
Qed.

Lemma in_order_on_projects ps w : in_order w -> in_order (on_projects outputDir ps w).
Proof.
  intros Hw. unfold on_projects.
  apply in_order_getWikiPages, (in_order_calm _ _ (calm_log _)),
    (in_order_calm _ _ (calm_fs _)), (in_order_calm _ _ (calm_log _)), Hw.
Qed.

Lemma in_order_next l w : in_order w -> in_order (next outputDir l w).
Proof.
  intros Hw. unfold next. destruct (_ =? _)%nat.
  - apply in_order_getProjectListPage, (in_order_calm _ _ (calm_set_listing _ _)), Hw.
  - apply in_order_on_projects, (in_order_calm _ _ (calm_set_listing _ _)), Hw.
Qed.

Lemma in_order_checked o k w :
  (forall b w, in_order w -> in_order (k b w)) ->
  in_order w -> in_order (checked o k w).
Proof.
  intros Hk Hw. unfold checked.
  destruct (err o); [apply (in_order_calm _ _ (calm_log _)), Hw|].
  repeat case_bool_decide.
  - apply (in_order_calm _ _ (calm_log_body _)), (in_order_calm _ _ (calm_log _)), Hw.
  - apply (in_order_calm _ _ (calm_log_body _)), (in_order_calm _ _ (calm_log _)), Hw.
  - destruct (content o) as [b|]; [|apply (in_order_calm _ _ (calm_log _)), Hw].
    destruct (truthy _); [apply Hk, Hw|apply (in_order_calm _ _ (calm_log _)), Hw].
Qed.

Lemma in_order_resume k o w :
  in_order w -> in_order (resume server outputDir k o w).
Proof.
  intros Hw. destruct k as [|project|project pageName|dir a]; simpl.
  - apply in_order_checked; [|exact Hw]. intros b w' Hw'.
    destruct (json b).
    + apply in_order_next, Hw'.
    + apply in_order_next, (in_order_calm _ _ (calm_log _)),
        (in_order_calm _ _ (calm_log _)), Hw'.
  - apply in_order_checked; [|exact Hw]. intros b w' Hw'.
    destruct (json b).
    + apply (in_order_calm _ _ (calm_on_wiki_pages _ _)), Hw'.
    + apply (in_order_calm _ _ (calm_log _)), Hw'.
  - destruct (err o); [apply (in_order_calm _ _ (calm_log _)), Hw|].
    destruct (content o) as [b|]; [|exact Hw].
    WireFacts.case_if; [|exact Hw].
    destruct (json b) as [d|]; [|apply (in_order_calm _ _ (calm_log _)), Hw].
    destruct (wiki_page d); [|exact Hw].
    apply (in_order_calm _ _ (calm_backupWikiPage _ _)), Hw.
  - destruct (err o); [apply (in_order_calm _ _ (calm_log _)), Hw|].
    destruct (content o) as [b|]; [|exact Hw].
    WireFacts.case_if; [|exact Hw]. apply (in_order_calm _ _ (calm_fs _)), Hw.
Qed.

Lemma in_order_on_response p o w :
  in_order w -> in_order (on_response server outputDir p o w).
Proof.
  intros Hw. unfold on_response. destruct (Retry.decide _ _ _ _).
  - apply (in_order_calm _ _ (calm_setTimeout _ _)), (in_order_calm _ _ (calm_log _)), Hw.
  - apply in_order_resume, Hw.
Qed.

(** A task that starts sends its request from the throttle. *)
Lemma run_job_sends j w :
  throttle (run_job server j w) = throttle w /\
  enqueued (run_job server j w) = enqueued w /\
  lane_sent (run_job server j w)
  = lane_sent w ++ [{| instant := now w; what := job_request j; try := 0;
                       via := ThrottleLane |}].
Proof.
  destruct j; simpl; unfold retryRequest; rewrite lane_sent_request;
    unfold request_; simpl; destruct (server _ _); auto.
Qed.

Lemma in_order_throttle_tick w : in_order w -> in_order (throttle_tick server w).
Proof.
  unfold in_order, lane_requests. intros Hw. unfold throttle_tick, Throttle.shift.
  destruct (Throttle.queue (throttle w)) as [|fn rest] eqn:Hq.
  - simpl. rewrite <- Hw. reflexivity.
  - set (w1 := set_throttle _ w).
    destruct (run_job_sends fn w1) as (E1 & E2 & E3).
    assert (L1 : forall th x, lane_sent (set_throttle th x) = lane_sent x)
      by reflexivity.
    assert (L2 : forall cb d x, lane_sent (setTimeout cb d x) = lane_sent x)
      by reflexivity.
    unfold Throttle.release, Throttle.process. rewrite E1. simpl.
    destruct (length rest =? 0)%nat; simpl; rewrite ?L2, ?L1, ?E2, E3;
      change (lane_sent w1) with (lane_sent w);
      rewrite fmap_app, <- app_assoc; exact Hw.
Qed.

Lemma in_order_timer_at i t moment w :
  in_order w -> in_order (timer_at server i t moment w).
Proof.
  intros Hw. unfold timer_at.
  assert (Hw' : in_order (set_timers (delete i (timers w)) (set_now moment w))).
  { apply (in_order_calm _ _ (calm_set_timers _)), (in_order_calm _ _ (calm_set_now _)), Hw. }
  destruct t as [due [|p]]; simpl.
  - apply in_order_throttle_tick, Hw'.
  - apply (in_order_calm (request_ server BackoffTimer p)); [|exact Hw'].
    apply calm_request. discriminate.
Qed.

Lemma in_order_reply_at i r moment w :
  in_order w -> in_order (reply_at server outputDir i r moment w).
Proof.
  intros Hw. unfold reply_at. apply in_order_on_response.
  apply (in_order_calm _ _ (calm_set_inflight _)), (in_order_calm _ _ (calm_set_now _)), Hw.
Qed.

Lemma in_order_act c w : in_order w -> in_order (act server outputDir w c).
Proof.
  intros Hw. destruct c as [i moment|i moment]; simpl.
  - destruct (timers w !! i) as [t|]; [|exact Hw].
    destruct (_ <=? _); [|exact Hw]. apply in_order_timer_at, Hw.
  - destruct (inflight w !! i) as [r|]; [|exact Hw].
    destruct (_ <=? _); [|exact Hw]. apply in_order_reply_at, Hw.
Qed.

Lemma in_order_play schedule : forall w,
  in_order w -> in_order (play server outputDir w schedule).
Proof.
  induction schedule as [|c cs IH]; intros w Hw; simpl; [exact Hw|].
  apply IH, in_order_act, Hw.
Qed.

Lemma in_order_start t0 : in_order (start outputDir t0).
Proof.
  unfold start, getProjects. apply in_order_getProjectListPage.
  apply (in_order_calm _ _ (calm_set_listing _ _)),
    (in_order_calm _ _ (calm_initDirectory _)).
  reflexivity.
Qed.
End Run.
End FifoFacts.

(** X11. In every run, however its callbacks are scheduled, the requests that
    leave from the throttle are the requests of the tasks given to
    [throttle.enqueue], in the order of the calls, and the tasks still
    queued are the rest, in this order: listing pages and wiki indexes are
    asked for in the order the program decided to ask for them, none is
    skipped and none is sent twice from the throttle. *)
Theorem crawler_lane_is_fifo (server : Crawler.request -> nat -> nat * Http.outcome)
    (outputDir : option string) (t0 : Z) (schedule : list Crawler.choice) :
  let w := Crawler.play server outputDir (Crawler.start outputDir t0) schedule in
  Fifo.lane_requests w
    ++ (Fifo.job_request <$> Throttle.queue (Crawler.throttle w))
  = Fifo.job_request <$> Crawler.enqueued w.
Proof.
  intros w. apply FifoFacts.in_order_play, FifoFacts.in_order_start.
Qed.

(** ** The sidecar file: written by main.js, read by create-indexes.js *)

Module JsonFacts.
Import Json Exporter StringFacts.
Local Open Scope char_scope.

Lemma lit c s x : String c s +:+ x = String c (s +:+ x).
Proof. reflexivity. Qed.

Lemma nil x : "" +:+ x = x.
Proof. reflexivity. Qed.

(** Inside a string, the reader takes what [JSON.stringify] wrote for a
    character as that character. *)
Lemma lex_char c acc tail :
  lex (Inside acc) (json_char c +:+ tail) = lex (Inside (c :: acc)) tail.
Proof. CodecFacts.each_byte c; reflexivity. Qed.

Lemma lex_chars s : forall acc tail,
  lex (Inside acc) (json_chars s +:+ tail)
  = lex (Inside (rev (list_ascii_of_string s) ++ acc)) tail.
Proof.
  induction s as [|c s IH]; intros acc tail; [reflexivity|].
  cbn [json_chars list_ascii_of_string rev].
  rewrite append_assoc, lex_char, IH, <- app_assoc. reflexivity.
Qed.

Lemma lex_json_string s tail :
  lex Outside (json_string s +:+ tail) = cons (Str s) <$> lex Outside tail.
Proof.
  unfold json_string, quote. rewrite !append_assoc, !lit, !nil.
  change (lex Outside (String "034" (json_chars s +:+ String "034" tail)))
    with (lex (Inside []) (json_chars s +:+ String "034" tail)).
  rewrite lex_chars, app_nil_r.
  change (lex (Inside (rev (list_ascii_of_string s))) (String "034" tail))
    with (cons (Str (string_of_list_ascii (rev (rev (list_ascii_of_string s)))))
            <$> lex Outside tail).
  rewrite rev_involutive, string_of_list_ascii_of_string. reflexivity.
Qed.

Lemma lex_space c rest :
  is_space c = true -> lex Outside (String c rest) = lex Outside rest.
Proof. intros H. cbn [lex]. rewrite H. reflexivity. Qed.

Lemma lex_punct c rest :
  is_space c = false -> Ascii.eqb c "034" = false -> is_punct c = true ->
  lex Outside (String c rest) = cons (Punct c) <$> lex Outside rest.
Proof. intros H1 H2 H3. cbn [lex]. rewrite H1, H2, H3. reflexivity. Qed.

Ltac step :=
  first [ rewrite lex_space by reflexivity
        | rewrite lex_punct by reflexivity
        | rewrite lex_json_string ].

Lemma lex_project p tail :
  lex Outside (json_project p +:+ tail)
  = object_tokens p <$> lex Outside tail.
Proof.
  unfold json_project, IndexBuilder.nl.
  rewrite !append_assoc, !lit, !nil.
  repeat (step; rewrite ?lit, ?nil).
  destruct (lex Outside tail); reflexivity.
Qed.

Lemma lex_projects l : l <> [] ->
  lex Outside (json_projects l +:+ "]") = Some (array_tokens l).
Proof.
  induction l as [|p [|q l] IH]; intros Hl; [contradiction Hl; reflexivity| |].
  - cbn [json_projects array_tokens]. unfold IndexBuilder.nl.
    rewrite !append_assoc, lex_project, !lit, !nil.
    repeat (step; rewrite ?lit, ?nil). reflexivity.
  - change (json_projects (p :: q :: l))
      with (json_project p +:+ "," +:+ IndexBuilder.nl +:+ json_projects (q :: l)).
    change (array_tokens (p :: q :: l))
      with (object_tokens p (Punct "," :: array_tokens (q :: l))).
    unfold IndexBuilder.nl.
    rewrite !append_assoc, lex_project, !lit, !nil.
    repeat (step; rewrite ?lit, ?nil).
    rewrite IH by discriminate. reflexivity.
Qed.

Lemma elements_array l : l <> [] -> elements (array_tokens l) = Some l.
Proof.
  induction l as [|[id name] [|q l] IH]; intros Hl; [contradiction Hl; reflexivity| |].
  - reflexivity.
  - change (array_tokens ((id, name) :: q :: l))
      with (object_tokens (id, name) (Punct "," :: array_tokens (q :: l))).
    unfold object_tokens at 1. cbn [elements fst snd].
    change (punct "{" (Punct "{") && String.eqb "identifier" "identifier" &&
            punct ":" (Punct ":") && punct "," (Punct ",") &&
            String.eqb "name" "name" && punct ":" (Punct ":") &&
            punct "}" (Punct "}")) with true.
    cbv iota.
    destruct (array_tokens (q :: l)) as [|t ts] eqn:Hts.
    + specialize (IH ltac:(discriminate)). discriminate IH.
    + change (punct "," (Punct ",")) with true. cbv iota.
      rewrite IH by discriminate. reflexivity.
Qed.
End JsonFacts.

(** X15. What create-indexes.js reads in the sidecar file is what main.js
    wrote: for every list of projects, parsing the text of
    [JSON.stringify(projectMetadata, null, 2)] gives back the identifiers
    and the names, in the same order, whatever characters they hold
    (quotes, backslashes, line breaks, control characters). *)
Theorem sidecar_round_trip (projectMetadata : list (string * string)) :
  Json.parse (Exporter.stringify projectMetadata) = Some projectMetadata.
Proof.
  destruct projectMetadata as [|p l]; [reflexivity|].
  unfold Json.parse, Exporter.stringify, IndexBuilder.nl.
  rewrite !JsonFacts.lit, !JsonFacts.nil.
  rewrite JsonFacts.lex_punct by reflexivity.
  rewrite JsonFacts.lex_space by reflexivity.
  rewrite JsonFacts.lex_projects by discriminate.
  cbn [fmap option_fmap option_map].
  pose proof (JsonFacts.elements_array (p :: l) ltac:(discriminate)) as He.
  destruct l as [|q l]; cbn [Json.array_tokens] in *; unfold Json.object_tokens in *;
    exact He.
Qed.

(** ** LinkRewriter: one absolute link to a wiki page in a text *)

Module WikiUrlFacts.
Import Text LinkRewriter StringFacts LinkFacts.
Local Open Scope char_scope.

Section WithUrl.
Variable redmineUrl : string.

Lemma strip_prefix p : forall s, strip p (p +:+ s) = Some s.
Proof.
  induction p as [|c p IH]; intros s; [reflexivity|].
  rewrite cons_append. cbn [strip]. rewrite Ascii.eqb_refl. apply IH.
Qed.

Lemma strip_other p c s : c <> "]" -> strip (String "]" p) (String c s) = None.
Proof.
  intros Hc. cbn [strip].
  assert (E : Ascii.eqb "]" c = false) by (apply Ascii.eqb_neq; congruence).
  rewrite E. reflexivity.
Qed.

Lemma wiki_url_tail_other c s :
  c <> "]" -> wiki_url_tail redmineUrl (String c s) = None.
Proof.
  intros Hc. unfold wiki_url_tail.
  change (absolute_wiki_target redmineUrl)
    with (String "]" ("(" +:+ redmineUrl +:+ "/projects/")).
  rewrite (strip_other _ _ _ Hc). reflexivity.
Qed.

(** A text without line terminator has none when a closing bracket
    follows it. *)
Lemma line_terminator_before_bracket c text rest :
  one_line (String c text) = true ->
  line_terminator (String c (text +:+ String "]" rest)) = false.
Proof.
  cbn [one_line]. intros H. apply andb_true_iff in H as [H _].
  apply negb_true_iff in H. revert H.
  destruct text as [|c1 [|c2 text]]; cbn [line_terminator];
    change ("" +:+ String "]" rest)%string with (String "]" rest);
    rewrite ?cons_append; intros H.
  - rewrite orb_false_r in H. rewrite H. simpl.
    destruct rest; [reflexivity|]. rewrite andb_false_r. reflexivity.
  - rewrite orb_false_r in H. rewrite H.
    change ("" +:+ String "]" rest)%string with (String "]" rest).
    simpl. rewrite andb_false_r. reflexivity.
  - exact H.
Qed.

(** The lazy [.*?] goes over a text without closing bracket and without
    line terminator, up to the place where the rest of the expression
    matches. *)
Lemma lazy_dots_over {R} (tail_ : string -> option R) text : forall tl r,
  Forall (fun c => forall s, tail_ (String c s) = None) (list_ascii_of_string text) ->
  one_line text = true ->
  (exists rest, tl = String "]" rest) ->
  tail_ tl = Some r ->
  lazy_dots tail_ (text +:+ tl) = Some (text, r).
Proof.
  intros tl r Htext Hline [rest ->]. revert Htext Hline.
  induction text as [|c text IH]; intros Htext Hline Hrest.
  - change ("" +:+ String "]" rest)%string with (String "]" rest).
    cbn [lazy_dots]. rewrite Hrest. reflexivity.
  - cbn [list_ascii_of_string] in Htext. apply Forall_cons in Htext as [Hc Htext].
    rewrite cons_append. cbn [lazy_dots].
    rewrite Hc, (line_terminator_before_bracket _ _ _ Hline).
    cbn [one_line] in Hline. apply andb_true_iff in Hline as [_ Hline].
    rewrite (IH Htext Hline Hrest). reflexivity.
Qed.

Lemma wiki_url_tail_here linkProject page post :
  linkProject <> ""%string ->
  Forall (fun c => c <> "/") (list_ascii_of_string linkProject) ->
  page <> ""%string ->
  Forall (fun c => page_char c = true) (list_ascii_of_string page) ->
  wiki_url_tail redmineUrl
    (absolute_wiki_target redmineUrl +:+ linkProject +:+ "/wiki/" +:+ page +:+ ")" +:+ post)
  = Some (linkProject, page, None, post).
Proof.
  intros HP HPc Hpage Hpc. unfold wiki_url_tail.
  rewrite strip_prefix. cbn [mbind option_bind].
  change ("/wiki/" +:+ page +:+ ")" +:+ post)%string
    with (String "/" ("wiki/" +:+ page +:+ ")" +:+ post))%string.
  rewrite span_stops.
  - destruct linkProject as [|x P]; [contradiction HP; reflexivity|].
    cbn [String.eqb]. cbv iota.
    change (strip "/wiki/" (String "/" ("wiki/" +:+ page +:+ ")" +:+ post)))
      with (Some (page +:+ String ")" post)).
    cbn [mbind option_bind]. rewrite span_stops.
    + destruct page as [|y page']; [contradiction Hpage; reflexivity|]. reflexivity.
    + exact Hpc.
    + reflexivity.
  - eapply Forall_impl; [exact HPc|]. intros c Hc. unfold is_not.
    apply negb_true_iff, Ascii.eqb_neq, Hc.
  - reflexivity.
Qed.
End WithUrl.
End WikiUrlFacts.

(** X18. A link [[text](URL/projects/P/wiki/Page)] to a page of the server,
    whose text holds no closing bracket and no line terminator (line
    feed, carriage return, U+2028, U+2029), after a text
    without opening bracket: the target becomes [Page.md] when [P] is the
    project of the file and [../P/Page.md] otherwise; the text before the
    link is kept and the text after it is rewritten in the same way. *)
Theorem category2_rewrites_link (redmineUrl currentProject : string)
    (pre text linkProject page post : string) :
  Forall (fun c => c <> "["%char) (list_ascii_of_string pre) ->
  Forall (fun c => c <> "]"%char) (list_ascii_of_string text) ->
  Text.one_line text = true ->
  linkProject <> ""%string ->
  Forall (fun c => c <> "/"%char) (list_ascii_of_string linkProject) ->
  page <> ""%string ->
  Forall (fun c => c <> ")"%char /\ c <> "#"%char /\ c <> "?"%char)
    (list_ascii_of_string page) ->
  LinkRewriter.category2 redmineUrl currentProject
    (pre +:+ "[" +:+ text +:+ "](" +:+ redmineUrl +:+ "/projects/" +:+
     linkProject +:+ "/wiki/" +:+ page +:+ ")" +:+ post)
  = pre +:+ "[" +:+ text +:+ "](" +:+
    (if String.eqb linkProject currentProject then page +:+ ".md"
     else "../" +:+ linkProject +:+ "/" +:+ page +:+ ".md") +:+ ")" +:+
    LinkRewriter.category2 redmineUrl currentProject post.
Proof.
  intros Hpre Htext Hline HP HPc Hpage Hpc.
  set (mid := (text +:+ LinkRewriter.absolute_wiki_target redmineUrl +:+ linkProject +:+
               "/wiki/" +:+ page +:+ ")")%string).
  assert (Hs : ("[" +:+ text +:+ "](" +:+ redmineUrl +:+ "/projects/" +:+
                linkProject +:+ "/wiki/" +:+ page +:+ ")" +:+ post)%string
               = String "["%char (mid +:+ post)).
  { unfold mid, LinkRewriter.absolute_wiki_target.
    rewrite !StringFacts.append_assoc. reflexivity. }
  rewrite Hs. clear Hs.
  assert (Hm : LinkRewriter.wiki_url redmineUrl (String "["%char (mid +:+ post))
               = Some (S (String.length mid),
                       {| LinkRewriter.text := "[" +:+ text +:+ "]";
                          LinkRewriter.linkProject := linkProject;
                          LinkRewriter.page := page;
                          LinkRewriter.anchor := None |})).
  { unfold LinkRewriter.wiki_url.
    assert (Hsplit : (mid +:+ post)%string
                     = (text +:+ LinkRewriter.absolute_wiki_target redmineUrl +:+
                        linkProject +:+ "/wiki/" +:+ page +:+ ")" +:+ post)%string)
      by (unfold mid; rewrite !StringFacts.append_assoc; reflexivity).
    rewrite Hsplit at 1.
    rewrite (WikiUrlFacts.lazy_dots_over (LinkRewriter.wiki_url_tail redmineUrl) text _
               (linkProject, page, None, post)).
    - f_equal. f_equal. unfold LinkRewriter.consumed. cbn [String.length].
      rewrite BaseUrlFacts.length_append. lia.
    - eapply Forall_impl; [exact Htext|]. intros c Hc s.
      apply WikiUrlFacts.wiki_url_tail_other, Hc.
    - exact Hline.
    - eexists. unfold LinkRewriter.absolute_wiki_target.
      rewrite !LinkFacts.cons_append. reflexivity.
    - apply WikiUrlFacts.wiki_url_tail_here; try assumption.
      eapply Forall_impl; [exact Hpc|]. intros c (H1 & H2 & H3).
      unfold LinkRewriter.page_char. apply negb_true_iff.
      rewrite !orb_false_iff. repeat split; apply Ascii.eqb_neq; assumption. }
  unfold LinkRewriter.category2.
  assert (Hprefix : forall s,
    Text.render (LinkRewriter.wiki_url_link currentProject)
      (Text.scan (LinkRewriter.wiki_url redmineUrl) 0 (pre +:+ s))
    = pre +:+ Text.render (LinkRewriter.wiki_url_link currentProject)
                (Text.scan (LinkRewriter.wiki_url redmineUrl) 0 s)).
  { clear -Hpre. induction pre as [|c pre IH]; intros s; [reflexivity|].
    cbn [list_ascii_of_string] in Hpre. apply Forall_cons in Hpre as [Hc Hpre].
    rewrite !LinkFacts.cons_append. cbn [Text.scan].
    assert (Hno : LinkRewriter.wiki_url redmineUrl (String c (pre +:+ s)) = None).
    { unfold LinkRewriter.wiki_url. clear -Hc.
      CodecFacts.each_byte c; try reflexivity. contradiction Hc. reflexivity. }
    rewrite Hno. cbn [Text.render]. rewrite (IH Hpre). reflexivity. }
  rewrite Hprefix. f_equal.
  cbn [Text.scan]. rewrite Hm. cbn [Text.render].
  replace (S (String.length mid) - 1)%nat with (String.length mid) by lia.
  rewrite LinkFacts.scan_skip.
  unfold LinkRewriter.wiki_url_link. cbn [LinkRewriter.text LinkRewriter.linkProject
    LinkRewriter.page LinkRewriter.anchor].
  rewrite !StringFacts.append_assoc. reflexivity.
Qed.

(** A link to a page of the project of the file and a link to a page of
    another project. *)
Lemma category2_rewrites_link_witness :
  LinkRewriter.category2 "http://srv" "demo"
    ("See " +:+ "[" +:+ "the guide" +:+ "](" +:+ "http://srv" +:+ "/projects/" +:+
     "demo" +:+ "/wiki/" +:+ "Guide" +:+ ")" +:+
     " and [ops](http://srv/projects/infra/wiki/Run_book).")
  = ("See " +:+ "[" +:+ "the guide" +:+ "](" +:+ "Guide.md" +:+ ")" +:+
     LinkRewriter.category2 "http://srv" "demo"
       " and [ops](http://srv/projects/infra/wiki/Run_book).")%string /\
  LinkRewriter.category2 "http://srv" "demo"
    "See [the guide](http://srv/projects/demo/wiki/Guide) and [ops](http://srv/projects/infra/wiki/Run_book)."
  = "See [the guide](Guide.md) and [ops](../infra/Run_book.md)."%string.
Proof.
  split; [|reflexivity].
  apply (category2_rewrites_link "http://srv" "demo" "See " "the guide" "demo" "Guide"
           " and [ops](http://srv/projects/infra/wiki/Run_book).");
    try discriminate; repeat constructor; discriminate.
Defined.

(** ** LinkRewriter: one image of an attachment in a text *)

Module ImageFacts.
Import Text LinkRewriter StringFacts LinkFacts.
Local Open Scope char_scope.

Section WithUrl.
Variable redmineUrl : string.

Lemma attachment_url_tail_other c s :
  c <> "]" -> attachment_url_tail redmineUrl (String c s) = None.
Proof.
  intros Hc. unfold attachment_url_tail.
  change ("](" +:+ redmineUrl +:+ "/attachments/")%string
    with (String "]" ("(" +:+ redmineUrl +:+ "/attachments/")).
  rewrite (WikiUrlFacts.strip_other _ _ _ Hc). reflexivity.
Qed.

(** A number does not start like [download/]. *)
Lemma strip_download_digit c s :
  is_digit c = true -> strip "download/" (String c s) = None.
Proof.
  intros Hc. cbn [strip].
  assert (E : Ascii.eqb "d" c = false).
  { apply Ascii.eqb_neq. intros <-. discriminate Hc. }
  rewrite E. reflexivity.
Qed.

Lemma attachment_url_tail_here (download : bool) id filename post :
  id <> ""%string ->
  Forall (fun c => is_digit c = true) (list_ascii_of_string id) ->
  filename <> ""%string ->
  Forall (fun c => c <> ")") (list_ascii_of_string filename) ->
  attachment_url_tail redmineUrl
    (("](" +:+ redmineUrl +:+ "/attachments/") +:+
     (if download then "download/" else "") +:+ id +:+ "/" +:+ filename +:+ ")" +:+ post)
  = Some (id, filename, post).
Proof.
  intros Hid Hdigits Hname Hchars. unfold attachment_url_tail.
  rewrite WikiUrlFacts.strip_prefix. cbn [mbind option_bind].
  assert (Hinfix :
    match strip "download/" ((if download then "download/" else "") +:+ id +:+ "/" +:+
                             filename +:+ ")" +:+ post) with
    | Some s => s
    | None => ((if download then "download/" else "") +:+ id +:+ "/" +:+
               filename +:+ ")" +:+ post)%string
    end = (id +:+ String "/" (filename +:+ String ")" post))%string).
  { destruct download.
    - rewrite WikiUrlFacts.strip_prefix. reflexivity.
    - change ("" +:+ id +:+ "/" +:+ filename +:+ ")" +:+ post)%string
        with (id +:+ String "/" (filename +:+ String ")" post))%string.
      destruct id as [|c id']; [contradiction Hid; reflexivity|].
      cbn [list_ascii_of_string] in Hdigits. apply Forall_cons in Hdigits as [Hc _].
      rewrite cons_append, (strip_download_digit _ _ Hc). reflexivity. }
  rewrite Hinfix. rewrite span_stops; [|exact Hdigits|reflexivity].
  destruct id as [|c id']; [contradiction Hid; reflexivity|].
  cbn [String.eqb]. cbv iota.
  change (strip "/" (String "/" (filename +:+ String ")" post)))
    with (Some (filename +:+ String ")" post)).
  cbn [mbind option_bind]. rewrite span_stops.
  - destruct filename as [|y f]; [contradiction Hname; reflexivity|]. reflexivity.
  - eapply Forall_impl; [exact Hchars|]. intros x Hx. unfold is_not.
    apply negb_true_iff, Ascii.eqb_neq, Hx.
  - reflexivity.
Qed.

Lemma attachment_url_not_here c s :
  c <> "!" -> attachment_url redmineUrl (String c s) = None.
Proof.
  intros Hc. unfold attachment_url. cbn [strip].
  assert (E : Ascii.eqb "!" c = false) by (apply Ascii.eqb_neq; congruence).
  rewrite E. reflexivity.
Qed.

Lemma render_with_prefix f pre : forall s,
  Forall (fun c => c <> "!") (list_ascii_of_string pre) ->
  render_with f (scan (attachment_url redmineUrl) 0 (pre +:+ s))
  = '(r, ws) ← render_with f (scan (attachment_url redmineUrl) 0 s); Some (pre +:+ r, ws).
Proof.
  induction pre as [|c pre IH]; intros s Hpre.
  - change ("" +:+ s)%string with s.
    destruct (render_with f _) as [[r ws]|]; reflexivity.
  - cbn [list_ascii_of_string] in Hpre. apply Forall_cons in Hpre as [Hc Hpre].
    rewrite cons_append. cbn [scan]. rewrite (attachment_url_not_here _ _ Hc).
    cbn [render_with]. rewrite (IH _ Hpre).
    destruct (render_with f _) as [[r ws]|]; reflexivity.
Qed.
End WithUrl.
End ImageFacts.

(** X19. An image [![alt](URL/attachments/download/N/file)] or
    [![alt](URL/attachments/N/file)] whose alternative text holds no
    closing bracket and no line terminator (line feed, carriage return,
    U+2028, U+2029) and whose file, once its name is decoded, is in the
    [attachments] directory next to the page: the target becomes
    [attachments/] followed by the name encoded again; the text before
    the image (which holds no exclamation mark) is kept, the text after
    it is rewritten in the same way, and no warning is printed for this
    image. *)
Theorem category3_rewrites_image (redmineUrl : string) (root : Fs.node)
    (filePath : Fs.path) (download : bool)
    (pre alt id filename decoded post post' : string)
    (warnings : list LinkRewriter.warning) :
  Forall (fun c => c <> "!"%char) (list_ascii_of_string pre) ->
  Forall (fun c => c <> "]"%char) (list_ascii_of_string alt) ->
  Text.one_line alt = true ->
  id <> ""%string ->
  Forall (fun c => Text.is_digit c = true) (list_ascii_of_string id) ->
  filename <> ""%string ->
  Forall (fun c => c <> ")"%char) (list_ascii_of_string filename) ->
  Text.decodeURIComponent filename = Some decoded ->
  Fs.existsSync root (Fs.dirname filePath ++ ["attachments"%string]) decoded = true ->
  LinkRewriter.category3 redmineUrl root filePath post = Some (post', warnings) ->
  LinkRewriter.category3 redmineUrl root filePath
    (pre +:+ "![" +:+ alt +:+ "](" +:+ redmineUrl +:+ "/attachments/" +:+
     (if download then "download/" else "") +:+ id +:+ "/" +:+ filename +:+ ")" +:+ post)
  = Some (pre +:+ "![" +:+ alt +:+ "](attachments/" +:+
          Text.encodeURIComponent decoded +:+ ")" +:+ post', warnings).
Proof.
  intros Hpre Halt Hline Hid Hdigits Hname Hchars Hdecode Hexists Hpost.
  unfold LinkRewriter.category3 in *.
  rewrite ImageFacts.render_with_prefix by exact Hpre.
  set (mid := (alt +:+ ("](" +:+ redmineUrl +:+ "/attachments/") +:+
               (if download then "download/" else "") +:+ id +:+ "/" +:+
               filename +:+ ")")%string).
  assert (Hs : ("![" +:+ alt +:+ "](" +:+ redmineUrl +:+ "/attachments/" +:+
                (if download then "download/" else "") +:+ id +:+ "/" +:+
                filename +:+ ")" +:+ post)%string
               = String "!"%char (String "["%char (mid +:+ post))).
  { unfold mid. rewrite !StringFacts.append_assoc. reflexivity. }
  rewrite Hs. clear Hs.
  assert (Hm : exists matched,
    LinkRewriter.attachment_url redmineUrl (String "!"%char (String "["%char (mid +:+ post)))
    = Some (S (S (String.length mid)),
            {| LinkRewriter.matched := matched;
               LinkRewriter.alt := "![" +:+ alt +:+ "]";
               LinkRewriter.id := id;
               LinkRewriter.filename := filename |})).
  { eexists. unfold LinkRewriter.attachment_url.
    change (Text.strip "![" (String "!"%char (String "["%char (mid +:+ post))))
      with (Some (mid +:+ post)%string).
    cbv beta iota.
    assert (Hsplit : (mid +:+ post)%string
                     = (alt +:+ ("](" +:+ redmineUrl +:+ "/attachments/") +:+
                        (if download then "download/" else "") +:+ id +:+ "/" +:+
                        filename +:+ ")" +:+ post)%string)
      by (unfold mid; rewrite !StringFacts.append_assoc; reflexivity).
    rewrite Hsplit at 1.
    rewrite (WikiUrlFacts.lazy_dots_over (LinkRewriter.attachment_url_tail redmineUrl)
               alt _ (id, filename, post)).
    - assert (Hn : LinkRewriter.consumed (String "!"%char (String "["%char (mid +:+ post))) post
                   = S (S (String.length mid))).
      { unfold LinkRewriter.consumed. cbn [String.length].
        rewrite BaseUrlFacts.length_append. lia. }
      cbv zeta. rewrite Hn. reflexivity.
    - eapply Forall_impl; [exact Halt|]. intros c Hc s.
      apply ImageFacts.attachment_url_tail_other, Hc.
    - exact Hline.
    - eexists. rewrite !LinkFacts.cons_append. reflexivity.
    - apply ImageFacts.attachment_url_tail_here; assumption. }
  destruct Hm as [matched Hm].
  cbn [Text.scan]. rewrite Hm. cbn [LinkRewriter.render_with].
  replace (S (S (String.length mid)) - 1)%nat with (S (String.length mid)) by lia.
  cbn [Text.scan]. rewrite LinkFacts.scan_skip, Hpost.
  unfold LinkRewriter.attachment_target.
  cbn [LinkRewriter.filename LinkRewriter.alt]. rewrite Hdecode.
  cbn [mbind option_bind]. rewrite Hexists.
  cbn [mbind option_bind]. rewrite !StringFacts.append_assoc. reflexivity.
Qed.

(** The page [Home.md] of project [alpha]: [My File.png] is in its
    [attachments] directory. *)
Lemma category3_rewrites_image_witness :
  Text.decodeURIComponent "My%20File.png" = Some "My File.png"%string /\
  LinkRewriter.category3 "http://srv" Scenario.site (Scenario.alpha ++ ["Home.md"%string])
    ("" +:+ "![" +:+ "pic" +:+ "](" +:+ "http://srv" +:+ "/attachments/" +:+
     "download/" +:+ "42" +:+ "/" +:+ "My%20File.png" +:+ ")" +:+ "")
  = Some ("" +:+ "![" +:+ "pic" +:+ "](attachments/" +:+
          Text.encodeURIComponent "My File.png" +:+ ")" +:+ "", [])%string.
Proof.
  split; [reflexivity|].
  apply (category3_rewrites_image "http://srv" Scenario.site
           (Scenario.alpha ++ ["Home.md"%string]) true
           "" "pic" "42" "My%20File.png" "My File.png" "" "" []);
    try reflexivity; try discriminate; repeat constructor; discriminate.
Defined.

(** ** newRequest: the credentials *)

(** X6. A request carries credentials exactly when the configuration gives
    both a user and a password that are not empty: with one of them
    missing or empty, every request of the crawler goes out without
    [auth], whatever the other is. *)
Theorem credentials_need_both (c : Crawler.config) (q : Crawler.request)
    (user password : string) :
  Redmine.auth (Redmine.request_options (Redmine.new c) q) = Some (user, password)
  <-> Crawler.user c = Some user /\ Crawler.password c = Some password /\
      user <> ""%string /\ password <> ""%string.
Proof.
  assert (Hq : Redmine.auth (Redmine.request_options (Redmine.new c) q)
               = Redmine.auth (Redmine.newRequest (Redmine.new c) (Redmine.requestPath q)))
    by (destruct q; reflexivity).
  rewrite Hq. unfold Redmine.newRequest, Redmine.new. simpl.
  destruct (Crawler.user c) as [u|], (Crawler.password c) as [p|];
    try (split; [discriminate|intros (H1 & H2 & _); discriminate]).
  destruct (String.eqb u "") eqn:Eu, (String.eqb p "") eqn:Ep; simpl.
  - apply String.eqb_eq in Eu. split; [discriminate|]. intros ([= <-] & _ & H & _). contradiction.
  - apply String.eqb_eq in Eu. split; [discriminate|]. intros ([= <-] & _ & H & _). contradiction.
  - apply String.eqb_eq in Ep. split; [discriminate|]. intros (_ & [= <-] & _ & H). contradiction.
  - apply String.eqb_neq in Eu, Ep. split.
    + intros [= <- <-]. auto.
    + intros ([= <-] & [= <-] & _). reflexivity.
Qed.

(** ** initDirectory on the filesystem *)

Module MkdirFacts.
Import Tree TreeFacts.

Lemma mkdir_last x es :
  Exporter.mkdirSync [x] (Fs.Dir es)
  = match Fs.entry x es with
    | Some _ => Some (Fs.Dir es)
    | None => Some (Fs.Dir (Fs.set_entry x (Fs.Dir []) es))
    end.
Proof. reflexivity. Qed.

Lemma mkdir_deeper x y p es :
  Exporter.mkdirSync (x :: y :: p) (Fs.Dir es)
  = match Fs.entry x es with
    | Some child =>
        match Exporter.mkdirSync (y :: p) child with
        | Some child' => Some (Fs.Dir (Fs.set_entry x child' es))
        | None => None
        end
    | None => None
    end.
Proof. reflexivity. Qed.

(** Something of that name is there: nothing changes. *)
Lemma mkdir_existing p : forall n m,
  Fs.lookup p n = Some m -> Exporter.mkdirSync p n = Some n.
Proof.
  induction p as [|x p IH]; intros n m H; [destruct n; reflexivity|].
  destruct n as [c|es]; [discriminate H|].
  rewrite lookup_cons in H.
  destruct (Fs.entry x es) as [child|] eqn:Hx; [|discriminate H].
  destruct p as [|y p].
  - rewrite mkdir_last, Hx. reflexivity.
  - rewrite mkdir_deeper, Hx, (IH _ _ H), (set_entry_same _ _ _ Hx). reflexivity.
Qed.

(** What a successful [mkdirSync] leaves: the path names something, and
    every file is what it was. *)
Lemma mkdir_keeps p : forall n n',
  Exporter.mkdirSync p n = Some n' ->
  Fs.lookup p n' <> None /\
  forall q, Fs.readFileSync n' q = Fs.readFileSync n q.
Proof.
  induction p as [|x p IH]; intros n n' H.
  { simpl in H. injection H as <-. split; [destruct n; discriminate|reflexivity]. }
  destruct n as [c|es]; [destruct p; discriminate H|].
  destruct p as [|y p].
  - rewrite mkdir_last in H. destruct (Fs.entry x es) as [m|] eqn:Hx; injection H as <-.
    + split; [rewrite lookup_cons, Hx; destruct m; discriminate|reflexivity].
    + split; [rewrite lookup_cons, IndexFacts.entry_set_entry; discriminate|].
      intros [|z q]; [reflexivity|]. unfold Fs.readFileSync. rewrite !lookup_cons.
      destruct (String.eqb x z) eqn:E.
      * apply String.eqb_eq in E. subst z.
        rewrite IndexFacts.entry_set_entry, Hx. destruct q; reflexivity.
      * apply String.eqb_neq in E.
        rewrite IndexFacts.entry_set_entry_other by exact E. reflexivity.
  - rewrite mkdir_deeper in H. destruct (Fs.entry x es) as [child|] eqn:Hx; [|discriminate H].
    destruct (Exporter.mkdirSync (y :: p) child) as [child'|] eqn:Hc; [|discriminate H].
    injection H as <-. destruct (IH _ _ Hc) as [Hthere Hfiles].
    split; [rewrite lookup_cons, IndexFacts.entry_set_entry; exact Hthere|].
    intros [|z q]; [reflexivity|]. unfold Fs.readFileSync. rewrite !lookup_cons.
    destruct (String.eqb x z) eqn:E.
    + apply String.eqb_eq in E. subst z.
      rewrite IndexFacts.entry_set_entry, Hx. apply (Hfiles q).
    + apply String.eqb_neq in E.
      rewrite IndexFacts.entry_set_entry_other by exact E. reflexivity.
Qed.
End MkdirFacts.

(** X14. [initDirectory] never destroys anything: when something of that name
    exists the tree is left as it is (the [EEXIST] error is swallowed),
    and when the directory is made every file keeps its content.  After a
    call that does not throw the path names something, so that a second
    call changes nothing. *)
Theorem initDirectory_keeps_files (path : Fs.path) (root root' : Fs.node) :
  Exporter.mkdirSync path root = Some root' ->
  (Fs.lookup path root <> None -> root' = root) /\
  Fs.lookup path root' <> None /\
  (forall q, Fs.readFileSync root' q = Fs.readFileSync root q) /\
  Exporter.mkdirSync path root' = Some root'.
Proof.
  intros H. destruct (MkdirFacts.mkdir_keeps _ _ _ H) as [Hthere Hfiles].
  split; [|split; [exact Hthere|split; [exact Hfiles|]]].
  - intros Hex. destruct (Fs.lookup path root) as [m|] eqn:Hm; [|contradiction].
    rewrite (MkdirFacts.mkdir_existing _ _ _ Hm) in H. congruence.
  - destruct (Fs.lookup path root') as [m|] eqn:Hm; [|contradiction].
    apply (MkdirFacts.mkdir_existing _ _ _ Hm).
Qed.

(** Making [/app/export] on a machine where [/app] holds a file. *)
Lemma initDirectory_keeps_files_witness :
  let root := Fs.Dir [("app"%string, Fs.Dir [("config.json"%string, Fs.File "{}")])] in
  exists root',
    Exporter.mkdirSync ["app"; "export"]%string root = Some root' /\
    Fs.readFileSync root' ["app"; "config.json"]%string = Some "{}"%string /\
    Fs.lookup ["app"; "export"]%string root' = Some (Fs.Dir []) /\
    Exporter.mkdirSync ["app"; "export"]%string root' = Some root'.
Proof.
  intros root. eexists. split; [reflexivity|]. split; [reflexivity|].
  split; [reflexivity|].
  eapply (initDirectory_keeps_files ["app"; "export"]%string root). reflexivity.
Defined.

(** ** Crawler: one listing, one sidecar file *)

Module SingleFacts.
Import Http Crawler Single.

Section Run.
Variable server : request -> nat -> nat * outcome.
Variable outputDir : option string.

Lemma load_app {A} (f : A -> bool) l l' : load f (l ++ l') = (load f l + load f l')%nat.
Proof. unfold load. rewrite List.filter_app, length_app. reflexivity. Qed.

Lemma load_one {A} (f : A -> bool) x : load f [x] = bit (f x).
Proof. unfold load. simpl. destruct (f x); reflexivity. Qed.

Lemma load_cons {A} (f : A -> bool) x l : load f (x :: l) = (bit (f x) + load f l)%nat.
Proof. unfold load. simpl. destruct (f x); reflexivity. Qed.

Lemma load_delete {A} (f : A -> bool) l i x :
  l !! i = Some x -> (load f (delete i l) + bit (f x) = load f l)%nat.
Proof.
  revert i. induction l as [|y l IH]; intros [|i] Hl; try discriminate.
  - injection Hl as ->. unfold load. simpl. destruct (f x); simpl; lia.
  - specialize (IH i Hl). unfold load in *. simpl. destruct (f y); simpl; lia.
Qed.

Lemma apart_compose f g : apart f -> apart g -> apart (fun w => f (g w)).
Proof. intros Hf Hg w. rewrite Hf, Hg. reflexivity. Qed.

Lemma apart_id : apart (fun w => w).
Proof. intros w. reflexivity. Qed.

Lemma apart_foldl {A} (f : world -> A -> world) l :
  (forall a, apart (fun w => f w a)) -> apart (fun w => foldl f w l).
Proof.
  intros Hf. induction l as [|a l IH]; simpl; [apply apart_id|].
  intros w. rewrite IH. apply Hf.
Qed.

Lemma apart_log l : apart (log l).
Proof. intros w. reflexivity. Qed.
Lemma apart_set_listing p acc : apart (set_listing p acc).
Proof. intros w. reflexivity. Qed.
Lemma apart_set_now t : apart (set_now t).
Proof. intros w. reflexivity. Qed.

Lemma weight_fs op w :
  weight (fs op w)
  = (weight w + bit (match op with WriteFile _ (Metadata _) => true | _ => false end))%nat.
Proof.
  unfold weight, metadata_written. simpl. rewrite omap_app, length_app.
  change (listing_threads (fs op w)) with (listing_threads w).
  destruct op as [p|p [s|l|s]]; simpl; lia.
Qed.

Lemma apart_fs op :
  match op with WriteFile _ (Metadata _) => False | _ => True end -> apart (fs op).
Proof.
  intros Hop w. rewrite weight_fs.
  destruct op as [p|p [s|l|s]]; try contradiction; simpl; lia.
Qed.

Lemma apart_initDirectory d : apart (initDirectory d).
Proof.
  unfold initDirectory. destruct (String.eqb d ""); [apply apart_id|].
  apply apart_fs. exact I.
Qed.

Lemma weight_request from p w :
  weight (request_ server from p w) = (weight w + bit (listing_wait p))%nat.
Proof.
  unfold request_. destruct (server _ _) as [lat o].
  unfold weight, listing_threads, metadata_written. simpl. rewrite load_app, load_one. simpl. lia.
Qed.

Lemma weight_setTimeout cb d w :
  weight (setTimeout cb d w) = (weight w + bit (listing_timer (0%Z, cb)))%nat.
Proof.
  unfold weight, listing_threads, metadata_written. simpl. rewrite load_app, load_one.
  unfold listing_timer. simpl. lia.
Qed.

Lemma weight_throttle_enqueue j w :
  weight (throttle_enqueue j w) = (weight w + bit (listing_job j))%nat.
Proof.
  unfold throttle_enqueue, Throttle.enqueue, Throttle.process. simpl.
  destruct (Throttle.active (throttle w) || _); simpl;
    rewrite ?weight_setTimeout; unfold weight, listing_threads, metadata_written; simpl;
    rewrite load_app, load_one; simpl; lia.
Qed.

Lemma apart_getWikiPages ps : apart (fun w => foldl getWikiPages w ps).
Proof.
  apply apart_foldl. intros p w. unfold getWikiPages.
  rewrite weight_throttle_enqueue. simpl. lia.
Qed.

Lemma apart_getWikiPage project pageName :
  apart (fun w => getWikiPage server project w pageName).
Proof.
  intros w. unfold getWikiPage, retryRequest. rewrite weight_request. simpl.
  rewrite apart_log. lia.
Qed.

Lemma apart_getAttachment dir a : apart (fun w => getAttachment server dir w a).
Proof.
  intros w. unfold getAttachment. destruct (has_id a); [|reflexivity].
  unfold retryRequest. rewrite weight_request. simpl. lia.
Qed.

Lemma apart_backupWikiPage project p :
  apart (backupWikiPage server outputDir project p).
Proof.
  unfold backupWikiPage.
  set (dir := plus outputDir (identifier project)).
  assert (H1 : apart (fun w => fs (WriteFile (dir +:+ "/" +:+ title p +:+ ".md")
                                     (Text (text p))) (initDirectory dir w)))
    by (apply (apart_compose (fs _) (initDirectory _));
          [apply apart_fs; exact I|apply apart_initDirectory]).
  destruct (attachments p) as [atts|]; [|exact H1].
  apply (apart_compose (fun w => foldl (getAttachment server _) w atts)
           (fun w => initDirectory _ (fs _ (initDirectory dir w)))).
  - apply apart_foldl. intros a. apply apart_getAttachment.
  - apply (apart_compose (initDirectory _)); [apply apart_initDirectory|exact H1].
Qed.

Lemma apart_on_wiki_pages project pages : apart (on_wiki_pages server project pages).
Proof.
  unfold on_wiki_pages. destruct pages as [pages|]; [|apply apart_log].
  destruct (_ <? _)%nat; [|apply apart_id].
  apply (apart_compose (fun w => foldl (getWikiPage server project) w pages) (log _));
    [|apply apart_log].
  apply apart_foldl. intros a. apply apart_getWikiPage.
Qed.

Lemma apart_log_body b : apart (log_body b).
Proof.
  unfold log_body. destruct b as [b|]; [|apply apart_id].
  destruct (truthy _); [apply apart_log|apply apart_id].
Qed.

(** *** The steps of the listing *)

Lemma weight_getProjectListPage p w :
  weight (getProjectListPage p w) = S (weight w).
Proof.
  unfold getProjectListPage. rewrite weight_throttle_enqueue, apart_log. simpl. lia.
Qed.

Lemma weight_on_projects ps w : weight (on_projects outputDir ps w) = S (weight w).
Proof.
  unfold on_projects. rewrite (apart_getWikiPages ps), apart_log, weight_fs, apart_log.
  simpl. lia.
Qed.

Lemma weight_next l w : weight (next outputDir l w) = S (weight w).
Proof.
  unfold next. destruct (_ =? _)%nat.
  - rewrite weight_getProjectListPage, apart_set_listing. reflexivity.
  - rewrite weight_on_projects, apart_set_listing. reflexivity.
Qed.

Lemma weight_checked o k n w :
  (forall b w', weight (k b w') <= weight w' + n)%nat ->
  (weight (checked o k w) <= weight w + n)%nat.
Proof.
  intros Hk. unfold checked.
  destruct (err o); [rewrite apart_log; lia|].
  repeat case_bool_decide.
  - rewrite apart_log_body, apart_log. lia.
  - rewrite apart_log_body, apart_log. lia.
  - destruct (content o) as [b|]; [|rewrite apart_log; lia].
    destruct (truthy _); [apply Hk|rewrite apart_log; lia].
Qed.

Lemma weight_resume k o w :
  (weight (resume server outputDir k o w)
   <= weight w + bit (listing_wait {| req := GetProjects 0; attempt := 0; awaiting := k |}))%nat.
Proof.
  destruct k as [|project|project pageName|dir a]; simpl.
  - apply weight_checked. intros b w'. destruct (json b).
    + rewrite weight_next. lia.
    + rewrite weight_next, !apart_log. lia.
  - apply weight_checked. intros b w'. destruct (json b).
    + rewrite apart_on_wiki_pages. lia.
    + rewrite ?apart_on_wiki_pages, ?apart_log. lia.
  - destruct (err o); [rewrite apart_log; lia|].
    destruct (content o) as [b|]; [|lia].
    WireFacts.case_if; [|lia].
    destruct (json b) as [d|]; [|rewrite apart_log; lia].
    destruct (wiki_page d); [|lia]. rewrite apart_backupWikiPage. lia.
  - destruct (err o); [rewrite apart_log; lia|].
    destruct (content o) as [b|]; [|lia].
    WireFacts.case_if; [|lia]. rewrite apart_fs by exact I. lia.
Qed.

Lemma weight_on_response p o w :
  (weight (on_response server outputDir p o w) <= weight w + bit (listing_wait p))%nat.
Proof.
  unfold on_response. destruct (Retry.decide _ _ _ _) as [a d|o'].
  - rewrite weight_setTimeout, apart_log. unfold listing_timer, listing_wait. simpl. lia.
  - pose proof (weight_resume (awaiting p) o' w) as H.
    unfold listing_wait in *. simpl in H. exact H.
Qed.

Lemma weight_run_job j w :
  weight (run_job server j w) = (weight w + bit (listing_job j))%nat.
Proof.
  destruct j; simpl; unfold retryRequest; rewrite weight_request; reflexivity.
Qed.

Lemma weight_set_throttle th w :
  (weight (set_throttle th w) + load listing_job (Throttle.queue (throttle w))
   = weight w + load listing_job (Throttle.queue th))%nat.
Proof. unfold weight, listing_threads, metadata_written. simpl. lia. Qed.

Lemma weight_throttle_tick w : weight (throttle_tick server w) = weight w.
Proof.
  unfold throttle_tick, Throttle.shift.
  destruct (Throttle.queue (throttle w)) as [|fn rest] eqn:Hq.
  - pose proof (weight_set_throttle
                  {| Throttle.minIntervalMs := Throttle.minIntervalMs (throttle w);
                     Throttle.queue := []; Throttle.lastTime := now w;
                     Throttle.active := Throttle.active (throttle w) |} w) as H.
    rewrite Hq in H. simpl in H. lia.
  - set (th1 := {| Throttle.minIntervalMs := Throttle.minIntervalMs (throttle w);
                   Throttle.queue := rest; Throttle.lastTime := now w;
                   Throttle.active := Throttle.active (throttle w) |}).
    set (w2 := run_job server fn (set_throttle th1 w)).
    assert (Hth : throttle w2 = th1) by (unfold w2; destruct fn; simpl;
      unfold retryRequest, request_; simpl; destruct (server _ _); reflexivity).
    pose proof (weight_run_job fn (set_throttle th1 w)) as Hrun. fold w2 in Hrun.
    pose proof (weight_set_throttle th1 w) as H1. rewrite Hq in H1.
    pose proof (load_cons listing_job fn rest) as Hhead.
    change (Throttle.queue th1) with rest in H1.
    unfold Throttle.release, Throttle.process. rewrite Hth. simpl.
    destruct (length rest =? 0)%nat; simpl; rewrite ?weight_setTimeout; simpl.
    + pose proof (weight_set_throttle
                    {| Throttle.minIntervalMs := Throttle.minIntervalMs (throttle w);
                       Throttle.queue := rest; Throttle.lastTime := now w;
                       Throttle.active := false |} w2) as H2.
      rewrite Hth in H2. simpl in H2. lia.
    + pose proof (weight_set_throttle
                    {| Throttle.minIntervalMs := Throttle.minIntervalMs (throttle w);
                       Throttle.queue := rest; Throttle.lastTime := now w;
                       Throttle.active := true |} w2) as H2.
      rewrite Hth in H2. simpl in H2. lia.
Qed.

(** *** The event loop *)

Lemma weight_delete_timer i t w :
  timers w !! i = Some t ->
  (weight (set_timers (delete i (timers w)) w) + bit (listing_timer t) = weight w)%nat.
Proof.
  intros Hi. pose proof (load_delete listing_timer _ _ _ Hi) as H.
  unfold weight, listing_threads, metadata_written. simpl. lia.
Qed.

Lemma weight_delete_inflight i r w :
  inflight w !! i = Some r ->
  (weight (set_inflight (delete i (inflight w)) w) + bit (listing_wait (snd (fst r)))
   = weight w)%nat.
Proof.
  intros Hi. pose proof (load_delete (fun r => listing_wait (snd (fst r))) _ _ _ Hi) as H.
  unfold weight, listing_threads, metadata_written. simpl. lia.
Qed.

Lemma weight_timer_at i t moment w :
  timers w !! i = Some t -> weight (timer_at server i t moment w) = weight w.
Proof.
  intros Hi. unfold timer_at.
  pose proof (weight_delete_timer i t (set_now moment w) Hi) as H.
  rewrite apart_set_now in H.
  change (timers (set_now moment w)) with (timers w) in H.
  destruct t as [due [|p]]; simpl in *.
  - rewrite weight_throttle_tick. unfold listing_timer in H. simpl in H. lia.
  - rewrite weight_request. unfold listing_timer in H. simpl in H. lia.
Qed.

Lemma weight_reply_at i r moment w :
  inflight w !! i = Some r ->
  (weight (reply_at server outputDir i r moment w) <= weight w)%nat.
Proof.
  intros Hi. unfold reply_at.
  pose proof (weight_delete_inflight i r (set_now moment w) Hi) as H.
  rewrite apart_set_now in H.
  change (inflight (set_now moment w)) with (inflight w) in H.
  pose proof (weight_on_response (snd (fst r)) (snd r)
                (set_inflight (delete i (inflight w)) (set_now moment w))) as H2.
  lia.
Qed.

Lemma weight_act c w : (weight (act server outputDir w c) <= weight w)%nat.
Proof.
  destruct c as [i moment|i moment]; simpl.
  - destruct (timers w !! i) as [t|] eqn:Hi; [|lia].
    destruct (_ <=? _); [|lia]. rewrite (weight_timer_at _ _ _ _ Hi). lia.
  - destruct (inflight w !! i) as [r|] eqn:Hi; [|lia].
    destruct (_ <=? _); [|lia]. apply (weight_reply_at _ _ _ _ Hi).
Qed.

Lemma weight_play schedule : forall w,
  (weight (play server outputDir w schedule) <= weight w)%nat.
Proof.
  induction schedule as [|c cs IH]; intros w; simpl; [lia|].
  etransitivity; [apply IH|apply weight_act].
Qed.

Lemma weight_start t0 : weight (start outputDir t0) = 1%nat.
Proof.
  unfold start, getProjects.
  rewrite weight_getProjectListPage, apart_set_listing, apart_initDirectory.
  reflexivity.
Qed.
End Run.
End SingleFacts.

(** X12. In every run, however its callbacks are scheduled and whatever the
    server answers, the listing is one chain: between two callbacks there
    is at most one listing task in the throttle, listing request in flight
    or listing retry armed, taken together.  The callback of [getProjects]
    saves the sidecar file once at most, and once it has done so nothing
    of the listing is left: the file is never saved from a list that is
    still growing, and never saved again. *)
Theorem crawler_single_listing (server : Crawler.request -> nat -> nat * Http.outcome)
    (outputDir : option string) (t0 : Z) (schedule : list Crawler.choice) :
  let w := Crawler.play server outputDir (Crawler.start outputDir t0) schedule in
  (Single.listing_threads w + length (Crawler.metadata_written w) <= 1)%nat.
Proof.
  intros w. change (Single.weight w <= 1)%nat.
  rewrite <- (SingleFacts.weight_start outputDir t0).
  apply SingleFacts.weight_play.
Qed.

(** ** LinkRewriter: a second pass over the output of the first *)

Module SecondPassFacts.
Import Text LinkRewriter SecondPass StringFacts LinkFacts.
Local Open Scope char_scope.

(** *** Prefixes, occurrences and greedy classes *)

Lemma strip_app p : forall s rest, strip p s = Some rest -> s = (p +:+ rest)%string.
Proof.
  induction p as [|a p IH]; intros s rest H; simpl in H.
  - injection H as <-. reflexivity.
  - destruct s as [|b s]; [discriminate|].
    destruct (Ascii.eqb a b) eqn:E; [|discriminate].
    apply Ascii.eqb_eq in E. subst b. rewrite cons_append. f_equal. apply IH, H.
Qed.

Lemma strip_here p : forall s, strip p (p +:+ s) = Some s.
Proof.
  induction p as [|c p IH]; intros s; [reflexivity|].
  rewrite cons_append. cbn [strip]. rewrite Ascii.eqb_refl. apply IH.
Qed.

Lemma span_app f s : forall a b, span f s = (a, b) -> s = (a +:+ b)%string.
Proof.
  induction s as [|c s IH]; intros a b H; simpl in H.
  - injection H as <- <-. reflexivity.
  - destruct (f c).
    + destruct (span f s) as [a' b'] eqn:E. injection H as <- <-.
      rewrite cons_append. f_equal. apply IH. reflexivity.
    + injection H as <- <-. reflexivity.
Qed.

Lemma span_all f s : forall a b,
  span f s = (a, b) -> Forall (fun c => f c = true) (list_ascii_of_string a).
Proof.
  induction s as [|c s IH]; intros a b H; simpl in H.
  - injection H as <- <-. constructor.
  - destruct (f c) eqn:Hc.
    + destruct (span f s) as [a' b'] eqn:E. injection H as <- <-.
      cbn [list_ascii_of_string]. constructor; [exact Hc|]. eapply IH. reflexivity.
    + injection H as <- <-. constructor.
Qed.

Lemma length_app a b : String.length (a +:+ b) = (String.length a + String.length b)%nat.
Proof. apply BaseUrlFacts.length_append. Qed.

Lemma startsWith_nil s : startsWith "" s = true.
Proof. reflexivity. Qed.

Lemma startsWith_cons a p b s :
  startsWith (String a p) (String b s) = Ascii.eqb a b && startsWith p s.
Proof. unfold startsWith. cbn [strip]. destruct (Ascii.eqb a b); reflexivity. Qed.

Lemma startsWith_empty a p : startsWith (String a p) "" = false.
Proof. reflexivity. Qed.

Lemma startsWith_app p : forall a b, startsWith p a = true -> startsWith p (a +:+ b) = true.
Proof.
  induction p as [|x p IH]; intros a b H; [reflexivity|].
  destruct a as [|c a]; [discriminate|]. rewrite cons_append.
  rewrite startsWith_cons in *. apply andb_true_iff in H as [-> H].
  apply (IH _ b), H.
Qed.

Lemma includes_here p s : startsWith p s = true -> includes p s = true.
Proof. intros H. destruct s; simpl; rewrite H; reflexivity. Qed.

Lemma includes_step p c s :
  includes p (String c s) = startsWith p (String c s) || includes p s.
Proof. reflexivity. Qed.

Lemma includes_app_l p a b : includes p a = true -> includes p (a +:+ b) = true.
Proof.
  induction a as [|c a IH]; intros H.
  - simpl in H. rewrite orb_false_r in H. destruct p; [|discriminate].
    apply includes_here. reflexivity.
  - rewrite cons_append, includes_step. rewrite includes_step in H.
    apply orb_true_iff in H as [H|H].
    + rewrite <- cons_append, (startsWith_app _ _ b H). reflexivity.
    + rewrite (IH H). apply orb_true_r.
Qed.

Lemma includes_app_r p a b : includes p b = true -> includes p (a +:+ b) = true.
Proof.
  intros H. induction a as [|c a IH]; [exact H|].
  rewrite cons_append, includes_step, IH. apply orb_true_r.
Qed.

Lemma excludes_app_l p a b : includes p (a +:+ b) = false -> includes p a = false.
Proof.
  intros H. destruct (includes p a) eqn:E; [|reflexivity].
  rewrite (includes_app_l _ _ b E) in H. discriminate.
Qed.

Lemma excludes_app_r p a b : includes p (a +:+ b) = false -> includes p b = false.
Proof.
  intros H. destruct (includes p b) eqn:E; [|reflexivity].
  rewrite (includes_app_r _ a _ E) in H. discriminate.
Qed.

(** A pattern of one character. *)
Lemma includes_char_app c a b :
  includes (String c "") (a +:+ b) = includes (String c "") a || includes (String c "") b.
Proof.
  induction a as [|d a IH]; [reflexivity|].
  rewrite cons_append, !includes_step, IH, !startsWith_cons, !startsWith_nil.
  apply orb_assoc.
Qed.

Lemma includes_char_cons c d s :
  includes (String c "") (String d s) = Ascii.eqb c d || includes (String c "") s.
Proof. rewrite includes_step, startsWith_cons, startsWith_nil, andb_true_r. reflexivity. Qed.

Lemma includes_char_other c d s :
  d <> c -> includes (String c "") (String d s) = includes (String c "") s.
Proof.
  intros H. rewrite includes_char_cons.
  replace (Ascii.eqb c d) with false; [reflexivity|].
  symmetry. apply Ascii.eqb_neq. congruence.
Qed.

Lemma excludes_char c v :
  Forall (fun x => x <> c) (list_ascii_of_string v) -> includes (String c "") v = false.
Proof.
  induction v as [|d v IH]; intros H; [reflexivity|].
  cbn [list_ascii_of_string] in H. apply Forall_cons in H as [Hd H].
  rewrite includes_char_cons, (IH H), orb_false_r. apply Ascii.eqb_neq. congruence.
Qed.

Lemma excludes_char_all c v :
  includes (String c "") v = false ->
  Forall (fun x => x <> c) (list_ascii_of_string v).
Proof.
  induction v as [|d v IH]; intros H; [constructor|].
  rewrite includes_char_cons in H. apply orb_false_iff in H as [Hd H].
  cbn [list_ascii_of_string]. constructor; [|apply IH, H].
  apply Ascii.eqb_neq in Hd. congruence.
Qed.

(** A pattern of two characters does not appear where two texts without
    it meet, unless it is cut in two there. *)
Lemma excludes_pair_app x y a c b :
  includes (String x (String y "")) a = false ->
  c <> y ->
  includes (String x (String y "")) (String c b) = false ->
  includes (String x (String y "")) (a +:+ String c b) = false.
Proof.
  intros Ha Hc Hb. induction a as [|d a IH]; [exact Hb|].
  rewrite includes_step in Ha. apply orb_false_iff in Ha as [Hd Ha].
  rewrite cons_append, includes_step, (IH Ha), orb_false_r.
  rewrite startsWith_cons in *. destruct (Ascii.eqb x d); [|reflexivity].
  cbn [andb] in *. destruct a as [|e a].
  - change ("" +:+ String c b)%string with (String c b).
    rewrite startsWith_cons. replace (Ascii.eqb y c) with false; [reflexivity|].
    symmetry. apply Ascii.eqb_neq. congruence.
  - rewrite cons_append. rewrite startsWith_cons in *. exact Hd.
Qed.

Lemma includes_pair_app x y a c b :
  c <> y ->
  includes (String x (String y "")) (a +:+ String c b) = true ->
  includes (String x (String y "")) a = true \/
  includes (String x (String y "")) (String c b) = true.
Proof.
  intros Hc H.
  destruct (includes (String x (String y "")) a) eqn:Ea; [left; reflexivity|].
  destruct (includes (String x (String y "")) (String c b)) eqn:Eb; [right; reflexivity|].
  rewrite (excludes_pair_app _ _ _ _ _ Ea Hc Eb) in H. discriminate.
Qed.

Lemma includes_pair_cons x y c s :
  c <> x ->
  includes (String x (String y "")) (String c s) = includes (String x (String y "")) s.
Proof.
  intros Hc. rewrite includes_step, startsWith_cons.
  replace (Ascii.eqb x c) with false; [reflexivity|].
  symmetry. apply Ascii.eqb_neq. congruence.
Qed.

(** *** Where category 1 matches *)

Lemma wiki_syntax_closed s : startsWith "[[" s = false -> wiki_syntax s = None.
Proof. intros H. unfold wiki_syntax. rewrite (RewriteFacts.strip_none _ _ H). reflexivity. Qed.

Lemma wiki_syntax_test y :
  wiki_syntax ("[[" +:+ y) = None <-> named y && closes y = false.
Proof.
  unfold wiki_syntax, named, closes, startsWith. rewrite strip_here.
  destruct (span (is_not "]") y) as [pageName s2]. cbn [fst snd].
  destruct pageName as [|c pageName]; cbn [String.eqb negb andb].
  - split; reflexivity.
  - replace (String.eqb (String c pageName) "") with false by (symmetry; apply String.eqb_neq; discriminate).
    cbn [negb andb]. destruct (strip "]]" s2); split; intros H; (reflexivity || discriminate).
Qed.

Lemma named_cons c y : named (String c y) = negb (Ascii.eqb c "]").
Proof.
  unfold named. cbn [span]. unfold is_not at 1.
  destruct (Ascii.eqb c "]"); cbn [negb]; [reflexivity|].
  destruct (span (is_not "]") y). reflexivity.
Qed.

Lemma closes_cons c y : c <> "]" -> closes (String c y) = closes y.
Proof.
  intros Hc. unfold closes. cbn [span]. unfold is_not at 1.
  replace (Ascii.eqb c "]") with false by (symmetry; apply Ascii.eqb_neq; exact Hc).
  cbn [negb]. destruct (span (is_not "]") y). reflexivity.
Qed.

Lemma closes_bracket y : closes (String "]" y) = startsWith "]" y.
Proof. unfold closes. cbn [span]. unfold is_not at 1. cbn. unfold startsWith. cbn [strip]. reflexivity. Qed.

Lemma closes_run v y : includes "]" v = false -> closes (v +:+ y) = closes y.
Proof.
  induction v as [|c v IH]; intros H; [reflexivity|].
  rewrite includes_char_cons in H. apply orb_false_iff in H as [Hc H].
  rewrite cons_append, closes_cons, IH by (try exact H; apply Ascii.eqb_neq in Hc; congruence).
  reflexivity.
Qed.

Lemma closes_cut t : forall Z Z',
  includes "]" t = true ->
  closes (t +:+ String "(" Z) = closes (t +:+ String "(" Z').
Proof.
  induction t as [|c t IH]; intros Z Z' H; [discriminate|].
  rewrite !cons_append. destruct (ascii_dec c "]") as [->|Hc].
  - rewrite !closes_bracket. destruct t as [|d t]; [reflexivity|].
    rewrite !cons_append, !startsWith_cons. reflexivity.
  - rewrite !closes_cons by exact Hc. apply IH.
    rewrite includes_char_cons in H. apply orb_true_iff in H as [H|H]; [|exact H].
    apply Ascii.eqb_eq in H. congruence.
Qed.

Lemma named_cut t Z Z' : t <> ""%string -> named (t +:+ Z) = named (t +:+ Z').
Proof.
  intros Ht. destruct t as [|c t]; [contradiction Ht; reflexivity|].
  rewrite !cons_append, !named_cons. reflexivity.
Qed.

(** Whether category 1 matches at a text that holds a closing bracket
    does not depend on what follows the text and an opening
    parenthesis. *)
Lemma syntax_cut t Z Z' :
  includes "]" t = true ->
  wiki_syntax (t +:+ String "(" Z) = None ->
  wiki_syntax (t +:+ String "(" Z') = None.
Proof.
  intros Ht H. destruct t as [|c t]; [discriminate|].
  destruct (ascii_dec c "[") as [->|Hc];
    [|rewrite cons_append; apply wiki_syntax_not_here, Hc].
  destruct t as [|d t]; [discriminate|].
  destruct (ascii_dec d "[") as [->|Hd].
  - change (wiki_syntax ("[[" +:+ (t +:+ String "(" Z')) = None).
    change (wiki_syntax ("[[" +:+ (t +:+ String "(" Z)) = None) in H.
    apply wiki_syntax_test. apply wiki_syntax_test in H.
    assert (Ht' : includes "]" t = true) by exact Ht.
    rewrite (closes_cut t Z' Z Ht'), (named_cut t _ (String "(" Z)); [exact H|].
    intros ->. discriminate.
  - apply wiki_syntax_closed. rewrite !cons_append, !startsWith_cons.
    replace (Ascii.eqb "[" d) with false; [reflexivity|].
    symmetry. apply Ascii.eqb_neq. congruence.
Qed.

(** *** Texts in which category 1 matches nowhere *)

Lemma quiet1_cons c r :
  quiet1 (String c r) = true <-> wiki_syntax (String c r) = None /\ quiet1 r = true.
Proof.
  cbn [quiet1]. destruct (wiki_syntax (String c r)); split.
  - discriminate.
  - intros [H _]. discriminate.
  - intros H. split; [reflexivity|exact H].
  - intros [_ H]. exact H.
Qed.

Lemma quiet1_other c r : c <> "[" -> quiet1 (String c r) = quiet1 r.
Proof. intros Hc. cbn [quiet1]. rewrite (wiki_syntax_not_here _ _ Hc). reflexivity. Qed.

Lemma quiet1_suffix a : forall b, quiet1 (a +:+ b) = true -> quiet1 b = true.
Proof.
  induction a as [|c a IH]; intros b H; [exact H|].
  rewrite cons_append in H. apply quiet1_cons in H as [_ H]. apply IH, H.
Qed.

Lemma quiet1_page_names s : quiet1 s = true -> page_names s = [].
Proof.
  unfold page_names. induction s as [|c r IH]; intros H; [reflexivity|].
  apply quiet1_cons in H as [Hhere Hrest].
  cbn [scan]. rewrite Hhere. apply IH, Hrest.
Qed.

Lemma category1_quiet s : quiet1 s = true -> category1 s = s.
Proof.
  unfold category1. induction s as [|c r IH]; intros H; [reflexivity|].
  apply quiet1_cons in H as [Hhere Hrest].
  cbn [scan]. rewrite Hhere. cbn [render]. rewrite IH by exact Hrest. reflexivity.
Qed.

(** Before a character that is not [[[], a text without [[[[] adds no
    match. *)
Lemma quiet1_pre a c X :
  includes "[[" (a +:+ String c "") = false ->
  quiet1 (String c X) = true ->
  quiet1 (a +:+ String c X) = true.
Proof.
  intros Ha HX. induction a as [|d a IH]; [exact HX|].
  rewrite cons_append in *. rewrite includes_step in Ha.
  apply orb_false_iff in Ha as [Hd Ha].
  apply quiet1_cons. split; [|apply IH, Ha].
  apply wiki_syntax_closed. rewrite startsWith_cons in *.
  destruct (Ascii.eqb "[" d); [|reflexivity]. cbn [andb] in *.
  destruct a as [|e a].
  - change ("" +:+ String c X)%string with (String c X).
    change ("" +:+ String c "")%string with (String c "") in Hd.
    rewrite startsWith_cons in *. exact Hd.
  - rewrite cons_append in *. rewrite startsWith_cons in *. exact Hd.
Qed.

(** A text without []] before a closing parenthesis: a match can only
    start at a [[[[] of the text, and then it depends on what follows. *)
Lemma quiet1_target v X :
  includes "]" v = false ->
  quiet1 X = true ->
  (includes "[[" v = true -> closes X = false) ->
  quiet1 (v +:+ String ")" X) = true.
Proof.
  intros Hv HX. induction v as [|c v IH]; intros Hopen.
  - change (quiet1 (String ")" X) = true). rewrite quiet1_other by discriminate. exact HX.
  - rewrite includes_char_cons in Hv. apply orb_false_iff in Hv as [Hc Hv].
    rewrite cons_append. apply quiet1_cons. split.
    + destruct (startsWith "[[" (String c (v +:+ String ")" X))) eqn:E;
        [|apply wiki_syntax_closed, E].
      rewrite startsWith_cons in E. apply andb_true_iff in E as [Ec E].
      apply Ascii.eqb_eq in Ec. subst c.
      destruct v as [|d v]; [discriminate|].
      rewrite cons_append, startsWith_cons in E. apply andb_true_iff in E as [Ed _].
      apply Ascii.eqb_eq in Ed. subst d.
      change (wiki_syntax ("[[" +:+ (v +:+ String ")" X)) = None).
      apply wiki_syntax_test.
      assert (Hv' : includes "]" v = false).
      { rewrite includes_char_cons in Hv. apply orb_false_iff in Hv as [_ Hv]. exact Hv. }
      rewrite (closes_run v _ Hv'), closes_cons by discriminate.
      rewrite Hopen; [apply andb_false_r|]. apply includes_here. reflexivity.
    + apply IH; [exact Hv|]. intros H. apply Hopen.
      rewrite includes_step, H. apply orb_true_r.
Qed.

Lemma quiet1_open v rest :
  includes "]" v = false ->
  includes "[[" v = true ->
  quiet1 (v +:+ String ")" rest) = true ->
  closes rest = false.
Proof.
  intros Hv. induction v as [|c v IH]; intros Hopen H; [discriminate|].
  rewrite includes_char_cons in Hv. apply orb_false_iff in Hv as [Hc Hv].
  rewrite cons_append in H. apply quiet1_cons in H as [Hhere H].
  rewrite includes_step in Hopen. apply orb_true_iff in Hopen as [E|E];
    [|apply IH; assumption].
  rewrite startsWith_cons in E. apply andb_true_iff in E as [Ec E].
  apply Ascii.eqb_eq in Ec. subst c.
  destruct v as [|d v]; [discriminate|].
  rewrite startsWith_cons in E. apply andb_true_iff in E as [Ed _].
  apply Ascii.eqb_eq in Ed. subst d.
  change (wiki_syntax ("[[" +:+ (v +:+ String ")" rest)) = None) in Hhere.
  apply wiki_syntax_test in Hhere.
  assert (Hv' : includes "]" v = false).
  { rewrite includes_char_cons in Hv. apply orb_false_iff in Hv as [_ Hv]. exact Hv. }
  rewrite (closes_run v _ Hv'), closes_cons in Hhere by discriminate.
  apply andb_false_iff in Hhere as [Hn|Hn]; [|exact Hn].
  destruct v as [|e v].
  - change (named (String ")" rest) = false) in Hn. rewrite named_cons in Hn. discriminate.
  - rewrite cons_append, named_cons in Hn. rewrite includes_char_cons in Hv'.
    apply orb_false_iff in Hv' as [He _]. rewrite Ascii.eqb_sym in He.
    rewrite He in Hn. discriminate.
Qed.

(** Under a link text, the matches of category 1 do not depend on the
    target that follows. *)
Lemma quiet1_text t0 W0 W :
  quiet1 ((t0 +:+ "]") +:+ String "(" W0) = true ->
  quiet1 (String "(" W) = true ->
  quiet1 ((t0 +:+ "]") +:+ String "(" W) = true.
Proof.
  intros H0 HW. induction t0 as [|c t0 IH].
  - change (quiet1 (String "]" (String "(" W)) = true).
    rewrite quiet1_other by discriminate. exact HW.
  - rewrite !cons_append in *. apply quiet1_cons in H0 as [Hhere H0].
    apply quiet1_cons. split; [|apply IH, H0].
    rewrite <- !cons_append in *. revert Hhere. apply syntax_cut.
    rewrite cons_append. apply (includes_app_r _ (String c t0)). reflexivity.
Qed.

(** *** The search of a global replacement *)

(** After a match that takes the prefix [a], the search goes on behind
    it. *)
Lemma scan_hit {M} (m : string -> option (nat * M)) n x a rest :
  m (a +:+ rest) = Some (n, x) -> n = String.length a -> a <> ""%string ->
  scan m 0 (a +:+ rest) = Hit x :: scan m 0 rest.
Proof.
  intros Hm -> Ha. destruct a as [|c a]; [contradiction Ha; reflexivity|].
  rewrite cons_append in *. cbn [scan]. rewrite Hm. cbn [String.length].
  replace (S (String.length a) - 1)%nat with (String.length a) by lia.
  rewrite scan_skip. reflexivity.
Qed.

Lemma scan_lit {M} (m : string -> option (nat * M)) c r :
  m (String c r) = None -> scan m 0 (String c r) = Lit c :: scan m 0 r.
Proof. intros Hm. cbn [scan]. rewrite Hm. reflexivity. Qed.

(** Induction along the search: a character that starts no match is
    passed, a match is passed as a whole.  [Q] is what is known of a
    match, of the text it takes and of the text behind it. *)
Lemma by_matches {M} (m : string -> option (nat * M))
    (Q : M -> string -> string -> Prop) (P : string -> Prop) :
  (forall s n x, m s = Some (n, x) ->
     exists a rest, s = (a +:+ rest)%string /\ n = String.length a /\
                    a <> ""%string /\ Q x a rest) ->
  P ""%string ->
  (forall c r, m (String c r) = None -> P r -> P (String c r)) ->
  (forall n x a rest, m (a +:+ rest) = Some (n, x) -> n = String.length a ->
     a <> ""%string -> Q x a rest -> P rest -> P (a +:+ rest)) ->
  forall s, P s.
Proof.
  intros Hshape Hnil Hlit Hhit s.
  remember (String.length s) as k eqn:Hk. revert s Hk.
  induction k as [k IH] using lt_wf_ind. intros s Hk.
  destruct s as [|c r]; [exact Hnil|].
  destruct (m (String c r)) as [[n x]|] eqn:Hm.
  - destruct (Hshape _ _ _ Hm) as (a & rest & Hs & Hn & Ha & HQ).
    rewrite Hs in *. apply (Hhit n x); try assumption.
    apply (IH (String.length rest)); [|reflexivity].
    rewrite Hk, length_app. destruct a; [contradiction Ha; reflexivity|].
    cbn [String.length]. lia.
  - apply Hlit; [exact Hm|]. apply (IH (String.length r)); [|reflexivity].
    rewrite Hk. cbn [String.length]. lia.
Qed.

(** *** Category 1 along its search *)

Lemma wiki_syntax_shape s n name :
  wiki_syntax s = Some (n, name) ->
  exists a rest, s = (a +:+ rest)%string /\ n = String.length a /\ a <> ""%string /\
    (a = ("[[" +:+ name +:+ "]]")%string /\ name <> ""%string /\
     includes "]" name = false).
Proof.
  unfold wiki_syntax. intros H.
  destruct (strip "[[" s) as [s1|] eqn:H1; [|discriminate].
  destruct (span (is_not "]") s1) as [pageName s2] eqn:H2.
  destruct pageName as [|c pageName]; [discriminate|].
  destruct (strip "]]" s2) as [rest|] eqn:H3; [|discriminate].
  injection H as <- <-.
  apply strip_app in H1, H3. pose proof (span_app _ _ _ _ H2) as H4.
  pose proof (span_all _ _ _ _ H2) as H5.
  exists ("[[" +:+ String c pageName +:+ "]]")%string, rest.
  subst s2 s1 s. split; [|split; [|split; [discriminate|split; [reflexivity|split; [discriminate|]]]]].
  - rewrite !append_assoc. reflexivity.
  - unfold consumed. rewrite !length_app.
    change (String.length "[[") with 2%nat. change (String.length "]]") with 2%nat.
    lia.
  - apply excludes_char. eapply Forall_impl; [exact H5|]. intros x Hx.
    unfold is_not in Hx. apply negb_true_iff, Ascii.eqb_neq in Hx. exact Hx.
Qed.

Abbreviation wiki_syntax_match name a rest :=
  (a = ("[[" +:+ name +:+ "]]")%string /\ name <> ""%string /\
   includes "]" name = false) (only parsing).

Lemma category1_lit c r :
  wiki_syntax (String c r) = None -> category1 (String c r) = String c (category1 r).
Proof. intros H. unfold category1. rewrite (scan_lit _ _ _ H). reflexivity. Qed.

Lemma category1_hit n name a rest :
  wiki_syntax (a +:+ rest) = Some (n, name) -> n = String.length a -> a <> ""%string ->
  category1 (a +:+ rest) = (wiki_syntax_link name +:+ category1 rest)%string.
Proof. intros H Hn Ha. unfold category1. rewrite (scan_hit _ _ _ _ _ H Hn Ha). reflexivity. Qed.

Lemma page_names_lit c r :
  wiki_syntax (String c r) = None -> page_names (String c r) = page_names r.
Proof. intros H. unfold page_names. rewrite (scan_lit _ _ _ H). reflexivity. Qed.

Lemma page_names_hit n name a rest :
  wiki_syntax (a +:+ rest) = Some (n, name) -> n = String.length a -> a <> ""%string ->
  page_names (a +:+ rest) = name :: page_names rest.
Proof. intros H Hn Ha. unfold page_names. rewrite (scan_hit _ _ _ _ _ H Hn Ha). reflexivity. Qed.

Lemma wiki_syntax_link_bracket name :
  exists r, wiki_syntax_link name = String "[" r.
Proof.
  unfold wiki_syntax_link. destruct (includes ":" name).
  - destruct (split_colon name) as [project page]. eexists. reflexivity.
  - eexists. reflexivity.
Qed.

(** A closing bracket at the start of the rewritten text was there
    before. *)
Lemma category1_first s :
  startsWith "]" (category1 s) = true -> startsWith "]" s = true.
Proof.
  destruct s as [|c r]; [discriminate|].
  destruct (wiki_syntax (String c r)) as [[n name]|] eqn:H.
  - destruct (wiki_syntax_shape _ _ _ H) as (a & rest & Hs & Hn & Ha & _).
    rewrite Hs in *. rewrite (category1_hit _ _ _ _ H Hn Ha).
    destruct (wiki_syntax_link_bracket name) as [x ->].
    rewrite cons_append, startsWith_cons. discriminate.
  - rewrite (category1_lit _ _ H), !startsWith_cons. intros E.
    apply andb_true_iff in E as [-> _]. reflexivity.
Qed.

Lemma category1_closes : forall y, closes (category1 y) = true -> closes y = true.
Proof.
  apply (by_matches wiki_syntax (fun name a rest => wiki_syntax_match name a rest)
           (fun y => closes (category1 y) = true -> closes y = true)).
  - apply wiki_syntax_shape.
  - intros H. exact H.
  - intros c r Hm IH. rewrite (category1_lit _ _ Hm).
    destruct (ascii_dec c "]") as [->|Hc].
    + rewrite !closes_bracket. apply category1_first.
    + rewrite !closes_cons by exact Hc. exact IH.
  - intros n name a rest Hm Hn Ha (-> & Hname & Hchars) _ _.
    rewrite !append_assoc.
    change (closes (("[[" +:+ name) +:+ String "]" (String "]" rest)) = true).
    rewrite closes_run, closes_bracket; [reflexivity|].
    change (includes "]" (String "[" (String "[" name)) = false).
    rewrite !includes_char_cons, Hchars. reflexivity.
Qed.

Lemma category1_named y : named (category1 y) = true -> named y = true.
Proof.
  destruct y as [|c r]; [discriminate|].
  rewrite named_cons. destruct (ascii_dec c "]") as [->|Hc].
  - rewrite category1_lit by (apply wiki_syntax_not_here; discriminate).
    rewrite named_cons. trivial.
  - intros _. apply negb_true_iff, Ascii.eqb_neq, Hc.
Qed.

(** Where category 1 did not match, it does not match after the
    rewriting either. *)
Lemma category1_syntax s :
  wiki_syntax s = None -> wiki_syntax (category1 s) = None.
Proof.
  intros H. destruct s as [|c r]; [reflexivity|].
  rewrite (category1_lit _ _ H).
  destruct (ascii_dec c "[") as [->|Hc]; [|apply wiki_syntax_not_here, Hc].
  destruct r as [|d r]; [reflexivity|].
  destruct (ascii_dec d "[") as [->|Hd].
  - destruct (wiki_syntax (String "[" r)) as [[n name]|] eqn:Hr.
    + exfalso. destruct (wiki_syntax_shape _ _ _ Hr) as (a & rest & Hs & _ & _ & -> & Hname & Hchars).
      rewrite Hs in H. rewrite !append_assoc in H.
      change (wiki_syntax ("[[" +:+ (String "[" name +:+ String "]" (String "]" rest))) = None) in H.
      apply wiki_syntax_test in H.
      rewrite closes_run, closes_bracket in H.
      * rewrite cons_append, named_cons in H. discriminate.
      * rewrite includes_char_cons, Hchars. reflexivity.
    + rewrite (category1_lit _ _ Hr).
      change (wiki_syntax ("[[" +:+ category1 r) = None).
      change (wiki_syntax ("[[" +:+ r) = None) in H.
      apply wiki_syntax_test. apply wiki_syntax_test in H.
      destruct (named (category1 r)) eqn:E1; [|reflexivity].
      destruct (closes (category1 r)) eqn:E2; [|reflexivity].
      rewrite (category1_named _ E1), (category1_closes _ E2) in H. discriminate.
  - assert (Hr : wiki_syntax (String d r) = None) by (apply wiki_syntax_not_here, Hd).
    rewrite (category1_lit _ _ Hr). apply wiki_syntax_closed.
    rewrite !startsWith_cons.
    replace (Ascii.eqb "[" d) with false; [reflexivity|].
    symmetry. apply Ascii.eqb_neq. congruence.
Qed.

(** *** What the callback of category 1 writes *)

Lemma white_space_shape s n x :
  white_space s = Some (n, x) ->
  exists a rest, s = (a +:+ rest)%string /\ n = String.length a /\ a <> ""%string /\ True.
Proof.
  unfold white_space. intros H.
  destruct s as [|c r]; [discriminate|].
  destruct (is_space c).
  { injection H as <- _. exists (String c ""), r. repeat split. discriminate. }
  destruct r as [|c1 r1]; [discriminate|].
  match type of H with context [if ?b then _ else _] => destruct b end.
  { injection H as <- _. exists (String c (String c1 "")), r1. repeat split. discriminate. }
  destruct r1 as [|c2 r2]; [discriminate|].
  match type of H with context [if ?b then _ else _] => destruct b end; [|discriminate].
  injection H as <- _. exists (String c (String c1 (String c2 ""))), r2.
  repeat split. discriminate.
Qed.

(** Turning white space into underscores brings no two opening brackets
    together. *)
Lemma one_per_run_open : forall s,
  includes "[[" s = false ->
  forall in_run,
    includes "[[" (one_per_run "_" in_run (scan white_space 0 s)) = false /\
    (in_run = false ->
     startsWith "[" (one_per_run "_" in_run (scan white_space 0 s)) = true ->
     startsWith "[" s = true).
Proof.
  apply (by_matches white_space (fun _ _ _ => True)
           (fun s => includes "[[" s = false ->
              forall in_run,
                includes "[[" (one_per_run "_" in_run (scan white_space 0 s)) = false /\
                (in_run = false ->
                 startsWith "[" (one_per_run "_" in_run (scan white_space 0 s)) = true ->
                 startsWith "[" s = true))).
  - apply white_space_shape.
  - intros _ in_run. split; [reflexivity|]. intros _ H. exact H.
  - intros c r Hm IH Hs in_run. rewrite (scan_lit _ _ _ Hm). cbn [one_per_run].
    rewrite includes_step in Hs. apply orb_false_iff in Hs as [Hc Hs].
    destruct (IH Hs false) as [IH1 IH2]. split.
    + rewrite includes_step, IH1, orb_false_r.
      rewrite startsWith_cons in *. destruct (Ascii.eqb "[" c); [|reflexivity].
      cbn [andb] in *.
      destruct (startsWith "[" (one_per_run "_" false (scan white_space 0 r))) eqn:E;
        [|reflexivity].
      rewrite (IH2 eq_refl eq_refl) in Hc. discriminate.
    + intros _. rewrite !startsWith_cons, !startsWith_nil. trivial.
  - intros n x a rest Hm Hn Ha _ IH Hs in_run. rewrite (scan_hit _ _ _ _ _ Hm Hn Ha).
    cbn [one_per_run]. apply excludes_app_r in Hs. destruct (IH Hs true) as [IH1 _].
    destruct in_run.
    + split; [exact IH1|]. discriminate.
    + change ("_" +:+ one_per_run "_" true (scan white_space 0 rest))%string
        with (String "_" (one_per_run "_" true (scan white_space 0 rest))).
      split; [rewrite includes_pair_cons by discriminate; exact IH1|].
      intros _. rewrite startsWith_cons. discriminate.
Qed.

Lemma replace_spaces_open s :
  includes "[[" s = false -> includes "[[" (replace_spaces "_" false s) = false.
Proof. intros H. apply (one_per_run_open s H false). Qed.

Lemma split_colon_parts name project page :
  split_colon name = (project, page) ->
  (exists post, name = (project +:+ post)%string) /\
  (exists pre post, name = (pre +:+ page +:+ post)%string).
Proof.
  unfold split_colon. destruct (span not_colon name) as [a rest] eqn:E.
  apply span_app in E. destruct rest as [|c rest].
  - intros [= <- <-]. split; [exists ""%string; exact E|].
    exists name, ""%string. symmetry. apply append_nil_r.
  - destruct (span not_colon rest) as [b rest'] eqn:E'. apply span_app in E'.
    intros [= <- <-]. split; [eexists; exact E|].
    exists (a +:+ String c ""), rest'. rewrite E, E', append_assoc. reflexivity.
Qed.

Lemma quiet1_link label t0 X :
  includes "]" label = false ->
  includes "[[" label = false ->
  includes "[[" t0 = false ->
  quiet1 X = true ->
  quiet1 (String "[" (label +:+ String "]" (String "("
            (t0 +:+ String "." (String "m" (String "d" (String ")" X))))))) = true.
Proof.
  intros Hclose Hopen Ht HX. apply quiet1_cons. split.
  - destruct label as [|c l]; [reflexivity|].
    rewrite cons_append. destruct (ascii_dec c "[") as [->|Hc].
    + match goal with |- wiki_syntax (String "[" (String "[" ?y)) = None =>
        change (wiki_syntax ("[[" +:+ y) = None) end.
      apply wiki_syntax_test.
      rewrite includes_char_cons in Hclose. apply orb_false_iff in Hclose as [_ Hclose].
      rewrite (closes_run l _ Hclose), closes_bracket, startsWith_cons.
      apply andb_false_r.
    + apply wiki_syntax_closed. rewrite !startsWith_cons.
      replace (Ascii.eqb "[" c) with false; [reflexivity|].
      symmetry. apply Ascii.eqb_neq. congruence.
  - apply quiet1_pre.
    + apply excludes_pair_app; [exact Hopen|discriminate|reflexivity].
    + rewrite !quiet1_other by discriminate.
      change (String "." (String "m" (String "d" (String ")" X))))
        with (".md" +:+ String ")" X)%string.
      rewrite <- append_assoc. apply quiet1_pre.
      * rewrite append_assoc.
        change (".md" +:+ String ")" "")%string with (String "." "md)").
        apply excludes_pair_app; [exact Ht|discriminate|reflexivity].
      * rewrite quiet1_other by discriminate. exact HX.
Qed.

(** The link written for a page name holds no match of category 1. *)
Lemma quiet1_wiki_syntax_link name X :
  includes "]" name = false ->
  includes "[[" name = false ->
  quiet1 X = true ->
  quiet1 (wiki_syntax_link name +:+ X) = true.
Proof.
  intros Hclose Hopen HX. unfold wiki_syntax_link. destruct (includes ":" name).
  - destruct (split_colon name) as [project page] eqn:E.
    destruct (split_colon_parts _ _ _ E) as [[post Hproject] (pre & post' & Hpage)].
    assert (Hp1 : includes "[[" project = false).
    { rewrite Hproject in Hopen. apply (excludes_app_l _ _ _ Hopen). }
    assert (Hp2 : includes "[[" page = false).
    { rewrite Hpage in Hopen. apply excludes_app_r, excludes_app_l in Hopen. exact Hopen. }
    assert (Hp3 : includes "]" page = false).
    { rewrite Hpage in Hclose. apply excludes_app_r, excludes_app_l in Hclose. exact Hclose. }
    match goal with |- quiet1 ?g = true =>
      replace g with
        (String "[" (page +:+ String "]" (String "("
           (("../" +:+ project +:+ "/" +:+ replace_spaces "_" false page) +:+
            String "." (String "m" (String "d" (String ")" X)))))))
        by (rewrite !append_assoc; reflexivity)
    end.
    apply quiet1_link; [exact Hp3|exact Hp2| |exact HX].
    change (includes "[[" (String "." (String "." (String "/"
              (project +:+ String "/" (replace_spaces "_" false page))))) = false).
    rewrite !includes_pair_cons by discriminate.
    apply excludes_pair_app; [exact Hp1|discriminate|].
    rewrite includes_pair_cons by discriminate. apply replace_spaces_open, Hp2.
  - match goal with |- quiet1 ?g = true =>
      replace g with
        (String "[" (name +:+ String "]" (String "("
           (replace_spaces "_" false name +:+
            String "." (String "m" (String "d" (String ")" X)))))))
        by (rewrite !append_assoc; reflexivity)
    end.
    apply quiet1_link; [exact Hclose|exact Hopen| |exact HX].
    apply replace_spaces_open, Hopen.
Qed.

(** After category 1, under the condition on the page names, category 1
    matches nowhere. *)
Lemma category1_is_quiet : forall s,
  Forall (fun name => includes "[[" name = false) (page_names s) ->
  quiet1 (category1 s) = true.
Proof.
  apply (by_matches wiki_syntax (fun name a rest => wiki_syntax_match name a rest)
           (fun s => Forall (fun name => includes "[[" name = false) (page_names s) ->
                     quiet1 (category1 s) = true)).
  - apply wiki_syntax_shape.
  - reflexivity.
  - intros c r Hm IH H. rewrite (page_names_lit _ _ Hm) in H.
    pose proof (category1_syntax _ Hm) as Hhere.
    rewrite (category1_lit _ _ Hm) in *. apply quiet1_cons. split; [exact Hhere|].
    apply IH, H.
  - intros n name a rest Hm Hn Ha (-> & Hname & Hchars) IH H.
    rewrite (page_names_hit _ _ _ _ Hm Hn Ha) in H. apply Forall_cons in H as [Hopen H].
    rewrite (category1_hit _ _ _ _ Hm Hn Ha).
    apply quiet1_wiki_syntax_link; [exact Hchars|exact Hopen|apply IH, H].
Qed.

(** *** Category 2 along its search *)

Section WithUrl.
Variable redmineUrl : string.
Variable currentProject : string.

Abbreviation K := (absolute_wiki_target redmineUrl).
Abbreviation category2 := (LinkRewriter.category2 redmineUrl currentProject).
Abbreviation new_target := (SecondPass.new_target currentProject).
Abbreviation old_target := (SecondPass.old_target redmineUrl).

Lemma lazy_dots_shape {R} (tail_ : string -> option R) s : forall inner r,
  lazy_dots tail_ s = Some (inner, r) ->
  exists s2, s = (inner +:+ s2)%string /\ tail_ s2 = Some r.
Proof.
  induction s as [|c s IH]; intros inner r H; cbn [lazy_dots] in H.
  - destruct (tail_ ""%string) as [r0|] eqn:E; [|discriminate].
    injection H as <- <-. exists ""%string. split; [reflexivity|exact E].
  - destruct (tail_ (String c s)) as [r0|] eqn:E.
    + injection H as <- <-. exists (String c s). split; [reflexivity|exact E].
    + destruct (line_terminator (String c s)); [discriminate|].
      destruct (lazy_dots tail_ s) as [[t r1]|] eqn:E1; [|discriminate].
      injection H as <- <-. destruct (IH _ _ eq_refl) as (s2 & -> & H2).
      exists s2. split; [reflexivity|exact H2].
Qed.

Lemma wiki_url_tail_shape s linkProject page anchor rest :
  wiki_url_tail redmineUrl s = Some (linkProject, page, anchor, rest) ->
  s = (K +:+ linkProject +:+ "/wiki/" +:+ page +:+
       (match anchor with Some a => a | None => "" end) +:+ ")" +:+ rest)%string.
Proof.
  unfold wiki_url_tail. intros H.
  destruct (strip K s) as [s1|] eqn:H1; cbn [mbind option_bind] in H; [|discriminate].
  destruct (span (is_not "/") s1) as [p s2] eqn:H2.
  destruct (String.eqb p ""); [discriminate|].
  destruct (strip "/wiki/" s2) as [s3|] eqn:H3; cbn [mbind option_bind] in H; [|discriminate].
  destruct (span page_char s3) as [pg s4] eqn:H4.
  destruct (String.eqb pg ""); [discriminate|].
  apply strip_app in H1, H3. apply span_app in H2, H4. subst s s1 s2 s3.
  destruct s4 as [|c s4]; [discriminate|].
  destruct (ascii_dec c ")") as [->|Hc1].
  - injection H as <- <- <- <-. reflexivity.
  - destruct (ascii_dec c "#") as [->|Hc2].
    + destruct (span (is_not ")") s4) as [a s5] eqn:H5. apply span_app in H5. subst s4.
      destruct a as [|x a]; [discriminate|].
      destruct s5 as [|d s5]; [discriminate|].
      destruct (ascii_dec d ")") as [->|Hd].
      * injection H as <- <- <- <-. rewrite !cons_append. reflexivity.
      * exfalso. destruct d as [[] [] [] [] [] [] [] []]; try discriminate H.
        contradiction Hd; reflexivity.
    + exfalso. destruct c as [[] [] [] [] [] [] [] []]; try discriminate H;
        (contradiction Hc1; reflexivity) || (contradiction Hc2; reflexivity).
Qed.

Abbreviation wiki_url_match m a rest :=
  (exists inner, text m = String "[" (inner +:+ "]") /\
     a = (text m +:+ String "(" (old_target m +:+ ")"))%string) (only parsing).

Lemma wiki_url_shape s n m :
  wiki_url redmineUrl s = Some (n, m) ->
  exists a rest, s = (a +:+ rest)%string /\ n = String.length a /\ a <> ""%string /\
    wiki_url_match m a rest.
Proof.
  unfold wiki_url. intros H. destruct s as [|c s1]; [discriminate|].
  destruct (ascii_dec c "[") as [->|Hc].
  - destruct (lazy_dots (wiki_url_tail redmineUrl) s1) as [[inner [[[p pg] an] rest]]|] eqn:E;
      [|discriminate].
    injection H as <- <-. apply lazy_dots_shape in E as (s2 & -> & E).
    apply wiki_url_tail_shape in E. cbn [text linkProject page anchor].
    exists (("[" +:+ inner +:+ "]") +:+
            String "(" (old_target {| text := "[" +:+ inner +:+ "]"; linkProject := p;
                                      page := pg; anchor := an |} +:+ ")")), rest.
    assert (Hs : String "[" (inner +:+ s2) =
                 ((("[" +:+ inner +:+ "]") +:+
                   String "(" (old_target {| text := "[" +:+ inner +:+ "]"; linkProject := p;
                                             page := pg; anchor := an |} +:+ ")")) +:+ rest)%string).
    { rewrite E. unfold SecondPass.old_target, absolute_wiki_target.
      cbn [text linkProject page anchor].
      repeat (rewrite append_assoc || rewrite cons_append). reflexivity. }
    split; [exact Hs|]. split; [|split; [discriminate|]].
    + unfold consumed. rewrite Hs. rewrite (length_app _ rest). lia.
    + exists inner. split; reflexivity.
  - exfalso. destruct c as [[] [] [] [] [] [] [] []]; try discriminate H.
    contradiction Hc; reflexivity.
Qed.

Lemma wiki_url_not_here c r : c <> "[" -> wiki_url redmineUrl (String c r) = None.
Proof.
  intros Hc. unfold wiki_url. destruct c as [[] [] [] [] [] [] [] []]; try reflexivity.
  contradiction Hc; reflexivity.
Qed.

Lemma wiki_url_link_parts m :
  wiki_url_link currentProject m = (text m +:+ String "(" (new_target m +:+ ")"))%string.
Proof. reflexivity. Qed.

Lemma category2_lit c r :
  wiki_url redmineUrl (String c r) = None -> category2 (String c r) = String c (category2 r).
Proof. intros H. unfold LinkRewriter.category2. rewrite (scan_lit _ _ _ H). reflexivity. Qed.

Lemma category2_hit n m a rest :
  wiki_url redmineUrl (a +:+ rest) = Some (n, m) -> n = String.length a -> a <> ""%string ->
  category2 (a +:+ rest) =
  ((text m +:+ String "(" (new_target m +:+ ")")) +:+ category2 rest)%string.
Proof.
  intros H Hn Ha. unfold LinkRewriter.category2. rewrite (scan_hit _ _ _ _ _ H Hn Ha).
  reflexivity.
Qed.

Lemma tidy_skip a : forall b,
  tidy redmineUrl currentProject (String.length a) (a +:+ b) = tidy redmineUrl currentProject 0 b.
Proof.
  induction a as [|x a IH]; intros b; [destruct b; reflexivity|].
  rewrite cons_append. cbn [String.length tidy]. apply IH.
Qed.

Lemma tidy_lit c r :
  wiki_url redmineUrl (String c r) = None ->
  tidy redmineUrl currentProject 0 (String c r) = true ->
  startsWith K (String c r) = false /\ tidy redmineUrl currentProject 0 r = true.
Proof.
  intros Hm H. cbn [tidy] in H. rewrite Hm in H.
  apply andb_true_iff in H as [H1 H2]. apply negb_true_iff in H1. split; assumption.
Qed.

Lemma tidy_hit n m a rest :
  wiki_url redmineUrl (a +:+ rest) = Some (n, m) -> n = String.length a -> a <> ""%string ->
  tidy redmineUrl currentProject 0 (a +:+ rest) = true ->
  link_ok redmineUrl currentProject m = true /\ tidy redmineUrl currentProject 0 rest = true.
Proof.
  intros Hm -> Ha H. destruct a as [|c a]; [contradiction Ha; reflexivity|].
  rewrite cons_append in *. cbn [tidy] in H. rewrite Hm in H.
  cbn [String.length] in H.
  replace (S (String.length a) - 1)%nat with (String.length a) in H by lia.
  rewrite tidy_skip in H. apply andb_true_iff in H. exact H.
Qed.

Lemma text_closes inner : includes "]" (String "[" (inner +:+ "]")) = true.
Proof. rewrite includes_char_cons. rewrite (includes_app_r _ inner); reflexivity. Qed.

Lemma behind_text t Z1 Z2 :
  ((t +:+ String "(" Z1) +:+ Z2)%string = (t +:+ String "(" (Z1 +:+ Z2))%string.
Proof. rewrite append_assoc, cons_append. reflexivity. Qed.

Lemma behind_target v Z : ((v +:+ ")") +:+ Z)%string = (v +:+ String ")" Z)%string.
Proof. rewrite append_assoc. reflexivity. Qed.

(** A closing bracket at the start of the rewritten text was there
    before. *)
Lemma category2_first s :
  startsWith "]" (category2 s) = true -> startsWith "]" s = true.
Proof.
  destruct s as [|c r]; [discriminate|].
  destruct (wiki_url redmineUrl (String c r)) as [[n m]|] eqn:H.
  - destruct (wiki_url_shape _ _ _ H) as (a & rest & Hs & Hn & Ha & inner & Htext & _).
    rewrite Hs in *. rewrite (category2_hit _ _ _ _ H Hn Ha), Htext.
    rewrite !cons_append, startsWith_cons. discriminate.
  - rewrite (category2_lit _ _ H), !startsWith_cons. intros E.
    apply andb_true_iff in E as [-> _]. reflexivity.
Qed.

Lemma category2_closes : forall y, closes (category2 y) = true -> closes y = true.
Proof.
  apply (by_matches (wiki_url redmineUrl) (fun m a rest => wiki_url_match m a rest)
           (fun y => closes (category2 y) = true -> closes y = true)).
  - apply wiki_url_shape.
  - intros H. exact H.
  - intros c r Hm IH. rewrite (category2_lit _ _ Hm).
    destruct (ascii_dec c "]") as [->|Hc].
    + rewrite !closes_bracket. apply category2_first.
    + rewrite !closes_cons by exact Hc. exact IH.
  - intros n m a rest Hm Hn Ha (inner & Htext & ->) _.
    rewrite (category2_hit _ _ _ _ Hm Hn Ha), !behind_text.
    rewrite (closes_cut (text m) _ ((old_target m +:+ ")") +:+ rest)); [trivial|].
    rewrite Htext. apply text_closes.
Qed.

Lemma category2_named y : named (category2 y) = true -> named y = true.
Proof.
  destruct y as [|c r]; [discriminate|].
  rewrite named_cons. destruct (ascii_dec c "]") as [->|Hc].
  - rewrite category2_lit by (apply wiki_url_not_here; discriminate).
    rewrite named_cons. trivial.
  - intros _. apply negb_true_iff, Ascii.eqb_neq, Hc.
Qed.

(** Where category 1 does not match, it does not match after category 2
    has rewritten the text either. *)
Lemma category2_syntax s :
  wiki_syntax s = None -> wiki_syntax (category2 s) = None.
Proof.
  intros H. destruct s as [|c r]; [reflexivity|].
  destruct (wiki_url redmineUrl (String c r)) as [[n m]|] eqn:Hm.
  { destruct (wiki_url_shape _ _ _ Hm) as (a & rest & Hs & Hn & Ha & inner & Htext & ->).
    rewrite Hs in *. rewrite (category2_hit _ _ _ _ Hm Hn Ha), behind_text.
    rewrite behind_text in H. revert H. apply syntax_cut.
    rewrite Htext. apply text_closes. }
  rewrite (category2_lit _ _ Hm).
  destruct (ascii_dec c "[") as [->|Hc]; [|apply wiki_syntax_not_here, Hc].
  destruct r as [|d r]; [reflexivity|].
  destruct (ascii_dec d "[") as [->|Hd].
  - destruct (wiki_url redmineUrl (String "[" r)) as [[n m]|] eqn:Hr.
    + destruct (wiki_url_shape _ _ _ Hr) as (a & rest & Hs & Hn & Ha & inner & Htext & ->).
      rewrite Hs in *. rewrite (category2_hit _ _ _ _ Hr Hn Ha), behind_text.
      rewrite behind_text in H. rewrite <- cons_append in H |- *. revert H.
      apply syntax_cut.
      rewrite includes_char_cons, Htext, text_closes. reflexivity.
    + rewrite (category2_lit _ _ Hr).
      change (wiki_syntax ("[[" +:+ category2 r) = None).
      change (wiki_syntax ("[[" +:+ r) = None) in H.
      apply wiki_syntax_test. apply wiki_syntax_test in H.
      destruct (named (category2 r)) eqn:E1; [|reflexivity].
      destruct (closes (category2 r)) eqn:E2; [|reflexivity].
      rewrite (category2_named _ E1), (category2_closes _ E2) in H. discriminate.
  - assert (Hr : wiki_url redmineUrl (String d r) = None) by (apply wiki_url_not_here, Hd).
    rewrite (category2_lit _ _ Hr). apply wiki_syntax_closed.
    rewrite !startsWith_cons.
    replace (Ascii.eqb "[" d) with false; [reflexivity|].
    symmetry. apply Ascii.eqb_neq. congruence.
Qed.

(** Two opening brackets in the relative target come from the absolute
    one, where no closing bracket follows them either. *)
Lemma target_open m :
  includes "]" (new_target m) = false ->
  includes "[[" (new_target m) = true ->
  exists pre v, old_target m = (pre +:+ v)%string /\
    includes "]" v = false /\ includes "[[" v = true.
Proof.
  unfold SecondPass.new_target, SecondPass.old_target.
  destruct m as [t P pg an]. cbn [text linkProject page anchor].
  set (astr := match an with Some a => a | None => ""%string end).
  assert (Hnew : forall rel, match an with Some a => (rel +:+ a)%string | None => rel end
                             = (rel +:+ astr)%string).
  { intros rel. unfold astr. destruct an; [reflexivity|]. symmetry. apply append_nil_r. }
  rewrite Hnew. clear Hnew. generalize astr. clear astr. intros astr.
  destruct (String.eqb P currentProject).
  - rewrite append_assoc.
    change (".md" +:+ astr)%string with (String "." (String "m" (String "d" astr))).
    intros Hclose Hopen.
    rewrite includes_char_app, !includes_char_other in Hclose by discriminate.
    apply orb_false_iff in Hclose as [Hc1 Hc2].
    exists (redmineUrl +:+ "/projects/" +:+ P +:+ "/wiki/")%string, (pg +:+ astr)%string.
    split; [rewrite !append_assoc; reflexivity|]. split.
    + rewrite includes_char_app, Hc1. exact Hc2.
    + apply includes_pair_app in Hopen as [Hopen|Hopen]; [| |discriminate].
      * apply includes_app_l, Hopen.
      * rewrite !includes_pair_cons in Hopen by discriminate.
        apply includes_app_r, Hopen.
  - rewrite !append_assoc.
    change ("../" +:+ P +:+ "/" +:+ pg +:+ ".md" +:+ astr)%string
      with (String "." (String "." (String "/"
              (P +:+ String "/" (pg +:+ String "." (String "m" (String "d" astr))))))).
    intros Hclose Hopen.
    rewrite !includes_char_other in Hclose by discriminate.
    rewrite includes_char_app, includes_char_other in Hclose by discriminate.
    rewrite includes_char_app, !includes_char_other in Hclose by discriminate.
    apply orb_false_iff in Hclose as [Hc1 Hclose].
    apply orb_false_iff in Hclose as [Hc2 Hc3].
    exists (redmineUrl +:+ "/projects/")%string, (P +:+ "/wiki/" +:+ pg +:+ astr)%string.
    split; [rewrite !append_assoc; reflexivity|]. split.
    + change ("/wiki/" +:+ pg +:+ astr)%string
        with (String "/" (String "w" (String "i" (String "k" (String "i" (String "/"
                (pg +:+ astr))))))).
      rewrite includes_char_app, !includes_char_other by discriminate.
      rewrite includes_char_app, Hc1, Hc2, Hc3. reflexivity.
    + rewrite !includes_pair_cons in Hopen by discriminate.
      apply includes_pair_app in Hopen as [Hopen|Hopen]; [| |discriminate].
      * apply includes_app_l, Hopen.
      * rewrite includes_pair_cons in Hopen by discriminate.
        apply includes_app_r, includes_app_r.
        apply includes_pair_app in Hopen as [Hopen|Hopen]; [| |discriminate].
        -- apply includes_app_l, Hopen.
        -- rewrite !includes_pair_cons in Hopen by discriminate.
           apply includes_app_r, Hopen.
Qed.

(** Category 2 brings no match of category 1 into a text that has
    none. *)
Lemma category2_keeps_quiet : forall s,
  quiet1 s = true ->
  tidy redmineUrl currentProject 0 s = true ->
  quiet1 (category2 s) = true.
Proof.
  apply (by_matches (wiki_url redmineUrl) (fun m a rest => wiki_url_match m a rest)
           (fun s => quiet1 s = true -> tidy redmineUrl currentProject 0 s = true ->
                     quiet1 (category2 s) = true)).
  - apply wiki_url_shape.
  - reflexivity.
  - intros c r Hm IH Hq Ht. apply (tidy_lit _ _ Hm) in Ht as [_ Ht].
    pose proof Hq as Hq'. apply quiet1_cons in Hq' as [Hhere Hq'].
    pose proof (category2_syntax _ Hhere) as Hnew.
    rewrite (category2_lit _ _ Hm) in *. apply quiet1_cons. split; [exact Hnew|].
    apply IH; assumption.
  - intros n m a rest Hm Hn Ha (inner & Htext & ->) IH Hq Ht.
    apply (tidy_hit _ _ _ _ Hm Hn Ha) in Ht as [Hok Ht].
    unfold link_ok in Hok. apply andb_true_iff in Hok as [Hok _].
    apply andb_true_iff in Hok as [_ Hclose]. apply negb_true_iff in Hclose.
    rewrite (category2_hit _ _ _ _ Hm Hn Ha).
    rewrite behind_text, behind_target in *.
    pose proof (quiet1_suffix (text m) _ Hq) as Hrest.
    rewrite quiet1_other in Hrest by discriminate.
    assert (HX : quiet1 (category2 rest) = true).
    { apply IH; [|exact Ht]. apply quiet1_suffix in Hrest.
      rewrite quiet1_other in Hrest by discriminate. exact Hrest. }
    rewrite Htext in Hq |- *. rewrite <- cons_append in Hq |- *.
    apply (quiet1_text _ _ _ Hq). rewrite quiet1_other by discriminate.
    apply quiet1_target; [exact Hclose|exact HX|].
    intros Hopen. destruct (target_open m Hclose Hopen) as (pre & v & Hold & Hv1 & Hv2).
    assert (Hr : closes rest = false).
    { apply (quiet1_open v rest Hv1 Hv2).
      rewrite Hold, append_assoc in Hrest. apply quiet1_suffix in Hrest. exact Hrest. }
    destruct (closes (category2 rest)) eqn:E; [|reflexivity].
    rewrite (category2_closes _ E) in Hr. discriminate.
Qed.

(** *** No absolute target is left *)

Lemma front_text t0 : forall w Y,
  includes "](" w = false ->
  startsWith w ((t0 +:+ "]") +:+ String "(" Y) = true ->
  startsWith w (t0 +:+ "]") = true.
Proof.
  induction t0 as [|c t0 IH]; intros w Y Hw H.
  - change (startsWith w (String "]" (String "(" Y)) = true) in H.
    change (startsWith w (String "]" "") = true).
    destruct w as [|d w]; [reflexivity|].
    rewrite startsWith_cons in *. apply andb_true_iff in H as [Hd H].
    rewrite Hd. cbn [andb].
    destruct w as [|e w]; [reflexivity|].
    rewrite startsWith_cons in H. apply andb_true_iff in H as [He _].
    apply Ascii.eqb_eq in He, Hd. subst e d.
    rewrite includes_step in Hw. apply orb_false_iff in Hw as [Hw _].
    rewrite !startsWith_cons in Hw. discriminate.
  - destruct w as [|d w]; [reflexivity|].
    rewrite !cons_append, startsWith_cons in *. apply andb_true_iff in H as [-> H].
    cbn [andb]. apply (IH w Y); [|exact H].
    rewrite includes_step in Hw. apply orb_false_iff in Hw as [_ Hw]. exact Hw.
Qed.

Lemma startsWith_close a : forall w Z,
  includes ")" w = false ->
  startsWith w (a +:+ String ")" Z) = true ->
  startsWith w a = true.
Proof.
  induction a as [|c a IH]; intros w Z Hw H.
  - destruct w as [|d w]; [reflexivity|].
    change (startsWith (String d w) (String ")" Z) = true) in H.
    rewrite startsWith_cons in H. apply andb_true_iff in H as [Hd _].
    rewrite includes_char_cons, Ascii.eqb_sym, Hd in Hw. discriminate.
  - destruct w as [|d w]; [reflexivity|].
    rewrite cons_append, startsWith_cons in *. apply andb_true_iff in H as [-> H].
    cbn [andb]. apply (IH w Z); [|exact H].
    rewrite includes_char_cons in Hw. apply orb_false_iff in Hw as [_ Hw]. exact Hw.
Qed.

Lemma includes_skip k v Z :
  includes "]" v = false ->
  includes (String "]" k) (v +:+ Z) = includes (String "]" k) Z.
Proof.
  induction v as [|c v IH]; intros Hv; [reflexivity|].
  rewrite includes_char_cons in Hv. apply orb_false_iff in Hv as [Hc Hv].
  rewrite cons_append, includes_step, startsWith_cons, Hc, (IH Hv). reflexivity.
Qed.

Lemma excludes_text w t0 Y :
  includes "](" w = false ->
  includes (String "]" (String "(" w)) (t0 +:+ "]") = false ->
  startsWith w Y = false ->
  includes (String "]" (String "(" w)) (String "(" Y) = false ->
  includes (String "]" (String "(" w)) ((t0 +:+ "]") +:+ String "(" Y) = false.
Proof.
  intros Hw Ht HY Hbehind. induction t0 as [|c t0 IH].
  - change (includes (String "]" (String "(" w)) (String "]" (String "(" Y)) = false).
    rewrite includes_step, Hbehind, orb_false_r, !startsWith_cons. exact HY.
  - rewrite !cons_append in *. rewrite includes_step in Ht.
    apply orb_false_iff in Ht as [Hhere Ht].
    rewrite includes_step, (IH Ht), orb_false_r.
    destruct (startsWith (String "]" (String "(" w))
                (String c ((t0 +:+ "]") +:+ String "(" Y))) eqn:E; [|reflexivity].
    rewrite startsWith_cons in *. apply andb_true_iff in E as [Ec E].
    rewrite Ec in Hhere. cbn [andb] in Hhere.
    rewrite (front_text t0 (String "(" w) Y) in Hhere; [discriminate| |exact E].
    rewrite includes_pair_cons by discriminate. exact Hw.
Qed.

(** A text without [](] at the start of the rewritten text was at the
    start of the text before. *)
Lemma category2_front : forall s w,
  includes "](" w = false ->
  startsWith w (category2 s) = true -> startsWith w s = true.
Proof.
  apply (by_matches (wiki_url redmineUrl) (fun m a rest => wiki_url_match m a rest)
           (fun s => forall w, includes "](" w = false ->
                       startsWith w (category2 s) = true -> startsWith w s = true)).
  - apply wiki_url_shape.
  - intros w _ H. exact H.
  - intros c r Hm IH w Hw. rewrite (category2_lit _ _ Hm).
    destruct w as [|d w]; [reflexivity|].
    rewrite !startsWith_cons. intros H. apply andb_true_iff in H as [-> H].
    cbn [andb]. apply IH; [|exact H].
    rewrite includes_step in Hw. apply orb_false_iff in Hw as [_ Hw]. exact Hw.
  - intros n m a rest Hm Hn Ha (inner & Htext & ->) _ w Hw.
    rewrite (category2_hit _ _ _ _ Hm Hn Ha), !behind_text, Htext, <- !cons_append.
    intros H. apply startsWith_app. revert H. apply front_text, Hw.
Qed.

Lemma no_target_no_match s :
  includes K s = false -> hits (scan (wiki_url redmineUrl) 0 s) = [].
Proof.
  induction s as [|c r IH]; intros H; [reflexivity|].
  rewrite (scan_lit _ _ _ (RewriteFacts.wiki_url_none _ _ H)).
  apply RewriteFacts.includes_cons in H as [_ H]. apply IH, H.
Qed.

Section Url.
Hypothesis url_parenthesis : includes ")" redmineUrl = false.
Hypothesis url_bracket : includes "](" redmineUrl = false.

Lemma projects_bracket : includes "](" (redmineUrl +:+ "/projects/") = false.
Proof. apply excludes_pair_app; [exact url_bracket|discriminate|reflexivity]. Qed.

Lemma projects_parenthesis : includes ")" (redmineUrl +:+ "/projects/") = false.
Proof. rewrite includes_char_app, url_parenthesis. reflexivity. Qed.

(** After category 2, under the conditions on the links it rewrites and
    on the text it passes, no absolute wiki target is left. *)
Lemma category2_leaves_no_target : forall s,
  tidy redmineUrl currentProject 0 s = true ->
  includes K (category2 s) = false.
Proof.
  apply (by_matches (wiki_url redmineUrl) (fun m a rest => wiki_url_match m a rest)
           (fun s => tidy redmineUrl currentProject 0 s = true ->
                     includes K (category2 s) = false)).
  - apply wiki_url_shape.
  - reflexivity.
  - intros c r Hm IH Ht. apply (tidy_lit _ _ Hm) in Ht as [Hhere Ht].
    rewrite (category2_lit _ _ Hm), includes_step, (IH Ht), orb_false_r.
    destruct (startsWith K (String c (category2 r))) eqn:E; [|reflexivity].
    change K with (String "]" (String "(" (redmineUrl +:+ "/projects/"))) in *.
    rewrite startsWith_cons in *. apply andb_true_iff in E as [Ec E].
    rewrite Ec in Hhere. cbn [andb] in Hhere.
    rewrite (category2_front r _) in Hhere; [discriminate| |exact E].
    rewrite includes_pair_cons by discriminate. apply projects_bracket.
  - intros n m a rest Hm Hn Ha (inner & Htext & ->) IH Ht.
    apply (tidy_hit _ _ _ _ Hm Hn Ha) in Ht as [Hok Ht].
    unfold link_ok in Hok. apply andb_true_iff in Hok as [Hok Hstart].
    apply andb_true_iff in Hok as [Hin Hclose].
    apply negb_true_iff in Hin, Hclose, Hstart.
    rewrite (category2_hit _ _ _ _ Hm Hn Ha), behind_text, behind_target.
    rewrite Htext in *. rewrite <- cons_append in *.
    change K with (String "]" (String "(" (redmineUrl +:+ "/projects/"))) in *.
    apply excludes_text.
    + apply projects_bracket.
    + exact Hin.
    + destruct (startsWith (redmineUrl +:+ "/projects/")
                  (new_target m +:+ String ")" (category2 rest))) eqn:E; [|reflexivity].
      rewrite (startsWith_close _ _ _ projects_parenthesis E) in Hstart. discriminate.
    + rewrite includes_step, startsWith_cons. cbn [Ascii.eqb Bool.eqb andb orb].
      rewrite (includes_skip _ _ _ Hclose), includes_step, startsWith_cons.
      cbn [Ascii.eqb Bool.eqb andb orb]. apply IH, Ht.
Qed.
End Url.
End WithUrl.
End SecondPassFacts.



